(* ===== verification/_CoqProject ===== *)
-Q . S2P
Prelude.v
Strings.v
GoTime.v
Json.v
JsonFacts.v
AuditEvents.v
AuditEventFacts.v
Env.v
World.v
Vlogs.v
AuditExport.v
AuditExportFacts.v
AuditRunFacts.v
ColdRows.v
ColdRowFacts.v
ColdExport.v
ColdExportFacts.v
ColdRunFacts.v
Startup.v
StartupFacts.v
Process.v
ProcessFacts.v
FileWatcher.v
FileWatcherFacts.v
Server.v
ServerFacts.v
Acl.v
Jaeger.v
AclServer.v
AclFacts.v
Fuel.v
Kube.v
Alerts.v
AlertFacts.v
AlertRunFacts.v
Queue.v
RulesLoop.v
StorageConn.v
StorageConnFacts.v
Promxy.v
PromxyFacts.v
Api.v
ApiFacts.v
VMUser.v
VMUserFacts.v
Region.v
ConfigData.v
Url.v
Child.v
Demo.v
ChildFacts.v
Regional.v
RegionalFacts.v
Liveness.v
Interleave.v
Metrics.v
Dashboard.v
DashboardFacts.v
WebApp.v
Mesh.v
WebFacts.v
Pages.v
PageFacts.v
GoHeap.v
OtelTypes.v
ApiTypes.v
DeepCopies.v
Events.v
