(* ===== verification/Prelude.v ===== *)
(** * Verification library for the Go code of k0rdent/kof

    The Go code under src/kof-operator: two exporters to object storage, a file
    watcher, the server that isolates tenants, the controllers of the operator
    and its web application.  The code is translated definition by definition,
    under its own names; [internal/...] below is src/kof-operator/internal/...

    ** How the code is translated

    - A Go string is a byte string ([String.string]).  An int64 or a duration
      is a Z with its wrap-around written out ([wrap64]) where the code can
      overflow.  A struct is a record whose fields have the Go names behind a
      two-letter prefix.
    - A map with string keys is a gmap.  A range over it visits it in the order
      a parameter [visit] gives, of which it is assumed only that it is a
      permutation of the entries; so a theorem holds for every order.
    - An error is a value of [gerror], which keeps the chain that errors.Is and
      errors.As walk.  A failing function returns [result]; [try x := r in k]
      is the early return.
    - A function with effects is an [eff W A], a function from a world to a
      result and a world (World.v); [do x := m in k] sequences, [ewrap] and
      [ewrapv] are the two forms of fmt.Errorf.  What it is about, the world
      [W], is a type of which only an interface is known: [World] with
      [WorldLaws] for the exporters and the watcher, [Kube] and [Cluster] with
      [KubeLaws], [UpsertLaws] and [ClusterLaws] for the controllers.  The laws
      state what the services document: a read returns what is stored, a call
      that fails has either happened or not, and other objects stay.
    - Every interface has an instance in which the calls fail as a schedule
      says ([faulty] in World.v, [sim_kube] in Kube.v, [sim_cluster] in Api.v),
      on which the witnesses of the theorems run.
    - Goroutines that share a channel or a map are lists of steps, and what
      happens is an [interleaving] of them (Interleave.v).  The loop of a
      controller and the life of a process are step relations (Queue.v,
      Process.v).
    - Where the sharing of memory is what matters, in copies, there is a heap of
      cells and values with references (GoHeap.v).
    - Loops over data are structural.  The loops with fuel are: the hours of a
      run ([hour_loop], AuditExport.v), for which [catch_up_terminates] shows
      that the fuel suffices for every configuration and clock; the parser of
      JSON ([parse_value], Json.v), the decoder of a response's entries
      (Jaeger.v) and the parser of durations (Env.v), for which Fuel.v shows
      that more fuel changes nothing, each step consuming a byte of the text.
      The loops that never end, the watcher's, are functions of the list of
      events they receive.

    ** The parts

    Shared:
    - Prelude.v results, errors, sorting, folds.  Strings.v, GoTime.v, Json.v
      (facts: JsonFacts.v) and Url.v the parts of the Go library the program
      uses.  Fuel.v the fuel of their parsers.  Env.v internal/env.  World.v
      the services of the exporters and internal/s3, internal/audit/s3client.go.

    Audit exporter, internal/audit and internal/vlogs:
    - AuditEvents.v (facts: AuditEventFacts.v) types.go, canonical.go and the
      conversion of vlogs.go: events, canonical JSON, manifests, keys.
    - Vlogs.v internal/vlogs/vlogs.go.
    - AuditExport.v (facts: AuditExportFacts.v, AuditRunFacts.v) config.go,
      kms.go, manifest.go, exporter.go: [Run] over all windows.

    Cold-storage exporter, internal/coldstorage:
    - ColdRows.v (ColdRowFacts.v) rows and columns; ColdExport.v
      (ColdExportFacts.v, ColdRunFacts.v) clients, partitions and [cold_Run].

    File watcher, internal/filewatcher: FileWatcher.v (FileWatcherFacts.v); the
    state is [watcher]: the gauges, the last events and the watched directories.

    Start-up, cmd and internal/telemetry, internal/s3, internal/k8s/client.go:
    - Startup.v (StartupFacts.v) the two jobs from their environment to their
      exit code, with the clients they make; the setup of traces; the clients of
      Kubernetes.
    - Process.v (ProcessFacts.v) main of the operator, of the ACL server and of
      the file watcher: the state [process] is what is left to do, what has been
      called, the server goroutine, the handling of signals and the exit.

    Tenant isolation, internal/server, internal/acl and cmd/acl:
    - Server.v (ServerFacts.v) requests, replies, router.go, middleware.go.
    - Acl.v, Jaeger.v the handlers; AclServer.v the server of cmd/acl/main.go
      (AclFacts.v).

    Controllers, internal/controller and internal/k8s:
    - Kube.v the Kubernetes API for one kind of object; Api.v (ApiFacts.v) all
      kinds the operator uses, with [kept k w] the stored objects of a kind.
    - Alerts.v (AlertFacts.v, AlertRunFacts.v) alerts_configmap_controller.go.
      Queue.v the queue of requests of controller-runtime, with the events a
      write causes; RulesLoop.v this controller in that loop.
    - StorageConn.v (StorageConnFacts.v) vmstorageconnection_controller.go.
    - Promxy.v (PromxyFacts.v) promxyservergroup_controller.go, secret.go and
      its template, promxy_reload.go.
    - VMUser.v (VMUserFacts.v) vmuser/victoriametrics_user.go, internal/crypto,
      internal/names.
    - Region.v internal/k8s/region.go, secrets.go and their neighbours.
      ConfigData.v the data clusters share, clusterdeployment_kof_cluster_role.go,
      configmap_cluster_data.go, cloud/cloud_name.go.
    - Child.v (ChildFacts.v) clusterdeployment_kof_cluster_child_role.go.
      Regional.v (RegionalFacts.v) configmap_cluster_regional.go, the reconcilers
      of cluster deployments and of regional ConfigMaps, the bootstrap without
      regions.  Demo.v the cluster of the examples.  Liveness.v what happens once
      no call fails.

    Web application, internal/server/handlers, internal/metrics, cmd/main.go:
    - Metrics.v the collectors of a pod and the tree they fill; Dashboard.v
      (DashboardFacts.v) the concurrent collection over clusters; WebApp.v
      static files, objects and targets; Mesh.v the Istio mesh (WebFacts.v);
      Pages.v (PageFacts.v) what the handlers answer, and the routes.

    Data of the API, api/v1beta1 and internal/otelv1beta1: GoHeap.v memory and the
    steps of a copy; OtelTypes.v, ApiTypes.v the types and their copies, a pair of
    definitions for each; DeepCopies.v.  Events.v internal/controller/record.

    The parts meet in these interfaces: the exporters and the watcher are proved
    against [WorldLaws], the controllers against [ClusterLaws], users and regional
    clusters against what ApiFacts.v derives from it ([stays], [upsert_spec]); the
    servers put handlers behind the router and middleware of Server.v.

    ** What is proved

    Where a theorem says what is written, forwarded or found, this is spelled
    out beside it with the literal names and lines of the result, not with the
    definitions that translate the code: [params], [version_list], [patched],
    [group_text] and [record_group], [wanted], [config_lines], [same_place],
    [child_of], [logged], [read_back].  A condition a theorem needs (names that
    do not collide, text that is valid, a secret no one writes) is named in its
    comment, and where the code does not ensure it a lemma shows what happens
    otherwise.

    - Audit and cold storage: whatever fails, the bucket is consistent
      ([Run_consistent], [cold_Run_consistent]); compliance mode overwrites nothing
      ([Run_worm]); a job that exits with 0 has exported everything
      ([audit_job_exports_all], [cold_job_exports_all]); windows describe their data
      exactly ([compressEvents_complete], [canonical_line_keeps],
      [logs_rows_complete]) and a metrics file reads back as the export
      ([metrics_file_roundtrip]); the run ends ([catch_up_terminates]).
    - Watcher: the abstract comparison with the baseline that [initBaseline]
      refines ([initBaseline_spec]), and the log and the gauges that the event
      loop leaves, as a function of the events ([watch_debounced]).
    - Isolation: what is forwarded, for whom and with which restriction
      ([acl_forward_authorised], [promxy_query_restricted], [logs_filtered],
      [traces_tags_enforced], [traces_of_tenant]).
    - Controllers: for each a theorem on what a reconciliation that succeeds
      leaves ([rules_reconciled] against an abstract merge, [alert_files] for
      its files, [connection_reconciled], [promxy_secrets_written], [vmuser_created],
      [child_reconciled], [regional_published]), one on what it may change
      whatever fails ([rules_change_generated_only], [connection_deleted],
      [regional_changes]), repetition
      ([vmuser_create_again]) and progress ([child_settles]).
    - Web application: the tree does not depend on the scheduler
      ([metrics_deterministic]), shows what was sent ([pod_reported]), and is a
      page unless a sample is not a number ([page_needs_numbers]).
    - Loops and processes: the loop of the alert rules controller settles
      although its writes queue it again, if sources do not compete
      ([rules_settle]); the ACL server never reaches its shutdown
      ([acl_never_shuts_down]).
    - Memory: copies share nothing with their source ([copies_independent]).

    Behaviour that contradicts what the code says is shown by lemmas on concrete
    states, such as [match_with_query_unrestricted], [user_name_collision],
    [race_duplicates], [answers_overwrite], [port_shared] and [watcher_may_panic].

    ** Not modelled

    - The libraries: gzip, SHA-256, HMAC, Parquet, YAML, PromQL, OIDC,
      kubeconfigs, the text format of Prometheus, Istio discovery, admission of
      the API server, metav1.Duration, reading of hosts with brackets.  They are
      parameters; their laws, where one is used, are hypotheses.
    - Logging and the recording of spans, which no result depends on, and with
      them SpanNameMiddleware and LoggingMiddleware.  Events.v models what is
      recorded; the reconcilers leave their events out.
    - The parsing of flags; the options of the controller manager, leader
      election, the metrics endpoint and rate limits; the deferred flush of
      traces, except that acl_main never gets to it.  The loop over the queue is
      modelled for the alert rules only; the other controllers are functions of
      one request.
    - In Process.v what a named call does, which is modelled in the part it
      belongs to, and panics of handlers, which net/http recovers.
    - Slices that overlap without being equal, and the dynamic types inside
      interface values, in GoHeap.v.
    - The informer cache: a read is of the current state.  What the API of a
      remote cluster answers during one web request is a function of the call.
    - A nil map or slice is told from an empty one only where JSON or a
      comparison shows it.  A nil dereference is an error the runtime recovers.
    - The nesting limit of encoding/json, the parameter limit of url queries,
      texts of parse errors, ranges of static files, unreadable directories;
      configured base addresses and the addresses of pods are taken to parse as
      URLs; a JSON number is kept as its literal. *)
From stdpp Require Export base gmap strings list sorting pretty.
From Stdlib Require Export ZArith Lia.

(** * Results and errors *)

(** The errors the modelled code distinguishes.  [EText] is an error made by
    [errors.New] or [fmt.Errorf] without a wrapping verb, [EWrap] is
    [fmt.Errorf("msg: %w", cause)], [ESource] is vlogs.SourceUnavailableError,
    [ENotFound] is an HTTP 404 / Kubernetes NotFound error, [EAlreadyExists] the
    Kubernetes error of that name, [ECanceled] is the
    error of a cancelled context, [ETooLarge] is http.MaxBytesError and
    [EUnknownCloud] is controller.UnknownCloudProviderError. *)
Inductive gerror : Type :=
  | EText (msg : string)
  | EWrap (msg : string) (cause : gerror)
  | ESource (source : string) (cause : gerror)
  | ENotFound (msg : string)
  | EAlreadyExists (msg : string)
  | ECanceled
  | ETooLarge
  | EUnknownCloud (template : string).

Inductive result (A : Type) : Type :=
  | Ok (a : A)
  | Err (e : gerror).
Arguments Ok {A} _.
Arguments Err {A} _.

Definition rbind {A B} (r : result A) (f : A → result B) : result B :=
  match r with Ok a => f a | Err e => Err e end.

Definition is_ok {A} (r : result A) : bool :=
  match r with Ok _ => true | Err _ => false end.

(** [fmt.Errorf("msg: %w", err)] around a failing call. *)
Definition wrap_err {A} (msg : string) (r : result A) : result A :=
  match r with Ok a => Ok a | Err e => Err (EWrap msg e) end.

(** [errors.As]: some error of the unwrap chain satisfies [p]. *)
Fixpoint errors_as (p : gerror → bool) (e : gerror) : bool :=
  p e || match e with
         | EWrap _ c | ESource _ c => errors_as p c
         | _ => false
         end.

Definition is_source_err (e : gerror) : bool :=
  match e with ESource _ _ => true | _ => false end.
Definition is_not_found (e : gerror) : bool :=
  match e with ENotFound _ => true | _ => false end.
Definition is_already_exists (e : gerror) : bool :=
  match e with EAlreadyExists _ => true | _ => false end.
Definition is_unknown_cloud (e : gerror) : bool :=
  match e with EUnknownCloud _ => true | _ => false end.

Declare Scope go_scope.
Delimit Scope go_scope with go.
Notation "'try' x ':=' r 'in' k" := (rbind r (λ x, k))
  (at level 10, x pattern, r at level 100, k at level 200) : go_scope.
Open Scope go_scope.

#[export] Instance gerror_eq_dec : EqDecision gerror.
Proof. intros x y. unfold Decision. decide equality; apply (decide_rel (=)). Defined.
#[export] Instance result_eq_dec {A} `{HA : EqDecision A} : EqDecision (result A).
Proof. intros x y. unfold Decision. decide equality; [apply HA|apply gerror_eq_dec]. Defined.

Lemma rbind_ok {A B} (r : result A) (f : A → result B) b :
  rbind r f = Ok b ↔ ∃ a, r = Ok a ∧ f a = Ok b.
Proof. destruct r; naive_solver. Qed.

Lemma rbind_err {A B} (r : result A) (f : A → result B) e :
  rbind r f = Err e ↔ r = Err e ∨ ∃ a, r = Ok a ∧ f a = Err e.
Proof. destruct r; naive_solver. Qed.

Lemma wrap_err_ok {A} msg (r : result A) a : wrap_err msg r = Ok a ↔ r = Ok a.
Proof. destruct r; naive_solver. Qed.

(** * Automation *)

(** Split every match of the goal or of a hypothesis, keeping the equations. *)
Ltac destr_matches :=
  repeat (case_match; simplify_eq/=; try done).

(** Turn hypotheses on successful binds into their components. *)
Ltac inv_result :=
  repeat match goal with
  | H : rbind _ _ = Ok _ |- _ => apply rbind_ok in H as (? & ? & ?)
  | H : wrap_err _ _ = Ok _ |- _ => apply wrap_err_ok in H
  end; simplify_eq/=.

Create HintDb kof.
Create Rewrite HintDb kof.

(** * Sorted string lists *)

(** [sort.Strings]: the byte-lexicographic order of [String.le] is Go's order. *)
Definition sort_strings (l : list string) : list string := merge_sort String.le l.

Lemma sort_strings_perm l : sort_strings l ≡ₚ l.
Proof. apply merge_sort_Permutation. Qed.

Lemma sort_strings_sorted l : StronglySorted String.le (sort_strings l).
Proof. apply (StronglySorted_merge_sort String.le). Qed.

(** The result of a sort does not depend on the order of the input. *)
Lemma sort_strings_proper l l' : l ≡ₚ l' → sort_strings l = sort_strings l'.
Proof.
  intros Hp. apply (StronglySorted_unique String.le); [apply sort_strings_sorted..|].
  by rewrite !sort_strings_perm.
Qed.

#[export] Instance sort_strings_Proper : Proper ((≡ₚ) ==> (=)) sort_strings.
Proof. intros l l'. apply sort_strings_proper. Qed.

Lemma elem_of_sort_strings x l : x ∈ sort_strings l ↔ x ∈ l.
Proof. by rewrite sort_strings_perm. Qed.

Lemma sort_strings_nil l : sort_strings l = [] ↔ l = [].
Proof.
  split; [|by intros ->]. intros H. apply Permutation_nil_r.
  rewrite <-(sort_strings_perm l). by rewrite H.
Qed.

#[export] Hint Rewrite elem_of_sort_strings : kof.
#[export] Hint Resolve sort_strings_perm sort_strings_sorted : kof.

(** * Folds *)

(** A fold whose steps commute does not depend on the order of the list. *)
Lemma foldl_perm {A B} (f : A → B → A) (l l' : list B) (a : A) :
  (∀ a x y, x ∈ l → y ∈ l → f (f a x) y = f (f a y) x) →
  l ≡ₚ l' → foldl f a l = foldl f a l'.
Proof.
  intros Hc Hp. revert a Hc.
  induction Hp as [|x l l' Hp IH|x y l|l l' l'' Hp1 IH1 Hp2 IH2]; intros a Hc; [done|..]; simpl.
  - apply IH. intros b u v Hu Hv. apply Hc; by right.
  - rewrite (Hc a y x); [done|by left|by right; left].
  - rewrite IH1 by done. apply IH2. intros b u v. rewrite <-Hp1. apply Hc.
Qed.
