(* ===== verification/Strings.v ===== *)
(** The parts of Go's strings, strconv, encoding/hex and hash packages that
    the program uses.  A Go string is a byte string, as [String.string] is. *)
From S2P Require Import Prelude.
From Stdlib Require Import Ascii.

Open Scope Z_scope.

(** * strings *)

(** [strings.Split(s, sep)] for a separator of one byte. *)
Fixpoint split_char (sep : ascii) (s : string) : list string :=
  match s with
  | EmptyString => [""%string]
  | String a r =>
      if Ascii.eqb a sep then ""%string :: split_char sep r
      else match split_char sep r with
           | [] => [String a ""]
           | h :: t => String a h :: t
           end
  end.

(** [strings.Cut(s, sep)] for a separator of one byte. *)
Fixpoint cut_char (sep : ascii) (s : string) : option (string * string) :=
  match s with
  | EmptyString => None
  | String a r =>
      if Ascii.eqb a sep then Some (""%string, r)
      else match cut_char sep r with
           | Some (b, c) => Some (String a b, c)
           | None => None
           end
  end.

Definition has_prefix (p s : string) : bool := String.prefix p s.

Fixpoint string_drop (n : nat) (s : string) : string :=
  match n, s with
  | S n', String _ r => string_drop n' r
  | _, _ => s
  end.

(** [strings.CutPrefix] and [strings.TrimPrefix]. *)
Definition cut_prefix (p s : string) : option string :=
  if has_prefix p s then Some (string_drop (String.length p) s) else None.
Definition trim_prefix (p s : string) : string :=
  match cut_prefix p s with Some r => r | None => s end.

(** [strings.Contains]. *)
Fixpoint contains (sub s : string) : bool :=
  has_prefix sub s || match s with
                      | EmptyString => false
                      | String _ r => contains sub r
                      end.

(** [strings.TrimRight(s, "/")]. *)
Fixpoint trim_right_char (c : ascii) (s : string) : string :=
  match s with
  | EmptyString => EmptyString
  | String a r =>
      match trim_right_char c r with
      | EmptyString => if Ascii.eqb a c then EmptyString else String a EmptyString
      | r' => String a r'
      end
  end.

(** The UTF-8 encodings of the runes [unicode.IsSpace] accepts beyond ASCII. *)
Definition byte (n : nat) : ascii := ascii_of_nat n.
Definition is_ascii_space (a : ascii) : bool :=
  let n := nat_of_ascii a in
  (9 <=? n)%nat && (n <=? 13)%nat || (n =? 32)%nat.
Definition is_space2 (a b : nat) : bool :=
  (a =? 194)%nat && ((b =? 133)%nat || (b =? 160)%nat).
Definition is_space3 (a b c : nat) : bool :=
  (a =? 225)%nat && (b =? 154)%nat && (c =? 128)%nat
  || (a =? 226)%nat && (b =? 128)%nat
     && ((128 <=? c)%nat && (c <=? 138)%nat || (c =? 168)%nat || (c =? 169)%nat || (c =? 175)%nat)
  || (a =? 226)%nat && (b =? 129)%nat && (c =? 159)%nat
  || (a =? 227)%nat && (b =? 128)%nat && (c =? 128)%nat.

(** Strip leading white space; [rev] says that the bytes of a rune come in
    reverse order, as they do when the reversed string is stripped. *)
Fixpoint trim_left_bytes (rev : bool) (l : list nat) : list nat :=
  match l with
  | [] => []
  | a :: r =>
      if is_ascii_space (byte a) then trim_left_bytes rev r
      else match r with
           | b :: r2 =>
               if (if rev then is_space2 b a else is_space2 a b) then trim_left_bytes rev r2
               else match r2 with
                    | c :: r3 =>
                        if (if rev then is_space3 c b a else is_space3 a b c)
                        then trim_left_bytes rev r3
                        else l
                    | [] => l
                    end
           | [] => l
           end
  end.

Definition bytes_of (s : string) : list nat := nat_of_ascii <$> String.list_ascii_of_string s.
Definition of_bytes (l : list nat) : string := String.string_of_list_ascii (byte <$> l).

(** [strings.TrimSpace]. *)
Definition trim_space (s : string) : string :=
  of_bytes (reverse (trim_left_bytes true (reverse (trim_left_bytes false (bytes_of s))))).

(** The loop [for _, s := range strings.Split(raw, ",")] of the two
    LoadConfig functions: trimmed, non-empty elements in order. *)
Definition split_list (raw : string) : list string :=
  filter (λ s, s ≠ ""%string) (trim_space <$> split_char ","%char raw).

(** [strings.Join]. *)
Definition join (sep : string) (l : list string) : string := String.concat sep l.

(** * strconv *)

(** Decimal digits of a natural number, padded with zeros to [width]. *)
Definition digit (n : Z) : string := String (byte (Z.to_nat (48 + n))) "".
Definition itoa (n : Z) : string := pretty n.

Fixpoint zeros (n : nat) : string :=
  match n with O => ""%string | S n' => String "0" (zeros n') end.

(** Go's time.appendInt: a sign, then at least [width] digits. *)
Definition pad_int (width : nat) (n : Z) : string :=
  let s := itoa (Z.abs n) in
  let p := (zeros (width - String.length s) +:+ s)%string in
  if n <? 0 then ("-" +:+ p)%string else p.

Definition digit_val (a : ascii) : option Z :=
  let n := Z.of_nat (nat_of_ascii a) in
  if (48 <=? n) && (n <=? 57) then Some (n - 48) else None.

(** Value of a non-empty run of decimal digits. *)
Fixpoint digits_val (acc : Z) (s : string) : option Z :=
  match s with
  | EmptyString => Some acc
  | String a r => match digit_val a with
                  | Some d => digits_val (10 * acc + d) r
                  | None => None
                  end
  end.
Definition parse_digits (s : string) : option Z :=
  match s with EmptyString => None | _ => digits_val 0 s end.

Definition max_int64 : Z := 2 ^ 63 - 1.
Definition min_int64 : Z := - 2 ^ 63.

(** Two's complement wrap-around of a 64-bit signed integer. *)
Definition wrap64 (n : Z) : Z := (n + 2 ^ 63) mod 2 ^ 64 - 2 ^ 63.

(** [strconv.ParseInt(s, 10, 64)], which [strconv.Atoi] is on 64-bit Go. *)
Definition parse_int64 (s : string) : option Z :=
  let signed neg r :=
    match parse_digits r with
    | Some n => let v := if (neg : bool) then - n else n in
                if (min_int64 <=? v) && (v <=? max_int64) then Some v else None
    | None => None
    end in
  match s with
  | String "+" r => signed false r
  | String "-" r => signed true r
  | _ => signed false s
  end.

(** [strconv.ParseUint(s, 10, 32)]. *)
Definition parse_uint32 (s : string) : option Z :=
  match parse_digits s with
  | Some n => if n <? 2 ^ 32 then Some n else None
  | None => None
  end.

(** [strconv.ParseBool]. *)
Definition parse_bool (s : string) : option bool :=
  if bool_decide (s ∈ ["1"; "t"; "T"; "true"; "TRUE"; "True"]%string) then Some true
  else if bool_decide (s ∈ ["0"; "f"; "F"; "false"; "FALSE"; "False"]%string) then Some false
  else None.

(** [strconv.FormatBool]. *)
Definition format_bool (b : bool) : string := if b then "true" else "false".

(** [fmt.Sprintf("%q", s)] on ASCII text: the strings quoted this way are
    tenant and cluster names.  Bytes from 128 on are copied, which is what Go
    does for printable runes. *)
Definition hex_digit (n : nat) : ascii :=
  byte (if (n <? 10)%nat then 48 + n else 87 + n)%nat.
Definition quote_char (a : ascii) : string :=
  let n := nat_of_ascii a in
  match n with
  | 34%nat => "\" +:+ String a "" | 92%nat => "\\"
  | 7%nat => "\a" | 8%nat => "\b" | 12%nat => "\f" | 10%nat => "\n"
  | 13%nat => "\r" | 9%nat => "\t" | 11%nat => "\v"
  | _ => if (n <? 32)%nat || (n =? 127)%nat
         then "\x" +:+ String (hex_digit (n / 16)) (String (hex_digit (n mod 16)) "")
         else String a ""
  end%string.
Fixpoint quote_body (s : string) : string :=
  match s with
  | EmptyString => ""%string
  | String a r => (quote_char a +:+ quote_body r)%string
  end.
Definition dquote : string := String (byte 34) "".
Definition quote (s : string) : string := (dquote +:+ quote_body s +:+ dquote)%string.

(** * encoding/hex *)

Fixpoint hex_encode (s : string) : string :=
  match s with
  | EmptyString => ""%string
  | String a r =>
      let n := nat_of_ascii a in
      String (hex_digit (n / 16)) (String (hex_digit (n mod 16)) (hex_encode r))
  end.

Definition hex_val (a : ascii) : option nat :=
  let n := nat_of_ascii a in
  if ((48 <=? n) && (n <=? 57))%nat then Some (n - 48)%nat
  else if ((97 <=? n) && (n <=? 102))%nat then Some (n - 87)%nat
  else if ((65 <=? n) && (n <=? 70))%nat then Some (n - 55)%nat
  else None.

(** [hex.DecodeString]: [None] on a bad digit or an odd length. *)
Fixpoint hex_decode (s : string) : option string :=
  match s with
  | EmptyString => Some ""%string
  | String a (String b r) =>
      match hex_val a, hex_val b, hex_decode r with
      | Some x, Some y, Some t => Some (String (byte (16 * x + y)) t)
      | _, _, _ => None
      end
  | String _ EmptyString => None
  end.

(** Lower-case hexadecimal without leading zeros, as [%x] prints. *)
Fixpoint hex_fixed (k : nat) (n : Z) : string :=
  match k with
  | O => ""%string
  | S k' => (hex_fixed k' (n / 16) +:+ String (hex_digit (Z.to_nat (n mod 16))) "")%string
  end.
Fixpoint strip_zeros (s : string) : string :=
  match s with
  | String "0" (String _ _ as r) => strip_zeros r
  | _ => s
  end.

(** * hash/fnv and hash/adler32 *)

Definition fnv_step (prime modulus : Z) (h : Z) (b : nat) : Z :=
  (Z.lxor h (Z.of_nat b) * prime) mod modulus.
Definition fnv32a (s : string) : Z :=
  foldl (fnv_step 16777619 (2 ^ 32)) 2166136261 (bytes_of s).
Definition fnv64a (s : string) : Z :=
  foldl (fnv_step 1099511628211 (2 ^ 64)) 14695981039346656037 (bytes_of s).

Definition adler_step (p : Z * Z) (b : nat) : Z * Z :=
  let s1 := (p.1 + Z.of_nat b) mod 65521 in (s1, (p.2 + s1) mod 65521).
Definition adler32 (s : string) : Z :=
  let p := foldl adler_step (1, 0) (bytes_of s) in p.2 * 65536 + p.1.

(** * Lemmas *)

Lemma split_char_nonempty sep s : split_char sep s ≠ [].
Proof. destruct s as [|a r]; simpl; [done|]. case_match; [done|]. by case_match. Qed.

(** Splitting loses nothing: joining with the separator restores the string. *)
Lemma join_split_char sep s : join (String sep "") (split_char sep s) = s.
Proof.
  induction s as [|a r IH]; [done|]; simpl.
  pose proof (split_char_nonempty sep r).
  destruct (Ascii.eqb a sep) eqn:E; simpl.
  - apply Ascii.eqb_eq in E as ->. destruct (split_char sep r); [done|].
    simpl in *. by rewrite IH.
  - destruct (split_char sep r) as [|h t]; [done|]. simpl in *.
    destruct t; simpl in *; by rewrite <-IH.
Qed.

Lemma has_prefix_app p s : has_prefix p (p +:+ s) = true.
Proof.
  induction p as [|a p IH]; [by destruct s|]. unfold has_prefix in *.
  change (String a p +:+ s) with (String a (p +:+ s)). simpl.
  by destruct (ascii_dec a a).
Qed.

Lemma has_prefix_true p s : has_prefix p s = true → s = (p +:+ string_drop (String.length p) s)%string.
Proof.
  revert s. induction p as [|a p IH]; intros s H; [done|].
  destruct s as [|b s]; [done|]. unfold has_prefix in H. simpl in H.
  destruct (ascii_dec a b) as [->|]; [|done].
  change (String b p +:+ ?x) with (String b (p +:+ x)). simpl. f_equal. by apply IH.
Qed.

Lemma string_drop_app p s : string_drop (String.length p) (p +:+ s) = s.
Proof.
  induction p as [|a p IH]; [by destruct s|].
  change (String a p +:+ s) with (String a (p +:+ s)). done.
Qed.

Lemma cut_prefix_Some p s r : cut_prefix p s = Some r ↔ s = (p +:+ r)%string.
Proof.
  unfold cut_prefix. split.
  - destruct (has_prefix p s) eqn:E; intros; simplify_eq. by apply has_prefix_true.
  - intros ->. by rewrite has_prefix_app, string_drop_app.
Qed.

Lemma hex_encode_cons a s :
  hex_encode (String a s) =
  String (hex_digit (nat_of_ascii a / 16)) (String (hex_digit (nat_of_ascii a mod 16)) (hex_encode s)).
Proof. done. Qed.

Lemma hex_digit_val a :
  hex_val (hex_digit (nat_of_ascii a / 16)) = Some (nat_of_ascii a / 16)%nat
  ∧ hex_val (hex_digit (nat_of_ascii a mod 16)) = Some (nat_of_ascii a mod 16)%nat
  ∧ byte (16 * (nat_of_ascii a / 16) + nat_of_ascii a mod 16) = a.
Proof. destruct a as [[] [] [] [] [] [] [] []]; vm_compute; auto. Qed.

(** hex.DecodeString is a left inverse of hex.EncodeToString. *)
Lemma hex_decode_encode s : hex_decode (hex_encode s) = Some s.
Proof.
  induction s as [|a s IH]; [done|]. rewrite hex_encode_cons.
  destruct (hex_digit_val a) as (H1 & H2 & H3).
  cbn [hex_decode]. by rewrite H1, H2, IH, H3.
Qed.

#[export] Instance hex_encode_inj : Inj (=) (=) hex_encode.
Proof.
  intros s t H. apply (f_equal hex_decode) in H.
  rewrite !hex_decode_encode in H. by simplify_eq.
Qed.

Lemma foldl_inv {A B} (P : A → Prop) (f : A → B → A) l a :
  (∀ a b, P a → P (f a b)) → P a → P (foldl f a l).
Proof. intros Hf. revert a. induction l; simpl; auto. Qed.

Lemma fnv_range p m h s : 0 < m → 0 ≤ h < m → 0 ≤ foldl (fnv_step p m) h (bytes_of s) < m.
Proof.
  intros Hm Hh. apply (foldl_inv (λ x, 0 ≤ x < m)); [|done].
  intros x b _. unfold fnv_step. by apply Z.mod_pos_bound.
Qed.

(** Both halves of the Adler-32 state stay below 65521, so the checksum is a
    32-bit unsigned integer. *)
Lemma adler32_range s : 0 ≤ adler32 s < 2 ^ 32.
Proof.
  unfold adler32.
  assert (H : let p := foldl adler_step (1, 0) (bytes_of s) in
              0 ≤ p.1 < 65521 ∧ 0 ≤ p.2 < 65521).
  { apply (foldl_inv (λ p : Z * Z, 0 ≤ p.1 < 65521 ∧ 0 ≤ p.2 < 65521)); [|simpl; lia].
    intros p b _. unfold adler_step; simpl. split; by apply Z.mod_pos_bound. }
  simpl in *. lia.
Qed.

Lemma split_list_nonempty raw x : x ∈ split_list raw → x ≠ ""%string.
Proof. unfold split_list. rewrite list_elem_of_filter. naive_solver. Qed.

Lemma string_app_assoc (a b c : string) : ((a +:+ b) +:+ c = a +:+ (b +:+ c))%string.
Proof. induction a as [|x a IH]; [done|]. simpl. unfold String.app in *. simpl. by rewrite IH. Qed.

Lemma string_app_nil_r (a : string) : (a +:+ "" = a)%string.
Proof. induction a as [|x a IH]; [done|]. unfold String.app in *. simpl. by rewrite IH. Qed.

Lemma string_length_app (a b : string) :
  String.length (a +:+ b) = (String.length a + String.length b)%nat.
Proof. induction a as [|x a IH]; [done|]. unfold String.app in *. simpl. by rewrite IH. Qed.

(** Two concatenations with right parts of equal length are equal only
    piecewise. *)
Lemma string_app_inj_len (a b c d : string) :
  String.length c = String.length d → (a +:+ c = b +:+ d)%string → a = b ∧ c = d.
Proof.
  intros Hl. revert b. induction a as [|x a IH]; intros [|y b] H.
  - done.
  - exfalso. change (c = String y (b +:+ d)) in H. subst c. simpl in Hl.
    rewrite string_length_app in Hl. lia.
  - exfalso. change (String x (a +:+ c) = d) in H. subst d. simpl in Hl.
    rewrite string_length_app in Hl. lia.
  - change (String x (a +:+ c) = String y (b +:+ d)) in H.
    injection H as -> H. apply IH in H as [-> ->]. done.
Qed.

(** A string with a first separator is cut uniquely. *)
Fixpoint char_free (c : ascii) (s : string) : bool :=
  match s with
  | EmptyString => true
  | String a r => negb (Ascii.eqb a c) && char_free c r
  end.

Lemma string_app_inj_sep c (a b r s : string) :
  char_free c a = true → char_free c b = true →
  (a +:+ String c r = b +:+ String c s)%string → a = b ∧ r = s.
Proof.
  revert b. induction a as [|x a IH]; intros [|y b] Ha Hb H.
  - by injection H as ->.
  - exfalso. injection H as -> _. simpl in Hb.
    by rewrite Ascii.eqb_refl in Hb.
  - exfalso. injection H as -> _. simpl in Ha. by rewrite Ascii.eqb_refl in Ha.
  - change (String x (a +:+ String c r) = String y (b +:+ String c s)) in H.
    injection H as -> H. simpl in Ha, Hb.
    apply andb_prop in Ha as [_ Ha]. apply andb_prop in Hb as [_ Hb].
    by apply IH in H as [-> ->].
Qed.

#[export] Hint Rewrite hex_decode_encode string_app_nil_r : kof.

(** * Decimal printing and parsing *)

Lemma digit_val_char (d : N) : (d < 10)%N → digit_val (pretty_N_char d) = Some (Z.of_N d).
Proof.
  intros H. assert (d ∈ [0;1;2;3;4;5;6;7;8;9]%N) as Hd.
  { rewrite !elem_of_cons. lia. }
  repeat (apply elem_of_cons in Hd as [->|Hd]; [done|]). by apply not_elem_of_nil in Hd.
Qed.

Lemma digits_val_pretty_go x s : digits_val 0 (pretty_N_go x s) = digits_val (Z.of_N x) s.
Proof.
  revert s. induction (N.lt_wf_0 x) as [x _ IH]; intros s.
  destruct (decide (x = 0)%N) as [->|Hx]; [by rewrite pretty_N_go_0|].
  rewrite pretty_N_go_step by lia. rewrite IH by (apply N.div_lt; lia).
  cbn [digits_val]. rewrite digit_val_char by (apply N.mod_lt; lia).
  f_equal. pose proof (N.div_mod x 10 ltac:(lia)). lia.
Qed.

Lemma itoa_nonneg n : 0 <= n →
  itoa n = if decide (n = 0) then "0"%string else pretty_N_go (Z.to_N n) "".
Proof.
  intros H. unfold itoa, pretty, pretty_Z. destruct n as [|p|p]; simpl; try done; lia.
Qed.

Lemma digits_val_itoa n : 0 <= n → digits_val 0 (itoa n) = Some n.
Proof.
  intros H. rewrite itoa_nonneg by done. destruct (decide (n = 0)) as [->|]; [done|].
  rewrite digits_val_pretty_go. cbn [digits_val]. by rewrite Z2N.id.
Qed.

Lemma digits_val_zeros k s : digits_val 0 (zeros k +:+ s) = digits_val 0 s.
Proof. induction k as [|k IH]; [done|]. exact IH. Qed.

(** The parser reads back what the zero-padded printer wrote. *)
Lemma digits_val_pad w n : 0 <= n → digits_val 0 (pad_int w n) = Some n.
Proof.
  intros H. unfold pad_int. replace (n <? 0) with false by lia.
  rewrite Z.abs_eq by done. by rewrite digits_val_zeros, digits_val_itoa.
Qed.

Lemma pad_int_inj w n m : 0 <= n → 0 <= m → pad_int w n = pad_int w m → n = m.
Proof.
  intros Hn Hm H. apply (f_equal (digits_val 0)) in H.
  rewrite !digits_val_pad in H by done. by simplify_eq.
Qed.

Lemma length_pretty_go k x s :
  (x < 10 ^ N.of_nat k)%N → (String.length (pretty_N_go x s) <= k + String.length s)%nat.
Proof.
  revert x s. induction k as [|k IH]; intros x s Hx.
  { assert (x = 0)%N as -> by (simpl in Hx; lia). by rewrite pretty_N_go_0. }
  destruct (decide (x = 0)%N) as [->|]; [rewrite pretty_N_go_0; lia|].
  rewrite pretty_N_go_step by lia. etrans; [apply IH|simpl; lia].
  apply N.Div0.div_lt_upper_bound. by rewrite <-N.pow_succ_r', <-Nat2N.inj_succ.
Qed.

Lemma length_zeros k : String.length (zeros k) = k.
Proof. induction k; simpl; auto. Qed.

Lemma length_pad_int w n :
  (1 <= w)%nat → 0 <= n < 10 ^ Z.of_nat w → String.length (pad_int w n) = w.
Proof.
  intros Hw H. unfold pad_int. replace (n <? 0) with false by lia.
  rewrite Z.abs_eq by lia. rewrite string_length_app, length_zeros.
  assert (String.length (itoa n) <= w)%nat; [|lia].
  rewrite itoa_nonneg by lia. destruct (decide (n = 0)); [simpl; lia|].
  etrans; [apply (length_pretty_go w)|simpl; lia].
  apply N2Z.inj_lt. rewrite Z2N.id by lia.
  rewrite N2Z.inj_pow, nat_N_Z. lia.
Qed.

Lemma parse_digits_itoa n : 0 <= n → parse_digits (itoa n) = Some n.
Proof.
  intros H. pose proof (digits_val_itoa n H) as Hd. unfold parse_digits.
  destruct (itoa n) eqn:E; [|done]. simpl in Hd. by simplify_eq.
Qed.
