(* ===== verification/GoTime.v ===== *)
(** The parts of Go's time package that the program uses: instants (UTC
    nanoseconds since the Unix epoch, as Z), truncation to the hour, the
    civil calendar, the layouts it formats with and the RFC 3339 parser. *)
From S2P Require Import Prelude Strings.
From Stdlib Require Import Ascii.

Open Scope Z_scope.

Definition second : Z := 1000000000.
Definition minute : Z := 60 * second.
Definition hour : Z := 60 * minute.
Definition day_secs : Z := 86400.

(** [t.Truncate(time.Hour)]: Go counts hours from year 1, a whole number of
    hours before the Unix epoch. *)
Definition truncate_hour (t : Z) : Z := t - t mod hour.

(** * The civil calendar *)

Record civil := Civil { c_year : Z; c_month : Z; c_day : Z }.

(** Days since 1970-01-01 to year, month, day (proleptic Gregorian).  Years
    are counted from March in eras of 400 years. *)
Definition yoe_of (doe : Z) : Z := (doe - doe / 1460 + doe / 36524 - doe / 146096) / 365.
Definition doy_of (doe : Z) : Z :=
  let yoe := yoe_of doe in doe - (365 * yoe + yoe / 4 - yoe / 100).
Definition mp_of (doe : Z) : Z := (5 * doy_of doe + 2) / 153.

Definition civil_of_days (days : Z) : civil :=
  let z := days + 719468 in
  let doe := z mod 146097 in
  let mp := mp_of doe in
  let m := if mp <? 10 then mp + 3 else mp - 9 in
  {| c_year := yoe_of doe + 400 * (z / 146097) + (if m <=? 2 then 1 else 0);
     c_month := m;
     c_day := doy_of doe - (153 * mp + 2) / 5 + 1 |}.

Definition days_of_civil (c : civil) : Z :=
  let y := if c_month c <=? 2 then c_year c - 1 else c_year c in
  let mp := if 2 <? c_month c then c_month c - 3 else c_month c + 9 in
  let yoe := y mod 400 in
  let doe := yoe * 365 + yoe / 4 - yoe / 100 + ((153 * mp + 2) / 5 + c_day c - 1) in
  (y / 400) * 146097 + doe - 719468.

Definition secs_of (t : Z) : Z := t / second.
Definition civil_of (t : Z) : civil := civil_of_days (secs_of t / day_secs).
Definition year_of (t : Z) : Z := c_year (civil_of t).
Definition hour_of (t : Z) : Z := (secs_of t mod day_secs) / 3600.
Definition minute_of (t : Z) : Z := (secs_of t mod 3600) / 60.
Definition second_of (t : Z) : Z := secs_of t mod 60.
Definition milli_of (t : Z) : Z := (t mod second) / 1000000.

(** * Layouts *)

Definition fmt_date (sep : string) (t : Z) : string :=
  let c := civil_of t in
  (pad_int 4 (c_year c) +:+ sep +:+ pad_int 2 (c_month c) +:+ sep +:+ pad_int 2 (c_day c))%string.
Definition fmt_hh (t : Z) : string := pad_int 2 (hour_of t).
Definition fmt_clock (t : Z) : string :=
  (fmt_hh t +:+ ":" +:+ pad_int 2 (minute_of t) +:+ ":" +:+ pad_int 2 (second_of t))%string.

(** Layout "2006/01/02/15". *)
Definition fmt_path (t : Z) : string := (fmt_date "/" t +:+ "/" +:+ fmt_hh t)%string.
(** Layout time.RFC3339, of a UTC time. *)
Definition fmt_rfc3339 (t : Z) : string := (fmt_date "-" t +:+ "T" +:+ fmt_clock t +:+ "Z")%string.
(** Layout "2006-01-02T15:04:05.000Z07:00", of a UTC time. *)
Definition fmt_millis (t : Z) : string :=
  (fmt_date "-" t +:+ "T" +:+ fmt_clock t +:+ "." +:+ pad_int 3 (milli_of t) +:+ "Z")%string.

(** * Parsing with the layouts time.RFC3339 and time.RFC3339Nano *)

(** Both layouts accept the same texts: the parser accepts a fraction after
    the seconds whether or not the layout has one.  The hour may have one
    digit, as Go's "15" element allows. *)
Definition take_digit (s : string) : option (Z * string) :=
  match s with
  | String a r => match digit_val a with Some d => Some (d, r) | None => None end
  | EmptyString => None
  end.
Definition take2 (s : string) : option (Z * string) :=
  match take_digit s with
  | Some (a, r) => match take_digit r with
                   | Some (b, r') => Some (10 * a + b, r')
                   | None => None
                   end
  | None => None
  end.
Definition take_hour (s : string) : option (Z * string) :=
  match take2 s with Some x => Some x | None => take_digit s end.
Definition take4 (s : string) : option (Z * string) :=
  match take2 s with
  | Some (a, r) => match take2 r with
                   | Some (b, r') => Some (100 * a + b, r')
                   | None => None
                   end
  | None => None
  end.
Definition take_char (c : ascii) (s : string) : option string :=
  match s with
  | String a r => if Ascii.eqb a c then Some r else None
  | EmptyString => None
  end.

(** The digits of a fraction: the first nine count, the rest are skipped. *)
Fixpoint take_fraction (k : nat) (acc : Z) (s : string) : Z * string :=
  match s with
  | String a r =>
      match digit_val a with
      | Some d => match k with
                  | O => take_fraction O acc r
                  | S k' => take_fraction k' (10 * acc + d) r
                  end
      | None => (acc * 10 ^ Z.of_nat k, s)
      end
  | EmptyString => (acc * 10 ^ Z.of_nat k, s)
  end.
Definition take_nanos (s : string) : Z * string :=
  match s with
  | String c (String d _ as r) =>
      if (Ascii.eqb c "." || Ascii.eqb c ",") && bool_decide (is_Some (digit_val d))
      then take_fraction 9 0 r else (0, s)
  | _ => (0, s)
  end.

(** "Z" or a signed hh:mm offset, in seconds; hours to 24 and minutes to 60. *)
Definition parse_zone (s : string) : option Z :=
  match s with
  | String "Z" EmptyString => Some 0
  | String sg r =>
      match take2 r with
      | Some (hh, r1) =>
          match take_char ":" r1 with
          | Some r2 =>
              match take2 r2 with
              | Some (mm, EmptyString) =>
                  if (hh <=? 24) && (mm <=? 60) then
                    if Ascii.eqb sg "+" then Some (hh * 3600 + mm * 60)
                    else if Ascii.eqb sg "-" then Some (- (hh * 3600 + mm * 60))
                    else None
                  else None
              | _ => None
              end
          | None => None
          end
      | None => None
      end
  | EmptyString => None
  end.

Definition is_leap (y : Z) : bool :=
  (y mod 4 =? 0) && (negb (y mod 100 =? 0) || (y mod 400 =? 0)).
Definition days_in (m y : Z) : Z :=
  if m =? 2 then (if is_leap y then 29 else 28)
  else if (m =? 4) || (m =? 6) || (m =? 9) || (m =? 11) then 30 else 31.

Notation "'let?' x ':=' r 'in' k" :=
  (match r with Some x => k | None => None end)
  (at level 10, x pattern, r at level 100, k at level 200) : go_scope.

Definition parse_date (s : string) : option (civil * string) :=
  let? (y, s) := take4 s in
  let? s := take_char "-" s in
  let? (m, s) := take2 s in
  let? s := take_char "-" s in
  let? (d, s) := take2 s in
  if (1 <=? m) && (m <=? 12) && (1 <=? d) && (d <=? days_in m y)
  then Some (Civil y m d, s) else None.

Definition parse_clock (s : string) : option (Z * string) :=
  let? (h, s) := take_hour s in
  let? s := take_char ":" s in
  let? (mi, s) := take2 s in
  let? s := take_char ":" s in
  let? (se, s) := take2 s in
  if (h <? 24) && (mi <? 60) && (se <? 60)
  then Some (h * 3600 + mi * 60 + se, s) else None.

Definition parse_rfc3339 (s : string) : option Z :=
  let? (c, s) := parse_date s in
  let? s := take_char "T" s in
  let? (secs, s) := parse_clock s in
  let (ns, s) := take_nanos s in
  let? off := parse_zone s in
  Some ((days_of_civil c * day_secs + secs - off) * second + ns).

(** [t.UnixNano()] is a 64-bit integer. *)
Definition unix_nano (t : Z) : Z := wrap64 t.

(** * Lemmas *)

Lemma truncate_hour_spec t : truncate_hour t <= t < truncate_hour t + hour
                             ∧ (hour | truncate_hour t).
Proof.
  unfold truncate_hour. assert (0 <= t mod hour < hour) by by apply Z.mod_pos_bound.
  split; [lia|]. exists (t / hour). pose proof (Z.div_mod t hour ltac:(done)). lia.
Qed.

(** The bounds of the calendar arithmetic within one 400-year era. *)
Lemma era_bounds doe : 0 <= doe < 146097 →
  0 <= yoe_of doe <= 399 ∧ 0 <= mp_of doe <= 11
  ∧ 1 <= doy_of doe - (153 * mp_of doe + 2) / 5 + 1 <= 31.
Proof.
  intros H.
  assert (0 <= yoe_of doe <= 399) by (unfold yoe_of; Z.div_mod_to_equations; lia).
  assert (0 <= doy_of doe <= 365)
    by (unfold doy_of, yoe_of; Z.div_mod_to_equations; lia).
  unfold mp_of. repeat split; try lia; Z.div_mod_to_equations; lia.
Qed.

(** The calendar conversion loses nothing. *)
Lemma days_of_civil_of_days d : days_of_civil (civil_of_days d) = d.
Proof.
  pose proof (Z.div_mod (d + 719468) 146097 ltac:(lia)) as Hd.
  assert (Hb : 0 <= (d + 719468) mod 146097 < 146097) by by apply Z.mod_pos_bound.
  destruct (era_bounds _ Hb) as (Hy & Hm & _).
  unfold days_of_civil, civil_of_days; simpl.
  set (doe := (d + 719468) mod 146097) in *. set (era := (d + 719468) / 146097) in *.
  set (mp := mp_of doe) in *.
  assert (Hdoe : doe = 365 * yoe_of doe + yoe_of doe / 4 - yoe_of doe / 100 + doy_of doe)
    by (unfold doy_of; lia).
  set (yoe := yoe_of doe) in *.
  assert (He : ∀ x, x = yoe + 400 * era → x mod 400 = yoe ∧ x / 400 = era).
  { intros x ->. split.
    - rewrite Z.mul_comm, Z.mod_add by lia. apply Z.mod_small. lia.
    - rewrite Z.mul_comm, Z.div_add by lia. rewrite Z.div_small by lia. lia. }
  destruct (mp <? 10) eqn:E.
  - replace (mp + 3 <=? 2) with false by lia. replace (2 <? mp + 3) with true by lia.
    destruct (He (yoe + 400 * era + 0) ltac:(lia)) as [-> ->].
    replace (mp + 3 - 3) with mp by lia. lia.
  - replace (mp - 9 <=? 2) with true by lia. replace (2 <? mp - 9) with false by lia.
    destruct (He (yoe + 400 * era + 1 - 1) ltac:(lia)) as [-> ->].
    replace (mp - 9 + 9) with mp by lia. lia.
Qed.

#[export] Instance civil_of_days_inj : Inj (=) (=) civil_of_days.
Proof.
  intros a b H. rewrite <-(days_of_civil_of_days a), <-(days_of_civil_of_days b).
  by rewrite H.
Qed.

Lemma civil_of_days_range d :
  1 <= c_month (civil_of_days d) <= 12 ∧ 1 <= c_day (civil_of_days d) <= 31.
Proof.
  assert (Hb : 0 <= (d + 719468) mod 146097 < 146097) by by apply Z.mod_pos_bound.
  destruct (era_bounds _ Hb) as (_ & Hm & Hday). unfold civil_of_days; simpl.
  split; [|done]. destruct (mp_of _ <? 10) eqn:E; lia.
Qed.

Lemma hour_of_range t : 0 <= hour_of t < 24.
Proof.
  unfold hour_of. assert (0 <= secs_of t mod day_secs < day_secs) by by apply Z.mod_pos_bound.
  unfold day_secs in *. split; [apply Z.div_pos; lia|apply Z.div_lt_upper_bound; lia].
Qed.

(** * Formatted hours identify hours *)

Definition four_digit_year (t : Z) : Prop := 0 <= year_of t <= 9999.

Lemma fmt_date_inj sep t u (a b : string) :
  four_digit_year t → four_digit_year u →
  (fmt_date sep t +:+ a = fmt_date sep u +:+ b)%string →
  secs_of t / day_secs = secs_of u / day_secs ∧ a = b.
Proof.
  unfold four_digit_year, year_of, fmt_date, civil_of. intros Ht Hu H.
  pose proof (civil_of_days_range (secs_of t / day_secs)) as [Hm1 Hd1].
  pose proof (civil_of_days_range (secs_of u / day_secs)) as [Hm2 Hd2].
  set (x := secs_of t / day_secs) in *. set (y := secs_of u / day_secs) in *.
  rewrite !string_app_assoc in H.
  assert (Hcut : ∀ w n m (p q : string), (1 <= w)%nat →
    0 <= n < 10 ^ Z.of_nat w → 0 <= m < 10 ^ Z.of_nat w →
    (pad_int w n +:+ p = pad_int w m +:+ q)%string → n = m ∧ p = q).
  { intros w n m p q Hw Hn Hmm He.
    pose proof (string_length_app (pad_int w n) p) as L1. rewrite He in L1.
    rewrite string_length_app, !length_pad_int in L1 by done.
    apply string_app_inj_len in He as [He ->]; [|lia].
    split; [|done]. apply pad_int_inj in He; [done|lia..]. }
  apply Hcut in H as [Hy H]; [|lia..]. apply (inj (String.app sep)) in H.
  apply Hcut in H as [Hmo H]; [|lia..]. apply (inj (String.app sep)) in H.
  apply Hcut in H as [Hda H]; [|lia..].
  split; [|done]. apply (inj civil_of_days).
  destruct (civil_of_days x), (civil_of_days y); simpl in *; congruence.
Qed.

(** Hour-aligned instants of four-digit years have distinct paths. *)
Lemma hour_of_day_inj t u :
  (hour | t) → (hour | u) → secs_of t / day_secs = secs_of u / day_secs →
  hour_of t = hour_of u → t = u.
Proof.
  unfold secs_of, hour_of, day_secs, hour, minute, second.
  intros [a ->] [b ->]. unfold secs_of, second.
  replace (a * (60 * (60 * 1000000000))) with (a * 3600 * 1000000000) by lia.
  replace (b * (60 * (60 * 1000000000))) with (b * 3600 * 1000000000) by lia.
  rewrite !Z.div_mul by lia. intros H1 H2. assert (a = b) as ->; [|done].
  Z.div_mod_to_equations; lia.
Qed.

Lemma fmt_path_inj t u :
  (hour | t) → (hour | u) → four_digit_year t → four_digit_year u →
  fmt_path t = fmt_path u → t = u.
Proof.
  unfold fmt_path. intros Ha Hb Ht Hu H. apply fmt_date_inj in H as [Hd H]; [|done..].
  apply (inj (String.app "/")) in H. apply pad_int_inj in H; [|apply hour_of_range..].
  by apply hour_of_day_inj.
Qed.

Lemma length_fmt_date sep t : four_digit_year t →
  String.length (fmt_date sep t) = (8 + 2 * String.length sep)%nat.
Proof.
  unfold four_digit_year, year_of, fmt_date. intros H.
  pose proof (civil_of_days_range (secs_of t / day_secs)) as [Hm Hd].
  unfold civil_of in *. rewrite !string_length_app, !length_pad_int by lia. lia.
Qed.

Lemma length_fmt_path t : four_digit_year t → String.length (fmt_path t) = 13%nat.
Proof.
  intros H. unfold fmt_path, fmt_hh. rewrite !string_length_app, length_fmt_date by done.
  pose proof (hour_of_range t). by rewrite length_pad_int by lia.
Qed.
