(* ===== verification/Json.v ===== *)
(** encoding/json as the program uses it: trees, the marshaller (whose output
    for maps has sorted keys), the string escaping with its HTML and UTF-8
    rules, and the parser behind json.Unmarshal.

    An object is its list of members in the order an enumeration of the Go map
    yields them.  A number is its literal: the numbers the program sends
    through a JSON tree are event and byte counts, integers below 2^53, whose
    float64 prints as the same literal.  Go's limit of 10000 on the nesting
    depth is not modelled. *)
From S2P Require Import Prelude Strings.
From Stdlib Require Import Ascii.

Open Scope nat_scope.

Inductive json : Type :=
  | JNull
  | JBool (b : bool)
  | JNum (lit : string)
  | JStr (s : string)
  | JArr (l : list json)
  | JObj (kvs : list (string * json)).

(** * UTF-8 *)

Definition is_cont (a : ascii) : bool :=
  let n := nat_of_ascii a in (128 <=? n) && (n <=? 191).
Definition in_range (lo hi : nat) (a : ascii) : bool :=
  let n := nat_of_ascii a in (lo <=? n) && (n <=? hi).

(** [utf8.DecodeRuneInString] on a string whose first byte is not ASCII: the
    length of the valid encoding it starts with, 0 for an invalid one. *)
Definition rune2 (a b : ascii) : bool := in_range 194 223 a && is_cont b.
Definition rune3 (a b c : ascii) : bool :=
  is_cont c &&
  ((in_range 224 224 a && in_range 160 191 b)
   || (in_range 225 236 a || in_range 238 239 a) && is_cont b
   || (in_range 237 237 a && in_range 128 159 b)).
Definition rune4 (a b c d : ascii) : bool :=
  is_cont c && is_cont d &&
  ((in_range 240 240 a && in_range 144 191 b)
   || (in_range 241 243 a && is_cont b)
   || (in_range 244 244 a && in_range 128 143 b)).
Definition rune_len (s : string) : nat :=
  match s with
  | String a (String b r) =>
      if rune2 a b then 2
      else match r with
           | String c r' =>
               if rune3 a b c then 3
               else match r' with
                    | String d _ => if rune4 a b c d then 4 else 0
                    | EmptyString => 0
                    end
           | EmptyString => 0
           end
  | _ => 0
  end.

Definition is_ascii (a : ascii) : bool := nat_of_ascii a <? 128.

(** [utf8.ValidString]. *)
Fixpoint utf8_valid (s : string) : bool :=
  match s with
  | EmptyString => true
  | String a r =>
      if is_ascii a then utf8_valid r
      else match rune_len s, r with
           | 2, String _ r2 => utf8_valid r2
           | 3, String _ (String _ r3) => utf8_valid r3
           | 4, String _ (String _ (String _ r4)) => utf8_valid r4
           | _, _ => false
           end
  end.

Definition encode_rune (n : nat) : string :=
  if n <? 128 then String (byte n) ""
  else if n <? 2048 then String (byte (192 + n / 64)) (String (byte (128 + n mod 64)) "")
  else if n <? 65536 then
    String (byte (224 + n / 4096)) (String (byte (128 + (n / 64) mod 64))
      (String (byte (128 + n mod 64)) ""))
  else String (byte (240 + n / 262144)) (String (byte (128 + (n / 4096) mod 64))
         (String (byte (128 + (n / 64) mod 64)) (String (byte (128 + n mod 64)) ""))).
(** The encoding of U+FFFD. *)
Definition rune_error : string := of_bytes [239; 191; 189].

(** * Marshalling *)

(** One ASCII byte inside a JSON string, with SetEscapeHTML on. *)
Definition escape_ascii (a : ascii) : string :=
  let n := nat_of_ascii a in
  if n =? 34 then "\" +:+ dquote
  else if n =? 92 then "\\"
  else if n =? 8 then "\b" else if n =? 12 then "\f" else if n =? 10 then "\n"
  else if n =? 13 then "\r" else if n =? 9 then "\t"
  else if (n <? 32) || (n =? 60) || (n =? 62) || (n =? 38)
  then "\u00" +:+ String (hex_digit (n / 16)) (String (hex_digit (n mod 16)) "")
  else String a "".

(** U+2028 and U+2029, which JavaScript does not allow in strings. *)
Definition escape_rune3 (a b c : ascii) : string :=
  if (nat_of_ascii a =? 226) && (nat_of_ascii b =? 128) && (nat_of_ascii c =? 168) then "\u2028"
  else if (nat_of_ascii a =? 226) && (nat_of_ascii b =? 128) && (nat_of_ascii c =? 169) then "\u2029"
  else String a (String b (String c "")).

Fixpoint escape (s : string) : string :=
  match s with
  | EmptyString => ""
  | String a r =>
      if is_ascii a then escape_ascii a +:+ escape r
      else match rune_len s, r with
           | 2, String b r2 => String a (String b (escape r2))
           | 3, String b (String c r3) => escape_rune3 a b c +:+ escape r3
           | 4, String b (String c (String d r4)) =>
               String a (String b (String c (String d (escape r4))))
           | _, _ => "\ufffd" +:+ escape r
           end
  end.

Definition marshal_string (s : string) : string := dquote +:+ escape s +:+ dquote.

(** The members of a map, once each value is rendered: keys sorted, then
    written with their values. *)
Definition render_members (m : gmap string string) : string :=
  join "," ((λ k, marshal_string k +:+ ":" +:+ default "" (m !! k))
              <$> sort_strings ((map_to_list m).*1)).
Definition render_object (m : gmap string string) : string :=
  "{" +:+ render_members m +:+ "}".

(** A struct is marshalled with its fields in declaration order. *)
Definition struct_text (fields : list (string * string)) : string :=
  "{" +:+ join "," ((λ kv, marshal_string kv.1 +:+ ":" +:+ kv.2) <$> fields) +:+ "}".

(** [json.Marshal] on a tree of maps, slices and scalars. *)
Fixpoint marshal (j : json) : string :=
  match j with
  | JNull => "null"
  | JBool b => format_bool b
  | JNum lit => lit
  | JStr s => marshal_string s
  | JArr l => "[" +:+ join "," (map marshal l) +:+ "]"
  | JObj kvs =>
      render_object (list_to_map (map (λ kv, match kv with (k, v) => (k, marshal v) end) kvs))
  end.

(** [json.Marshal] on a [map[string]string]. *)
Definition marshal_flat (m : gmap string string) : string := render_object (marshal_string <$> m).

(** * Parsing *)

Definition is_ws (a : ascii) : bool :=
  let n := nat_of_ascii a in (n =? 32) || (n =? 9) || (n =? 10) || (n =? 13).
Fixpoint skip_ws (s : string) : string :=
  match s with
  | String a r => if is_ws a then skip_ws r else s
  | EmptyString => s
  end.

Definition hex4 (s : string) : option (nat * string) :=
  match s with
  | String a (String b (String c (String d r))) =>
      match hex_val a, hex_val b, hex_val c, hex_val d with
      | Some w, Some x, Some y, Some z => Some (4096 * w + 256 * x + 16 * y + z, r)
      | _, _, _, _ => None
      end
  | _ => None
  end.
Definition is_high (n : nat) : bool := (55296 <=? n) && (n <=? 56319).
Definition is_low (n : nat) : bool := (56320 <=? n) && (n <=? 57343).

(** The rune of a [\u] escape and what follows it: a surrogate pair is one
    rune, a lone surrogate is U+FFFD. *)
Definition unicode_escape (s : string) : option (string * string) :=
  match hex4 s with
  | None => None
  | Some (n, r) =>
      if is_high n then
        match r with
        | String "\" (String "u" r') =>
            match hex4 r' with
            | Some (n', r'') =>
                if is_low n'
                then Some (encode_rune (65536 + (n - 55296) * 1024 + (n' - 56320)), r'')
                else Some (rune_error, r)
            | None => Some (rune_error, r)
            end
        | _ => Some (rune_error, r)
        end
      else if is_low n then Some (rune_error, r)
      else Some (encode_rune n, r)
  end.

Definition simple_escape (a : ascii) : option string :=
  match nat_of_ascii a with
  | 34 => Some dquote | 92 => Some "\" | 47 => Some "/" | 98 => Some (String (byte 8) "")
  | 102 => Some (String (byte 12) "") | 110 => Some (String (byte 10) "")
  | 114 => Some (String (byte 13) "") | 116 => Some (String (byte 9) "")
  | _ => None
  end.

(** The text of a string after its opening quote, unquoted. *)
Fixpoint parse_str (fuel : nat) (s : string) : option (string * string) :=
  match fuel with
  | O => None
  | S fuel' =>
      let emit (t : string) (r : string) :=
        match parse_str fuel' r with Some (u, r') => Some (t +:+ u, r') | None => None end in
      match s with
      | EmptyString => None
      | String a r =>
          let n := nat_of_ascii a in
          if n =? 34 then Some ("", r)
          else if n =? 92 then
            match r with
            | String "u" r' =>
                match unicode_escape r' with Some (t, r'') => emit t r'' | None => None end
            | String b r' =>
                match simple_escape b with Some t => emit t r' | None => None end
            | EmptyString => None
            end
          else if n <? 32 then None
          else if is_ascii a then emit (String a "") r
          else match rune_len s, r with
               | 2, String b r2 => emit (String a (String b "")) r2
               | 3, String b (String c r3) => emit (String a (String b (String c ""))) r3
               | 4, String b (String c (String d r4)) =>
                   emit (String a (String b (String c (String d "")))) r4
               | _, _ => emit rune_error r
               end
      end
  end.

(** Number literals. *)
Fixpoint span_digits (s : string) : string * string :=
  match s with
  | String a r =>
      match digit_val a with
      | Some _ => let (d, r') := span_digits r in (String a d, r')
      | None => ("", s)
      end
  | EmptyString => ("", s)
  end.
Definition parse_frac (s : string) : option (string * string) :=
  match s with
  | String "." r => let (d, r') := span_digits r in
                    if bool_decide (d = "") then None else Some ("." +:+ d, r')
  | _ => Some ("", s)
  end.
Definition parse_exp (s : string) : option (string * string) :=
  let digits pre r := let (d, r') := span_digits r in
                      if bool_decide (d = "") then None else Some (pre +:+ d, r') in
  match s with
  | String e r =>
      if Ascii.eqb e "e" || Ascii.eqb e "E" then
        match r with
        | String "+" r' => digits (String e "+") r'
        | String "-" r' => digits (String e "-") r'
        | _ => digits (String e "") r
        end
      else Some ("", s)
  | EmptyString => Some ("", s)
  end.
Definition parse_num (s : string) : option (string * string) :=
  let (sg, s0) := match s with String "-" r => ("-", r) | _ => ("", s) end in
  let (d, s1) := match s0 with
                 | String "0" r => ("0", r)
                 | _ => span_digits s0
                 end in
  if bool_decide (d = "") then None
  else match parse_frac s1 with
       | None => None
       | Some (f, s2) => match parse_exp s2 with
                         | None => None
                         | Some (e, s3) => Some (sg +:+ d +:+ f +:+ e, s3)
                         end
       end.

Fixpoint parse_value (fuel : nat) (s : string) : option (json * string) :=
  match fuel with
  | O => None
  | S fuel' =>
      match skip_ws s with
      | EmptyString => None
      | String a r =>
          let n := nat_of_ascii a in
          if n =? 34 then
            match parse_str (S (String.length r)) r with
            | Some (t, r') => Some (JStr t, r') | None => None end
          else if n =? 91 then
            match skip_ws r with
            | String "]" r' => Some (JArr [], r')
            | r' => match parse_elems fuel' r' with
                    | Some (l, r'') => Some (JArr l, r'') | None => None end
            end
          else if n =? 123 then
            match skip_ws r with
            | String "}" r' => Some (JObj [], r')
            | r' => match parse_members fuel' r' with
                    | Some (l, r'') => Some (JObj l, r'') | None => None end
            end
          else match cut_prefix "null" (String a r), cut_prefix "true" (String a r),
                     cut_prefix "false" (String a r) with
               | Some r', _, _ => Some (JNull, r')
               | _, Some r', _ => Some (JBool true, r')
               | _, _, Some r' => Some (JBool false, r')
               | _, _, _ => match parse_num (String a r) with
                            | Some (d, r') => Some (JNum d, r') | None => None end
               end
      end
  end
with parse_elems (fuel : nat) (s : string) : option (list json * string) :=
  match fuel with
  | O => None
  | S fuel' =>
      match parse_value fuel' s with
      | None => None
      | Some (v, r) =>
          match skip_ws r with
          | String "," r' => match parse_elems fuel' r' with
                             | Some (l, r'') => Some (v :: l, r'') | None => None end
          | String "]" r' => Some ([v], r')
          | _ => None
          end
      end
  end
with parse_members (fuel : nat) (s : string) : option (list (string * json) * string) :=
  match fuel with
  | O => None
  | S fuel' =>
      match skip_ws s with
      | String q r =>
          if nat_of_ascii q =? 34 then
            match parse_str (S (String.length r)) r with
            | None => None
            | Some (k, r1) =>
                match skip_ws r1 with
                | String ":" r2 =>
                    match parse_value fuel' r2 with
                    | None => None
                    | Some (v, r3) =>
                        match skip_ws r3 with
                        | String "," r4 => match parse_members fuel' r4 with
                                           | Some (l, r5) => Some ((k, v) :: l, r5)
                                           | None => None end
                        | String "}" r4 => Some ([(k, v)], r4)
                        | _ => None
                        end
                    end
                | _ => None
                end
            end
          else None
      | EmptyString => None
      end
  end.

(** [json.Unmarshal] into an [interface{}]: the whole text is one value.  The
    fuel bounds the recursion depth, which no text of that length exceeds. *)
Definition unmarshal (s : string) : option json :=
  match parse_value (2 * String.length s + 2) s with
  | Some (j, r) => if bool_decide (skip_ws r = "") then Some j else None
  | None => None
  end.

(** [json.Valid]. *)
Definition json_valid (s : string) : bool := bool_decide (is_Some (unmarshal s)).

(** Decoding into a [map[string]string]: a later member replaces an earlier
    one, a null is the empty string, any other value is a type error, and the
    text [null] leaves the map nil. *)
Definition flat_value (j : json) : option string :=
  match j with JStr s => Some s | JNull => Some "" | _ => None end.
Fixpoint flat_members (kvs : list (string * json)) (m : gmap string string)
    : option (gmap string string) :=
  match kvs with
  | [] => Some m
  | (k, v) :: r => match flat_value v with
                   | Some s => flat_members r (<[k := s]> m)
                   | None => None
                   end
  end.
Definition unmarshal_flat (s : string) : option (gmap string string) :=
  match unmarshal s with
  | Some (JObj kvs) => flat_members kvs ∅
  | Some JNull => Some ∅
  | _ => None
  end.

(** json.Unmarshal into an int64: an integer literal in range, null leaves the
    zero value. *)
Definition decode_int64 (j : json) : option Z :=
  match j with JNum lit => parse_int64 lit | JNull => Some 0%Z | _ => None end.
