(* ===== verification/JsonFacts.v ===== *)
(** Facts about the JSON marshaller and parser: canonical output (the result
    does not depend on the enumeration order of any map in the tree) and the
    round trip through the parser. *)
From S2P Require Import Prelude Strings Json.
From Stdlib Require Import Ascii.

Open Scope nat_scope.

(** * Induction on trees *)

Section json_ind.
Context (P : json → Prop).
Context (Hnull : P JNull) (Hbool : ∀ b, P (JBool b)) (Hnum : ∀ s, P (JNum s))
        (Hstr : ∀ s, P (JStr s))
        (Harr : ∀ l, Forall P l → P (JArr l))
        (Hobj : ∀ kvs, Forall (λ kv, P kv.2) kvs → P (JObj kvs)).

Fixpoint json_tree_ind (j : json) : P j.
Proof.
destruct j as [| | | |l|kvs]; [done|apply Hbool|apply Hnum|apply Hstr| |].
- apply Harr. induction l; constructor; [apply json_tree_ind|done].
- apply Hobj. induction kvs as [|[k v] kvs IH]; constructor; [apply json_tree_ind|done].
Defined.
End json_ind.

(** * Canonical output *)

(** Trees that differ only in the order in which maps were enumerated. *)
Inductive jeq : json → json → Prop :=
  | jeq_refl j : jeq j j
  | jeq_trans a b c : jeq a b → jeq b c → jeq a c
  | jeq_perm kvs kvs' : kvs ≡ₚ kvs' → jeq (JObj kvs) (JObj kvs')
  | jeq_member ks1 k v v' ks2 :
      jeq v v' → jeq (JObj (ks1 ++ (k, v) :: ks2)) (JObj (ks1 ++ (k, v') :: ks2))
  | jeq_item l1 v v' l2 : jeq v v' → jeq (JArr (l1 ++ v :: l2)) (JArr (l1 ++ v' :: l2)).

(** Every object of the tree has distinct keys, as a Go map does. *)
Inductive keys_ok : json → Prop :=
  | ko_null : keys_ok JNull
  | ko_bool b : keys_ok (JBool b)
  | ko_num s : keys_ok (JNum s)
  | ko_str s : keys_ok (JStr s)
  | ko_arr l : Forall keys_ok l → keys_ok (JArr l)
  | ko_obj kvs : NoDup (kvs.*1) → Forall (λ kv, keys_ok kv.2) kvs → keys_ok (JObj kvs).

Lemma map_fst_marshal kvs :
  (map (λ kv : string * json, match kv with (k, v) => (k, marshal v) end) kvs).*1 = kvs.*1.
Proof. induction kvs as [|[k v] kvs IH]; [done|]. csimpl. by rewrite IH. Qed.

Lemma keys_ok_jeq a b : jeq a b → keys_ok a → keys_ok b.
Proof.
  induction 1 as [|a b c _ IH1 _ IH2|kvs kvs' Hp|ks1 k v v' ks2 _ IH|l1 v v' l2 _ IH];
    intros Hk; [done|by auto|..]; inversion_clear Hk as [| | | |? Hl|? Hnd Hf].
  - constructor; by rewrite <-Hp.
  - constructor.
    + rewrite fmap_app, fmap_cons in *. done.
    + rewrite !Forall_app, !Forall_cons in *. naive_solver.
  - constructor. rewrite !Forall_app, !Forall_cons in *. naive_solver.
Qed.

(** The canonical marshaller is deterministic: it gives the same bytes for
    every order in which Go may enumerate the maps of the tree. *)
Lemma marshal_jeq a b : jeq a b → keys_ok a → marshal a = marshal b.
Proof.
  induction 1 as [|a b c H1 IH1 _ IH2|kvs kvs' Hp|ks1 k v v' ks2 Hj IH|l1 v v' l2 Hj IH];
    intros Hk; [done| |..].
  - rewrite IH1 by done. apply IH2. by eapply keys_ok_jeq.
  - inversion_clear Hk as [| | | | |? Hnd Hf]. simpl. f_equal.
    apply list_to_map_proper; [by rewrite map_fst_marshal|by rewrite Hp].
  - inversion_clear Hk as [| | | | |? Hnd Hf].
    rewrite Forall_app, Forall_cons in Hf. simpl. do 2 f_equal.
    rewrite !map_app. simpl. rewrite IH; naive_solver.
  - inversion_clear Hk as [| | | |? Hf|]. rewrite Forall_app, Forall_cons in Hf.
    simpl. do 3 f_equal. rewrite !map_app. simpl. rewrite IH; naive_solver.
Qed.

(** * Strings round trip *)

Lemma is_ascii_false_range a : is_ascii a = false → 128 <= nat_of_ascii a.
Proof. unfold is_ascii. intros H%Nat.ltb_ge. done. Qed.

Lemma rune_lead_not_ascii a : nat_of_ascii a <? 128 = false →
  (nat_of_ascii a =? 34) = false ∧ (nat_of_ascii a =? 92) = false
  ∧ (nat_of_ascii a <? 32) = false ∧ is_ascii a = false.
Proof.
  intros H%Nat.ltb_ge. unfold is_ascii.
  repeat split; [apply Nat.eqb_neq|apply Nat.eqb_neq|apply Nat.ltb_ge|apply Nat.ltb_ge]; lia.
Qed.

Definition emit_to (t : string) (x : option (string * string)) : option (string * string) :=
  match x with Some (u, r) => Some (t +:+ u, r) | None => None end.

Lemma parse_escape_ascii fuel a t :
  is_ascii a = true →
  parse_str (S fuel) (escape_ascii a +:+ t) = emit_to (String a "") (parse_str fuel t).
Proof.
  destruct a as [[] [] [] [] [] [] [] []]; intros Ha; try discriminate Ha; reflexivity.
Qed.

Lemma unicode_escape_2028 t : unicode_escape ("2028" +:+ t) = Some (of_bytes [226;128;168], t).
Proof. by vm_compute. Qed.
Lemma unicode_escape_2029 t : unicode_escape ("2029" +:+ t) = Some (of_bytes [226;128;169], t).
Proof. by vm_compute. Qed.

Lemma byte_nat_of_ascii a n : nat_of_ascii a = n → a = byte n.
Proof. intros <-. unfold byte. by rewrite ascii_nat_embedding. Qed.

Lemma rune_len_2 a b t : rune2 a b = true → rune_len (String a (String b t)) = 2.
Proof. simpl. by intros ->. Qed.
Lemma rune_len_3 a b c t :
  rune2 a b = false → rune3 a b c = true → rune_len (String a (String b (String c t))) = 3.
Proof. simpl. by intros -> ->. Qed.
Lemma rune_len_4 a b c d t :
  rune2 a b = false → rune3 a b c = false → rune4 a b c d = true →
  rune_len (String a (String b (String c (String d t)))) = 4.
Proof. simpl. by intros -> -> ->. Qed.

(** One multi-byte rune at the front of the input. *)
Lemma parse_rune fuel (u t : string) a r :
  is_ascii a = false → u = String a r →
  (rune_len (u +:+ t) = String.length u ∧ 2 <= String.length u <= 4) →
  parse_str (S fuel) (u +:+ t) = emit_to u (parse_str fuel t).
Proof.
  intros Ha -> [Hlen Hb]. pose proof (rune_lead_not_ascii a Ha) as (H34 & H92 & H32 & _).
  change (String a r +:+ t) with (String a (r +:+ t)) in *.
  destruct r as [|b [|c [|d [|e r]]]]; simpl in Hb; try lia;
    cbn [parse_str]; rewrite H34, H92, H32, Ha, Hlen; done.
Qed.

Lemma utf8_cases a r :
  utf8_valid (String a r) = true →
  (is_ascii a = true ∧ utf8_valid r = true)
  ∨ (∃ b r2, is_ascii a = false ∧ r = String b r2 ∧ rune2 a b = true ∧ utf8_valid r2 = true)
  ∨ (∃ b c r3, is_ascii a = false ∧ r = String b (String c r3) ∧ rune2 a b = false
               ∧ rune3 a b c = true ∧ utf8_valid r3 = true)
  ∨ (∃ b c d r4, is_ascii a = false ∧ r = String b (String c (String d r4))
                 ∧ rune2 a b = false ∧ rune3 a b c = false ∧ rune4 a b c d = true
                 ∧ utf8_valid r4 = true).
Proof.
  cbn [utf8_valid]. intros Hv. destruct (is_ascii a) eqn:Ha; [by auto|]. right.
  destruct r as [|b r]; [done|]. cbn [rune_len] in Hv.
  destruct (rune2 a b) eqn:E2; [left; by exists b, r|right].
  destruct r as [|c r]; [done|].
  destruct (rune3 a b c) eqn:E3; [left; by exists b, c, r|right].
  destruct r as [|d r]; [done|]. destruct (rune4 a b c d) eqn:E4; [|done].
  by exists b, c, d, r.
Qed.

Lemma parse_escape_rune3 fuel a b c t :
  is_ascii a = false → rune2 a b = false → rune3 a b c = true →
  parse_str (S fuel) (escape_rune3 a b c +:+ t)
  = emit_to (String a (String b (String c ""))) (parse_str fuel t).
Proof.
  intros Ha H2 H3. unfold escape_rune3.
  destruct ((nat_of_ascii a =? 226) && (nat_of_ascii b =? 128) && (nat_of_ascii c =? 168)) eqn:E1.
  { apply andb_prop in E1 as [[E1%Nat.eqb_eq E2%Nat.eqb_eq]%andb_prop E3%Nat.eqb_eq].
    apply byte_nat_of_ascii in E1, E2, E3. subst.
    change ("\u2028" +:+ t) with (String "\" (String "u" ("2028" +:+ t))).
    cbn [parse_str]. by rewrite unicode_escape_2028. }
  destruct ((nat_of_ascii a =? 226) && (nat_of_ascii b =? 128) && (nat_of_ascii c =? 169)) eqn:E2.
  { apply andb_prop in E2 as [[E2%Nat.eqb_eq E3%Nat.eqb_eq]%andb_prop E4%Nat.eqb_eq].
    apply byte_nat_of_ascii in E2, E3, E4. subst.
    change ("\u2029" +:+ t) with (String "\" (String "u" ("2029" +:+ t))).
    cbn [parse_str]. by rewrite unicode_escape_2029. }
  eapply parse_rune; [done..|]. split; [by apply rune_len_3|simpl; lia].
Qed.

Lemma escape_length_pos a : 1 <= String.length (escape_ascii a).
Proof. unfold escape_ascii. repeat case_match; simpl; lia. Qed.

Lemma escape_ascii_cons a r : is_ascii a = true → escape (String a r) = escape_ascii a +:+ escape r.
Proof. intros H. cbn [escape]. by rewrite H. Qed.
Lemma escape_rune2_cons a b r :
  is_ascii a = false → rune2 a b = true →
  escape (String a (String b r)) = String a (String b (escape r)).
Proof. intros H1 H2. cbn [escape]. by rewrite H1, rune_len_2. Qed.
Lemma escape_rune3_cons a b c r :
  is_ascii a = false → rune2 a b = false → rune3 a b c = true →
  escape (String a (String b (String c r))) = escape_rune3 a b c +:+ escape r.
Proof. intros H1 H2 H3. cbn [escape]. by rewrite H1, rune_len_3. Qed.
Lemma escape_rune4_cons a b c d r :
  is_ascii a = false → rune2 a b = false → rune3 a b c = false → rune4 a b c d = true →
  escape (String a (String b (String c (String d r))))
  = String a (String b (String c (String d (escape r)))).
Proof. intros H1 H2 H3 H4. cbn [escape]. by rewrite H1, rune_len_4. Qed.

Lemma escape_rune3_length_pos a b c : 1 <= String.length (escape_rune3 a b c).
Proof. unfold escape_rune3. repeat case_match; simpl; lia. Qed.

Lemma emit_to_Some u s r : emit_to u (Some (s, r)) = Some ((u +:+ s), r).
Proof. done. Qed.

(** The parser reads an escaped string back, up to its closing quote. *)
Lemma parse_str_escape s rest fuel :
  utf8_valid s = true → String.length (escape s) < fuel →
  parse_str fuel (escape s +:+ dquote +:+ rest) = Some (s, rest).
Proof.
  remember (String.length s) as n eqn:Hn. revert s fuel Hn.
  induction (lt_wf n) as [n _ IH]; intros s fuel -> Hv Hf.
  destruct fuel as [|fuel]; [lia|]. destruct s as [|a r]; [done|].
  apply utf8_cases in Hv as
    [[Ha Hv]|[(b & r2 & Ha & -> & H2 & Hv)|[(b & c & r3 & Ha & -> & H2 & H3 & Hv)
    |(b & c & d & r4 & Ha & -> & H2 & H3 & H4 & Hv)]]].
  - rewrite escape_ascii_cons in * by done. rewrite string_length_app in Hf.
    pose proof (escape_length_pos a).
    rewrite string_app_assoc, parse_escape_ascii by done.
    by rewrite (IH (String.length r)) by (done || simpl; lia).
  - rewrite escape_rune2_cons in * by done. simpl in Hf.
    change (String a (String b (escape r2)) +:+ ?x)
      with (String a (String b "") +:+ (escape r2 +:+ x)).
    erewrite parse_rune; [|done|done|split; [by apply rune_len_2|simpl; lia]].
    by rewrite (IH (String.length r2)) by (done || simpl; lia).
  - rewrite escape_rune3_cons in * by done. rewrite string_length_app in Hf.
    pose proof (escape_rune3_length_pos a b c).
    rewrite string_app_assoc, parse_escape_rune3 by done.
    by rewrite (IH (String.length r3)) by (done || simpl; lia).
  - rewrite escape_rune4_cons in * by done. simpl in Hf.
    change (String a (String b (String c (String d (escape r4)))) +:+ ?x)
      with (String a (String b (String c (String d ""))) +:+ (escape r4 +:+ x)).
    erewrite parse_rune; [|done|done|split; [by apply rune_len_4|simpl; lia]].
    by rewrite (IH (String.length r4)) by (done || simpl; lia).
Qed.

(** * Trees round trip *)

(** A non-negative integer literal. *)
Definition num_lit (s : string) : bool :=
  match s with
  | String a r => if nat_of_ascii a =? 48 then bool_decide (r = "")
                  else bool_decide (span_digits s = (s, ""))
  | EmptyString => false
  end.

(** Trees whose text reads back: distinct keys, valid UTF-8, integer numbers. *)
Inductive tree_ok : json → Prop :=
  | to_null : tree_ok JNull
  | to_bool b : tree_ok (JBool b)
  | to_num s : num_lit s = true → tree_ok (JNum s)
  | to_str s : utf8_valid s = true → tree_ok (JStr s)
  | to_arr l : Forall tree_ok l → tree_ok (JArr l)
  | to_obj kvs : NoDup (kvs.*1) → Forall (λ kv, utf8_valid kv.1 = true ∧ tree_ok kv.2) kvs →
                 tree_ok (JObj kvs).

(** What may follow a value inside a text. *)
Definition delim (s : string) : bool :=
  match s with
  | EmptyString => true
  | String a _ => let n := nat_of_ascii a in (n =? 44) || (n =? 93) || (n =? 125)
  end.

Lemma span_digits_app d rest :
  span_digits d = (d, "") → delim rest = true → span_digits (d +:+ rest) = (d, rest).
Proof.
  intros Hd Hr. induction d as [|a d IH].
  - change ("" +:+ rest) with rest. destruct rest as [|b rest]; [done|].
    cbn [span_digits]. destruct (digit_val b) eqn:E; [|done].
    exfalso. revert Hr E. destruct b as [[] [] [] [] [] [] [] []]; vm_compute; done.
  - cbn [span_digits] in *. change (String a d +:+ rest) with (String a (d +:+ rest)).
    cbn [span_digits]. destruct (digit_val a); [|done].
    destruct (span_digits d) as [x y]. simplify_eq.
    destruct (span_digits (d +:+ rest)) as [x y].
    specialize (IH eq_refl). by simplify_eq.
Qed.

Lemma delim_frac_exp rest : delim rest = true →
  parse_frac rest = Some ("", rest) ∧ parse_exp rest = Some ("", rest).
Proof.
  destruct rest as [|a rest]; [done|].
  destruct a as [[] [] [] [] [] [] [] []]; intros H; try discriminate H; done.
Qed.

Lemma parse_num_lit s rest :
  num_lit s = true → delim rest = true → parse_num (s +:+ rest) = Some (s, rest).
Proof.
  intros Hs Hr. destruct (delim_frac_exp rest Hr) as [Hf He].
  destruct s as [|a r]; [done|]. unfold num_lit in Hs.
  change (String a r +:+ rest) with (String a (r +:+ rest)).
  destruct (nat_of_ascii a =? 48) eqn:E0.
  - apply Nat.eqb_eq, byte_nat_of_ascii in E0 as ->. apply bool_decide_eq_true in Hs as ->.
    change ("" +:+ rest) with rest. unfold parse_num.
    change (byte 48) with "0"%char. cbn. by rewrite Hf, He.
  - apply bool_decide_eq_true in Hs.
    assert (Hd : is_Some (digit_val a)).
    { cbn [span_digits] in Hs. destruct (digit_val a); [done|]. simplify_eq. }
    pose proof (span_digits_app _ _ Hs Hr) as Hsp.
    change (String a r +:+ rest) with (String a (r +:+ rest)) in Hsp.
    assert (Hh : parse_num (String a (r +:+ rest)) =
                 match parse_frac rest with
                 | None => None
                 | Some (f, s2) => match parse_exp s2 with
                                   | None => None
                                   | Some (e, s3) => Some ("" +:+ String a r +:+ f +:+ e, s3)
                                   end
                 end).
    { destruct Hd as [x Hd]. revert Hd Hsp E0. unfold parse_num.
      destruct a as [[] [] [] [] [] [] [] []]; intros Hd Hsp E0;
        try discriminate Hd; try discriminate E0; cbv beta iota; rewrite Hsp; reflexivity. }
    rewrite Hh, Hf, He. change ("" +:+ ?x) with x. by rewrite !string_app_nil_r.
Qed.

(** ** Objects: members in sorted order *)

Definition member_text (kv : string * json) : string :=
  marshal_string kv.1 +:+ ":" +:+ marshal kv.2.

Lemma marshal_obj_members kvs :
  NoDup (kvs.*1) → ∃ kvs', kvs' ≡ₚ kvs ∧ StronglySorted String.le (kvs'.*1)
    ∧ marshal (JObj kvs) = "{" +:+ join "," (member_text <$> kvs') +:+ "}".
Proof.
  intros Hnd.
  set (f := λ kv : string * json, match kv with (k, v) => (k, marshal v) end).
  set (m := list_to_map (map f kvs) : gmap string string).
  assert (Hk : sort_strings ((map_to_list m).*1) ≡ₚ kvs.*1).
  { rewrite sort_strings_perm. unfold m.
    rewrite map_to_list_to_map by (unfold f; by rewrite map_fst_marshal).
    unfold f. by rewrite map_fst_marshal. }
  destruct (Permutation_map_inv fst kvs Hk) as (kvs' & Hs & Hp).
  change (map fst kvs') with (kvs'.*1) in Hs.
  exists kvs'. split; [done|]. split; [rewrite <-Hs; apply sort_strings_sorted|].
  change (marshal (JObj kvs)) with (render_object m). unfold render_object, render_members.
  rewrite Hs. do 2 f_equal. f_equal. rewrite <-list_fmap_compose. apply list_fmap_ext.
  intros i [k v] Hi. unfold member_text; simpl. do 2 f_equal.
  assert (m !! k = Some (marshal v)) as ->; [|done].
  apply elem_of_list_to_map_1; [unfold f; by rewrite map_fst_marshal|].
  apply list_elem_of_In, in_map_iff. exists (k, v). split; [done|].
  apply list_elem_of_In. rewrite Hp. by eapply list_elem_of_lookup_2.
Qed.

Lemma jeq_members ks kvs kvs' :
  Forall2 (λ p q, p.1 = q.1 ∧ jeq p.2 q.2) kvs kvs' → jeq (JObj (ks ++ kvs)) (JObj (ks ++ kvs')).
Proof.
  intros H. revert ks. induction H as [|[k v] [k' v'] l l' [Hk Hv] _ IH]; intros ks; [constructor|].
  simpl in *. subst. eapply jeq_trans; [by apply jeq_member|].
  specialize (IH (ks ++ [(k', v')])). by rewrite <-!(assoc_L (++)) in IH.
Qed.

Lemma jeq_items ks l l' : Forall2 jeq l l' → jeq (JArr (ks ++ l)) (JArr (ks ++ l')).
Proof.
  intros H. revert ks. induction H as [|v v' l l' Hv _ IH]; intros ks; [constructor|].
  eapply jeq_trans; [by apply jeq_item|].
  specialize (IH (ks ++ [v'])). by rewrite <-!(assoc_L (++)) in IH.
Qed.

(** ** Reading a tree back *)

Lemma skip_ws_cons a r : is_ws a = false → skip_ws (String a r) = String a r.
Proof. simpl. by intros ->. Qed.

(** The first byte of a rendered tree. *)
Lemma marshal_head j : tree_ok j →
  ∃ a t, marshal j = String a t ∧ is_ws a = false ∧ a ≠ "]"%char.
Proof.
  destruct 1 as [|b|s Hs| | |]; try (by eexists _, _).
  - destruct b; by eexists _, _.
  - destruct s as [|a r]; [done|]. exists a, r. split; [done|]. simpl in Hs.
    destruct (nat_of_ascii a =? 48) eqn:E0.
    + by apply Nat.eqb_eq, byte_nat_of_ascii in E0 as ->.
    + apply bool_decide_eq_true in Hs. cbn [span_digits] in Hs.
      destruct (digit_val a) eqn:E; [|done].
      destruct a as [[] [] [] [] [] [] [] []]; try discriminate E; done.
Qed.

Definition reads_back (j : json) : Prop :=
  ∀ fuel rest, tree_ok j → delim rest = true → 2 * String.length (marshal j) + 1 <= fuel →
  ∃ j', parse_value fuel (marshal j +:+ rest) = Some (j', rest) ∧ jeq j j'.

Lemma parse_marshal_string s rest :
  utf8_valid s = true →
  parse_str (S (String.length (escape s +:+ dquote +:+ rest))) (escape s +:+ dquote +:+ rest)
  = Some (s, rest).
Proof. intros H. apply parse_str_escape; [done|]. rewrite string_length_app. lia. Qed.

Lemma marshal_string_app s t :
  marshal_string s +:+ t = String (byte 34) (escape s +:+ dquote +:+ t).
Proof. unfold marshal_string. by rewrite !string_app_assoc. Qed.

Lemma parse_elems_back l fuel rest :
  Forall reads_back l → Forall tree_ok l → l ≠ [] →
  2 * String.length (join "," (map marshal l)) + 2 <= fuel →
  ∃ l', parse_elems fuel (join "," (map marshal l) +:+ "]" +:+ rest) = Some (l', rest)
        ∧ Forall2 jeq l l'.
Proof.
  intros Hr Ht. revert fuel. induction l as [|v l IH]; intros fuel Hne Hf; [done|].
  inversion_clear Hr as [|?? Hv Hr']. inversion_clear Ht as [|?? Hvt Ht'].
  destruct fuel as [|fuel]; [lia|]. cbn [parse_elems]. destruct l as [|w l].
  - change (join "," (map marshal [v])) with (marshal v) in *.
    destruct (Hv fuel ("]" +:+ rest)) as (v' & Hp & Hj); [done|done|lia|].
    rewrite Hp. exists [v']. split; [done|by repeat constructor].
  - change (join "," (map marshal (v :: w :: l)))
      with (marshal v +:+ "," +:+ join "," (map marshal (w :: l))) in *.
    rewrite !string_length_app in Hf. simpl in Hf. rewrite !string_app_assoc.
    destruct (Hv fuel ("," +:+ join "," (map marshal (w :: l)) +:+ "]" +:+ rest))
      as (v' & Hp & Hj); [done|done|lia|].
    rewrite Hp. destruct (IH Hr' Ht' fuel) as (l' & Hl & Hjl); [done|simpl; lia|].
    change (skip_ws ("," +:+ ?x)) with ("," +:+ x).
    exists (v' :: l'). split; [|by constructor].
    change ("," +:+ ?x) with (String "," x). cbv iota. by rewrite Hl.
Qed.

Lemma length_member_text k v :
  String.length (member_text (k, v))
  = (String.length (marshal_string k) + 1 + String.length (marshal v)).
Proof. unfold member_text. rewrite !string_length_app. simpl. lia. Qed.

Lemma member_text_app k v t :
  member_text (k, v) +:+ t
  = String (byte 34) (escape k +:+ dquote +:+ (":" +:+ (marshal v +:+ t))).
Proof. unfold member_text. by rewrite string_app_assoc, marshal_string_app, !string_app_assoc. Qed.

Lemma parse_members_back kvs fuel rest :
  Forall (λ kv, reads_back kv.2) kvs →
  Forall (λ kv, utf8_valid kv.1 = true ∧ tree_ok kv.2) kvs → kvs ≠ [] →
  2 * String.length (join "," (member_text <$> kvs)) + 2 <= fuel →
  ∃ kvs', parse_members fuel (join "," (member_text <$> kvs) +:+ "}" +:+ rest) = Some (kvs', rest)
          ∧ Forall2 (λ p q, p.1 = q.1 ∧ jeq p.2 q.2) kvs kvs'.
Proof.
  intros Hr Ht. revert fuel. induction kvs as [|[k v] l IH]; intros fuel Hne Hf; [done|].
  inversion_clear Hr as [|?? Hv Hr']. inversion_clear Ht as [|?? [Hk Hvt] Ht']. simpl in Hv, Hk, Hvt.
  destruct fuel as [|fuel]; [lia|].
  assert (Hstep : ∀ tail, delim tail = true → 2 * String.length (marshal v) + 1 <= fuel → ∃ v',
    parse_value fuel (marshal v +:+ tail) = Some (v', tail) ∧ jeq v v') by auto.
  destruct l as [|kv' l].
  - change (join "," (member_text <$> [(k, v)])) with (member_text (k, v)) in *.
    rewrite length_member_text in Hf.
    destruct (Hstep ("}" +:+ rest)) as (v' & Hp & Hj); [done|lia|].
    exists [(k, v')]. split; [|by repeat constructor].
    rewrite member_text_app. cbn [parse_members].
    rewrite skip_ws_cons by done. change (nat_of_ascii (byte 34) =? 34) with true. cbv iota.
    rewrite parse_marshal_string by done.
    change (":" +:+ ?x) with (String ":" x). rewrite skip_ws_cons by done. by rewrite Hp.
  - change (join "," (member_text <$> (k, v) :: kv' :: l))
      with (member_text (k, v) +:+ "," +:+ join "," (member_text <$> kv' :: l)) in *.
    rewrite !string_length_app, length_member_text in Hf. change (String.length ",") with 1 in Hf.
    destruct (Hstep ("," +:+ join "," (member_text <$> kv' :: l) +:+ "}" +:+ rest))
      as (v' & Hp & Hj); [done|lia|].
    destruct (IH Hr' Ht' fuel) as (l' & Hl & Hjl); [done|lia|].
    exists ((k, v') :: l'). split; [|by constructor].
    rewrite !string_app_assoc, member_text_app. cbn [parse_members].
    rewrite skip_ws_cons by done. change (nat_of_ascii (byte 34) =? 34) with true. cbv iota.
    rewrite parse_marshal_string by done.
    change (":" +:+ ?x) with (String ":" x). rewrite skip_ws_cons by done. rewrite Hp.
    change ("," +:+ ?x) with (String "," x). rewrite skip_ws_cons by done. by rewrite Hl.
Qed.

(** The parser reads a rendered tree back, up to the order of map members. *)
Lemma parse_value_marshal j : reads_back j.
Proof.
  induction j as [|b|s|s|l IH|kvs IH] using json_tree_ind;
    intros fuel rest Hok Hd Hf; (destruct fuel as [|fuel]; [lia|]).
  - exists JNull. split; [|constructor].
    assert (Hc : cut_prefix "null" ("null" +:+ rest) = Some rest) by by apply cut_prefix_Some.
    change (marshal JNull +:+ rest) with (String "n" ("ull" +:+ rest)). cbn [parse_value].
    rewrite skip_ws_cons by done. simpl Nat.eqb. cbv iota.
    change ("null" +:+ rest) with (String "n" ("ull" +:+ rest)) in Hc. by rewrite Hc.
  - exists (JBool b). split; [|constructor]. destruct b.
    + assert (Hc : cut_prefix "true" ("true" +:+ rest) = Some rest) by by apply cut_prefix_Some.
      change ("true" +:+ rest) with (String "t" ("rue" +:+ rest)) in Hc.
      change (marshal (JBool true) +:+ rest) with (String "t" ("rue" +:+ rest)).
      cbn [parse_value]. rewrite skip_ws_cons by done. simpl Nat.eqb. cbv iota. by rewrite Hc.
    + assert (Hc : cut_prefix "false" ("false" +:+ rest) = Some rest) by by apply cut_prefix_Some.
      change ("false" +:+ rest) with (String "f" ("alse" +:+ rest)) in Hc.
      change (marshal (JBool false) +:+ rest) with (String "f" ("alse" +:+ rest)).
      cbn [parse_value]. rewrite skip_ws_cons by done. simpl Nat.eqb. cbv iota. by rewrite Hc.
  - exists (JNum s). split; [|constructor]. inversion_clear Hok as [| |? Hs| | |].
    pose proof (parse_num_lit s rest Hs Hd) as Hp. simpl marshal.
    destruct (marshal_head (JNum s)) as (a & t & Heq & Hws & _); [by constructor|].
    simpl in Heq. subst s. change (String a t +:+ rest) with (String a (t +:+ rest)) in *.
    unfold num_lit in Hs. cbn [span_digits] in Hs.
    destruct (digit_val a) eqn:E.
    + destruct a as [[] [] [] [] [] [] [] []]; try discriminate E; cbn [parse_value];
        rewrite skip_ws_cons by done; simpl; by rewrite Hp.
    + exfalso. destruct (nat_of_ascii a =? 48) eqn:E0.
      * by apply Nat.eqb_eq, byte_nat_of_ascii in E0 as ->.
      * by apply bool_decide_eq_true in Hs.
  - inversion_clear Hok as [| | |? Hs| |]. exists (JStr s). split; [|constructor].
    simpl marshal. rewrite marshal_string_app. cbn [parse_value].
    rewrite skip_ws_cons by done. change (nat_of_ascii (byte 34) =? 34) with true. cbv iota.
    by rewrite parse_marshal_string.
  - inversion_clear Hok as [| | | |? Hl|]. simpl marshal in *.
    rewrite !string_length_app in Hf. change (String.length "[") with 1 in Hf.
    change (String.length "]") with 1 in Hf.
    destruct l as [|v l]; [exists (JArr []); split; [done|constructor]|].
    rewrite !string_app_assoc. change ("[" +:+ ?x) with (String "[" x). cbn [parse_value].
    rewrite skip_ws_cons by done. simpl Nat.eqb. cbv iota.
    destruct (parse_elems_back (v :: l) fuel rest) as (l' & Hp & Hj); [done|done|done|lia|].
    inversion_clear Hl as [|?? Hv _].
    destruct (marshal_head v Hv) as (a & t & Heq & Hws & Hne).
    assert (Hsk : ∃ t', join "," (map marshal (v :: l)) +:+ "]" +:+ rest = String a t').
    { destruct l; [change (join "," (map marshal [v])) with (marshal v)
                  |change (join "," (map marshal (v :: j :: l)))
                     with (marshal v +:+ "," +:+ join "," (map marshal (j :: l)))];
        rewrite Heq; by eexists. }
    destruct Hsk as [t' Ht']. rewrite Ht' in *. rewrite skip_ws_cons by done.
    exists (JArr l'). split; [|by apply (jeq_items [])].
    destruct a as [[] [] [] [] [] [] [] []]; try (by rewrite Hp). by destruct Hne.
  - inversion_clear Hok as [| | | | |? Hnd Hall].
    destruct (marshal_obj_members kvs Hnd) as (ks & Hp & _ & Hm). rewrite Hm in *.
    rewrite !string_length_app in Hf. change (String.length "{") with 1 in Hf.
    change (String.length "}") with 1 in Hf.
    destruct ks as [|kv ks].
    { apply Permutation_nil_l in Hp. subst kvs. exists (JObj []). split; [done|constructor]. }
    rewrite !string_app_assoc. change ("{" +:+ ?x) with (String "{" x). cbn [parse_value].
    rewrite skip_ws_cons by done. simpl Nat.eqb. cbv iota.
    destruct (parse_members_back (kv :: ks) fuel rest) as (kvs' & Hpm & Hj);
      [by rewrite Hp|by rewrite Hp|done|lia|].
    assert (Hsk : ∃ t', join "," (member_text <$> kv :: ks) +:+ "}" +:+ rest = String (byte 34) t').
    { destruct kv as [k v]. destruct ks as [|kv2 ks];
        [change (join "," (member_text <$> [(k, v)])) with (member_text (k, v))
        |change (join "," (member_text <$> (k, v) :: kv2 :: ks))
           with (member_text (k, v) +:+ "," +:+ join "," (member_text <$> kv2 :: ks));
         rewrite string_app_assoc];
        rewrite member_text_app; by eexists. }
    destruct Hsk as [t' Ht']. rewrite Ht' in *. rewrite skip_ws_cons by done.
    change (byte 34) with (Ascii false true false false false true false false) in *.
    cbv iota beta. rewrite Hpm. exists (JObj kvs'). split; [done|].
    eapply jeq_trans; [by apply jeq_perm|]. by apply (jeq_members []).
Qed.

(** json.Unmarshal after json.Marshal gives the tree back, up to the order in
    which its maps are enumerated. *)
Lemma unmarshal_marshal j : tree_ok j → ∃ j', unmarshal (marshal j) = Some j' ∧ jeq j j'.
Proof.
  intros Hok. unfold unmarshal.
  destruct (parse_value_marshal j (2 * String.length (marshal j) + 2) "") as (j' & Hp & Hj);
    [done|done|lia|].
  rewrite string_app_nil_r in Hp. rewrite Hp. by exists j'.
Qed.

Lemma tree_ok_keys_ok j : tree_ok j → keys_ok j.
Proof.
  induction j as [| | | |l IH|kvs IH] using json_tree_ind; intros H;
    inversion_clear H; constructor; try done; rewrite Forall_forall in *; naive_solver.
Qed.

(** * Maps of strings *)

Open Scope string_scope.

Definition str_member (kv : string * json) : Prop := ∃ s, kv.2 = JStr s.

Lemma jeq_flat a b :
  jeq a b → ∀ kvs, a = JObj kvs → Forall str_member kvs → ∃ kvs', b = JObj kvs' ∧ kvs' ≡ₚ kvs.
Proof.
  induction 1 as [j|a b c _ IH1 _ IH2|l l' Hp|l1 k v v' l2 Hj _|l1 v v' l2 Hj _]; intros kvs Ha Hs.
  - by exists kvs.
  - destruct (IH1 kvs Ha Hs) as (kvs1 & -> & Hp1).
    destruct (IH2 kvs1 eq_refl) as (kvs2 & -> & Hp2); [by rewrite Hp1|].
    exists kvs2. split; [done|]. by rewrite Hp2.
  - injection Ha as <-. by exists l'.
  - injection Ha as <-. apply Forall_app in Hs as [_ [[s Hs] _]%Forall_cons]. simpl in Hs. subst v.
    assert (v' = JStr s) as ->; [|by eexists].
    clear -Hj. remember (JStr s) as j eqn:E. revert s E. induction Hj; naive_solver.
  - done.
Qed.

Definition insert_all (m : gmap string string) (kvs : list (string * string)) : gmap string string :=
  foldl (λ m kv, <[kv.1 := kv.2]> m) m kvs.

Lemma flat_members_strings kvs m :
  flat_members (prod_map id JStr <$> kvs) m = Some (insert_all m kvs).
Proof. revert m. induction kvs as [|[k v] kvs IH]; intros m; [done|]. simpl. apply IH. Qed.

Lemma insert_all_other kvs m k : k ∉ kvs.*1 → insert_all m kvs !! k = m !! k.
Proof.
  revert m. induction kvs as [|[k' v'] kvs IH]; intros m Hk; [done|]. csimpl in *.
  change (insert_all (<[k':=v']> m) kvs !! k = m !! k).
  rewrite IH by set_solver. by rewrite lookup_insert_ne by set_solver.
Qed.

Lemma insert_all_lookup kvs m k v :
  NoDup kvs.*1 → (k, v) ∈ kvs → insert_all m kvs !! k = Some v.
Proof.
  revert m. induction kvs as [|[k' v'] kvs IH]; intros m Hnd Hin; [by apply elem_of_nil in Hin|].
  csimpl in *. apply NoDup_cons in Hnd as [Hni Hnd].
  change (insert_all (<[k':=v']> m) kvs !! k = Some v).
  apply elem_of_cons in Hin as [Hin|Hin]; [|by apply IH].
  injection Hin as -> ->. rewrite insert_all_other by done. by rewrite lookup_insert_eq.
Qed.

Lemma insert_all_map kvs m : kvs ≡ₚ map_to_list m → insert_all ∅ kvs = m.
Proof.
  intros Hp. assert (Hnd : NoDup kvs.*1) by (rewrite Hp; apply NoDup_fst_map_to_list).
  apply map_eq. intros k. destruct (m !! k) as [v|] eqn:E.
  - apply insert_all_lookup; [done|]. rewrite Hp. by apply elem_of_map_to_list.
  - rewrite insert_all_other; [apply lookup_empty|]. rewrite Hp.
    intros ([k' v] & -> & Hin%elem_of_map_to_list)%list_elem_of_fmap. by simplify_eq/=.
Qed.

Lemma marshal_flat_tree m :
  marshal_flat m = marshal (JObj (prod_map id JStr <$> map_to_list m)).
Proof.
  unfold marshal_flat. cbn [marshal]. f_equal. apply map_eq. intros k. rewrite lookup_fmap.
  assert (Hk : (map (λ kv : string * json, match kv with (k, v) => (k, marshal v) end)
                 (prod_map id JStr <$> map_to_list m)).*1 = (map_to_list m).*1).
  { rewrite map_fst_marshal, <-list_fmap_compose. by apply list_fmap_ext. }
  destruct (m !! k) as [v|] eqn:E; symmetry.
  - apply elem_of_list_to_map_1; [rewrite Hk; apply NoDup_fst_map_to_list|].
    apply list_elem_of_fmap. exists (k, JStr v). split; [done|].
    apply list_elem_of_fmap. exists (k, v). split; [done|]. by apply elem_of_map_to_list.
  - apply not_elem_of_list_to_map_1. rewrite Hk.
    intros ([k' v] & -> & Hin%elem_of_map_to_list)%list_elem_of_fmap. by simplify_eq/=.
Qed.

(** A map of valid UTF-8 strings reads back. *)
Lemma unmarshal_marshal_flat m :
  map_Forall (λ k v, utf8_valid k = true ∧ utf8_valid v = true) m →
  unmarshal_flat (marshal_flat m) = Some m.
Proof.
  intros Hm. rewrite marshal_flat_tree. set (kvs := prod_map id JStr <$> map_to_list m).
  assert (Hok : tree_ok (JObj kvs)).
  { constructor.
    - unfold kvs. rewrite <-list_fmap_compose. erewrite list_fmap_ext; [apply NoDup_fst_map_to_list|done].
    - apply Forall_fmap, Forall_forall. intros [k v] Hin%elem_of_map_to_list.
      destruct (Hm k v Hin). split; [done|by constructor]. }
  destruct (unmarshal_marshal _ Hok) as (j & Hj & Hjeq). unfold unmarshal_flat. rewrite Hj.
  destruct (jeq_flat _ _ Hjeq kvs eq_refl) as (kvs' & -> & Hp).
  { apply Forall_fmap, Forall_forall. intros [k v] _. by exists v. }
  unfold kvs in Hp. apply Permutation_map_inv in Hp as (l & -> & Hl).
  etrans; [apply (flat_members_strings l)|]. f_equal. by apply insert_all_map.
Qed.
