(* ===== verification/AuditEvents.v ===== *)
(** The audit event schema and its JSON (internal/audit/types.go,
    canonical.go, vlogs.go): events built from the flat lines VictoriaLogs
    returns, the extra fields no schema declares, MarshalJSON, the canonical
    JSON of events and manifests, and the object keys of an export window. *)
From S2P Require Import Prelude Strings GoTime Json JsonFacts.
From Stdlib Require Import Ascii.

Open Scope string_scope.
Open Scope nat_scope.

Definition StreamTenantAuditLog : string := "tenant-audit-log".
Definition StreamPlatformAuditLog : string := "platform-audit-log".
Definition TenantPlatform : string := "PLATFORM".
Definition ManifestVersion : string := "1".
Definition EventSchemaVersion : string := "1".
Definition SigningAlgorithmHMAC : string := "HMAC-SHA256".

(** * Times *)

(** msTime: an instant that is written with milliseconds. *)
Definition msTime := Z.

(** The zero time.Time, 0001-01-01T00:00:00Z. *)
Definition zero_time : msTime := (- 62135596800 * second)%Z.

(** [msTime.MarshalJSON]: the quoted text, which has nothing to escape. *)
Definition msTime_marshal (t : msTime) : string := dquote +:+ fmt_millis t +:+ dquote.

(** [msTime.UnmarshalJSON] on the text [b]: it drops the first and the last
    byte and tries the layouts, which accept the texts of [parse_rfc3339]. *)
Definition msTime_unmarshal (b : string) : result msTime :=
  if String.length b <? 2 then Err (EText ("invalid time: " +:+ b))
  else let s := String.substring 1 (String.length b - 2) b in
       match parse_rfc3339 s with
       | Some t => Ok t
       | None => Err (EText ("cannot parse time " +:+ quote s))
       end.

(** * The schema *)

Record Action := { act_outcome : string; act_verb : string }.
Record Actor := { actor_id : string; actor_type : string }.
Record Authorization := { authz_decision : string; authz_policy : string; authz_reason : string }.
Record Source := { src_ip : string; src_origin : string; src_user_agent : string }.
Record Target := {
  tgt_apiVersion : string; tgt_cluster : string; tgt_kind : string;
  tgt_name : string; tgt_namespace : string; tgt_subresource : string }.

(** Extra holds raw JSON texts by key; a nil map is the empty one. *)
Record AuditEvent := {
  ev_action : Action;
  ev_actor : Actor;
  ev_audit_policy_version : string;
  ev_authorization : Authorization;
  ev_cluster_audit_policy_version : string;
  ev_correlation_id : string;
  ev_event_id : string;
  ev_justification : string;
  ev_schema_version : string;
  ev_source : Source;
  ev_target : Target;
  ev_tenant : string;
  ev_time : msTime;
  ev_extra : gmap string string }.

Definition str_fields (fields : list (string * string)) : string :=
  struct_text (prod_map id marshal_string <$> fields).

Definition action_fields (a : Action) : list (string * string) :=
  [("outcome", act_outcome a); ("verb", act_verb a)].
Definition actor_fields (a : Actor) : list (string * string) :=
  [("id", actor_id a); ("type", actor_type a)].
Definition authorization_fields (a : Authorization) : list (string * string) :=
  [("decision", authz_decision a); ("policy", authz_policy a); ("reason", authz_reason a)].
Definition source_fields (s : Source) : list (string * string) :=
  [("ip", src_ip s); ("origin", src_origin s); ("user_agent", src_user_agent s)].
Definition target_fields (t : Target) : list (string * string) :=
  [("apiVersion", tgt_apiVersion t); ("cluster", tgt_cluster t); ("kind", tgt_kind t);
   ("name", tgt_name t); ("namespace", tgt_namespace t); ("subresource", tgt_subresource t)].

(** The declared fields, each with its JSON text. *)
Definition auditEventFields (e : AuditEvent) : list (string * string) :=
  [("action", str_fields (action_fields (ev_action e)));
   ("actor", str_fields (actor_fields (ev_actor e)));
   ("audit_policy_version", marshal_string (ev_audit_policy_version e));
   ("authorization", str_fields (authorization_fields (ev_authorization e)));
   ("cluster_audit_policy_version", marshal_string (ev_cluster_audit_policy_version e));
   ("correlation_id", marshal_string (ev_correlation_id e));
   ("event_id", marshal_string (ev_event_id e));
   ("justification", marshal_string (ev_justification e));
   ("schema_version", marshal_string (ev_schema_version e));
   ("source", str_fields (source_fields (ev_source e)));
   ("target", str_fields (target_fields (ev_target e)));
   ("tenant", marshal_string (ev_tenant e));
   ("time", msTime_marshal (ev_time e))].

(** [AuditEvent.MarshalJSON].  The members of the marshalled declared fields,
    read back as raw messages, are the texts of the fields. *)
Definition AuditEvent_MarshalJSON (e : AuditEvent) : string :=
  let fields := auditEventFields e in
  if decide (ev_extra e = ∅) then struct_text fields
  else
    let m : gmap string string := list_to_map fields in
    render_object (m ∪ ev_extra e).

(** * Canonical JSON *)

(** [marshalSorted]: the explicit recursion of the source, for a map the loop
    over the sorted keys, for a slice the loop over the items. *)
Fixpoint marshalSorted (v : json) : string :=
  match v with
  | JObj kvs =>
      let texts : gmap string string :=
        list_to_map (map (λ kv, match kv with (k, x) => (k, marshalSorted x) end) kvs) in
      let keys := sort_strings ((map_to_list texts).*1) in
      let fix loop (first : bool) (ks : list string) : string :=
        match ks with
        | [] => ""
        | k :: r => (if first then "" else ",") +:+ marshal_string k +:+ ":"
                    +:+ default "" (texts !! k) +:+ loop false r
        end in
      "{" +:+ loop true keys +:+ "}"
  | JArr l =>
      let fix loop (first : bool) (items : list json) : string :=
        match items with
        | [] => ""
        | x :: r => (if first then "" else ",") +:+ marshalSorted x +:+ loop false r
        end in
      "[" +:+ loop true l +:+ "]"
  | _ => marshal v
  end.

(** [marshalCanonical] of a value whose [json.Marshal] is [raw]. *)
Definition marshalCanonical (raw : string) : result string :=
  match unmarshal raw with
  | Some tree => Ok (marshalSorted tree)
  | None => Err (EText "unmarshal to interface tree")
  end.

(** * Nested extra fields *)

(** A [map[string]interface{}] whose values are strings or such maps. *)
Inductive tree := Leaf (s : string) | Node (m : gmap string tree).

(** [setNested]; [strings.Split] never returns an empty list. *)
Fixpoint setNested (m : gmap string tree) (parts : list string) (value : string)
    : gmap string tree :=
  match parts with
  | [] => m
  | [p] => <[p := Leaf value]> m
  | p :: rest =>
      let sub := match m !! p with Some (Node s) => s | _ => ∅ end in
      <[p := Node (setNested sub rest value)]> m
  end.

(** [json.Marshal] of such a value: an enumeration of the map is any list of
    its entries, the marshaller sorts the keys. *)
Fixpoint tree_json (t : tree) : json :=
  match t with
  | Leaf s => JStr s
  | Node m => JObj (map_to_list (tree_json <$> m))
  end.

Definition knownFlatKeys : gset string := list_to_set
  ["_time"; "_stream_id"; "_msg"; "time"; "tenant"; "audit_policy_version";
   "cluster_audit_policy_version"; "correlation_id"; "event_id"; "justification";
   "schema_version"; "action.outcome"; "action.verb"; "actor.id"; "actor.type";
   "authorization.decision"; "authorization.policy"; "authorization.reason";
   "source.ip"; "source.origin"; "source.user_agent"; "target.apiVersion";
   "target.cluster"; "target.kind"; "target.name"; "target.namespace";
   "target.subresource"].

(** [unflattenExtra], the range over the map [f] visiting its entries in the
    order of [order]. *)
Definition extra_step (known : gset string) (nested : gmap string tree) (kv : string * string)
    : gmap string tree :=
  if decide (kv.1 ∈ known) then nested
  else setNested nested (split_char "."%char kv.1) kv.2.
Definition nestExtra (order : list (string * string)) (known : gset string) : gmap string tree :=
  foldl (extra_step known) ∅ order.
Definition unflattenExtra (order : list (string * string)) (known : gset string)
    : gmap string string :=
  (λ t, marshal (tree_json t)) <$> nestExtra order known.

Definition tenantOrPlatform (tenant : string) : string :=
  if decide (tenant = "") then TenantPlatform else tenant.

(** Reading an absent key of a [map[string]string] gives the empty string. *)
Definition get (f : gmap string string) (k : string) : string := default "" (f !! k).

Definition event_time (f : gmap string string) : result msTime :=
  if decide (get f "time" = "") then
    if decide (get f "_time" = "") then Ok zero_time
    else wrap_err ("parse event _time " +:+ quote (get f "_time"))
           (msTime_unmarshal (dquote +:+ get f "_time" +:+ dquote))
  else wrap_err ("parse event time " +:+ quote (get f "time"))
         (msTime_unmarshal (dquote +:+ get f "time" +:+ dquote)).

(** [flatToAuditEvent]. *)
Definition flatToAuditEvent (f : gmap string string) (order : list (string * string))
    : result AuditEvent :=
  try t := event_time f in
  Ok {| ev_action := {| act_outcome := get f "action.outcome"; act_verb := get f "action.verb" |};
        ev_actor := {| actor_id := get f "actor.id"; actor_type := get f "actor.type" |};
        ev_audit_policy_version := get f "audit_policy_version";
        ev_authorization := {| authz_decision := get f "authorization.decision";
                               authz_policy := get f "authorization.policy";
                               authz_reason := get f "authorization.reason" |};
        ev_cluster_audit_policy_version := get f "cluster_audit_policy_version";
        ev_correlation_id := get f "correlation_id";
        ev_event_id := get f "event_id";
        ev_justification := get f "justification";
        ev_schema_version := get f "schema_version";
        ev_source := {| src_ip := get f "source.ip"; src_origin := get f "source.origin";
                        src_user_agent := get f "source.user_agent" |};
        ev_target := {| tgt_apiVersion := get f "target.apiVersion";
                        tgt_cluster := get f "target.cluster"; tgt_kind := get f "target.kind";
                        tgt_name := get f "target.name"; tgt_namespace := get f "target.namespace";
                        tgt_subresource := get f "target.subresource" |};
        ev_tenant := tenantOrPlatform (get f "tenant");
        ev_time := t;
        ev_extra := unflattenExtra order knownFlatKeys |}.

(** * Queries *)

Definition buildLogsQL (tenant : string) : string :=
  if decide (tenant = TenantPlatform)
  then "tenant:" +:+ dquote +:+ "PLATFORM" +:+ dquote +:+ " OR tenant:" +:+ dquote +:+ dquote
  else "tenant:" +:+ quote tenant.

(** The filter of [DiscoverTenants]. *)
Definition audit_tenants (all : list string) : list string :=
  filter (λ v, v ≠ "" ∧ v ≠ TenantPlatform) all.

(** * Manifest and window *)

Record DataFileMeta := { df_name : string; df_sha256 : string; df_size : Z }.

Record Manifest := {
  mf_audit_policy_versions : list string;
  mf_cluster_audit_policy_versions : list string;
  mf_created_at : msTime;
  mf_data_file : DataFileMeta;
  mf_event_count : Z;
  mf_event_schema_version : string;
  mf_kms_key_id : string;
  mf_manifest_version : string;
  mf_previous_sha256 : string;
  mf_producer : string;
  mf_signing_algorithm : string;
  mf_stream : string;
  mf_tenant : string;
  mf_window_end : msTime;
  mf_window_start : msTime }.

(** The fields of the manifest, each with its JSON value. *)
Definition data_file_fields (d : DataFileMeta) : list (string * json) :=
  [("name", JStr (df_name d)); ("sha256", JStr (df_sha256 d));
   ("size_bytes", JNum (itoa (df_size d)))].
Definition manifest_fields (m : Manifest) : list (string * json) :=
  [("audit_policy_versions", JArr (JStr <$> mf_audit_policy_versions m));
   ("cluster_audit_policy_versions", JArr (JStr <$> mf_cluster_audit_policy_versions m));
   ("created_at", JStr (fmt_millis (mf_created_at m)));
   ("data_file", JObj (data_file_fields (mf_data_file m)));
   ("event_count", JNum (itoa (mf_event_count m)));
   ("event_schema_version", JStr (mf_event_schema_version m));
   ("kms_key_id", JStr (mf_kms_key_id m));
   ("manifest_version", JStr (mf_manifest_version m));
   ("previous_manifest_sha256", JStr (mf_previous_sha256 m));
   ("producer", JStr (mf_producer m));
   ("signing_algorithm", JStr (mf_signing_algorithm m));
   ("stream", JStr (mf_stream m));
   ("tenant", JStr (mf_tenant m));
   ("window_end", JStr (fmt_millis (mf_window_end m)));
   ("window_start", JStr (fmt_millis (mf_window_start m)))].

(** [json.Marshal(manifest)]: the fields are declared in sorted order, which
    is the order [marshal] gives an object. *)
Definition manifest_json (m : Manifest) : string := marshal (JObj (manifest_fields m)).

Record ExportWindow := { w_stream : string; w_tenant : string; w_start : Z; w_end : Z }.

Definition S3KeyPrefix (w : ExportWindow) (prefix : string) : string :=
  let rest := w_stream w +:+ "/" +:+ w_tenant w +:+ "/" +:+ fmt_path (w_start w) +:+ "/" in
  if decide (prefix = "") then rest else prefix +:+ "/" +:+ rest.
