(* ===== verification/AuditEventFacts.v ===== *)
(** What holds of audit events and their canonical JSON: the encoder against
    encoding/json, the order in which a Go map is visited, the extra fields,
    and the object keys of windows. *)
From S2P Require Import Prelude Strings GoTime Json JsonFacts AuditEvents.
From Stdlib Require Import Ascii.

Open Scope string_scope.
Open Scope nat_scope.

(** * The encoder *)

Lemma join_loop (f : string → string) ks :
  (fix loop (first : bool) (ks : list string) : string :=
     match ks with
     | [] => ""
     | k :: r => (if first then "" else ",") +:+ marshal_string k +:+ ":" +:+ f k +:+ loop false r
     end) true ks
  = join "," ((λ k, marshal_string k +:+ ":" +:+ f k) <$> ks).
Proof.
  match goal with |- ?F true _ = _ => set (loop := F) end.
  assert (Hf : ∀ ks k, loop false (k :: ks)
    = "," +:+ join "," ((λ k, marshal_string k +:+ ":" +:+ f k) <$> (k :: ks))).
  { clear. intros ks. induction ks as [|k' ks IH]; intros k.
    - simpl. by rewrite string_app_nil_r.
    - change (loop false (k :: k' :: ks)) with
        ("," +:+ marshal_string k +:+ ":" +:+ f k +:+ loop false (k' :: ks)).
      rewrite IH. csimpl. unfold join. cbn [String.concat].
      by rewrite !string_app_assoc. }
  destruct ks as [|k [|k' ks]]; [done| |].
  - simpl. by rewrite string_app_nil_r.
  - change (loop true (k :: k' :: ks)) with
      (marshal_string k +:+ ":" +:+ f k +:+ loop false (k' :: ks)).
    rewrite Hf. csimpl. unfold join. cbn [String.concat]. by rewrite !string_app_assoc.
Qed.

Lemma join_items (f : json → string) l :
  (fix loop (first : bool) (items : list json) : string :=
     match items with
     | [] => ""
     | x :: r => (if first then "" else ",") +:+ f x +:+ loop false r
     end) true l
  = join "," (map f l).
Proof.
  match goal with |- ?F true _ = _ => set (loop := F) end.
  assert (Hf : ∀ l x, loop false (x :: l) = "," +:+ join "," (map f (x :: l))).
  { clear. intros l. induction l as [|y l IH]; intros x.
    - simpl. by rewrite string_app_nil_r.
    - change (loop false (x :: y :: l)) with ("," +:+ f x +:+ loop false (y :: l)).
      rewrite IH. csimpl. unfold join. by cbn [String.concat]. }
  destruct l as [|x [|y l]]; [done| |].
  - simpl. by rewrite string_app_nil_r.
  - change (loop true (x :: y :: l)) with (f x +:+ loop false (y :: l)).
    by rewrite Hf.
Qed.

(** The hand-written encoder writes what json.Marshal writes. *)
Lemma marshalSorted_eq j : marshalSorted j = marshal j.
Proof.
  induction j as [| | | |l IH|kvs IH] using json_tree_ind; try done.
  - cbn [marshalSorted marshal]. rewrite join_items.
    assert (map marshalSorted l = map marshal l) as ->; [|done].
    clear -IH. induction IH as [|x l Hx _ IHl]; [done|]. simpl. by rewrite Hx, IHl.
  - cbn [marshalSorted marshal]. unfold render_object, render_members.
    assert (Hm : map (λ kv : string * json, match kv with (k, x) => (k, marshalSorted x) end) kvs
               = map (λ kv : string * json, match kv with (k, x) => (k, marshal x) end) kvs).
    { clear -IH. induction IH as [|[k x] l Hx _ IHl]; [done|]. simpl in *. by rewrite Hx, IHl. }
    rewrite Hm. clear Hm. set (m := list_to_map _ : gmap string string).
    by rewrite (join_loop (λ k, default "" (m !! k))).
Qed.

(** * Rendering structs *)

Lemma struct_text_render fields :
  NoDup fields.*1 → sort_strings fields.*1 = fields.*1 →
  struct_text fields = render_object (list_to_map fields).
Proof.
  intros Hnd Hs. unfold struct_text, render_object, render_members.
  rewrite (sort_strings_proper _ fields.*1), Hs
    by (by rewrite map_to_list_to_map).
  do 3 f_equal. rewrite <-list_fmap_compose. apply list_fmap_ext.
  intros i [k v] Hi. simpl. do 2 f_equal.
  rewrite (elem_of_list_to_map_1 fields k v); [done|done|].
  by apply list_elem_of_lookup_2 in Hi.
Qed.

Lemma marshal_obj_map (m : gmap string json) :
  marshal (JObj (map_to_list m)) = render_object (marshal <$> m).
Proof.
  cbn [marshal]. f_equal. apply map_eq. intros k. rewrite lookup_fmap.
  assert (Hk : (map (λ kv : string * json, match kv with (k, v) => (k, marshal v) end)
                  (map_to_list m)).*1 = (map_to_list m).*1) by apply map_fst_marshal.
  destruct (m !! k) as [x|] eqn:E; simpl.
  - apply elem_of_list_to_map_1; [rewrite Hk; apply NoDup_fst_map_to_list|].
    apply list_elem_of_fmap. exists (k, x). split; [done|]. by apply elem_of_map_to_list.
  - apply not_elem_of_list_to_map_1. rewrite Hk. intros Hin.
    apply list_elem_of_fmap in Hin as ([k' v] & -> & Hin).
    apply elem_of_map_to_list in Hin. by simplify_eq/=.
Qed.

(** * Nested extra fields *)

(** The value a tree of maps has at a path. *)
Fixpoint get_path (m : gmap string tree) (p : list string) : option string :=
  match p with
  | [] => None
  | [k] => match m !! k with Some (Leaf v) => Some v | _ => None end
  | k :: r => match m !! k with Some (Node s) => get_path s r | _ => None end
  end.

(** Neither path leads through the other. *)
Definition apart (p q : list string) : Prop := ¬ p `prefix_of` q ∧ ¬ q `prefix_of` p.

Lemma apart_cons k p q : apart (k :: p) (k :: q) → apart p q.
Proof. intros [H1 H2]. split; intros H; [apply H1|apply H2]; by apply prefix_cons. Qed.

Lemma apart_nil_l q : ¬ apart [] q.
Proof. intros [H _]. apply H, prefix_nil. Qed.
Lemma apart_nil_r q : ¬ apart q [].
Proof. intros [_ H]. apply H, prefix_nil. Qed.

Lemma apart_sym p q : apart p q → apart q p.
Proof. by intros [? ?]. Qed.

(** The map below [k], as setNested continues in it. *)
Definition sub_of (m : gmap string tree) (k : string) : gmap string tree :=
  match m !! k with Some (Node s) => s | _ => ∅ end.

Lemma setNested_cons m k p v :
  p ≠ [] → setNested m (k :: p) v = <[k := Node (setNested (sub_of m k) p v)]> m.
Proof. by destruct p. Qed.

Lemma setNested_at m k p v : ∃ t, setNested m (k :: p) v = <[k := t]> m.
Proof. destruct p; simpl; eauto. Qed.

Lemma sub_of_insert m k t : sub_of (<[k := t]> m) k = match t with Node s => s | _ => ∅ end.
Proof. unfold sub_of. by rewrite lookup_insert_eq. Qed.
Lemma sub_of_insert_ne m k k' t : k ≠ k' → sub_of (<[k := t]> m) k' = sub_of m k'.
Proof. intros. unfold sub_of. by rewrite lookup_insert_ne. Qed.

Lemma setNested_insert_ne m k k' t p v :
  k ≠ k' → setNested (<[k := t]> m) (k' :: p) v = <[k := t]> (setNested m (k' :: p) v).
Proof.
  intros Hk. destruct p as [|x p].
  - simpl. by apply insert_insert_ne.
  - rewrite !setNested_cons, sub_of_insert_ne by done. by apply insert_insert_ne.
Qed.

(** Two paths that are apart can be set in either order. *)
Lemma setNested_commute p q v w m :
  apart p q → setNested (setNested m p v) q w = setNested (setNested m q w) p v.
Proof.
  revert q m. induction p as [|k p IH]; intros [|k' q] m Ha;
    [by apply apart_nil_l in Ha|by apply apart_nil_l in Ha|by apply apart_nil_r in Ha|].
  destruct (decide (k = k')) as [<-|Hne].
  - apply apart_cons in Ha as Ha'.
    assert (p ≠ []) by (intros ->; by apply apart_nil_l in Ha').
    assert (q ≠ []) by (intros ->; by apply apart_nil_r in Ha').
    rewrite !setNested_cons, !sub_of_insert, !insert_insert_eq by done.
    by rewrite IH.
  - destruct (setNested_at m k p v) as [t Ht].
    rewrite Ht, setNested_insert_ne by done.
    destruct (setNested_at m k' q w) as [u Hu].
    rewrite Hu, setNested_insert_ne, Ht by done. by apply insert_insert_ne.
Qed.

Lemma get_path_empty p : get_path ∅ p = None.
Proof. by destruct p as [|k [|k' p]]. Qed.

Lemma get_path_cons m k p : p ≠ [] → get_path m (k :: p) = get_path (sub_of m k) p.
Proof.
  destruct p as [|k' p]; [done|]. intros _. unfold sub_of.
  change (match m !! k with Some (Node s) => get_path s (k' :: p) | _ => None end
          = get_path (match m !! k with Some (Node s) => s | _ => ∅ end) (k' :: p)).
  by destruct (m !! k) as [[]|]; rewrite ?get_path_empty.
Qed.

Lemma get_setNested p v m : p ≠ [] → get_path (setNested m p v) p = Some v.
Proof.
  revert m. induction p as [|k [|k' p] IH]; intros m Hp; [done| |].
  - simpl. by rewrite lookup_insert_eq.
  - rewrite setNested_cons, get_path_cons, sub_of_insert by done. by apply IH.
Qed.

Lemma get_setNested_apart p q v m :
  apart p q → get_path (setNested m q v) p = get_path m p.
Proof.
  revert q m. induction p as [|k p IH]; intros [|k' q] m Ha;
    [by apply apart_nil_l in Ha|by apply apart_nil_l in Ha|by apply apart_nil_r in Ha|].
  destruct (decide (k = k')) as [<-|Hne].
  - apply apart_cons in Ha as Ha'.
    assert (p ≠ []) by (intros ->; by apply apart_nil_l in Ha').
    assert (q ≠ []) by (intros ->; by apply apart_nil_r in Ha').
    rewrite setNested_cons, !get_path_cons, sub_of_insert by done. by apply IH.
  - destruct (setNested_at m k' q v) as [t ->].
    destruct p; cbn [get_path]; by rewrite lookup_insert_ne.
Qed.

(** The extra keys of a flat record lead to places of their own. *)
Definition extra_apart (known : gset string) (order : list (string * string)) : Prop :=
  ∀ kv kv', kv ∈ order → kv' ∈ order → kv.1 ∉ known → kv'.1 ∉ known → kv.1 ≠ kv'.1 →
  apart (split_char "."%char kv.1) (split_char "."%char kv'.1).

Lemma extra_step_commute known m a b :
  (a.1 ∉ known → b.1 ∉ known → apart (split_char "."%char a.1) (split_char "."%char b.1)) →
  extra_step known (extra_step known m a) b = extra_step known (extra_step known m b) a.
Proof. intros Ha. unfold extra_step. repeat case_decide; try done. by apply setNested_commute, Ha. Qed.

Lemma nest_perm known order order' m :
  order ≡ₚ order' → NoDup order.*1 → extra_apart known order →
  foldl (extra_step known) m order = foldl (extra_step known) m order'.
Proof.
  intros Hp Hnd Hap. apply foldl_perm; [|done]. intros m' x y Hx Hy.
  destruct (decide (x.1 = y.1)) as [E|Hne].
  - assert (x = y) as ->; [|done].
    apply list_elem_of_lookup in Hx as [i Hi], Hy as [j Hj].
    assert (i = j) as ->; [|congruence].
    apply (NoDup_lookup order.*1 i j x.1); [done|by rewrite list_lookup_fmap, Hi|].
    by rewrite list_lookup_fmap, Hj, E.
  - apply extra_step_commute. intros Hkx Hky. by apply Hap.
Qed.

Lemma nest_get known order m k v :
  NoDup order.*1 → extra_apart known order → (k, v) ∈ order → k ∉ known →
  get_path (foldl (extra_step known) m order) (split_char "."%char k) = Some v.
Proof.
  revert m. induction order as [|[k' v'] order IH]; intros m Hnd Hap Hin Hk;
    [by apply elem_of_nil in Hin|].
  csimpl in *. apply NoDup_cons in Hnd as [Hnin Hnd].
  apply elem_of_cons in Hin as [Heq|Hin]; simplify_eq/=.
  - assert (Hrest : ∀ l m, (∀ a, a ∈ l → a ∈ order) →
      get_path m (split_char "."%char k') = Some v' →
      get_path (foldl (extra_step known) m l) (split_char "."%char k') = Some v').
    { intros l. induction l as [|a l IHl]; intros m' Hl Hg; [done|]. simpl.
      apply IHl; [intros; apply Hl; by right|].
      unfold extra_step. case_decide; [done|].
      rewrite get_setNested_apart; [done|].
      apply (Hap (k', v') a); [by left|right; apply Hl; by left|done|done|].
      intros E. apply Hnin. apply list_elem_of_fmap. exists a. split; [done|]. apply Hl. by left. }
    apply Hrest; [done|]. unfold extra_step. rewrite decide_False by done.
    apply get_setNested, split_char_nonempty.
  - apply IH; try done. intros a b Ha Hb. apply Hap; by right.
Qed.

(** * Valid text *)

Fixpoint str_all (P : ascii → bool) (s : string) : bool :=
  match s with EmptyString => true | String a r => P a && str_all P r end.

Lemma str_all_app P a b : str_all P (a +:+ b) = str_all P a && str_all P b.
Proof.
  induction a as [|x a IH]; [done|]. change (String x a +:+ b) with (String x (a +:+ b)).
  simpl. by rewrite IH, andb_assoc.
Qed.
Lemma str_all_impl (P Q : ascii → bool) s :
  (∀ a, P a = true → Q a = true) → str_all P s = true → str_all Q s = true.
Proof. intros H. induction s as [|a s IH]; [done|]. simpl. rewrite !andb_true_iff. naive_solver. Qed.

Lemma str_all_utf8 s : str_all is_ascii s = true → utf8_valid s = true.
Proof. induction s as [|a s IH]; [done|]. cbn [str_all utf8_valid]. by destruct (is_ascii a). Qed.

Definition is_digit (a : ascii) : bool := bool_decide (is_Some (digit_val a)).
Lemma is_digit_ascii a : is_digit a = true → is_ascii a = true.
Proof. destruct a as [[] [] [] [] [] [] [] []]; by vm_compute. Qed.

Lemma pretty_go_digits x s : str_all is_digit s = true → str_all is_digit (pretty_N_go x s) = true.
Proof.
  revert s. induction (N.lt_wf_0 x) as [x _ IH]; intros s Hs.
  destruct (decide (x = 0)%N) as [->|Hx]; [by rewrite pretty_N_go_0|].
  rewrite pretty_N_go_step by lia. apply IH; [apply N.div_lt; lia|].
  cbn [str_all]. rewrite Hs. unfold is_digit.
  by rewrite digit_val_char by (apply N.mod_lt; lia).
Qed.

Lemma itoa_digits n : (0 <= n)%Z → str_all is_digit (itoa n) = true.
Proof. intros H. rewrite itoa_nonneg by done. case_decide; [done|]. by apply pretty_go_digits. Qed.

Lemma zeros_digits k : str_all is_digit (zeros k) = true.
Proof. by induction k. Qed.

Lemma pad_int_ascii w n : str_all is_ascii (pad_int w n) = true.
Proof.
  assert (H : str_all is_ascii (zeros (w - String.length (itoa (Z.abs n))) +:+ itoa (Z.abs n)) = true).
  { apply (str_all_impl is_digit); [apply is_digit_ascii|].
    rewrite str_all_app, zeros_digits, itoa_digits by lia. done. }
  unfold pad_int. case_match; [|done]. rewrite str_all_app, H. done.
Qed.

Lemma fmt_millis_utf8 t : utf8_valid (fmt_millis t) = true.
Proof.
  apply str_all_utf8. unfold fmt_millis, fmt_date, fmt_clock, fmt_hh.
  rewrite !str_all_app, !pad_int_ascii. done.
Qed.

Lemma pretty_go_head x s : (x ≠ 0)%N →
  ∃ a r, pretty_N_go x s = String a r ∧ nat_of_ascii a ≠ 48.
Proof.
  revert s. induction (N.lt_wf_0 x) as [x _ IH]; intros s Hx.
  rewrite pretty_N_go_step by lia.
  destruct (decide (x / 10 = 0)%N) as [E|E].
  - rewrite E, pretty_N_go_0. eexists _, _. split; [done|].
    assert (x < 10)%N as Hlt by (apply N.div_small_iff in E; lia).
    rewrite N.mod_small by done.
    assert (x ∈ [1;2;3;4;5;6;7;8;9]%N) as Hd by (rewrite !elem_of_cons; lia).
    repeat (apply elem_of_cons in Hd as [->|Hd]; [by vm_compute|]). by apply not_elem_of_nil in Hd.
  - apply IH; [apply N.div_lt; lia|done].
Qed.

Lemma span_all_digits s : str_all is_digit s = true → span_digits s = (s, "").
Proof.
  induction s as [|a s IH]; [done|]. cbn [str_all span_digits].
  rewrite andb_true_iff. intros [Ha Hs]. unfold is_digit in Ha.
  apply bool_decide_eq_true in Ha as [d Hd]. by rewrite Hd, IH.
Qed.

(** A printed natural number is a JSON number literal. *)
Lemma num_lit_itoa n : (0 <= n)%Z → num_lit (itoa n) = true.
Proof.
  intros Hn. pose proof (itoa_digits n Hn) as Hd. rewrite itoa_nonneg in * by done.
  case_decide; [done|].
  destruct (pretty_go_head (Z.to_N n) "") as (a & r & E & Ha); [lia|].
  rewrite E in *. unfold num_lit. apply Nat.eqb_neq in Ha. rewrite Ha.
  by apply bool_decide_eq_true, span_all_digits.
Qed.

(** Every segment of valid text is valid: the bytes of a longer rune are no
    separators. *)
Lemma split_utf8 c s x :
  is_ascii c = true → utf8_valid s = true → x ∈ split_char c s → utf8_valid x = true.
Proof.
  intros Hc. remember (String.length s) as n eqn:Hn. revert s x Hn.
  induction (lt_wf n) as [n _ IH]; intros s x -> Hs Hx.
  assert (Hne : ∀ b, is_ascii b = false → Ascii.eqb b c = false).
  { intros b Hb. apply Ascii.eqb_neq. intros ->. congruence. }
  assert (Hcont : ∀ b, is_cont b = true → is_ascii b = false).
  { intros [[] [] [] [] [] [] [] []]; by vm_compute. }
  assert (Hhead : ∀ t (r : string), String.length r < String.length s → utf8_valid r = true →
    (∀ u, utf8_valid u = true → utf8_valid (t +:+ u) = true) →
    x ∈ match split_char c r with [] => [t] | h :: l => (t +:+ h) :: l end →
    utf8_valid x = true).
  { intros t r Hlen Hr Ht Hin. pose proof (IH _ Hlen r) as IHr.
    pose proof (split_char_nonempty c r). destruct (split_char c r) as [|h l]; [done|].
    apply elem_of_cons in Hin as [->|Hin].
    - apply Ht, IHr; [done|done|by left].
    - apply IHr; [done|done|by right]. }
  destruct s as [|a r]; [apply list_elem_of_singleton in Hx; by subst|].
  apply utf8_cases in Hs as [[Ha Hr]|[(b & r2 & Ha & -> & H2 & Hr)|[(b & c3 & r3 & Ha & -> & H2 & H3 & Hr)
    |(b & c3 & d & r4 & Ha & -> & H2 & H3 & H4 & Hr)]]].
  - cbn [split_char] in Hx. destruct (Ascii.eqb a c).
    + apply elem_of_cons in Hx as [->|Hx]; [done|]. by apply (IH (String.length r)) with r; simpl; auto.
    + apply (Hhead (String a "") r); [simpl; lia|done| |by destruct (split_char c r)].
      intros u Hu. change (String a "" +:+ u) with (String a u). cbn [utf8_valid]. by rewrite Ha.
  - assert (is_ascii b = false) as Hb by (apply Hcont; by apply andb_prop in H2 as [_ ?]).
    cbn [split_char] in Hx. rewrite !Hne in Hx by done.
    apply (Hhead (String a (String b "")) r2); [simpl; lia|done| |].
    + intros u Hu. change (String a (String b "") +:+ u) with (String a (String b u)).
      cbn [utf8_valid]. by rewrite Ha, rune_len_2.
    + by destruct (split_char c r2).
  - assert (is_ascii b = false ∧ is_ascii c3 = false) as [Hb Hc3].
    { clear -H3. revert H3. unfold rune3, in_range, is_cont, is_ascii.
      rewrite !andb_true_iff, !orb_true_iff, !andb_true_iff, !Nat.leb_le, !Nat.ltb_ge. lia. }
    cbn [split_char] in Hx. rewrite !Hne in Hx by done.
    apply (Hhead (String a (String b (String c3 ""))) r3); [simpl; lia|done| |].
    + intros u Hu. change (String a (String b (String c3 "")) +:+ u) with (String a (String b (String c3 u))).
      cbn [utf8_valid]. by rewrite Ha, rune_len_3.
    + by destruct (split_char c r3).
  - assert (is_ascii b = false ∧ is_ascii c3 = false ∧ is_ascii d = false) as (Hb & Hc3 & Hd).
    { clear -H4. revert H4. unfold rune4, in_range, is_cont, is_ascii.
      rewrite !andb_true_iff, !orb_true_iff, !andb_true_iff, !Nat.leb_le, !Nat.ltb_ge. lia. }
    cbn [split_char] in Hx. rewrite !Hne in Hx by done.
    apply (Hhead (String a (String b (String c3 (String d "")))) r4); [simpl; lia|done| |].
    + intros u Hu. change (String a (String b (String c3 (String d "")) ) +:+ u)
        with (String a (String b (String c3 (String d u)))).
      cbn [utf8_valid]. by rewrite Ha, rune_len_4.
    + by destruct (split_char c r4).
Qed.

(** * Values inside a tree *)

(** The value at a path of member names. *)
Fixpoint json_get (j : json) (p : list string) : option json :=
  match p with
  | [] => Some j
  | k :: r => match j with
              | JObj kvs => match (list_to_map kvs : gmap string json) !! k with
                            | Some v => json_get v r
                            | None => None
                            end
              | _ => None
              end
  end.

Lemma jeq_str_inv j j' : jeq j j' → ∀ s, j = JStr s → j' = JStr s.
Proof. induction 1; naive_solver. Qed.

(** Looking a string up does not depend on the order of the members. *)
Lemma json_get_jeq a b p s :
  jeq a b → keys_ok a → json_get a p = Some (JStr s) → json_get b p = Some (JStr s).
Proof.
  intros H. revert p. induction H as [|a b c H1 IH1 _ IH2|kvs kvs' Hp|ks1 k v v' ks2 Hj IH|l1 v v' l2 Hj IH];
    intros p Hk; [done| |..].
  - intros Hg. apply IH2; [by apply (keys_ok_jeq a b)|by apply IH1].
  - inversion_clear Hk as [| | | | |? Hnd Hf]. destruct p as [|x p]; [done|]. cbn [json_get].
    by rewrite (list_to_map_proper kvs kvs') by done.
  - inversion_clear Hk as [| | | | |? Hnd Hf]. destruct p as [|x p]; [done|]. cbn [json_get].
    rewrite Forall_app, Forall_cons in Hf. destruct Hf as (_ & Hv & _).
    rewrite fmap_app, fmap_cons in Hnd.
    apply NoDup_app in Hnd as (_ & Hn1 & _).
    rewrite !list_to_map_app, !list_to_map_cons, !lookup_union.
    destruct (decide (x = k)) as [->|Hne].
    + rewrite (not_elem_of_list_to_map_1 ks1 k) by (intros ?; by eapply Hn1; [done|left]).
      rewrite !lookup_insert_eq, !(left_id_L None _). by apply IH.
    + by rewrite !lookup_insert_ne.
  - by destruct p.
Qed.

Lemma obj_lookup (m : gmap string json) k r :
  json_get (JObj (map_to_list m)) (k :: r) = m !! k ≫= λ v, json_get v r.
Proof. cbn [json_get]. rewrite list_to_map_to_list. by destruct (m !! k). Qed.

(** A tree of nested maps reads the same as JSON. *)
Lemma tree_get m p v :
  get_path m p = Some v → json_get (tree_json (Node m)) p = Some (JStr v).
Proof.
  revert m. induction p as [|k p IH]; intros m Hg; [done|].
  cbn [tree_json]. rewrite obj_lookup, lookup_fmap.
  destruct p as [|k' p].
  - cbn [get_path] in Hg. by destruct (m !! k) as [[]|]; simplify_eq/=.
  - rewrite get_path_cons in Hg by done. unfold sub_of in Hg.
    destruct (m !! k) as [[s|s]|]; rewrite ?get_path_empty in Hg; [done| |done].
    exact (IH s Hg).
Qed.

(** * Valid nested maps *)

Inductive nest_ok : tree → Prop :=
  | no_leaf s : utf8_valid s = true → nest_ok (Leaf s)
  | no_node m : map_Forall (λ k t, utf8_valid k = true ∧ nest_ok t) m → nest_ok (Node m).

Definition members_ok (m : gmap string tree) : Prop :=
  map_Forall (λ k t, utf8_valid k = true ∧ nest_ok t) m.

Lemma obj_ok (m : gmap string json) :
  map_Forall (λ k j, utf8_valid k = true ∧ tree_ok j) m → tree_ok (JObj (map_to_list m)).
Proof.
  intros H. constructor; [apply NoDup_fst_map_to_list|].
  apply Forall_forall. intros [k j] Hin%elem_of_map_to_list. by apply H.
Qed.

Fixpoint nest_ok_tree_ok (t : tree) (H : nest_ok t) {struct H} : tree_ok (tree_json t).
Proof.
  destruct H as [s Hs|m Hm].
  - by constructor.
  - cbn [tree_json]. apply obj_ok. intros k j. rewrite lookup_fmap.
    intros (t & E & ->)%fmap_Some. destruct (Hm k t E) as [Hk Ht].
    split; [done|]. by apply nest_ok_tree_ok.
Qed.

Lemma setNested_ok m p v :
  Forall (λ x, utf8_valid x = true) p → utf8_valid v = true →
  members_ok m → members_ok (setNested m p v).
Proof.
  intros Hp Hv. revert m. induction Hp as [|k p Hk Hp IH]; intros m Hm; [done|].
  destruct p as [|k' p].
  - simpl. apply map_Forall_insert_2; [|done]. split; [done|by constructor].
  - rewrite setNested_cons by done. apply map_Forall_insert_2; [|done]. split; [done|].
    constructor. apply IH. unfold sub_of.
    destruct (m !! k) as [[s|s]|] eqn:E; [apply map_Forall_empty| |apply map_Forall_empty].
    destruct (Hm _ _ E) as [_ Ht]. by inversion Ht.
Qed.

(** The flat records: every key and value is valid UTF-8. *)
Definition flat_ok (f : gmap string string) : Prop :=
  map_Forall (λ k v, utf8_valid k = true ∧ utf8_valid v = true) f.

Lemma nest_members_ok known order m :
  Forall (λ kv, utf8_valid kv.1 = true ∧ utf8_valid kv.2 = true) order →
  members_ok m → members_ok (foldl (extra_step known) m order).
Proof.
  intros Ho. revert m. induction Ho as [|[k v] order [Hk Hv] _ IH]; intros m Hm; [done|].
  simpl. apply IH. unfold extra_step. case_decide; [done|].
  apply setNested_ok; [|done|done]. apply Forall_forall. intros x Hx. by apply (split_utf8 "."%char k).
Qed.

(** * Events as trees *)

Definition obj (fields : list (string * json)) : json :=
  JObj (map_to_list (list_to_map fields : gmap string json)).
Definition str_obj (fields : list (string * string)) : json := obj (prod_map id JStr <$> fields).

Definition event_members (e : AuditEvent) : list (string * json) :=
  [("action", str_obj (action_fields (ev_action e)));
   ("actor", str_obj (actor_fields (ev_actor e)));
   ("audit_policy_version", JStr (ev_audit_policy_version e));
   ("authorization", str_obj (authorization_fields (ev_authorization e)));
   ("cluster_audit_policy_version", JStr (ev_cluster_audit_policy_version e));
   ("correlation_id", JStr (ev_correlation_id e));
   ("event_id", JStr (ev_event_id e));
   ("justification", JStr (ev_justification e));
   ("schema_version", JStr (ev_schema_version e));
   ("source", str_obj (source_fields (ev_source e)));
   ("target", str_obj (target_fields (ev_target e)));
   ("tenant", JStr (ev_tenant e));
   ("time", JStr (fmt_millis (ev_time e)))].

(** The tree an event stands for: its declared members, then its extras. *)
Definition event_tree (e : AuditEvent) (x : gmap string tree) : json :=
  JObj (map_to_list (list_to_map (event_members e) ∪ (tree_json <$> x))).

Lemma list_to_map_texts (l : list (string * json)) :
  (list_to_map (prod_map id marshal <$> l) : gmap string string)
  = marshal <$> (list_to_map l : gmap string json).
Proof. induction l as [|[k v] l IH]; csimpl; [by rewrite fmap_empty|]. by rewrite IH, fmap_insert. Qed.

Lemma str_fields_obj fields :
  NoDup fields.*1 → sort_strings fields.*1 = fields.*1 →
  str_fields fields = marshal (str_obj fields).
Proof.
  intros Hnd Hs. unfold str_fields, str_obj, obj.
  assert (Hk : (prod_map id marshal_string <$> fields).*1 = fields.*1).
  { rewrite <-list_fmap_compose. by apply list_fmap_ext. }
  rewrite struct_text_render, marshal_obj_map by (by rewrite Hk).
  rewrite <-list_to_map_texts. do 2 f_equal.
  rewrite <-list_fmap_compose. by apply list_fmap_ext.
Qed.

Lemma msTime_marshal_eq t : msTime_marshal t = marshal (JStr (fmt_millis t)).
Proof.
  cbn [marshal]. unfold msTime_marshal, marshal_string. do 2 f_equal.
  assert (H : ∀ s, str_all (λ a, is_digit a || bool_decide (a ∈ ["-";"T";":";".";"Z"]%char)) s = true →
              escape s = s).
  { induction s as [|a s IH]; [done|]. cbn [str_all]. rewrite andb_true_iff. intros [Ha Hs].
    assert (is_ascii a = true ∧ escape_ascii a = String a "") as [H1 H2].
    { revert Ha. clear. destruct a as [[] [] [] [] [] [] [] []]; by vm_compute. }
    cbn [escape]. rewrite H1, H2, IH by done. done. }
  assert (Hp : ∀ w n, str_all (λ a, is_digit a || bool_decide (a ∈ ["-";"T";":";".";"Z"]%char))
                        (pad_int w n) = true).
  { intros w n. set (P := λ a, _).
    assert (Hd : str_all P (zeros (w - String.length (itoa (Z.abs n))) +:+ itoa (Z.abs n)) = true).
    { apply (str_all_impl is_digit); [intros a Ha; unfold P; by rewrite Ha|].
      rewrite str_all_app, zeros_digits, itoa_digits by lia. done. }
    unfold pad_int. case_match; [|done]. rewrite str_all_app, Hd. done. }
  symmetry. apply H. unfold fmt_millis, fmt_date, fmt_clock, fmt_hh.
  rewrite !str_all_app, !Hp. done.
Qed.

Lemma auditEventFields_eq e : auditEventFields e = prod_map id marshal <$> event_members e.
Proof.
  unfold auditEventFields, event_members. cbn [fmap list_fmap prod_map id fst snd].
  rewrite !str_fields_obj, msTime_marshal_eq; [done|..];
    solve [apply (bool_decide_unpack _); by vm_compute|by vm_compute].
Qed.

(** MarshalJSON writes the tree of the event: the declared fields win over
    extra members of the same name. *)
Lemma MarshalJSON_tree e x :
  ev_extra e = (λ t, marshal (tree_json t)) <$> x →
  AuditEvent_MarshalJSON e = marshal (event_tree e x).
Proof.
  intros Hx. unfold AuditEvent_MarshalJSON, event_tree. rewrite marshal_obj_map.
  assert (Hs : struct_text (auditEventFields e) = render_object (list_to_map (auditEventFields e))).
  { apply struct_text_render; [apply (bool_decide_unpack _)|]; by vm_compute. }
  rewrite auditEventFields_eq, list_to_map_texts in *. case_decide as E.
  - rewrite Hs. rewrite E in Hx. symmetry in Hx. apply fmap_empty_inv in Hx as ->.
    by rewrite fmap_empty, (right_id_L ∅ _).
  - rewrite map_fmap_union. do 2 f_equal. rewrite Hx. by rewrite <-map_fmap_compose.
Qed.

Definition action_ok (e : AuditEvent) : Prop :=
  Forall (λ s, utf8_valid s = true)
    ((action_fields (ev_action e)).*2 ++ (actor_fields (ev_actor e)).*2
     ++ (authorization_fields (ev_authorization e)).*2 ++ (source_fields (ev_source e)).*2
     ++ (target_fields (ev_target e)).*2
     ++ [ev_audit_policy_version e; ev_cluster_audit_policy_version e; ev_correlation_id e;
         ev_event_id e; ev_justification e; ev_schema_version e; ev_tenant e]).

Lemma str_obj_ok fields :
  Forall (λ k, utf8_valid k = true) fields.*1 → Forall (λ s, utf8_valid s = true) fields.*2 →
  tree_ok (str_obj fields).
Proof.
  intros Hk Hv. apply obj_ok. intros k j Hin%elem_of_list_to_map_2.
  apply list_elem_of_fmap in Hin as ([k' v] & Heq & Hin). simplify_eq/=.
  rewrite !Forall_fmap, !Forall_forall in Hk, Hv.
  split; [by apply (Hk (k', v))|constructor; by apply (Hv (k', v))].
Qed.

Lemma event_tree_ok e x : action_ok e → members_ok x → tree_ok (event_tree e x).
Proof.
  intros He Hx. apply obj_ok. intros k j Hj.
  apply lookup_union_Some_raw in Hj as [Hj|[_ Hj]].
  - apply elem_of_list_to_map_2 in Hj. unfold action_ok in He.
    rewrite !Forall_app in He. destruct He as (H1 & H2 & H3 & H4 & H5 & H6).
    repeat (apply Forall_cons in H6 as [? H6]).
    unfold event_members in Hj. repeat (apply elem_of_cons in Hj as [Hj|Hj]; [simplify_eq|]);
      try (split; [done|]); try (by constructor; rewrite ?fmt_millis_utf8);
      try (apply str_obj_ok; [by repeat constructor|done]). by apply elem_of_nil in Hj.
  - rewrite lookup_fmap in Hj. apply fmap_Some in Hj as (t & E & ->).
    destruct (Hx k t E) as [Hk Ht]. split; [done|]. by apply nest_ok_tree_ok.
Qed.

(** * Reading an event back *)

Lemma event_member e x k j r :
  (k, j) ∈ event_members e → json_get (event_tree e x) (k :: r) = json_get j r.
Proof.
  intros Hin. unfold event_tree. rewrite obj_lookup.
  rewrite (lookup_union_Some_l _ _ _ j); [done|].
  apply elem_of_list_to_map_1; [|done]. apply (bool_decide_unpack _). by vm_compute.
Qed.

Lemma event_extra e x k r :
  k ∉ (event_members e).*1 →
  json_get (event_tree e x) (k :: r) = (x !! k) ≫= λ t, json_get (tree_json t) r.
Proof.
  intros Hk. unfold event_tree. rewrite obj_lookup, lookup_union_r.
  - rewrite lookup_fmap. by destruct (x !! k).
  - by apply not_elem_of_list_to_map_1.
Qed.

Lemma str_obj_get fields k s :
  NoDup fields.*1 → (k, s) ∈ fields → json_get (str_obj fields) [k] = Some (JStr s).
Proof.
  intros Hnd Hin. unfold str_obj, obj. rewrite obj_lookup.
  rewrite (elem_of_list_to_map_1 _ k (JStr s)); [done| |].
  - rewrite <-list_fmap_compose. erewrite list_fmap_ext; [exact Hnd|done].
  - apply list_elem_of_fmap. by exists (k, s).
Qed.

Fixpoint assoc {A} (k : string) (l : list (string * A)) : option A :=
  match l with
  | [] => None
  | (k', v) :: r => if String.eqb k k' then Some v else assoc k r
  end.

Lemma assoc_elem {A} k (l : list (string * A)) v : assoc k l = Some v → (k, v) ∈ l.
Proof.
  induction l as [|[k' v'] l IH]; [done|]. cbn [assoc]. destruct (String.eqb k k') eqn:E.
  - apply String.eqb_eq in E as ->. intros [= ->]. by left.
  - intros H. right. by apply IH.
Qed.

Lemma event_assoc e x k j r :
  assoc k (event_members e) = Some j → json_get (event_tree e x) (k :: r) = json_get j r.
Proof. intros H%assoc_elem. by apply event_member. Qed.

Lemma event_assoc2 e x k fields k' s :
  assoc k (event_members e) = Some (str_obj fields) → bool_decide (NoDup fields.*1) = true →
  assoc k' fields = Some s → json_get (event_tree e x) [k; k'] = Some (JStr s).
Proof.
  intros H1 H2%bool_decide_eq_true H3%assoc_elem. rewrite (event_assoc _ _ _ _ _ H1).
  by apply str_obj_get.
Qed.

Lemma flat_get_ok f k : flat_ok f → utf8_valid (get f k) = true.
Proof.
  intros H. unfold get. destruct (f !! k) eqn:E; [|done]. by destruct (H _ _ E).
Qed.

Lemma flat_event_ok f order e : flat_ok f → flatToAuditEvent f order = Ok e → action_ok e.
Proof.
  intros Hf He. unfold flatToAuditEvent in He. inv_result.
  unfold action_ok. simpl. repeat (constructor; [by apply flat_get_ok|]).
  constructor; [|done]. unfold tenantOrPlatform. case_decide; [done|]. by apply flat_get_ok.
Qed.

Lemma flat_event_extra f order e :
  flatToAuditEvent f order = Ok e →
  ev_extra e = (λ t, marshal (tree_json t)) <$> nestExtra order knownFlatKeys.
Proof. unfold flatToAuditEvent. intros He. by inv_result. Qed.

Lemma order_ok f order :
  flat_ok f → order ≡ₚ map_to_list f →
  Forall (λ kv, utf8_valid kv.1 = true ∧ utf8_valid kv.2 = true) order.
Proof.
  intros Hf ->. apply Forall_forall. intros [k v] Hin%elem_of_map_to_list. by apply Hf.
Qed.

(** The canonical line of an event built from a valid flat record is the text
    of its tree, and reads back as that tree. *)
Lemma canonical_line f order e :
  flat_ok f → order ≡ₚ map_to_list f → flatToAuditEvent f order = Ok e →
  let tr := event_tree e (nestExtra order knownFlatKeys) in
  tree_ok tr ∧ marshalCanonical (AuditEvent_MarshalJSON e) = Ok (marshal tr)
  ∧ ∃ j, unmarshal (marshal tr) = Some j ∧ jeq tr j.
Proof.
  intros Hf Ho He tr.
  assert (Htr : tree_ok tr).
  { apply event_tree_ok; [by eapply flat_event_ok|]. apply nest_members_ok; [by eapply order_ok|].
    apply map_Forall_empty. }
  destruct (unmarshal_marshal tr Htr) as (j & Hj & Hjeq).
  split_and!; [done| |by exists j].
  unfold marshalCanonical. rewrite (MarshalJSON_tree e _ (flat_event_extra _ _ _ He)). fold tr. rewrite Hj.
  rewrite marshalSorted_eq. f_equal. symmetry. apply marshal_jeq; [done|]. by apply tree_ok_keys_ok.
Qed.

Lemma flat_event_tenant f order e :
  flatToAuditEvent f order = Ok e → ev_tenant e = tenantOrPlatform (get f "tenant").
Proof. unfold flatToAuditEvent. intros (t & _ & [= <-])%rbind_ok. done. Qed.

(** The flat keys whose values are copied into declared fields. *)
Definition copied_keys : list string :=
  ["audit_policy_version"; "cluster_audit_policy_version"; "correlation_id"; "event_id";
   "justification"; "schema_version"; "action.outcome"; "action.verb"; "actor.id"; "actor.type";
   "authorization.decision"; "authorization.policy"; "authorization.reason"; "source.ip";
   "source.origin"; "source.user_agent"; "target.apiVersion"; "target.cluster"; "target.kind";
   "target.name"; "target.namespace"; "target.subresource"].

(** The member names of the declared schema. *)
Definition declared_members : list string :=
  ["action"; "actor"; "audit_policy_version"; "authorization"; "cluster_audit_policy_version";
   "correlation_id"; "event_id"; "justification"; "schema_version"; "source"; "target"; "tenant";
   "time"].

Lemma copied_get f order e x k :
  flatToAuditEvent f order = Ok e → k ∈ copied_keys →
  json_get (event_tree e x) (split_char "."%char k) = Some (JStr (get f k)).
Proof.
  unfold flatToAuditEvent. intros He Hk. inv_result.
  unfold copied_keys in Hk.
  repeat (apply elem_of_cons in Hk as [->|Hk];
    [match goal with |- json_get _ ?p = _ => let q := eval vm_compute in p in change p with q end;
     first [by erewrite event_assoc by reflexivity | by eapply event_assoc2; reflexivity]|]).
  by apply elem_of_nil in Hk.
Qed.

(** * Properties *)

(** C36: An event built from a flat VictoriaLogs record does not depend on the
    order in which Go visits the record's map, as long as no extra key is a
    dotted prefix of another. *)
Theorem flat_event_order_independent (f : gmap string string) order order'
    (Ho : order ≡ₚ map_to_list f) (Ho' : order' ≡ₚ map_to_list f)
    (Hap : extra_apart knownFlatKeys order) :
  flatToAuditEvent f order = flatToAuditEvent f order'.
Proof.
  unfold flatToAuditEvent, unflattenExtra, nestExtra.
  rewrite (nest_perm _ order order'); [done|by rewrite Ho, Ho'| |done].
  rewrite Ho. apply NoDup_fst_map_to_list.
Qed.

Definition sample_flat : gmap string string := list_to_map
  [("time", "2025-01-02T03:04:05Z"); ("tenant", "acme"); ("action.verb", "create");
   ("custom.field", "x"); ("custom.other", "y")].

Lemma sample_apart : extra_apart knownFlatKeys (map_to_list sample_flat).
Proof.
  assert (H : Forall (λ a, Forall (λ b, a.1 ∉ knownFlatKeys → b.1 ∉ knownFlatKeys → a.1 ≠ b.1 →
      ¬ split_char "."%char a.1 `prefix_of` split_char "."%char b.1
      ∧ ¬ split_char "."%char b.1 `prefix_of` split_char "."%char a.1)
      (map_to_list sample_flat)) (map_to_list sample_flat)).
  { apply (bool_decide_unpack _). by vm_compute. }
  rewrite Forall_forall in H. intros a b Ha Hb. specialize (H a Ha).
  rewrite Forall_forall in H. by apply H.
Qed.

Lemma flat_event_order_independent_witness :
  flatToAuditEvent sample_flat (map_to_list sample_flat)
  = flatToAuditEvent sample_flat (reverse (map_to_list sample_flat)).
Proof.
  apply flat_event_order_independent; [done|apply reverse_Permutation|apply sample_apart].
Defined.

(** When an extra key is a dotted prefix of another, the visiting order
    decides which of the two survives, so two runs over the same record give
    different canonical lines. *)
Theorem flat_event_order_matters :
  ∃ f order order' e e',
    order ≡ₚ map_to_list f ∧ order' ≡ₚ map_to_list f
    ∧ flatToAuditEvent f order = Ok e ∧ flatToAuditEvent f order' = Ok e'
    ∧ marshalCanonical (AuditEvent_MarshalJSON e) ≠ marshalCanonical (AuditEvent_MarshalJSON e').
Proof.
  exists (list_to_map [("a", "1"); ("a.b", "2")]), [("a", "1"); ("a.b", "2")],
    [("a.b", "2"); ("a", "1")].
  eexists _, _. split_and!; [apply (bool_decide_unpack _); by vm_compute
    |apply (bool_decide_unpack _); by vm_compute|done|done|by vm_compute].
Qed.


Lemma sample_flat_ok : flat_ok sample_flat.
Proof. apply (bool_decide_unpack _). by vm_compute. Qed.


(** An extra field below a declared member is dropped: the declared
    member wins and the line has no trace of the extra value. *)
Theorem extra_below_declared_dropped :
  ∃ f e line j, flatToAuditEvent f (map_to_list f) = Ok e
    ∧ f !! "action.note" = Some "why"
    ∧ marshalCanonical (AuditEvent_MarshalJSON e) = Ok line ∧ unmarshal line = Some j
    ∧ json_get j ["action"; "note"] = None.
Proof.
  exists {[ "action.note" := "why" ]}. eexists _, _, _.
  split_and!; [done|done|by vm_compute|by vm_compute|by vm_compute].
Qed.

(** * Object keys *)

Lemma length_prefix_part a b t u :
  four_digit_year t → four_digit_year u →
  (a +:+ "/" +:+ fmt_path t +:+ "/" = b +:+ "/" +:+ fmt_path u +:+ "/")%string →
  a = b ∧ fmt_path t = fmt_path u.
Proof.
  intros Ht Hu H. apply string_app_inj_len in H as [-> H].
  - split; [done|]. apply (string_app_inj_len "/" "/") in H as [_ H].
    + by apply string_app_inj_len in H as [-> _].
    + by rewrite !string_length_app, !length_fmt_path.
  - by rewrite !string_length_app, !length_fmt_path.
Qed.

Lemma S3KeyPrefix_inj_aux w w' prefix :
  char_free "/" (w_stream w) = true → char_free "/" (w_stream w') = true →
  (hour | w_start w)%Z → (hour | w_start w')%Z →
  four_digit_year (w_start w) → four_digit_year (w_start w') →
  S3KeyPrefix w prefix = S3KeyPrefix w' prefix →
  w_stream w = w_stream w' ∧ w_tenant w = w_tenant w' ∧ w_start w = w_start w'.
Proof.
  intros Hs Hs' Hh Hh' Hy Hy' H. unfold S3KeyPrefix in H.
  assert (Hr : w_stream w +:+ String "/" (w_tenant w +:+ "/" +:+ fmt_path (w_start w) +:+ "/")
             = w_stream w' +:+ String "/" (w_tenant w' +:+ "/" +:+ fmt_path (w_start w') +:+ "/")).
  { case_decide; [exact H|]. revert H. clear.
    induction prefix as [|a p IH]; intros H; [by injection H|]. apply IH. by injection H. }
  apply string_app_inj_sep in Hr as [-> Hr]; [|done..].
  apply length_prefix_part in Hr as [-> Hp]; [|done..].
  by apply fmt_path_inj in Hp.
Qed.

(** Two export windows share an object key prefix only if they are the
    same window (stream names contain no slash, hours are whole, years have
    four digits); tenants may contain anything. *)
Theorem S3KeyPrefix_inj w w' prefix
    (Hs : char_free "/" (w_stream w) = true) (Hs' : char_free "/" (w_stream w') = true)
    (Hh : (hour | w_start w)%Z) (Hh' : (hour | w_start w')%Z)
    (Hy : four_digit_year (w_start w)) (Hy' : four_digit_year (w_start w'))
    (H : S3KeyPrefix w prefix = S3KeyPrefix w' prefix) :
  w_stream w = w_stream w' ∧ w_tenant w = w_tenant w' ∧ w_start w = w_start w'.
Proof. by eapply S3KeyPrefix_inj_aux. Qed.

Lemma S3KeyPrefix_inj_witness :
  let w := {| w_stream := "s"; w_tenant := "a/b"; w_start := 0; w_end := hour |} in
  w_stream w = w_stream w ∧ w_tenant w = w_tenant w ∧ w_start w = w_start w.
Proof.
  intros w. apply (S3KeyPrefix_inj w w "audit");
    first [reflexivity | exists 0%Z; reflexivity | vm_compute; split; discriminate].
Defined.
