(* ===== verification/Env.v ===== *)
(** internal/env/env.go: configuration read from environment variables, and
    the time.ParseDuration it uses.  The environment is a map of the variables
    that are set. *)
From S2P Require Import Prelude Strings GoTime Json.
From Stdlib Require Import Ascii.

Open Scope string_scope.
Open Scope Z_scope.

Definition environ := gmap string string.

(** [os.Getenv]: the empty string when the variable is not set. *)
Definition getenv (env : environ) (key : string) : string := default "" (env !! key).

(** * time.ParseDuration *)

Definition unit_of (s : string) : option Z :=
  if String.eqb s "ns" then Some 1
  else if String.eqb s "us" || String.eqb s (of_bytes [194; 181] +:+ "s")%nat
          || String.eqb s (of_bytes [206; 188] +:+ "s")%nat then Some 1000
  else if String.eqb s "ms" then Some 1000000
  else if String.eqb s "s" then Some second
  else if String.eqb s "m" then Some minute
  else if String.eqb s "h" then Some hour
  else None.

(** The unit: everything up to the next dot or digit. *)
Fixpoint span_unit (s : string) : string * string :=
  match s with
  | String a r =>
      if Ascii.eqb a "." || bool_decide (is_Some (digit_val a)) then ("", s)
      else let (u, r') := span_unit r in (String a u, r')
  | EmptyString => ("", s)
  end.

Definition two63 : Z := 2 ^ 63.

(** The fraction is dropped below a nanosecond. *)
Definition fraction_value (f : string) (unit : Z) : Z :=
  default 0 (digits_val 0 f) * unit / 10 ^ Z.of_nat (String.length f).

(** One number with its unit: its value and what follows. *)
Definition duration_part (s : string) : option (Z * string) :=
  let (ip, s1) := span_digits s in
  let '(fp, s2) := match s1 with
                   | String "." r => let (f, r') := span_digits r in (f, r')
                   | _ => ("", s1)
                   end in
  if bool_decide (ip = "") && bool_decide (fp = "") then None
  else
    let v := default 0 (digits_val 0 ip) in
    if two63 <? v then None
    else
      let (u, s3) := span_unit s2 in
      let? unit := unit_of u in
      if two63 / unit <? v then None
      else let w := v * unit + fraction_value fp unit in
           if two63 <? w then None else Some (w, s3).

Fixpoint duration_parts (fuel : nat) (d : Z) (s : string) : option Z :=
  match s with
  | EmptyString => Some d
  | _ => match fuel with
         | O => None
         | S fuel' =>
             let? (w, r) := duration_part s in
             if two63 <? d + w then None else duration_parts fuel' (d + w) r
         end
  end.

(** [time.ParseDuration]: every part consumes a byte, so the length of the
    text is enough fuel. *)
Definition parse_duration (s : string) : option Z :=
  let '(neg, r) := match s with
                   | String "-" r => (true, r) | String "+" r => (false, r) | _ => (false, s) end in
  if String.eqb r "0" then Some 0
  else if String.eqb r "" then None
  else let? d := duration_parts (String.length r) 0 r in
       if (neg : bool) then Some (- d) else if two63 - 1 <? d then None else Some d.

(** * env.go *)

Definition GetEnvOrDefault (env : environ) (key defaultValue : string) : string :=
  match env !! key with
  | Some value => if decide (value = "") then defaultValue else value
  | None => defaultValue
  end.

Definition GetPropagationTemplateName env := GetEnvOrDefault env "KOF_PROPAGATION_TEMPLATE" "kof-propagation".
Definition GrafanaEnabled env : bool :=
  String.eqb (GetEnvOrDefault env "KOF_GRAFANA_ENABLED" "false") "true".
Definition RegionlessEnabled env : bool :=
  String.eqb (GetEnvOrDefault env "KOF_REGIONLESS_ENABLED" "false") "true".
Definition GetRegionlessDomain env := GetEnvOrDefault env "KOF_REGIONLESS_DOMAIN" "mothership.example.com".
Definition CrossNamespaceEnabled env : bool :=
  String.eqb (GetEnvOrDefault env "CROSS_NAMESPACE" "false") "true".

Definition GetEnvBool (env : environ) (key : string) (def : bool) : bool :=
  let v := getenv env key in
  if decide (v = "") then def else default def (parse_bool v).

Definition GetEnvInt (env : environ) (key : string) (def : Z) : Z :=
  let v := getenv env key in
  if decide (v = "") then def else default def (parse_int64 v).

Definition GetEnvDuration (env : environ) (key : string) (def : Z) : Z :=
  let v := getenv env key in
  if decide (v = "") then def else default def (parse_duration v).

Definition AutoUpgradeEnabled env : bool := GetEnvBool env "KOF_AUTO_UPGRADE" false.
Definition GetKofVersion env := GetEnvOrDefault env "KOF_VERSION" "".
Definition GetRegionalMCSName env := GetEnvOrDefault env "KOF_REGIONAL_CLUSTER_MCS_NAME" "kof-regional-cluster".
Definition GetChildMCSName env := GetEnvOrDefault env "KOF_CHILD_CLUSTER_MCS_NAME" "kof-child-cluster".
Definition GetIstioRegionalMCSName env :=
  GetEnvOrDefault env "KOF_ISTIO_REGIONAL_CLUSTER_MCS_NAME" "kof-istio-regional-cluster".
Definition GetIstioChildMCSName env :=
  GetEnvOrDefault env "KOF_ISTIO_CHILD_CLUSTER_MCS_NAME" "kof-istio-child-cluster".

Definition GetVTClusterName env := getenv env "KOF_VT_CLUSTER_NAME".
Definition GetVLClusterName env := getenv env "KOF_VL_CLUSTER_NAME".
Definition GetVLSelectURL env := getenv env "KOF_VL_SELECT_URL".
Definition GetVLInsertURL env := getenv env "KOF_VL_INSERT_URL".
Definition GetVLAuditSelectURL env := getenv env "KOF_VL_AUDIT_SELECT_URL".
Definition GetVLAuditInsertURL env := getenv env "KOF_VL_AUDIT_INSERT_URL".
Definition GetVMSelectURL env := getenv env "KOF_VM_SELECT_URL".
Definition GetVMInsertURL env := getenv env "KOF_VM_INSERT_URL".
Definition GetVTSelectURL env := getenv env "KOF_VT_SELECT_URL".
Definition GetVTInsertURL env := getenv env "KOF_VT_INSERT_URL".

Definition GetReleaseNamespace (env : environ) : result string :=
  match env !! "RELEASE_NAMESPACE" with
  | None => Err (EText "required RELEASE_NAMESPACE env var is not set")
  | Some ns => if decide (ns = "") then Err (EText "RELEASE_NAMESPACE env var is set but empty")
               else Ok ns
  end.

Definition GetPromxyPodLabelSelector (env : environ) : result string :=
  match env !! "PROMXY_POD_LABEL_SELECTOR" with
  | Some selector => if decide (selector = "")
                     then Err (EText "required PROMXY_POD_LABEL_SELECTOR env var is not set")
                     else Ok selector
  | None => Err (EText "required PROMXY_POD_LABEL_SELECTOR env var is not set")
  end.

(** * Lemmas *)

Lemma fraction_value_pos f u : 0 <= u → 0 <= fraction_value f u.
Proof.
  intros Hu. unfold fraction_value. apply Z.div_pos; [|lia].
  assert (H : ∀ acc s n, 0 <= acc → digits_val acc s = Some n → 0 <= n).
  { intros acc s. revert acc. induction s as [|a s IH]; intros acc n Ha; simpl; [naive_solver|].
    destruct (digit_val a) as [d|] eqn:E; [|done]. apply IH.
    unfold digit_val in E. case_match; simplify_eq. lia. }
  destruct (digits_val 0 f) eqn:E; simpl; [apply H in E|]; nia.
Qed.

Lemma digits_val_nonneg s n : digits_val 0 s = Some n → 0 <= n.
Proof.
  assert (H : ∀ acc s n, 0 <= acc → digits_val acc s = Some n → 0 <= n); [|by apply H].
  clear. intros acc s. revert acc. induction s as [|a s IH]; intros acc n Ha; simpl; [naive_solver|].
  destruct (digit_val a) as [d|] eqn:E; [|done]. apply IH.
  unfold digit_val in E. case_match; simplify_eq. lia.
Qed.

Lemma unit_of_pos u n : unit_of u = Some n → 0 < n.
Proof. unfold unit_of. repeat case_match; intros; simplify_eq; done. Qed.

Lemma duration_part_range s w r : duration_part s = Some (w, r) → 0 <= w <= two63.
Proof.
  unfold duration_part. destruct (span_digits s) as [ip s1].
  destruct (match s1 with String "." r => _ | _ => _ end) as [fp s2].
  case_match; [done|]. case_match; [done|]. destruct (span_unit s2) as [u s3].
  destruct (unit_of u) as [n|] eqn:Hu; [|done]. case_match; [done|]. case_match; [done|].
  intros [= <- <-]. apply unit_of_pos in Hu. pose proof (fraction_value_pos fp n ltac:(lia)).
  assert (0 <= default 0 (digits_val 0 ip)).
  { destruct (digits_val 0 ip) eqn:E; simpl; [by apply digits_val_nonneg in E|lia]. }
  split; [nia|lia].
Qed.

Lemma duration_parts_range fuel d s v :
  0 <= d <= two63 → duration_parts fuel d s = Some v → 0 <= v <= two63.
Proof.
  revert d s. induction fuel as [|fuel IH]; intros d s Hd; simpl.
  - destruct s; [naive_solver|done].
  - destruct s as [|a s]; [naive_solver|].
    destruct (duration_part (String a s)) as [[w r]|] eqn:E; [|done].
    apply duration_part_range in E. case_match; [done|]. apply IH. lia.
Qed.

(** A parsed duration is a 64-bit signed integer. *)
Lemma parse_duration_range s v : parse_duration s = Some v → min_int64 <= v <= max_int64.
Proof.
  unfold parse_duration, min_int64, max_int64.
  destruct (match s with String "-" r => _ | _ => _ end) as [neg r].
  repeat case_match; intros; simplify_eq; try lia.
  all: match goal with H : duration_parts _ _ _ = Some _ |- _ =>
         apply duration_parts_range in H; unfold two63 in *; lia end.
Qed.
