(* ===== verification/World.v ===== *)
(** The services the exporters talk to, as an interface: an S3-compatible
    object store, VictoriaLogs, VictoriaMetrics and VictoriaTraces over HTTP,
    the clock, the context and the scheduler.  [World W] names the effects on a
    state [W]; [WorldLaws W] states what the code relies on.  [faulty] is an
    instance whose failures follow a schedule given in advance.

    Also the S3 client of internal/s3/s3client.go and internal/audit/s3client.go
    on top of it, and bufio.Scanner. *)
From S2P Require Import Prelude Strings GoTime.
From Stdlib Require Import Ascii.

Open Scope string_scope.
Open Scope nat_scope.

(** A response: its status, the bytes that can be read from its body, and the
    error that ends the reading (none is end of file). *)
Record body := { b_text : string; b_err : option gerror }.
Record response := { resp_status : Z; resp_body : body }.

(** * The interface *)

Class World (W : Type) := {
  objects : W → gmap string string;
  (** SDK calls HeadObject, GetObject, PutObject; the upload of a stream,
      which is its bytes or the error its reader ends with; the object lock
      configuration, [Ok true] when it says enabled. *)
  api_head : string → W → result unit * W;
  api_get : string → W → result body * W;
  api_put : string → string → W → result unit * W;
  api_upload : string → result string → W → result unit * W;
  api_lock : W → result bool * W;
  http_get : string → W → result response * W;
  time_now : W → Z * W;
  (** [ctx.Err()]. *)
  ctx_err : W → option gerror * W;
  (** Which of two concurrent goroutines gets ahead. *)
  first_wins : W → bool * W }.

(** A failed or ambiguous write leaves the object absent, as it was, or
    complete: never in part, and no other object changes. *)
Definition wrote (k d : string) (r : result unit) (m m' : gmap string string) : Prop :=
  match r with
  | Ok _ => m' = <[k := d]> m
  | Err _ => m' = m ∨ m' = <[k := d]> m
  end.

Class WorldLaws (W : Type) `{World W} := {
  head_frame k w : objects (api_head k w).2 = objects w;
  head_found k w w' : api_head k w = (Ok tt, w') → is_Some (objects w !! k);
  head_missing k w e w' :
    api_head k w = (Err e, w') → errors_as is_not_found e = true → objects w !! k = None;
  get_frame k w : objects (api_get k w).2 = objects w;
  get_found k w b w' : api_get k w = (Ok b, w') → b_err b = None → objects w !! k = Some (b_text b);
  get_missing k w e w' :
    api_get k w = (Err e, w') → errors_as is_not_found e = true → objects w !! k = None;
  put_wrote k d w : wrote k d (api_put k d w).1 (objects w) (objects (api_put k d w).2);
  upload_wrote k d w :
    wrote k d (api_upload k (Ok d) w).1 (objects w) (objects (api_upload k (Ok d) w).2);
  upload_broken k e w :
    is_ok (api_upload k (Err e) w).1 = false ∧ objects (api_upload k (Err e) w).2 = objects w;
  lock_frame w : objects (api_lock w).2 = objects w;
  http_frame u w : objects (http_get u w).2 = objects w;
  now_frame w : objects (time_now w).2 = objects w;
  ctx_frame w : objects (ctx_err w).2 = objects w;
  race_frame w : objects (first_wins w).2 = objects w }.

(** * Effects *)

(** A call that changes the world and returns a value or an error. *)
Definition eff (W A : Type) := W → result A * W.

Definition eret {W A} (r : result A) : eff W A := λ w, (r, w).
Definition ebind {W A B} (m : eff W A) (f : A → eff W B) : eff W B :=
  λ w, match m w with (Ok a, w') => f a w' | (Err e, w') => (Err e, w') end.
(** Run a call and look at its outcome, error or not. *)
Definition ecase {W A B} (m : eff W A) (f : result A → eff W B) : eff W B :=
  λ w, let (r, w') := m w in f r w'.
Definition ewrap {W A} (msg : string) (m : eff W A) : eff W A :=
  λ w, let (r, w') := m w in (wrap_err msg r, w').
Definition eask {W A B} (m : W → A * W) (f : A → eff W B) : eff W B :=
  λ w, let (a, w') := m w in f a w'.

Notation "'do' x ':=' m 'in' k" := (ebind m (λ x, k))
  (at level 10, x pattern, m at level 100, k at level 200) : go_scope.

Lemma ebind_ok {W A B} (m : eff W A) (f : A → eff W B) w b w' :
  ebind m f w = (Ok b, w') ↔ ∃ a w1, m w = (Ok a, w1) ∧ f a w1 = (Ok b, w').
Proof. unfold ebind. destruct (m w) as [[a|e] w1]; naive_solver. Qed.

Lemma ewrap_ok {W A} msg (m : eff W A) w a w' : ewrap msg m w = (Ok a, w') ↔ m w = (Ok a, w').
Proof. unfold ewrap. destruct (m w) as [[b|e] w1]; naive_solver. Qed.

(** * bufio.Scanner *)

(** The lines of a text: split at newlines, one trailing carriage return
    dropped, no last line when the text ends with a newline. *)
Definition drop_cr (s : string) : string :=
  match cut_prefix (String (byte 13) "") (String.rev s) with
  | Some r => String.rev r
  | None => s
  end.
Definition raw_lines (text : string) : list string :=
  let parts := split_char (byte 10) text in
  match last parts with
  | Some EmptyString => removelast parts
  | _ => parts
  end.

(** A Scanner with a buffer limit of [max] bytes: the lines it yields and the
    error it stops with.  A line that does not fit the buffer together with
    its newline is bufio.ErrTooLong.  After a read error the rest of the text
    is a last line. *)
Definition ErrTooLong : gerror := EText "bufio.Scanner: token too long".
Fixpoint take_lines (max : nat) (lines : list string) (rerr : option gerror)
    : list string * option gerror :=
  match lines with
  | [] => ([], rerr)
  | l :: r =>
      if String.length l <? max then
        let (ls, e) := take_lines max r rerr in (drop_cr l :: ls, e)
      else ([], Some ErrTooLong)
  end.
Definition scan_lines (max : Z) (b : body) : list string * option gerror :=
  take_lines (Z.to_nat max) (raw_lines (b_text b)) (b_err b).

(** * The S3 client *)

Section s3.
Context {W} `{World W}.

(** [Client.ObjectExists]: NoSuchKey, NotFound and any HTTP 404 mean "not
    there". *)
Definition ObjectExists (key : string) : eff W bool :=
  ecase (api_head key) (λ r, eret
    match r with
    | Ok _ => Ok true
    | Err e => if errors_as is_not_found e then Ok false
               else Err (EWrap ("HeadObject " +:+ quote key) e)
    end).

Definition PutObject (key data : string) : eff W unit :=
  ewrap ("PutObject " +:+ quote key) (api_put key data).

Definition UploadStream (key : string) (r : result string) : eff W unit :=
  ewrap ("UploadStream " +:+ quote key) (api_upload key r).

(** audit [S3Client.GetObject]: [None] is the nil slice of a missing key. *)
Definition GetObject (key : string) : eff W (option string) :=
  ecase (api_get key) (λ r, eret
    match r with
    | Err e => if errors_as is_not_found e then Ok None
               else Err (EWrap ("GetObject " +:+ quote key) e)
    | Ok b => match b_err b with None => Ok (Some (b_text b)) | Some e => Err e end
    end).

(** audit [S3Client.PreflightBucket]: a warning or nothing. *)
Definition PreflightBucket (bucket : string) (complianceMode : bool) : eff W string :=
  ecase api_lock (λ r, eret
    (let wormEnabled := match r with Ok enabled => enabled | Err _ => false end in
     if complianceMode && negb wormEnabled then
       Err (EText ("compliance mode is ON but bucket " +:+ quote bucket +:+
                   " does not have WORM/Object-lock enabled: aborting"))
     else if negb complianceMode && negb wormEnabled then
       Ok ("bucket " +:+ quote bucket +:+
           " does not have WORM/Object-lock enabled; proceeding without WORM")
     else Ok "")).
End s3.

(** * Laws of the client *)

Section s3_laws.
Context {W} `{WorldLaws W}.

Lemma ObjectExists_frame k w : objects (ObjectExists k w).2 = objects w.
Proof.
  unfold ObjectExists, ecase, eret. pose proof (head_frame k w).
  by destruct (api_head k w).
Qed.

Lemma ObjectExists_spec k w b w' :
  ObjectExists k w = (Ok b, w') → b = bool_decide (is_Some (objects w !! k)).
Proof.
  unfold ObjectExists, ecase, eret. destruct (api_head k w) as [[[]|e] w1] eqn:E.
  - intros [= <- <-]. symmetry. apply bool_decide_eq_true_2. by eapply head_found.
  - destruct (errors_as is_not_found e) eqn:Hn; [|done]. intros [= <- <-].
    symmetry. apply bool_decide_eq_false_2. erewrite head_missing by done. by intros [].
Qed.

Lemma GetObject_frame k w : objects (GetObject k w).2 = objects w.
Proof.
  unfold GetObject, ecase, eret. pose proof (get_frame k w).
  by destruct (api_get k w).
Qed.

(** GetObject returns what is stored under the key, nil when nothing is. *)
Lemma GetObject_spec k w o w' : GetObject k w = (Ok o, w') → o = objects w !! k.
Proof.
  unfold GetObject, ecase, eret. destruct (api_get k w) as [[b|e] w1] eqn:E.
  - destruct (b_err b) eqn:Hb; [done|]. intros [= <- <-]. symmetry. by eapply get_found.
  - destruct (errors_as is_not_found e) eqn:Hn; [|done]. intros [= <- <-].
    symmetry. by eapply get_missing.
Qed.

Lemma PutObject_wrote k d w : wrote k d (PutObject k d w).1 (objects w) (objects (PutObject k d w).2).
Proof.
  unfold PutObject, ewrap. pose proof (put_wrote k d w) as Hw.
  destruct (api_put k d w) as [[[]|e] w1]; exact Hw.
Qed.

Lemma UploadStream_wrote k d w :
  wrote k d (UploadStream k (Ok d) w).1 (objects w) (objects (UploadStream k (Ok d) w).2).
Proof.
  unfold UploadStream, ewrap. pose proof (upload_wrote k d w) as Hw.
  destruct (api_upload k (Ok d) w) as [[[]|e] w1]; exact Hw.
Qed.

Lemma UploadStream_broken k e w :
  is_ok (UploadStream k (Err e) w).1 = false ∧ objects (UploadStream k (Err e) w).2 = objects w.
Proof.
  unfold UploadStream, ewrap. pose proof (upload_broken k e w) as Hw.
  destruct (api_upload k (Err e) w) as [[[]|e'] w1]; exact Hw.
Qed.

Lemma PreflightBucket_frame bucket c w : objects (PreflightBucket bucket c w).2 = objects w.
Proof.
  unfold PreflightBucket, ecase, eret. pose proof (lock_frame w).
  by destruct (api_lock w).
Qed.
End s3_laws.

(** * Calls that leave the bucket alone *)

Section frames.
Context {W} `{WorldLaws W}.

Definition frames {A} (m : eff W A) : Prop := ∀ w, objects (m w).2 = objects w.

Lemma frames_ret {A} (r : result A) : frames (eret r).
Proof. done. Qed.
Lemma frames_bind {A B} (m : eff W A) (f : A → eff W B) :
  frames m → (∀ a, frames (f a)) → frames (ebind m f).
Proof.
  intros Hm Hf w. unfold ebind. specialize (Hm w). destruct (m w) as [[a|e] w1]; [|done].
  rewrite (Hf a w1). done.
Qed.
Lemma frames_case {A B} (m : eff W A) (f : result A → eff W B) :
  frames m → (∀ r, frames (f r)) → frames (ecase m f).
Proof.
  intros Hm Hf w. unfold ecase. specialize (Hm w). destruct (m w) as [r w1]. by rewrite (Hf r w1).
Qed.
Lemma frames_wrap {A} msg (m : eff W A) : frames m → frames (ewrap msg m).
Proof. intros Hm w. unfold ewrap. specialize (Hm w). by destruct (m w). Qed.
Lemma frames_ask {A B} (m : W → A * W) (f : A → eff W B) :
  (∀ w, objects (m w).2 = objects w) → (∀ a, frames (f a)) → frames (eask m f).
Proof.
  intros Hm Hf w. unfold eask. specialize (Hm w). destruct (m w) as [a w1]. by rewrite (Hf a w1).
Qed.
Lemma frames_http u : frames (http_get u).
Proof. intros w. apply http_frame. Qed.
Lemma frames_exists k : frames (ObjectExists k).
Proof. intros w. apply ObjectExists_frame. Qed.
End frames.

#[export] Hint Resolve frames_ret frames_bind frames_case frames_wrap frames_ask frames_http
  frames_exists : kof.

(** * An instance: a store with scheduled failures *)

(** What happens to a call: nothing, a failure before it takes effect, or a
    failure after it took effect. *)
Inductive fault := FNone | FBefore | FAfter.

Record sim := {
  sim_objects : gmap string string;
  sim_faults : list fault;
  sim_http : list (string * response);
  sim_worm : bool;
  sim_ctx : list bool;
  sim_race : list bool }.

Definition sim_error : gerror := EText "connection reset".

(** The next fault of the schedule, none once it is used up. *)
Definition next_fault (s : sim) : fault * sim :=
  match sim_faults s with
  | [] => (FNone, s)
  | f :: r => (f, {| sim_objects := sim_objects s; sim_faults := r; sim_http := sim_http s;
                     sim_worm := sim_worm s; sim_ctx := sim_ctx s;
                     sim_race := sim_race s |})
  end.
Definition store (m : gmap string string) (s : sim) : sim :=
  {| sim_objects := m; sim_faults := sim_faults s; sim_http := sim_http s;
     sim_worm := sim_worm s; sim_ctx := sim_ctx s; sim_race := sim_race s |}.

Definition sim_read {A} (value : sim → result A) (s : sim) : result A * sim :=
  let (f, s') := next_fault s in
  (match f with FNone => value s' | _ => Err sim_error end, s').
Definition sim_write (k d : string) (s : sim) : result unit * sim :=
  let (f, s') := next_fault s in
  match f with
  | FNone => (Ok tt, store (<[k := d]> (sim_objects s')) s')
  | FBefore => (Err sim_error, s')
  | FAfter => (Err sim_error, store (<[k := d]> (sim_objects s')) s')
  end.
Definition not_found : gerror := ENotFound "NotFound".

Fixpoint find_response (u : string) (l : list (string * response)) : response :=
  match l with
  | [] => {| resp_status := 200; resp_body := {| b_text := ""; b_err := None |} |}
  | (u', r) :: l' => if String.eqb u u' then r else find_response u l'
  end.

(** The clock of the instance stands still at [now]. *)
Definition faulty (now : Z) : World sim := {|
  objects := sim_objects;
  api_head k := sim_read (λ s, if decide (is_Some (sim_objects s !! k)) then Ok tt else Err not_found);
  api_get k := sim_read (λ s, match sim_objects s !! k with
                              | Some d => Ok {| b_text := d; b_err := None |}
                              | None => Err not_found
                              end);
  api_put := sim_write;
  api_upload k r s := match r with Ok d => sim_write k d s | Err e => (Err (EWrap "upload" e), s) end;
  api_lock := sim_read (λ s, Ok (sim_worm s));
  http_get u := sim_read (λ s, Ok (find_response u (sim_http s)));
  time_now s := (now, s);
  ctx_err s :=
    match sim_ctx s with
    | [] => (None, s)
    | b :: r => (if b then Some ECanceled else None,
                 {| sim_objects := sim_objects s; sim_faults := sim_faults s; sim_http := sim_http s;
                    sim_worm := sim_worm s; sim_ctx := r;
                    sim_race := sim_race s |})
    end;
  first_wins s :=
    match sim_race s with
    | [] => (true, s)
    | b :: r => (b, {| sim_objects := sim_objects s; sim_faults := sim_faults s;
                       sim_http := sim_http s; sim_worm := sim_worm s;
                       sim_ctx := sim_ctx s; sim_race := r |})
    end |}.

Lemma next_fault_frame s : sim_objects (next_fault s).2 = sim_objects s.
Proof. unfold next_fault. by destruct (sim_faults s). Qed.

Lemma sim_read_frame {A} (v : sim → result A) s : sim_objects (sim_read v s).2 = sim_objects s.
Proof.
  unfold sim_read. pose proof (next_fault_frame s). by destruct (next_fault s) as [[] s'].
Qed.

Lemma sim_read_ok {A} (v : sim → result A) s a s' :
  sim_read v s = (Ok a, s') → v s' = Ok a ∧ sim_objects s' = sim_objects s.
Proof.
  unfold sim_read. pose proof (next_fault_frame s) as Hf.
  destruct (next_fault s) as [[] s1]; intros; simplify_eq/=; done.
Qed.

Lemma sim_read_err {A} (v : sim → result A) s e s' :
  sim_read v s = (Err e, s') → errors_as is_not_found e = true →
  v s' = Err e ∧ sim_objects s' = sim_objects s.
Proof.
  unfold sim_read. pose proof (next_fault_frame s) as Hf.
  destruct (next_fault s) as [[] s1]; intros; simplify_eq/=; done.
Qed.

Lemma sim_write_wrote k d s :
  wrote k d (sim_write k d s).1 (sim_objects s) (sim_objects (sim_write k d s).2).
Proof.
  unfold sim_write, wrote. pose proof (next_fault_frame s) as Hf.
  destruct (next_fault s) as [[] s1]; simpl in *; rewrite Hf; auto.
Qed.

#[export] Instance faulty_laws now : @WorldLaws sim (faulty now).
Proof.
  split; simpl.
  - intros. apply sim_read_frame.
  - intros k s s' [Hv <-]%sim_read_ok. by case_decide.
  - intros k s e s' He Hn. apply sim_read_err in He as [Hv <-]; [|done].
    case_decide as E; [done|]. by apply eq_None_not_Some.
  - intros. apply sim_read_frame.
  - intros k s b s' [Hv <-]%sim_read_ok _. by destruct (sim_objects s' !! k); simplify_eq/=.
  - intros k s e s' He Hn. apply sim_read_err in He as [Hv <-]; [|done].
    by destruct (sim_objects s' !! k).
  - intros. apply sim_write_wrote.
  - intros. apply sim_write_wrote.
  - done.
  - intros. apply sim_read_frame.
  - intros. apply sim_read_frame.
  - done.
  - intros s. by destruct (sim_ctx s).
  - intros s. by destruct (sim_race s).
Qed.
