(* ===== verification/Vlogs.v ===== *)
(** internal/vlogs/vlogs.go: the HTTP client shared by the VictoriaLogs and
    VictoriaTraces exporters. *)
From S2P Require Import Prelude Strings GoTime Json World.
From Stdlib Require Import Ascii.

Open Scope string_scope.
Open Scope Z_scope.

(** * net/url *)

Definition unreserved (a : ascii) : bool :=
  let n := nat_of_ascii a in
  ((48 <=? n) && (n <=? 57) || (65 <=? n) && (n <=? 90) || (97 <=? n) && (n <=? 122)
   || (n =? 45) || (n =? 95) || (n =? 46) || (n =? 126))%nat.
Definition upper_hex (n : nat) : ascii := byte (if (n <? 10)%nat then 48 + n else 55 + n)%nat.
Fixpoint query_escape (s : string) : string :=
  match s with
  | EmptyString => ""
  | String a r =>
      let n := nat_of_ascii a in
      (if unreserved a then String a ""
       else if (n =? 32)%nat then "+"
       else String "%" (String (upper_hex (n / 16)) (String (upper_hex (n mod 16)) "")))
      +:+ query_escape r
  end.

(** [url.Values.Encode] with one value per key: keys sorted. *)
Definition encode_params (params : gmap string string) : string :=
  join "&" ((λ k, query_escape k +:+ "=" +:+ query_escape (default "" (params !! k)))
              <$> sort_strings ((map_to_list params).*1)).

(** * The client *)

(** [NewBaseClient]: the base URL without trailing slashes. *)
Definition NewBaseClient (baseURL : string) : string := trim_right_char "/"%char baseURL.

(** [io.LimitReader(resp.Body, n)]; a read error is ignored. *)
Definition limited (n : nat) (b : body) : string := String.substring 0 n (b_text b).

Section client.
Context {W} `{World W}.
Context (BaseURL : string).

Definition QueryStream (sourceName endpoint : string) (params : gmap string string) : eff W body :=
  ecase (http_get (BaseURL +:+ endpoint +:+ "?" +:+ encode_params params)) (λ r, eret
    match r with
    | Err e => Err (ESource sourceName e)
    | Ok resp =>
        if resp_status resp =? 200 then Ok (resp_body resp)
        else Err (ESource sourceName
                    (EText ("HTTP " +:+ itoa (resp_status resp) +:+ ": " +:+
                            limited 1024 (resp_body resp))))
    end).
End client.

(** * Field values *)

(** ASCII case folding: encoding/json matches member names without case. *)
Definition lower (a : ascii) : ascii :=
  let n := nat_of_ascii a in if ((65 <=? n) && (n <=? 90))%nat then byte (n + 32) else a.
Fixpoint lower_string (s : string) : string :=
  match s with EmptyString => "" | String a r => String (lower a) (lower_string r) end.
Definition equal_fold (s t : string) : bool := String.eqb (lower_string s) (lower_string t).

(** Decoding a [struct { Value string }]: the last member with the name wins,
    null leaves the field as it was, other members are ignored; [None] is a
    type error. *)
Fixpoint value_members (kvs : list (string * json)) (v : string) : option string :=
  match kvs with
  | [] => Some v
  | (k, x) :: r =>
      if equal_fold k "value" then
        match x with
        | JStr s => value_members r s
        | JNull => value_members r v
        | _ => None
        end
      else value_members r v
  end.
Definition decode_value (j : json) : option string :=
  match j with JObj kvs => value_members kvs "" | JNull => Some "" | _ => None end.

Fixpoint values_members (kvs : list (string * json)) (vs : list string) : option (list string) :=
  match kvs with
  | [] => Some vs
  | (k, x) :: r =>
      if equal_fold k "values" then
        match x with
        | JArr l => match mapM decode_value l with Some vs' => values_members r vs' | None => None end
        | JNull => values_members r []
        | _ => None
        end
      else values_members r vs
  end.
Definition decode_values (j : json) : option (list string) :=
  match j with JObj kvs => values_members kvs [] | JNull => Some [] | _ => None end.

Definition non_empty (l : list string) : list string := filter (λ v, v ≠ "") l.

(** One line of the fallback: a value, or nothing when the line does not
    parse. *)
Definition ndjson_line (line : string) : option string :=
  let l := trim_space line in
  if decide (l = "") then None
  else match unmarshal l ≫= decode_value with
       | Some v => if decide (v = "") then None else Some v
       | None => None
       end.

Definition ndjson_values (text : string) : list string * option gerror :=
  let (lines, e) := scan_lines 65536 {| b_text := text; b_err := None |} in
  (omap ndjson_line lines, e).

(** The body of a field_values response: the JSON document of newer versions
    first, the line format of older ones when that does not parse. *)
Definition field_values (text : string) : list string * option gerror :=
  match unmarshal text ≫= decode_values with
  | Some vs => (non_empty vs, None)
  | None => ndjson_values text
  end.

Section discover.
Context {W} `{World W}.
Context (BaseURL : string).

Definition DiscoverFieldValues (sourceName field query : string) (start end_ : Z)
    : eff W (list string) :=
  let params : gmap string string := list_to_map
    [("field", field); ("query", query); ("start", fmt_rfc3339 start); ("end", fmt_rfc3339 end_)] in
  ecase (http_get (BaseURL +:+ "/select/logsql/field_values?" +:+ encode_params params)) (λ r, eret
    match r with
    | Err e => Err (ESource sourceName e)
    | Ok resp =>
        if resp_status resp =? 200 then
          match b_err (resp_body resp) with
          | Some e => Err (EWrap "read field_values response" e)
          | None => match field_values (b_text (resp_body resp)) with
                    | (vs, None) => Ok vs
                    | (vs, Some e) => Err e
                    end
          end
        else Err (ESource sourceName
                    (EText ("field_values HTTP " +:+ itoa (resp_status resp) +:+ ": " +:+
                            limited 1024 (resp_body resp))))
    end).
End discover.

(** * Lemmas *)

Section laws.
Context {W} `{WorldLaws W}.

Lemma QueryStream_frame base src ep params w :
  objects (QueryStream base src ep params w).2 = objects w.
Proof.
  unfold QueryStream, ecase, eret. pose proof (http_frame (base +:+ ep +:+ "?" +:+ encode_params params) w).
  by destruct (http_get _ w).
Qed.

Lemma DiscoverFieldValues_frame base src f q s e w :
  objects (DiscoverFieldValues base src f q s e w).2 = objects w.
Proof.
  unfold DiscoverFieldValues, ecase, eret.
  match goal with |- context [http_get ?u w] => pose proof (http_frame u w); by destruct (http_get u w) end.
Qed.

(** A query that fails reports the source as unavailable. *)
Lemma QueryStream_err base src ep params w e w' :
  QueryStream base src ep params w = (Err e, w') → ∃ c, e = ESource src c.
Proof.
  unfold QueryStream, ecase, eret. destruct (http_get _ w) as [[resp|c] w1]; [|naive_solver].
  case_match; naive_solver.
Qed.
End laws.

Lemma non_empty_spec l x : x ∈ non_empty l ↔ x ∈ l ∧ x ≠ "".
Proof. unfold non_empty. rewrite list_elem_of_filter. naive_solver. Qed.

Lemma ndjson_line_nonempty l v : ndjson_line l = Some v → v ≠ "".
Proof.
  unfold ndjson_line. case_decide; [done|].
  destruct (unmarshal (trim_space l) ≫= decode_value) as [x|]; [|done].
  case_decide; naive_solver.
Qed.

(** Discovered values are never empty, whichever format the body has. *)
Lemma field_values_nonempty text vs e v : field_values text = (vs, e) → v ∈ vs → v ≠ "".
Proof.
  unfold field_values. destruct (unmarshal text ≫= decode_values) as [l|].
  - intros [= <- _]. by intros [_ ?]%non_empty_spec.
  - unfold ndjson_values. destruct (scan_lines _ _) as [ls e']. intros [= <- _].
    intros (l & _ & Hl)%list_elem_of_omap. by eapply ndjson_line_nonempty.
Qed.

(** Discovery loses the value when an older VictoriaLogs, which answers
    with one JSON object per line, has exactly one: its only line parses as the
    document of the newer format, which has no values in it. *)
Theorem single_ndjson_value_lost :
  let q s := dquote +:+ s +:+ dquote in
  let text := "{" +:+ q "value" +:+ ":" +:+ q "acme" +:+ "," +:+ q "hits" +:+ ":5}" in
  ndjson_values text = (["acme"], None) ∧ field_values text = ([], None)
  ∧ field_values (text +:+ String (byte 10) text) = (["acme"; "acme"], None).
Proof. by vm_compute. Qed.
