(* ===== verification/AuditExport.v ===== *)
(** The audit-log exporter (internal/audit/config.go, exporter.go,
    manifest.go, kms.go and the queries of vlogs.go): configuration, signing,
    compression of the event stream, the export of one window and the run over
    all pending windows. *)
From S2P Require Import Prelude Strings GoTime Json JsonFacts World Vlogs Env AuditEvents.
From Stdlib Require Import Ascii.

Open Scope string_scope.
Open Scope Z_scope.

(** * Configuration *)

Record Config := {
  VLogsURL : string; S3Endpoint : string; S3Bucket : string; S3Prefix : string;
  S3AccessKey : string; S3SecretKey : string; S3Region : string;
  S3UsePathStyle : bool; S3ForceHTTP : bool; ComplianceMode : bool; KMSKeyID : string;
  Streams : list string; Tenants : list string; ExportDelay : Z; CatchUpHours : Z;
  ProducerName : string; ProducerVersion : string }.

Definition LoadConfig (env : environ) : result Config :=
  let cfg := {|
    VLogsURL := GetEnvOrDefault env "VLOGS_URL" "http://vlselect:9471";
    S3Endpoint := GetEnvOrDefault env "S3_ENDPOINT" "";
    S3Bucket := GetEnvOrDefault env "S3_BUCKET" "";
    S3Prefix := GetEnvOrDefault env "S3_PREFIX" "audit";
    S3AccessKey := GetEnvOrDefault env "S3_ACCESS_KEY" "";
    S3SecretKey := GetEnvOrDefault env "S3_SECRET_KEY" "";
    S3Region := GetEnvOrDefault env "S3_REGION" "us-east-1";
    S3UsePathStyle := GetEnvBool env "S3_USE_PATH_STYLE" true;
    S3ForceHTTP := GetEnvBool env "S3_FORCE_HTTP" false;
    ComplianceMode := GetEnvBool env "COMPLIANCE_MODE" false;
    KMSKeyID := GetEnvOrDefault env "KMS_KEY_ID" "local-dev-key";
    ExportDelay := GetEnvDuration env "EXPORT_DELAY" (5 * minute);
    CatchUpHours := GetEnvInt env "CATCHUP_HOURS" 24;
    ProducerName := GetEnvOrDefault env "PRODUCER_NAME" "audit-logs-exporter";
    ProducerVersion := GetEnvOrDefault env "PRODUCER_VERSION" "v0.1.0";
    Streams := split_list (GetEnvOrDefault env "STREAMS"
                 (StreamTenantAuditLog +:+ "," +:+ StreamPlatformAuditLog));
    Tenants := if decide (getenv env "TENANTS" = "") then [] else split_list (getenv env "TENANTS") |} in
  if decide (Streams cfg = []) then Err (EText "STREAMS must not be empty")
  else if decide (S3Bucket cfg = "") then Err (EText "S3_BUCKET is required")
  else if negb (Bool.eqb (bool_decide (S3AccessKey cfg = "")) (bool_decide (S3SecretKey cfg = "")))
  then Err (EText "S3_ACCESS_KEY and S3_SECRET_KEY must both be set or both be absent")
  else Ok cfg.

Definition producer (c : Config) : string := ProducerName c +:+ "/" +:+ ProducerVersion c.

(** * Signing *)

(** encoding/base64, StdEncoding. *)
Definition b64_char (n : nat) : ascii :=
  byte (if (n <? 26)%nat then 65 + n else if (n <? 52)%nat then 71 + n
        else if (n <? 62)%nat then n - 4 else if (n =? 62)%nat then 43 else 47)%nat.
Definition b64_val (a : ascii) : option nat :=
  let n := nat_of_ascii a in
  (if (65 <=? n) && (n <=? 90) then Some (n - 65)
   else if (97 <=? n) && (n <=? 122) then Some (n - 71)
   else if (48 <=? n) && (n <=? 57) then Some (n + 4)
   else if n =? 43 then Some 62 else if n =? 47 then Some 63 else None)%nat.
Fixpoint base64_encode (s : string) : string :=
  match s with
  | String a (String b (String c r)) =>
      let x := nat_of_ascii a in let y := nat_of_ascii b in let z := nat_of_ascii c in
      String (b64_char (x / 4)) (String (b64_char ((x mod 4) * 16 + y / 16))
        (String (b64_char ((y mod 16) * 4 + z / 64)) (String (b64_char (z mod 64)) (base64_encode r))))
  | String a (String b EmptyString) =>
      let x := nat_of_ascii a in let y := nat_of_ascii b in
      String (b64_char (x / 4)) (String (b64_char ((x mod 4) * 16 + y / 16))
        (String (b64_char ((y mod 16) * 4)) "="))
  | String a EmptyString =>
      let x := nat_of_ascii a in
      String (b64_char (x / 4)) (String (b64_char ((x mod 4) * 16)) "==")
  | EmptyString => ""
  end%nat.
Fixpoint drop_newlines (s : string) : string :=
  match s with
  | EmptyString => ""
  | String a r => if (nat_of_ascii a =? 10)%nat || (nat_of_ascii a =? 13)%nat
                  then drop_newlines r else String a (drop_newlines r)
  end.
Fixpoint b64_groups (s : string) : option string :=
  match s with
  | EmptyString => Some ""
  | String a (String b (String "=" (String "=" EmptyString))) =>
      let? x := b64_val a in let? y := b64_val b in
      Some (String (byte (x * 4 + y / 16)) "")
  | String a (String b (String c (String "=" EmptyString))) =>
      let? x := b64_val a in let? y := b64_val b in let? z := b64_val c in
      Some (String (byte (x * 4 + y / 16)) (String (byte ((y mod 16) * 16 + z / 4)) ""))
  | String a (String b (String c (String d r))) =>
      let? x := b64_val a in let? y := b64_val b in let? z := b64_val c in let? u := b64_val d in
      let? t := b64_groups r in
      Some (String (byte (x * 4 + y / 16))
             (String (byte ((y mod 16) * 16 + z / 4)) (String (byte ((z mod 4) * 64 + u)) t)))
  | _ => None
  end%nat.
(** DecodeString skips newlines and carriage returns. *)
Definition base64_decode (s : string) : option string := b64_groups (drop_newlines s).

(** The Signer interface. *)
Record Signer := { KeyID : string; Algorithm : string; Sign : string → result string }.

(** * Statistics of an export *)

Record dataStats := {
  eventCount : Z; sizeBytes : Z; sha256hex : string;
  auditPolicyVersions : list string; clusterAuditPolicyVersions : list string }.

(** The VictoriaLogs queries an Exporter makes (vlogsQuerier). *)
Class vlogsQuerier (W : Type) := {
  QueryEvents : string → Z → Z → eff W body;
  DiscoverTenants : Z → Z → eff W (list string) }.
Class vlogsQuerierLaws (W : Type) `{World W} `{!vlogsQuerier W} := {
  QueryEvents_frame t s e w : objects (QueryEvents t s e w).2 = objects w;
  DiscoverTenants_frame s e w : objects (DiscoverTenants s e w).2 = objects w }.

(** VLogsClient, the implementation of the interface over HTTP. *)
Definition vlogsSource : string := "VictoriaLogs".
Definition VLogsClient {W} `{World W} (baseURL : string) : vlogsQuerier W := {|
  QueryEvents tenant start end_ :=
    QueryStream (NewBaseClient baseURL) vlogsSource "/select/logsql/query"
      (list_to_map [("query", buildLogsQL tenant); ("start", fmt_rfc3339 start);
                    ("end", fmt_rfc3339 end_)]);
  DiscoverTenants start end_ :=
    do all := DiscoverFieldValues (NewBaseClient baseURL) vlogsSource "tenant" "*" start end_ in
    eret (Ok (audit_tenants all)) |}.

Lemma VLogsClient_laws {W} `{WorldLaws W} url : @vlogsQuerierLaws W _ (VLogsClient url).
Proof.
  split; intros; simpl.
  - apply QueryStream_frame.
  - unfold ebind, eret. match goal with |- context [DiscoverFieldValues ?a ?b ?c ?d ?e ?f ?w] =>
      pose proof (DiscoverFieldValues_frame a b c d e f w);
      by destruct (DiscoverFieldValues a b c d e f w) as [[] ?] end.
Qed.

Section export.
(** Go's visiting order of a map, gzip of a sequence of writes, SHA-256 and
    HMAC-SHA256 digests. *)
Context (visit : gmap string string → list (string * string)).
Context (gzip : list string → string).
Context (sha256 : string → string).
Context (hmac : string → string → string).

(** [NewLocalSigner], [LocalSigner.Sign], [NewSigner]. *)
Definition key_material (keyID : string) : string :=
  match base64_decode keyID with
  | Some k => if decide (k = "") then keyID else k
  | None => keyID
  end.
Definition LocalSigner (keyID : string) : Signer :=
  {| KeyID := keyID; Algorithm := SigningAlgorithmHMAC;
     Sign := λ data, Ok (base64_encode (hmac (key_material keyID) data)) |}.
Definition NewSigner (cfg : Config) : Signer := LocalSigner (KMSKeyID cfg).

(** ** compressEvents *)

Record compress_state := {
  cs_writes : list string; cs_policies : gset string; cs_clusters : gset string; cs_count : Z }.
Definition add_version (v : string) (s : gset string) : gset string :=
  if decide (v = "") then s else {[v]} ∪ s.
Definition newline : string := String (byte 10) "".

(** One iteration of the scan loop. *)
Definition compress_line (n : Z) (text : string) (st : compress_state) : result compress_state :=
  let line := trim_space text in
  if decide (line = "") then Ok st
  else match unmarshal_flat line with
       | None => Err (EWrap ("line " +:+ itoa n +:+ ": parse") (EText "json"))
       | Some flat =>
           try ev := wrap_err ("line " +:+ itoa n) (flatToAuditEvent flat (visit flat)) in
           try canonical := wrap_err ("line " +:+ itoa n +:+ ": marshal canonical")
                              (marshalCanonical (AuditEvent_MarshalJSON ev)) in
           Ok {| cs_writes := (cs_writes st ++ [canonical; newline])%list;
                 cs_policies := add_version (ev_audit_policy_version ev) (cs_policies st);
                 cs_clusters := add_version (ev_cluster_audit_policy_version ev) (cs_clusters st);
                 cs_count := cs_count st + 1 |}
       end.
Fixpoint compress_lines (n : Z) (lines : list string) (st : compress_state) : result compress_state :=
  match lines with
  | [] => Ok st
  | l :: r => try st' := compress_line (n + 1) l st in compress_lines (n + 1) r st'
  end.

Definition sortedKeys (m : gset string) : list string := sort_strings (elements m).

(** The bytes written to the pipe and the statistics. *)
Definition compressEvents (r : body) : result (string * dataStats) :=
  let (lines, err) := scan_lines (1024 * 1024) r in
  try st := compress_lines 0 lines
              {| cs_writes := []; cs_policies := ∅; cs_clusters := ∅; cs_count := 0 |} in
  match err with
  | Some e => Err (EWrap "reading events" e)
  | None =>
      let out := gzip (cs_writes st) in
      Ok (out, {| eventCount := cs_count st;
                  sizeBytes := Z.of_nat (String.length out);
                  sha256hex := hex_encode (sha256 out);
                  auditPolicyVersions := sortedKeys (cs_policies st);
                  clusterAuditPolicyVersions := sortedKeys (cs_clusters st) |})
  end.

Context {W} `{World W} `{!vlogsQuerier W}.
Context (cfg : Config) (signer : Signer).

(** The two goroutines: the upload reads what the compression writes.  A
    compression error reaches the upload through the pipe; an upload error
    reaches the compression as a write error; the group returns the error
    of the goroutine that ends first. *)
Definition streamDataToS3 (r : body) (key : string) : eff W dataStats :=
  match compressEvents r with
  | Err e =>
      ecase (UploadStream key (Err e)) (λ up,
        eask first_wins (λ first, eret
          match up with
          | Err e' => if first then Err e else Err (EWrap "upload stream" e')
          | Ok _ => Err e
          end))
  | Ok (out, stats) =>
      ecase (UploadStream key (Ok out)) (λ up,
        match up with
        | Ok _ => eret (Ok stats)
        | Err e' => eask first_wins (λ first, eret
            (if first then Err (EWrap "upload stream" e') else Err (EWrap "write gzip" e')))
        end)
  end.

(** [previousManifestSHA256]. *)
Definition prev_window (w : ExportWindow) : ExportWindow :=
  {| w_stream := w_stream w; w_tenant := w_tenant w;
     w_start := w_start w - hour; w_end := w_start w |}.
Definition manifest_key (w : ExportWindow) : string :=
  S3KeyPrefix w (S3Prefix cfg) +:+ "manifest.json".
Definition data_key (w : ExportWindow) : string :=
  S3KeyPrefix w (S3Prefix cfg) +:+ "data.jsonl.gz".
Definition sig_key (w : ExportWindow) : string :=
  S3KeyPrefix w (S3Prefix cfg) +:+ "manifest.json.sig".
Definition previousManifestSHA256 (w : ExportWindow) : eff W string :=
  do data := GetObject (manifest_key (prev_window w)) in
  eret match data with
       | None => Ok ""
       | Some d => if json_valid d then Ok (hex_encode (sha256 d))
                   else Err (EText "previous manifest is not valid JSON")
       end.

Definition make_manifest (w : ExportWindow) (stats : dataStats) (prev : string) (now : Z) : Manifest :=
  {| mf_audit_policy_versions := auditPolicyVersions stats;
     mf_cluster_audit_policy_versions := clusterAuditPolicyVersions stats;
     mf_created_at := now;
     mf_data_file := {| df_name := "data.jsonl.gz"; df_sha256 := sha256hex stats;
                        df_size := sizeBytes stats |};
     mf_event_count := eventCount stats;
     mf_event_schema_version := EventSchemaVersion;
     mf_kms_key_id := KeyID signer;
     mf_manifest_version := ManifestVersion;
     mf_previous_sha256 := prev;
     mf_producer := producer cfg;
     mf_signing_algorithm := Algorithm signer;
     mf_stream := w_stream w;
     mf_tenant := w_tenant w;
     mf_window_end := w_end w;
     mf_window_start := w_start w |}.

(** The compliance check for a data file without a manifest. *)
Definition compliance_check (w : ExportWindow) : eff W unit :=
  if ComplianceMode cfg then
    do dataExists := ewrap "compliance pre-check for data file" (ObjectExists (data_key w)) in
    eret (if (dataExists : bool)
          then Err (EText ("compliance mode: data file " +:+ quote (data_key w) +:+
                 " exists without a manifest; manual intervention is required"))
          else Ok tt)
  else eret (Ok tt).

(** Steps 3 to 6: chain, build, sign, upload the signature, then the manifest. *)
Definition publish_manifest (w : ExportWindow) (stats : dataStats) : eff W unit :=
  ecase (previousManifestSHA256 w) (λ r,
    let prevSHA256 := match r with Ok h => h | Err _ => "" end in
    eask time_now (λ now,
      do manifestBytes := eret (wrap_err "marshal manifest"
                            (marshalCanonical (manifest_json (make_manifest w stats prevSHA256 now)))) in
      do sigBytes := eret (wrap_err "sign manifest" (Sign signer manifestBytes)) in
      do _ := ewrap "upload sig" (PutObject (sig_key w) sigBytes) in
      ewrap "upload manifest" (PutObject (manifest_key w) manifestBytes))).

Definition exportWindow (w : ExportWindow) : eff W unit :=
  do exists_ := ewrap "idempotency check" (ObjectExists (manifest_key w)) in
  if (exists_ : bool) then eret (Ok tt)
  else
    do b := QueryEvents (w_tenant w) (w_start w) (w_end w) in
    do _ := compliance_check w in
    do stats := ewrap "stream data to S3" (streamDataToS3 b (data_key w)) in
    publish_manifest w stats.

(** ** The run *)

(** The end of the last window to export: the last whole hour, one hour
    earlier when it ended less than the delay ago. *)
Definition previous_hour_end (now : Z) : Z :=
  let e := truncate_hour now in
  if now - e <? ExportDelay cfg then e - hour else e.
(** The start of the catch-up range; durations are 64-bit. *)
Definition catch_up_start (now : Z) : Z :=
  previous_hour_end now - hour + wrap64 (wrap64 (- (CatchUpHours cfg - 1)) * hour).

(** [for wStart := from; wStart.Before(upToEnd); wStart += 1h]. *)
Fixpoint hour_loop (fuel : nat) (wStart upToEnd : Z) : list Z :=
  match fuel with
  | O => []
  | S fuel' => if wStart <? upToEnd then wStart :: hour_loop fuel' (wStart + hour) upToEnd else []
  end.
Definition hour_starts (from upToEnd : Z) : list Z :=
  hour_loop (Z.to_nat ((upToEnd - from) / hour + 1)) from upToEnd.

(** A loop that appends what each iteration finds. *)
Fixpoint efor {A B} (l : list A) (f : A → eff W (list B)) : eff W (list B) :=
  match l with
  | [] => eret (Ok [])
  | x :: r => do a := f x in do b := efor r f in eret (Ok (a ++ b)%list)
  end.

Definition tenantsForStream (stream : string) (from upToEnd : Z) : eff W (list string) :=
  if decide (stream = StreamPlatformAuditLog) then eret (Ok [TenantPlatform])
  else if decide (Tenants cfg = []) then
    ewrap "auto-discover tenants" (DiscoverTenants from upToEnd)
  else eret (Ok (Tenants cfg)).

Definition window_at (stream tenant : string) (t : Z) : ExportWindow :=
  {| w_stream := stream; w_tenant := tenant; w_start := t; w_end := t + hour |}.
Definition collect_window (w : ExportWindow) : eff W (list ExportWindow) :=
  do exists_ := ewrap ("check manifest " +:+ quote (manifest_key w)) (ObjectExists (manifest_key w)) in
  eret (Ok (if (exists_ : bool) then [] else [w])).
Definition collect_stream (from upToEnd : Z) (stream : string) : eff W (list ExportWindow) :=
  do tenants := ewrap ("stream " +:+ quote stream +:+ ": get tenants")
                  (tenantsForStream stream from upToEnd) in
  efor tenants (λ tenant,
    efor (hour_starts from upToEnd) (λ t, collect_window (window_at stream tenant t))).
Definition collectWindows (from upToEnd : Z) : eff W (list ExportWindow) :=
  efor (Streams cfg) (collect_stream from upToEnd).

(** The export loop of Run: a source outage or a cancelled context ends it,
    any other failure is remembered and the next window follows. *)
Fixpoint export_loop (windows : list ExportWindow) (exportErr : option gerror) : eff W unit :=
  match windows with
  | [] => eret (match exportErr with None => Ok tt | Some e => Err e end)
  | w :: r =>
      eask ctx_err (λ c,
        match c with
        | Some e => eret (Err e)
        | None =>
            ecase (exportWindow w) (λ res,
              match res with
              | Ok _ => export_loop r exportErr
              | Err err =>
                  if errors_as is_source_err err
                  then eret (Err (EWrap "source outage during export" err))
                  else export_loop r (Some (EWrap "one or more windows failed (last)" err))
              end)
        end)
  end.

Definition Run : eff W unit :=
  do _ := PreflightBucket (S3Bucket cfg) (ComplianceMode cfg) in
  eask time_now (λ now,
    do windows := ewrap "collect windows"
                    (collectWindows (catch_up_start now) (previous_hour_end now)) in
    export_loop windows None).
End export.
