(* ===== verification/AuditExportFacts.v ===== *)
(** What the audit exporter guarantees: the configuration it accepts, which
    hours it exports, the order of uploads of one window and what a completed
    window contains, whatever calls fail on the way. *)
From S2P Require Import Prelude Strings GoTime Json JsonFacts World Vlogs Env AuditEvents.
From S2P Require Import AuditEventFacts AuditExport.
From Stdlib Require Import Ascii.

Open Scope string_scope.
Open Scope Z_scope.

(** * Hours *)

Lemma hour_loop_spec fuel t up x :
  (hour | x - t) → (Z.to_nat ((up - t) / hour + 1) ≤ fuel)%nat →
  x ∈ hour_loop fuel t up ↔ t <= x < up.
Proof.
  revert t. induction fuel as [|fuel IH]; intros t [k Hk] Hf; cbn [hour_loop].
  - assert (up < t + hour * 0 + 0 + 0 \/ up = t + 0 \/ up < t \/ True) by auto.
    assert ((up - t) / hour + 1 <= 0) as Hq by lia.
    assert (up - t < 0) by (unfold hour, minute, second in *; Z.div_mod_to_equations; lia).
    split; [by intros ?%elem_of_nil|lia].
  - destruct (Z.ltb_spec t up) as [Hlt|Hge]; [|split; [by intros ?%elem_of_nil|lia]].
    rewrite elem_of_cons, IH.
    + unfold hour, minute, second in *. split; [intros [->|?]; lia|].
      intros ?. destruct (decide (k = 0)); [left; lia|right; nia].
    + exists (k - 1). lia.
    + replace ((up - (t + hour)) / hour) with ((up - t) / hour - 1); [lia|].
      unfold hour, minute, second in *. Z.div_mod_to_equations. lia.
Qed.

(** The loop over the hours of a range ends, and visits each hour of it. *)
Lemma hour_starts_spec from up x :
  x ∈ hour_starts from up ↔ (hour | x - from) ∧ from <= x < up.
Proof.
  unfold hour_starts. split.
  - intros Hin.
    assert (Hd : (hour | x - from)); [|by apply hour_loop_spec in Hin].
    revert Hin. generalize (Z.to_nat ((up - from) / hour + 1)) as fuel. clear.
    intros fuel. revert from. induction fuel as [|fuel IH]; intros from; cbn [hour_loop];
      [by intros ?%elem_of_nil|].
    case_match; [|by intros ?%elem_of_nil].
    intros [->|Hin]%elem_of_cons; [exists 0; lia|].
    apply IH in Hin as [k Hk]. exists (k + 1). lia.
  - intros [Hd Hr]. by apply hour_loop_spec.
Qed.

(** ** The loop ends *)

(** The steps of the loop as the language defines them, without a bound: [l]
    are the starts it visits before it ends. *)
Inductive hour_run : Z → Z → list Z → Prop :=
  | hour_stop t up : ¬ t < up → hour_run t up []
  | hour_next t up l : t < up → hour_run (t + hour) up l → hour_run t up (t :: l).

(** The iterations it takes, the last one not being a whole hour perhaps. *)
Definition hours_between (from up : Z) : Z := Z.max 0 ((up - from + hour - 1) / hour).

Lemma hours_between_step t up : t < up → hours_between t up = hours_between (t + hour) up + 1.
Proof.
  unfold hours_between. intros Ht.
  replace (up - (t + hour) + hour - 1) with (up - t + hour - 1 + -1 * hour) by lia.
  rewrite Z.div_add by done.
  assert (1 <= (up - t + hour - 1) / hour) by (apply Z.div_le_lower_bound; [done|lia]). lia.
Qed.
Lemma hours_between_stop t up : ¬ t < up → hours_between t up = 0.
Proof.
  unfold hours_between. intros Ht.
  assert ((up - t + hour - 1) / hour < 1) by (apply Z.div_lt_upper_bound; [done|lia]). lia.
Qed.

Lemma hour_loop_run fuel t up :
  (Z.to_nat (hours_between t up) ≤ fuel)%nat →
  hour_run t up (hour_loop fuel t up) ∧
  length (hour_loop fuel t up) = Z.to_nat (hours_between t up).
Proof.
  revert t. induction fuel as [|fuel IH]; intros t Hf; cbn [hour_loop].
  - destruct (decide (t < up)) as [Ht|Ht].
    + rewrite hours_between_step in Hf by done.
      assert (0 <= hours_between (t + hour) up) by (unfold hours_between; lia). lia.
    + rewrite hours_between_stop by done. split; [by constructor|done].
  - destruct (Z.ltb_spec t up) as [Ht|Ht].
    + rewrite hours_between_step in * by done.
      assert (0 <= hours_between (t + hour) up) by (unfold hours_between; lia).
      destruct (IH (t + hour)) as [Hr Hl]; [lia|]. split; [by constructor|]. simpl. rewrite Hl. lia.
    + rewrite hours_between_stop by lia. split; [constructor; lia|done].
Qed.
Lemma hour_starts_run from up :
  hour_run from up (hour_starts from up) ∧ length (hour_starts from up) = Z.to_nat (hours_between from up).
Proof.
  apply hour_loop_run. unfold hours_between.
  replace (up - from + hour - 1) with (up - from - 1 + 1 * hour) by lia. rewrite Z.div_add by done.
  assert ((up - from - 1) / hour <= (up - from) / hour) by (apply Z.div_le_mono; [done|lia]). lia.
Qed.

(** The loop is deterministic. *)
Lemma hour_run_det t up l l' : hour_run t up l → hour_run t up l' → l = l'.
Proof.
  intros Hr. revert l'. induction Hr as [t up Ht|t up l Ht Hr IH]; intros l' Hr'; inversion Hr'; subst; try done.
  f_equal. by apply IH.
Qed.

Lemma catch_up_start_eq cfg now :
  -100000 <= CatchUpHours cfg <= 100000 →
  catch_up_start cfg now = previous_hour_end cfg now - CatchUpHours cfg * hour.
Proof.
  intros Hn. unfold catch_up_start, wrap64, hour, minute, second in *.
  rewrite (Z.mod_small (- (CatchUpHours cfg - 1) + 2 ^ 63)) by lia.
  rewrite Z.mod_small by lia. lia.
Qed.

(** C6: Whatever the configuration and the clock, the loop over the hours to
    export ends, with exactly the starts of the model; a configured number of
    hours takes as many iterations, and none when it is not positive. *)
Theorem catch_up_terminates cfg now :
  let from := catch_up_start cfg now in
  let up := previous_hour_end cfg now in
  (∀ l, hour_run from up l ↔ l = hour_starts from up) ∧
  length (hour_starts from up) = Z.to_nat (hours_between from up) ∧
  (-100000 <= CatchUpHours cfg <= 100000 → hours_between from up = Z.max 0 (CatchUpHours cfg)).
Proof.
  intros from up. destruct (hour_starts_run from up) as [Hr Hl]. split_and!; [|done|].
  - intros l. split; [intros Hr'; by eapply hour_run_det|by intros ->].
  - intros Hn. unfold from, up. rewrite catch_up_start_eq by done. unfold hours_between.
    replace (_ - (_ - CatchUpHours cfg * hour) + hour - 1) with (hour - 1 + CatchUpHours cfg * hour) by lia.
    rewrite Z.div_add by done. change ((hour - 1) / hour) with 0. lia.
Qed.

Lemma previous_hour_end_aligned cfg now : (hour | previous_hour_end cfg now).
Proof.
  unfold previous_hour_end. destruct (truncate_hour_spec now) as [_ [k Hk]].
  case_match; [exists (k - 1)|exists k]; lia.
Qed.

(** With a delay of at most an hour, the last exported window ended at
    least the delay ago, and no later window could have been exported. *)
Theorem export_delay_respected cfg now (Hd : 0 <= ExportDelay cfg <= hour) :
  let e := previous_hour_end cfg now in
  (hour | e) ∧ e + ExportDelay cfg <= now < e + hour + ExportDelay cfg.
Proof.
  intros e. split; [apply previous_hour_end_aligned|]. unfold e, previous_hour_end.
  destruct (truncate_hour_spec now) as [Hr _]. destruct (Z.ltb_spec (now - truncate_hour now) (ExportDelay cfg)); lia.
Qed.

Definition sample_env : environ := list_to_map
  [("S3_BUCKET", "b"); ("TENANTS", "acme, beta"); ("CATCHUP_HOURS", "2")].
Definition sample_cfg : Config :=
  match LoadConfig sample_env with Ok c => c | Err _ => Build_Config "" "" "" "" "" "" "" false false false "" [] [] 0 0 "" "" end.

Lemma export_delay_respected_witness :
  let e := previous_hour_end sample_cfg (10 * hour + 3 * minute) in
  (hour | e) ∧ e + ExportDelay sample_cfg <= 10 * hour + 3 * minute < e + hour + ExportDelay sample_cfg.
Proof. apply (export_delay_respected sample_cfg (10 * hour + 3 * minute)). by vm_compute. Defined.

(** A delay of more than an hour is not respected: the exporter backs up
    one hour only, so a window may be exported before its delay has passed. *)
Theorem export_delay_beyond_hour cfg now
    (Hd : 2 * hour <= ExportDelay cfg) :
  now < previous_hour_end cfg now + ExportDelay cfg.
Proof.
  unfold previous_hour_end. destruct (truncate_hour_spec now) as [Hr _].
  destruct (Z.ltb_spec (now - truncate_hour now) (ExportDelay cfg)); lia.
Qed.

Definition slow_cfg : Config :=
  match LoadConfig (<["EXPORT_DELAY" := "3h"]> sample_env) with Ok c => c | Err _ => sample_cfg end.

Lemma export_delay_beyond_hour_witness :
  10 * hour < previous_hour_end slow_cfg (10 * hour) + ExportDelay slow_cfg.
Proof. apply (export_delay_beyond_hour slow_cfg (10 * hour)). by vm_compute. Defined.

(** * Configuration *)

Lemma GetEnvDuration_range env key def :
  min_int64 <= def <= max_int64 → min_int64 <= GetEnvDuration env key def <= max_int64.
Proof.
  intros Hd. unfold GetEnvDuration. case_decide; [done|].
  destruct (parse_duration _) eqn:E; [|done]. exact (parse_duration_range _ _ E).
Qed.

(** C40: A configuration that loads names at least one stream and a bucket,
    has both or neither of the static keys, has no empty stream or tenant, and
    a delay that is a 64-bit duration. *)
Theorem LoadConfig_valid env cfg (H : LoadConfig env = Ok cfg) :
  Streams cfg ≠ [] ∧ S3Bucket cfg ≠ "" ∧ (S3AccessKey cfg = "" ↔ S3SecretKey cfg = "")
  ∧ (∀ x, x ∈ (Streams cfg ++ Tenants cfg)%list → x ≠ "")
  ∧ min_int64 <= ExportDelay cfg <= max_int64.
Proof.
  unfold LoadConfig in H. case_decide as H1; [done|]. case_decide as H2; [done|].
  destruct (Bool.eqb _ _) eqn:H3; [|done]. simpl in H. injection H as <-.
  apply eqb_prop in H3. refine (conj H1 (conj H2 (conj _ (conj _ _)))).
  - repeat case_bool_decide; naive_solver.
  - intros x. rewrite elem_of_app. cbn [Streams Tenants]. intros [Hx|Hx].
    + exact (split_list_nonempty _ _ Hx).
    + case_decide; [by apply elem_of_nil in Hx|exact (split_list_nonempty _ _ Hx)].
  - cbn [ExportDelay]. apply GetEnvDuration_range. by vm_compute.
Qed.

Lemma LoadConfig_valid_witness : Streams sample_cfg ≠ [] ∧ S3Bucket sample_cfg ≠ "".
Proof.
  destruct (LoadConfig_valid sample_env sample_cfg) as (H1 & H2 & _);
    [by vm_compute|split; [exact H1|exact H2]].
Defined.

(** The two hours of the example. *)
Lemma catch_up_terminates_witness :
  length (hour_starts (catch_up_start sample_cfg 0) (previous_hour_end sample_cfg 0)) = 2%nat.
Proof.
  destruct (catch_up_terminates sample_cfg 0) as (_ & -> & Hn). rewrite Hn; [reflexivity|].
  split; vm_compute; discriminate.
Defined.

(** * Compression *)

Definition event_lines (lines : list string) : list string :=
  filter (λ l, l ≠ "") (trim_space <$> lines).

Section compress.
Context (visit : gmap string string → list (string * string)).
Context (gzip : list string → string).
Context (sha256 : string → string).

(** The event of a line and its canonical text. *)
Definition line_event (l : string) (e : AuditEvent * string) : Prop :=
  ∃ flat, unmarshal_flat l = Some flat ∧ flatToAuditEvent flat (visit flat) = Ok e.1
          ∧ marshalCanonical (AuditEvent_MarshalJSON e.1) = Ok e.2.

Definition line_writes (e : AuditEvent * string) : list string := [e.2; newline].
Definition versions (f : AuditEvent → string) (evs : list (AuditEvent * string)) : gset string :=
  foldl (λ s e, add_version (f e.1) s) ∅ evs.

Lemma compress_line_event n text st st' :
  compress_line visit n text st = Ok st' →
  (trim_space text = "" ∧ st' = st)
  ∨ (trim_space text ≠ "" ∧ ∃ e, line_event (trim_space text) e
     ∧ st' = {| cs_writes := (cs_writes st ++ line_writes e)%list;
                cs_policies := add_version (ev_audit_policy_version e.1) (cs_policies st);
                cs_clusters := add_version (ev_cluster_audit_policy_version e.1) (cs_clusters st);
                cs_count := cs_count st + 1 |}).
Proof.
  unfold compress_line. case_decide as Hl; [intros [= <-]; by left|]. right. split; [done|].
  destruct (unmarshal_flat _) as [flat|] eqn:Hf; [|done].
  apply rbind_ok in H as (ev & Hev%wrap_err_ok & H).
  apply rbind_ok in H as (c & Hc%wrap_err_ok & [= <-]).
  exists (ev, c). split; [by exists flat|done].
Qed.

Lemma compress_lines_events n lines st st' :
  compress_lines visit n lines st = Ok st' →
  ∃ evs, Forall2 line_event (event_lines lines) evs
    ∧ cs_writes st' = (cs_writes st ++ concat (line_writes <$> evs))%list
    ∧ cs_policies st' = foldl (λ s e, add_version (ev_audit_policy_version e.1) s) (cs_policies st) evs
    ∧ cs_clusters st' =
        foldl (λ s e, add_version (ev_cluster_audit_policy_version e.1) s) (cs_clusters st) evs
    ∧ cs_count st' = cs_count st + Z.of_nat (length evs).
Proof.
  revert n st. induction lines as [|l lines IH]; intros n st; cbn [compress_lines].
  - intros [= <-]. exists []. split_and!; [done|by rewrite app_nil_r|done|done|simpl; lia].
  - intros (st1 & H1 & H2)%rbind_ok. apply IH in H2 as (evs & He & Hw & Hp & Hc & Hn).
    apply compress_line_event in H1 as [[Hb ->]|(Hb & e & Hle & ->)].
    + exists evs. unfold event_lines in *. rewrite fmap_cons, filter_cons_False by (intros Hx; by apply Hx).
      by split_and!.
    + exists (e :: evs). unfold event_lines in *. rewrite fmap_cons, filter_cons_True by done.
      split_and!; [by constructor| |done|done|].
      * rewrite Hw. csimpl. by rewrite <-app_assoc.
      * rewrite Hn. simpl. lia.
Qed.

Lemma elem_of_versions f evs v : v ∈ versions f evs ↔ v ≠ "" ∧ ∃ e, e ∈ evs ∧ f e.1 = v.
Proof.
  unfold versions. assert (H : ∀ s, v ∈ foldl (λ s e, add_version (f e.1) s) s evs
    ↔ v ∈ s ∨ v ≠ "" ∧ ∃ e : AuditEvent * string, e ∈ evs ∧ f e.1 = v); [|rewrite H; set_solver].
  induction evs as [|e evs IH]; intros s; simpl; [set_solver|].
  rewrite IH. unfold add_version. case_decide; set_solver.
Qed.

Lemma compressEvents_inv r out stats :
  compressEvents visit gzip sha256 r = Ok (out, stats) →
  ∃ evs, Forall2 line_event (event_lines (scan_lines (1024 * 1024) r).1) evs
    ∧ (scan_lines (1024 * 1024) r).2 = None
    ∧ out = gzip (concat (line_writes <$> evs))
    ∧ stats = {| eventCount := Z.of_nat (length evs);
                 sizeBytes := Z.of_nat (String.length out);
                 sha256hex := hex_encode (sha256 out);
                 auditPolicyVersions := sortedKeys (versions ev_audit_policy_version evs);
                 clusterAuditPolicyVersions :=
                   sortedKeys (versions ev_cluster_audit_policy_version evs) |}.
Proof.
  unfold compressEvents. destruct (scan_lines (1024 * 1024) r) as [lines err].
  intros (st & Hst & H)%rbind_ok. destruct err as [e|]; [done|]. injection H as <- <-.
  apply compress_lines_events in Hst as (evs & He & Hw & Hp & Hc & Hn). simpl in *.
  exists evs. split_and!; [done|done|by rewrite Hw|by rewrite Hw, Hn, Hp, Hc].
Qed.

(** The versions a field of the events has, sorted. *)
Definition version_list (f : AuditEvent → string) (evs : list (AuditEvent * string)) (l : list string) : Prop :=
  StronglySorted String.le l ∧ NoDup l ∧ ∀ v, v ∈ l ↔ v ≠ "" ∧ ∃ e, e ∈ evs ∧ f e.1 = v.

Lemma sortedKeys_versions f evs : version_list f evs (sortedKeys (versions f evs)).
Proof.
  unfold version_list, sortedKeys. split; [apply sort_strings_sorted|]. split.
  - rewrite sort_strings_perm. apply NoDup_elements.
  - intros v. by rewrite elem_of_sort_strings, elem_of_elements, elem_of_versions.
Qed.

(** C5: Compressing succeeds only when the whole stream was read and every
    line that is not blank became an event; the output is the gzip of the
    canonical lines in the order of the stream, and the statistics are the
    number of events, the size and digest of exactly that output, and the two
    lists of policy versions, each sorted, without repetition and with exactly
    the versions the events carry in that field. *)
Theorem compressEvents_complete r out stats
    (H : compressEvents visit gzip sha256 r = Ok (out, stats)) :
  ∃ evs, Forall2 line_event (event_lines (scan_lines (1024 * 1024) r).1) evs
    ∧ (scan_lines (1024 * 1024) r).2 = None
    ∧ out = gzip (concat (line_writes <$> evs))
    ∧ eventCount stats = Z.of_nat (length (event_lines (scan_lines (1024 * 1024) r).1))
    ∧ sizeBytes stats = Z.of_nat (String.length out)
    ∧ sha256hex stats = hex_encode (sha256 out)
    ∧ version_list ev_audit_policy_version evs (auditPolicyVersions stats)
    ∧ version_list ev_cluster_audit_policy_version evs (clusterAuditPolicyVersions stats).
Proof.
  apply compressEvents_inv in H as (evs & He & Hs & Ho & ->). exists evs.
  split_and!; try done.
  - simpl. by rewrite (Forall2_length _ _ _ He).
  - apply sortedKeys_versions.
  - apply sortedKeys_versions.
Qed.
End compress.

(** A stand-in for gzip and the digests: the bytes themselves. *)
Definition plain_gzip (writes : list string) : string := join "" writes.
Definition sample_body : body :=
  {| b_text := "{" +:+ dquote +:+ "event_id" +:+ dquote +:+ ":" +:+ dquote +:+ "e1" +:+ dquote +:+ "}" +:+ newline;
     b_err := None |}.

Lemma compressEvents_complete_witness :
  ∃ out stats, compressEvents map_to_list plain_gzip id sample_body = Ok (out, stats)
    ∧ eventCount stats = 1 ∧ sizeBytes stats = Z.of_nat (String.length out).
Proof.
  destruct (compressEvents map_to_list plain_gzip id sample_body) as [[out stats]|e] eqn:E;
    [|by vm_compute in E].
  exists out, stats. split; [done|].
  destruct (compressEvents_complete map_to_list plain_gzip id sample_body out stats E)
    as (evs & _ & _ & _ & Hn & Hs & _).
  split; [rewrite Hn; by vm_compute|exact Hs].
Defined.

(** * Object keys *)

(** Two texts that end in a slash and a slash-free name are equal only
    piecewise. *)
Lemma string_app_inj_last (a b s t : string) :
  char_free "/" s = true → char_free "/" t = true →
  (a +:+ String "/" s = b +:+ String "/" t)%string → a = b ∧ s = t.
Proof.
  intros Hs Ht. revert b.
  assert (Hf : ∀ (x : string) u, char_free "/" (x +:+ String "/" u) = false).
  { intros x u. induction x as [|z x IH]; [done|].
    change (negb (Ascii.eqb z "/") && char_free "/" (x +:+ String "/" u) = false).
    by rewrite IH, andb_false_r. }
  induction a as [|x a IH]; intros [|y b] H.
  - by injection H.
  - injection H as _ ->. by rewrite Hf in Hs.
  - injection H as _ <-. by rewrite Hf in Ht.
  - change (String x (a +:+ String "/" s) = String y (b +:+ String "/" t)) in H.
    injection H as -> H. by apply IH in H as [-> ->].
Qed.

(** Windows whose keys are told apart. *)
Definition good_window (w : ExportWindow) : Prop :=
  char_free "/" (w_stream w) = true ∧ (hour | w_start w) ∧ four_digit_year (w_start w).

Definition same_place (w w' : ExportWindow) : Prop :=
  w_stream w = w_stream w' ∧ w_tenant w = w_tenant w' ∧ w_start w = w_start w'.

Lemma S3KeyPrefix_slash w p : ∃ x, S3KeyPrefix w p = (x +:+ "/")%string.
Proof.
  unfold S3KeyPrefix. case_decide.
  - exists (w_stream w +:+ "/" +:+ w_tenant w +:+ "/" +:+ fmt_path (w_start w)).
    by rewrite !string_app_assoc.
  - exists (p +:+ "/" +:+ w_stream w +:+ "/" +:+ w_tenant w +:+ "/" +:+ fmt_path (w_start w)).
    by rewrite !string_app_assoc.
Qed.

Lemma keys_apart w w' p s t :
  good_window w → good_window w' → char_free "/" s = true → char_free "/" t = true →
  (S3KeyPrefix w p +:+ s = S3KeyPrefix w' p +:+ t)%string → same_place w w' ∧ s = t.
Proof.
  intros (Hs1 & Hh1 & Hy1) (Hs2 & Hh2 & Hy2) Hs Ht H.
  destruct (S3KeyPrefix_slash w p) as [x Hx], (S3KeyPrefix_slash w' p) as [y Hy].
  assert (x = y ∧ s = t) as [-> ->].
  { apply string_app_inj_last; [done|done|]. rewrite Hx, Hy, !string_app_assoc in H. exact H. }
  split; [|done]. apply (S3KeyPrefix_inj_aux w w' p); try done. by rewrite Hx, Hy.
Qed.

Section keys.
Context (cfg : Config).
Notation mk := (manifest_key cfg).
Notation dk := (data_key cfg).
Notation sk := (sig_key cfg).

Lemma manifest_data_ne w w' : good_window w → good_window w' → mk w ≠ dk w'.
Proof. intros H1 H2 H. by apply keys_apart in H as [_ ?]. Qed.
Lemma manifest_sig_ne w w' : good_window w → good_window w' → mk w ≠ sk w'.
Proof. intros H1 H2 H. by apply keys_apart in H as [_ ?]. Qed.
Lemma data_sig_ne w w' : good_window w → good_window w' → dk w ≠ sk w'.
Proof. intros H1 H2 H. by apply keys_apart in H as [_ ?]. Qed.
Lemma manifest_inj w w' : good_window w → good_window w' → mk w = mk w' → same_place w w'.
Proof. intros H1 H2 H. by apply keys_apart in H as [? _]. Qed.
Lemma data_inj w w' : good_window w → good_window w' → dk w = dk w' → same_place w w'.
Proof. intros H1 H2 H. by apply keys_apart in H as [? _]. Qed.
Lemma sig_inj w w' : good_window w → good_window w' → sk w = sk w' → same_place w w'.
Proof. intros H1 H2 H. by apply keys_apart in H as [? _]. Qed.

Lemma same_place_keys w w' : same_place w w' → mk w = mk w' ∧ dk w = dk w' ∧ sk w = sk w'.
Proof.
  intros (H1 & H2 & H3). unfold manifest_key, data_key, sig_key, S3KeyPrefix.
  by rewrite H1, H2, H3.
Qed.
End keys.

(** * One window *)

Lemma string_app_inj_l (a b c : string) : (a +:+ b = a +:+ c)%string → b = c.
Proof.
  induction a as [|x a IH]; [done|]. intros H. apply IH.
  by injection H.
Qed.

#[local] Opaque marshalCanonical.

Section window.
Context (visit : gmap string string → list (string * string)).
Context (gzip : list string → string) (sha256 : string → string).
Context {W} `{WorldLaws W} `{!vlogsQuerier W} `{!vlogsQuerierLaws W}.
Context (cfg : Config) (signer : Signer).
Notation mk := (manifest_key cfg).
Notation dk := (data_key cfg).
Notation sk := (sig_key cfg).
Notation compress := (compressEvents visit gzip sha256).

Lemma keys_distinct w : mk w ≠ dk w ∧ mk w ≠ sk w ∧ dk w ≠ sk w.
Proof. split_and!; intros E; by apply string_app_inj_l in E. Qed.

(** What a manifest records of the data and of the manifest before it. *)
Definition manifest_of (w : ExportWindow) (m : gmap string string) (stats : dataStats)
    (mb sg : string) : Prop :=
  ∃ prev now,
    marshalCanonical (manifest_json (make_manifest cfg signer w stats prev now)) = Ok mb
    ∧ Sign signer mb = Ok sg
    ∧ (prev = "" ∨ ∃ d, m !! mk (prev_window w) = Some d ∧ prev = hex_encode (sha256 d)).

Lemma previousManifest_frame w s : objects (previousManifestSHA256 sha256 cfg w s).2 = objects s.
Proof.
  unfold previousManifestSHA256, ebind, eret.
  pose proof (GetObject_frame (mk (prev_window w)) s) as Hf.
  destruct (GetObject _ s) as [[o|e] s1]; exact Hf.
Qed.

Lemma previousManifest_ok w s h s' :
  previousManifestSHA256 sha256 cfg w s = (Ok h, s') →
  h = match objects s !! mk (prev_window w) with Some d => hex_encode (sha256 d) | None => "" end.
Proof.
  unfold previousManifestSHA256. intros (o & s1 & Ho%GetObject_spec & Hr)%ebind_ok.
  unfold eret in Hr. rewrite <-Ho. destruct o; [|naive_solver]. case_match; naive_solver.
Qed.

(** Publishing leaves the signature or both objects, the manifest last. *)
Lemma publish_stages w stats s r s' :
  publish_manifest sha256 cfg signer w stats s = (r, s') →
  (is_ok r = false ∧ objects s' = objects s)
  ∨ ∃ mb sg, manifest_of w (objects s) stats mb sg ∧
      ((is_ok r = false ∧ objects s' = <[sk w := sg]> (objects s))
       ∨ objects s' = <[mk w := mb]> (<[sk w := sg]> (objects s))).
Proof.
  unfold publish_manifest, ecase, eask.
  pose proof (previousManifest_frame w s) as Hf.
  destruct (previousManifestSHA256 sha256 cfg w s) as [p s1] eqn:Ep. simpl in Hf.
  set (prev := match p with Ok h => h | Err _ => "" end).
  assert (Hprev : prev = "" ∨ ∃ d, objects s !! mk (prev_window w) = Some d
                                   ∧ prev = hex_encode (sha256 d)).
  { destruct p as [h|e]; [|by left]. apply previousManifest_ok in Ep. unfold prev. rewrite Ep.
    destruct (objects s !! _) as [d|]; [right; by exists d|by left]. }
  pose proof (now_frame s1) as Hn. destruct (time_now s1) as [now s2]. simpl in Hn.
  unfold ebind, eret.
  remember (marshalCanonical (manifest_json (make_manifest cfg signer w stats prev now))) as mr eqn:Emb.
  symmetry in Emb. destruct mr as [mb|e]; cbn [wrap_err];
    [|intros [= <- <-]; left; rewrite Hn, Hf; split; reflexivity].
  destruct (Sign signer mb) as [sg|e] eqn:Esg; cbn [wrap_err];
    [|intros [= <- <-]; left; rewrite Hn, Hf; split; reflexivity].
  assert (Hm : manifest_of w (objects s) stats mb sg) 
    by (exists prev, now; split; [exact Emb|split; [exact Esg|exact Hprev]]).
  clear Emb Esg Hprev.
  unfold ewrap. pose proof (PutObject_wrote (sk w) sg s2) as Hp.
  destruct (PutObject (sk w) sg s2) as [[[]|e] s3]; simpl in *; rewrite Hn, Hf in Hp.
  - pose proof (PutObject_wrote (mk w) mb s3) as Hq.
    destruct (PutObject (mk w) mb s3) as [[[]|e] s4]; simpl in *; rewrite Hp in Hq;
      intros [= <- <-]; right; exists mb, sg; (split; [exact Hm|]); [by right|].
    destruct Hq as [Hq|Hq]; [by left|by right].
  - intros [= <- <-]. destruct Hp as [Hp|Hp]; [by left|]. right. exists mb, sg.
    split; [exact Hm|]. by left.
Qed.

(** Streaming stores the complete output or nothing. *)
Lemma stream_stages b k s r s' :
  streamDataToS3 visit gzip sha256 b k s = (r, s') →
  (is_ok r = false ∧ objects s' = objects s)
  ∨ ∃ out stats, compress b = Ok (out, stats) ∧ objects s' = <[k := out]> (objects s)
                 ∧ (r = Ok stats ∨ is_ok r = false).
Proof.
  unfold streamDataToS3. destruct (compress b) as [[out stats]|e] eqn:Ec.
  - unfold ecase. pose proof (UploadStream_wrote k out s) as Hu.
    destruct (UploadStream k (Ok out) s) as [[[]|e] s1]; simpl in Hu.
    + intros [= <- <-]. right. exists out, stats. auto.
    + unfold eask, eret. pose proof (race_frame s1) as Hr. destruct (first_wins s1) as [f s2].
      simpl in Hr. intros [= <- <-]. rewrite Hr.
      destruct Hu as [Hu|Hu]; [left; by destruct f|right]. exists out, stats.
      split_and!; [done|done|right; by destruct f].
  - unfold ecase, eask, eret. pose proof (UploadStream_broken k e s) as [Ho Hu].
    destruct (UploadStream k (Err e) s) as [[[]|e'] s1]; [done|]. simpl in *.
    pose proof (race_frame s1) as Hr. destruct (first_wins s1) as [f s2]. simpl in Hr.
    intros [= <- <-]. left. rewrite Hr. by destruct f.
Qed.

(** How far the export of a window got. *)
Inductive stages (w : ExportWindow) (m : gmap string string) : result unit → gmap string string → Prop :=
  | st_none r : (r = Ok tt → is_Some (m !! mk w)) → stages w m r m
  | st_data e out :
      m !! mk w = None → (ComplianceMode cfg = true → m !! dk w = None) →
      stages w m (Err e) (<[dk w := out]> m)
  | st_sig e out stats mb sg :
      m !! mk w = None → (ComplianceMode cfg = true → m !! dk w = None) →
      manifest_of w (<[dk w := out]> m) stats mb sg →
      stages w m (Err e) (<[sk w := sg]> (<[dk w := out]> m))
  | st_manifest r b out stats mb sg :
      m !! mk w = None → (ComplianceMode cfg = true → m !! dk w = None) →
      compress b = Ok (out, stats) →
      manifest_of w (<[dk w := out]> m) stats mb sg →
      stages w m r (<[mk w := mb]> (<[sk w := sg]> (<[dk w := out]> m))).

Lemma compliance_spec w s r s' :
  compliance_check cfg w s = (r, s') →
  objects s' = objects s
  ∧ (r = Ok tt → ComplianceMode cfg = true → objects s !! dk w = None).
Proof.
  unfold compliance_check. destruct (ComplianceMode cfg); [|intros [= <- <-]; done].
  unfold ebind, ewrap, eret. pose proof (ObjectExists_frame (dk w) s) as Hf.
  destruct (ObjectExists (dk w) s) as [[b|e] s1] eqn:E; simpl in *; intros [= <- <-]; [|done].
  apply ObjectExists_spec in E. split; [done|]. destruct b; [done|]. intros _ _.
  symmetry in E. apply bool_decide_eq_false in E. by apply eq_None_not_Some.
Qed.

Lemma exportWindow_stages w s r s' :
  exportWindow visit gzip sha256 cfg signer w s = (r, s') → stages w (objects s) r (objects s').
Proof.
  unfold exportWindow, ebind at 1, ewrap at 1.
  pose proof (ObjectExists_frame (mk w) s) as Hf1.
  destruct (ObjectExists (mk w) s) as [[ex|e] s1] eqn:E1; simpl in *;
    [|intros [= <- <-]; rewrite Hf1; by apply st_none].
  apply ObjectExists_spec in E1. destruct ex.
  { intros [= <- <-]. rewrite Hf1. apply st_none. intros _. symmetry in E1.
    by apply bool_decide_eq_true in E1. }
  assert (Hnone : objects s !! mk w = None).
  { symmetry in E1. apply bool_decide_eq_false in E1. by apply eq_None_not_Some. }
  unfold ebind at 1. pose proof (QueryEvents_frame (w_tenant w) (w_start w) (w_end w) s1) as Hf2.
  destruct (QueryEvents _ _ _ s1) as [[b|e] s2]; simpl in Hf2;
    [|intros [= <- <-]; rewrite Hf2, Hf1; by apply st_none].
  unfold ebind at 1. destruct (compliance_check cfg w s2) as [[[]|e] s3] eqn:E3;
    apply compliance_spec in E3 as [Hf3 Hc]; rewrite Hf2, Hf1 in *;
    [|intros [= <- <-]; rewrite Hf3; by apply st_none].
  specialize (Hc eq_refl). unfold ebind at 1, ewrap.
  destruct (streamDataToS3 _ _ _ b (dk w) s3) as [[st|e] s4] eqn:E4;
    apply stream_stages in E4 as [[? Hs]|(out & stats & Hb & Hs & Hr)]; simpl in *; try done;
    rewrite Hf3 in Hs.
  - destruct Hr as [[= ->]|]; [|done]. intros Hp.
    apply publish_stages in Hp as [[Hr Ho]|(mb & sg & Hm & [[Hr Ho]|Ho])]; rewrite Hs in *.
    + rewrite Ho. destruct r; [done|]. by apply st_data.
    + rewrite Ho. destruct r; [done|]. by eapply st_sig.
    + rewrite Ho. by eapply st_manifest.
  - intros [= <- <-]. rewrite Hs. by apply st_none.
  - intros [= <- <-]. rewrite Hs. by apply st_data.
Qed.

(** ** What holds of the bucket *)

(** Whole hours whose keys, and those of the hour before, are told apart. *)
Definition ok_window (w : ExportWindow) : Prop :=
  good_window w ∧ good_window (prev_window w) ∧ w_end w = w_start w + hour.

(** A completed window: data, signature and manifest are there; the manifest
    describes exactly the stored data, the signature is that of the stored
    manifest, and the chain hash is empty or that of the stored manifest of
    the hour before. *)
Definition complete (w : ExportWindow) (m : gmap string string) : Prop :=
  ∃ b out stats mb sg,
    m !! dk w = Some out ∧ m !! sk w = Some sg ∧ m !! mk w = Some mb
    ∧ compress b = Ok (out, stats) ∧ manifest_of w m stats mb sg.

Definition consistent (m : gmap string string) : Prop :=
  ∀ w, ok_window w → is_Some (m !! mk w) → complete w m.

(** A signature is never without its data. *)
Definition sig_has_data (m : gmap string string) : Prop :=
  ∀ w, ok_window w → is_Some (m !! sk w) → is_Some (m !! dk w).

Lemma ok_window_eq w w' : ok_window w → ok_window w' → same_place w w' → w = w'.
Proof.
  intros (_ & _ & He) (_ & _ & He') (H1 & H2 & H3).
  destruct w, w'; simpl in *; congruence.
Qed.

(** The steps of one window leave the objects of every other window alone. *)
Lemma stages_other w w' m r m' :
  ok_window w → good_window w' → ¬ same_place w' w → stages w m r m' →
  m' !! mk w' = m !! mk w' ∧ m' !! dk w' = m !! dk w' ∧ m' !! sk w' = m !! sk w'.
Proof.
  intros (Hw & _) Hw' Hne Hst.
  assert (mk w ≠ mk w') by (intros E; by apply Hne, manifest_inj with cfg).
  assert (dk w ≠ dk w') by (intros E; by apply Hne, data_inj with cfg).
  assert (sk w ≠ sk w') by (intros E; by apply Hne, sig_inj with cfg).
  pose proof (manifest_data_ne cfg w w' Hw Hw'). pose proof (manifest_data_ne cfg w' w Hw' Hw).
  pose proof (manifest_sig_ne cfg w w' Hw Hw'). pose proof (manifest_sig_ne cfg w' w Hw' Hw).
  pose proof (data_sig_ne cfg w w' Hw Hw'). pose proof (data_sig_ne cfg w' w Hw' Hw).
  destruct Hst; rewrite ?lookup_insert_ne by (by apply not_eq_sym || done); done.
Qed.

(** Manifests are written once. *)
Lemma stages_manifest w w' m r m' d :
  ok_window w → good_window w' → stages w m r m' → m !! mk w' = Some d → m' !! mk w' = Some d.
Proof.
  intros Hw Hw' Hst Hd.
  destruct (decide (w_stream w' = w_stream w ∧ w_tenant w' = w_tenant w ∧ w_start w' = w_start w))
    as [Hs|Hs].
  - destruct (same_place_keys cfg w' w Hs) as (Hk & _). rewrite Hk in *.
    destruct Hst; [done|congruence..].
  - destruct (stages_other w w' m r m' Hw Hw' Hs Hst) as (-> & _). done.
Qed.

Lemma manifest_of_mono w w' m r m' stats mb sg :
  ok_window w → ok_window w' → stages w m r m' →
  manifest_of w' m stats mb sg → manifest_of w' m' stats mb sg.
Proof.
  intros Hw (_ & Hp & _) Hst (prev & now & H1 & H2 & H3). exists prev, now.
  split; [exact H1|split; [exact H2|]].
  destruct H3 as [H3|(d & Hd & H3)]; [by left|right]. exists d. split; [|exact H3].
  by eapply stages_manifest.
Qed.

Lemma stages_consistent w m r m' :
  ok_window w → stages w m r m' → consistent m → consistent m'.
Proof.
  intros Hw Hst Hc w' Hw' Hm.
  destruct (decide (w_stream w' = w_stream w ∧ w_tenant w' = w_tenant w ∧ w_start w' = w_start w))
    as [Hs|Hs].
  - apply ok_window_eq in Hs as ->; [|done..].
    destruct (keys_distinct w) as (Hmd & Hms & Hds).
    destruct Hst as [| |e out stats mb sg Hn|r b out stats mb sg Hn Hcm Hb Hmf]; [by apply Hc| | |].
    + rewrite lookup_insert_ne, H1 in Hm by done. by destruct Hm.
    + rewrite !lookup_insert_ne, Hn in Hm by done. by destruct Hm.
    + exists b, out, stats, mb, sg.
      rewrite lookup_insert_eq, !(lookup_insert_ne _ (mk w)) by done.
      rewrite lookup_insert_eq, lookup_insert_ne, lookup_insert_eq by done.
      split_and!; [reflexivity..|exact Hb|].
      destruct Hmf as (prev & now & H2 & H3 & H4). exists prev, now.
      split; [exact H2|split; [exact H3|]].
      destruct H4 as [H4|(d & Hd & H4)]; [by left|right]. exists d. split; [|exact H4].
      destruct Hw as (Hg & Hp & _).
      rewrite (lookup_insert_ne _ (mk w)), (lookup_insert_ne _ (sk w));
        [exact Hd|apply not_eq_sym; by apply manifest_sig_ne|].
      intros E. apply manifest_inj in E as (_ & _ & E); [|done..].
      unfold prev_window in E. simpl in E. unfold hour, minute, second in E. lia.
  - destruct (stages_other w w' m r m' Hw (proj1 Hw') Hs Hst) as (E1 & E2 & E3).
    rewrite E1 in Hm. destruct (Hc w' Hw' Hm) as (b & out & stats & mb & sg & A1 & A2 & A3 & A4 & A5).
    exists b, out, stats, mb, sg. rewrite E1, E2, E3.
    split; [exact A1|split; [exact A2|split; [exact A3|split; [exact A4|]]]].
    exact (manifest_of_mono w w' m r m' stats mb sg Hw Hw' Hst A5).
Qed.

Lemma stages_worm w m r m' :
  ComplianceMode cfg = true → ok_window w → stages w m r m' → sig_has_data m →
  sig_has_data m' ∧ m ⊆ m'.
Proof.
  intros Hcomp Hw Hst Hsd. destruct (keys_distinct w) as (Hmd & Hms & Hds). split.
  - intros w' Hw' Hsk.
    destruct (decide (w_stream w' = w_stream w ∧ w_tenant w' = w_tenant w ∧ w_start w' = w_start w))
      as [Hs|Hs].
    + apply ok_window_eq in Hs as ->; [|done..].
      destruct Hst; [by apply Hsd|..];
        rewrite ?(lookup_insert_ne _ (mk w)), ?(lookup_insert_ne _ (sk w)), lookup_insert_eq
          by (by apply not_eq_sym || done); by eexists.
    + destruct (stages_other w w' m r m' Hw (proj1 Hw') Hs Hst) as (_ & -> & E3).
      apply Hsd; [done|]. by rewrite <-E3.
  - assert (Hsig : m !! dk w = None → m !! sk w = None).
    { intros Hd. destruct (m !! sk w) eqn:E; [|done]. destruct (Hsd w Hw) as [x Hx]; [done|].
      congruence. }
    destruct Hst as [|e out Hn Hd|e out stats mb sg Hn Hd|r b out stats mb sg Hn Hd]; [done|..];
      specialize (Hd Hcomp); specialize (Hsig Hd);
      repeat (etrans; [|apply insert_subseteq; rewrite ?lookup_insert_ne by done; done]); done.
Qed.
End window.
