(* ===== verification/AuditRunFacts.v ===== *)
(** What a whole run of the audit exporter guarantees: which windows it
    collects, that it leaves the bucket consistent whatever fails, that it
    overwrites nothing in compliance mode, and that a run without error has
    exported every window of its range. *)
From S2P Require Import Prelude Strings GoTime Json JsonFacts World Vlogs Env AuditEvents.
From S2P Require Import AuditEventFacts AuditExport AuditExportFacts.
From Stdlib Require Import Ascii.

Open Scope string_scope.
Open Scope Z_scope.

#[local] Opaque marshalCanonical.

(** * Years *)

(** The instants whose windows have four-digit years: 2015 to 9600. *)
Definition clock_range (t : Z) : Prop := 400000 * hour <= t < 2786860 * day_secs * second.

Lemma four_digit_year_range t : 0 <= t < 2786860 * day_secs * second → four_digit_year t.
Proof.
  intros Ht. unfold four_digit_year, year_of, civil_of, secs_of, civil_of_days.
  set (d := t / second / day_secs).
  assert (0 <= d < 2786860).
  { unfold d, second, day_secs in *. Z.div_mod_to_equations. lia. }
  clearbody d. cbn [c_year].
  assert (Hb : 0 <= (d + 719468) mod 146097 < 146097) by by apply Z.mod_pos_bound.
  destruct (era_bounds _ Hb) as (Hy & _). revert Hy Hb.
  generalize (yoe_of ((d + 719468) mod 146097)) as y.
  assert (0 <= (d + 719468) / 146097 <= 23) by (Z.div_mod_to_equations; lia).
  intros y Hy _. case_match; lia.
Qed.

(** * Loops *)

Section loops.
Context {W} `{WorldLaws W}.

Lemma efor_frame {A B} (l : list A) (f : A → eff W (list B)) s :
  (∀ x s, objects (f x s).2 = objects s) → objects (efor l f s).2 = objects s.
Proof.
  intros Hf. revert s. induction l as [|x l IH]; intros s; [done|]. cbn [efor].
  unfold ebind. pose proof (Hf x s) as Hx. destruct (f x s) as [[a|e] s1]; [|exact Hx].
  pose proof (IH s1) as Hl. destruct (efor l f s1) as [[b|e] s2]; simpl in *; congruence.
Qed.

Lemma efor_ok {A B} (m : gmap string string) (P : A → list B → Prop) (l : list A)
    (f : A → eff W (list B)) s bs s' :
  (∀ x s, objects (f x s).2 = objects s) →
  (∀ x s b s', x ∈ l → objects s = m → f x s = (Ok b, s') → P x b) →
  objects s = m → efor l f s = (Ok bs, s') → ∃ bss, Forall2 P l bss ∧ bs = concat bss.
Proof.
  intros Hf HP. revert s bs s'. induction l as [|x l IH]; intros s bs s' Hm; cbn [efor].
  - intros [= <- <-]. by exists [].
  - intros (a & s1 & Ha & (b & s2 & Hb & Hr)%ebind_ok)%ebind_ok. injection Hr as <- <-.
    assert (Hm1 : objects s1 = m) by (rewrite <-Hm, <-(Hf x s), Ha; done).
    apply IH in Hb as (bss & HF & ->); [|intros; eapply HP; eauto; by right|done].
    exists (a :: bss). split; [|done]. constructor; [|done].
    apply (HP x s a s1); [by left|done|done].
Qed.
End loops.

Lemma elem_of_concat_Forall2 {A B} (P : A → list B → Prop) (Q : A → B → Prop) l bss b :
  (∀ x bs, x ∈ l → P x bs → b ∈ bs ↔ Q x b) → Forall2 P l bss →
  b ∈ concat bss ↔ ∃ x, x ∈ l ∧ Q x b.
Proof.
  intros HPQ HF. induction HF as [|x bs l bss Hx _ IH]; simpl; [set_solver|].
  rewrite elem_of_app. rewrite (HPQ x bs); [|by left|exact Hx].
  rewrite IH; [|intros; apply HPQ; [by right|done]]. set_solver.
Qed.

Section run.
Context (visit : gmap string string → list (string * string)).
Context (gzip : list string → string) (sha256 : string → string).
Context {W} `{WorldLaws W} `{!vlogsQuerier W} `{!vlogsQuerierLaws W}.
Context (cfg : Config) (signer : Signer).
Notation mk := (manifest_key cfg).
Notation stages := (stages visit gzip sha256 cfg signer).
Notation consistent := (consistent visit gzip sha256 cfg signer).
Notation sig_has_data := (sig_has_data cfg).
Notation exportWindow := (exportWindow visit gzip sha256 cfg signer).
Notation export_loop := (export_loop visit gzip sha256 cfg signer).
Notation Run := (Run visit gzip sha256 cfg signer).

(** ** Collecting windows *)

Lemma collect_window_frame w s : objects (collect_window cfg w s).2 = objects s.
Proof.
  unfold collect_window, ebind, ewrap, eret. pose proof (ObjectExists_frame (mk w) s).
  by destruct (ObjectExists (mk w) s) as [[b|e] s1].
Qed.

Lemma collect_window_ok w s ws s' :
  collect_window cfg w s = (Ok ws, s') → ∀ x, x ∈ ws ↔ x = w ∧ objects s !! mk w = None.
Proof.
  unfold collect_window. intros (b & s1 & Hb%ewrap_ok%ObjectExists_spec & [= <- _])%ebind_ok x.
  subst b. case_bool_decide as Hs.
  - destruct Hs as [d Hd]. rewrite Hd. split; [by intros ?%elem_of_nil|by intros [_ ?]].
  - rewrite list_elem_of_singleton. apply eq_None_not_Some in Hs. naive_solver.
Qed.

Lemma tenants_frame stream from up s : objects (tenantsForStream cfg stream from up s).2 = objects s.
Proof.
  unfold tenantsForStream, ewrap, eret. repeat case_decide; [done| |done].
  pose proof (DiscoverTenants_frame from up s). by destruct (DiscoverTenants from up s).
Qed.

Lemma collect_stream_frame from up stream s :
  objects (collect_stream cfg from up stream s).2 = objects s.
Proof.
  unfold collect_stream, ebind, ewrap. pose proof (tenants_frame stream from up s) as Ht.
  destruct (tenantsForStream cfg stream from up s) as [[ts|e] s1]; simpl in *; [|done].
  rewrite <-Ht. apply efor_frame. intros. apply efor_frame. intros. apply collect_window_frame.
Qed.

(** The windows of one stream, for the tenants the call found. *)
Lemma collect_stream_ok from up stream s ws s' :
  collect_stream cfg from up stream s = (Ok ws, s') →
  ∃ ts s1, tenantsForStream cfg stream from up s = (Ok ts, s1) ∧
    ∀ w, w ∈ ws ↔ ∃ tenant t, tenant ∈ ts ∧ t ∈ hour_starts from up
      ∧ w = window_at stream tenant t ∧ objects s !! mk w = None.
Proof.
  unfold collect_stream. intros (ts & s1 & Ht%ewrap_ok & Hw)%ebind_ok.
  exists ts, s1. split; [done|].
  assert (Hm : objects s1 = objects s).
  { rewrite <-(tenants_frame stream from up s). by rewrite Ht. }
  apply (efor_ok (objects s) (λ tenant l, ∀ w, w ∈ l ↔ ∃ t, t ∈ hour_starts from up
      ∧ w = window_at stream tenant t ∧ objects s !! mk w = None)) in Hw
    as (bss & HF & ->); [| |intros tenant s2 b s3 _ Hm2 Hb|exact Hm].
  - intros w. rewrite (elem_of_concat_Forall2 _ (λ tenant w, ∃ t, t ∈ hour_starts from up
      ∧ w = window_at stream tenant t ∧ objects s !! mk w = None) _ _ _ (λ x bs _ Hb, Hb w) HF).
    naive_solver.
  - intros. apply efor_frame. intros. apply collect_window_frame.
  - apply (efor_ok (objects s) (λ t l, ∀ x, x ∈ l ↔ x = window_at stream tenant t
        ∧ objects s !! mk (window_at stream tenant t) = None)) in Hb as (bss & HF & ->);
      [|intros; apply collect_window_frame
       |intros t s4 l s5 _ Hm4 Hl; rewrite <-Hm4; by eapply collect_window_ok|exact Hm2].
    intros w. rewrite (elem_of_concat_Forall2 _ (λ t w, w = window_at stream tenant t
      ∧ objects s !! mk (window_at stream tenant t) = None) _ _ _ (λ x bs _ Hb, Hb w) HF).
    split; [intros (t & ? & -> & ?)|intros (t & ? & -> & ?)]; eauto.
Qed.

Lemma collectWindows_frame from up s : objects (collectWindows cfg from up s).2 = objects s.
Proof. apply efor_frame. intros. apply collect_stream_frame. Qed.

(** Every collected window is an hour of the range, of a configured stream,
    whose manifest was missing. *)
Lemma collectWindows_sound from up s ws s' w :
  collectWindows cfg from up s = (Ok ws, s') → w ∈ ws →
  ∃ stream tenant t, stream ∈ Streams cfg ∧ t ∈ hour_starts from up
    ∧ w = window_at stream tenant t ∧ objects s !! mk w = None.
Proof.
  intros Hc Hw. apply (efor_ok (objects s) (λ stream l, ∀ w, w ∈ l → ∃ tenant t,
      t ∈ hour_starts from up ∧ w = window_at stream tenant t ∧ objects s !! mk w = None)) in Hc
    as (bss & HF & ->); [|intros; apply collect_stream_frame| |done].
  - induction HF as [|stream l ls lss Hl _ IH]; [by apply elem_of_nil in Hw|].
    simpl in Hw. apply elem_of_app in Hw as [Hw|Hw].
    + destruct (Hl w Hw) as (tenant & t & ?). exists stream, tenant, t. split; [by left|done].
    + destruct (IH Hw) as (st & tenant & t & ? & ?). exists st, tenant, t. split; [by right|done].
  - intros stream s1 l s2 _ Hm Hl w' Hw'.
    pose proof (collect_stream_ok _ _ _ _ _ _ Hl) as (ts & s3 & _ & Hts).
    destruct (proj1 (Hts w') Hw') as (tenant & t & _ & Ht & Ew & En). rewrite Hm in En. by exists tenant, t.
Qed.

(** The tenants of a stream when they are configured. *)
Definition config_tenants (stream : string) : list string :=
  if decide (stream = StreamPlatformAuditLog) then [TenantPlatform] else Tenants cfg.

(** The windows of a stream that a range has and the bucket lacks. *)
Definition pending_of (from up : Z) (m : gmap string string) (stream : string) (w : ExportWindow) : Prop :=
  ∃ tenant t, tenant ∈ config_tenants stream ∧ t ∈ hour_starts from up
    ∧ w = window_at stream tenant t ∧ m !! mk w = None.

Lemma collectWindows_ok from up s ws s' w :
  Tenants cfg ≠ [] → collectWindows cfg from up s = (Ok ws, s') →
  w ∈ ws ↔ ∃ stream, stream ∈ Streams cfg ∧ pending_of from up (objects s) stream w.
Proof.
  intros Hne Hc.
  destruct (efor_ok (objects s) (λ stream l, ∀ w, w ∈ l ↔ pending_of from up (objects s) stream w)
    (Streams cfg) (collect_stream cfg from up) s ws s') as (bss & HF & ->).
  - intros. apply collect_stream_frame.
  - intros stream s1 l s2 _ Hm Hl w'.
    destruct (collect_stream_ok _ _ _ _ _ _ Hl) as (ts & s3 & Hts & Hw). rewrite Hw, Hm.
    assert (ts = config_tenants stream) as ->; [|done].
    unfold tenantsForStream, eret in Hts. unfold config_tenants.
    repeat case_decide; simplify_eq; done.
  - done.
  - exact Hc.
  - by rewrite (elem_of_concat_Forall2 _ (pending_of from up (objects s)) _ _ _ (λ x bs _ Hb, Hb w) HF).
Qed.

(** ** The export loop *)

(** What every window's steps preserve, the loop preserves. *)
Lemma export_loop_rel (R : gmap string string → gmap string string → Prop) ws err s :
  (∀ m, R m m) → (∀ a b c, R a b → R b c → R a c) →
  (∀ w m r m', w ∈ ws → stages w m r m' → R m m') →
  R (objects s) (objects (export_loop ws err s).2).
Proof.
  intros Hrefl Htr Hst. revert err s. induction ws as [|w ws IH]; intros err s; [apply Hrefl|].
  cbn [AuditExport.export_loop]. unfold eask. pose proof (ctx_frame s) as Hc.
  destruct (ctx_err s) as [[e|] s1]; simpl in Hc; [simpl; rewrite Hc; apply Hrefl|].
  unfold ecase. destruct (exportWindow w s1) as [r s2] eqn:E.
  apply (exportWindow_stages visit gzip sha256 cfg signer w) in E; [|exact _..]. rewrite Hc in E.
  assert (HR : R (objects s) (objects s2)) by (eapply Hst; [by left|exact E]).
  assert (IH' : ∀ err s, R (objects s) (objects (export_loop ws err s).2)).
  { intros. apply IH. intros. eapply Hst; [by right|done]. }
  destruct r as [u|e]; [eapply Htr; [exact HR|apply IH']|].
  case_match; [exact HR|]. eapply Htr; [exact HR|apply IH'].
Qed.

Lemma export_loop_failed ws e s : is_ok (export_loop ws (Some e) s).1 = false.
Proof.
  revert e s. induction ws as [|w ws IH]; intros e s; [done|]. cbn [AuditExport.export_loop].
  unfold eask, ecase. destruct (ctx_err s) as [[c|] s1]; [done|].
  destruct (exportWindow w s1) as [[u|e'] s2]; [apply IH|]. case_match; [done|apply IH].
Qed.

(** A loop without error has exported every window. *)
Lemma export_loop_ok ws s s' :
  Forall (ok_window) ws → export_loop ws None s = (Ok tt, s') →
  Forall (λ w, is_Some (objects s' !! mk w)) ws.
Proof.
  revert s. induction ws as [|w ws IH]; intros s Hok; [done|]. inversion_clear Hok as [|? ? Hw Hws].
  cbn [AuditExport.export_loop]. unfold eask, ecase. destruct (ctx_err s) as [[c|] s1]; [done|].
  destruct (exportWindow w s1) as [[[]|e] s2] eqn:E; intros Hl.
  - constructor; [|by apply (IH s2)].
    apply (exportWindow_stages visit gzip sha256 cfg signer w) in E; [|exact _..].
    assert (Hs : is_Some (objects s2 !! mk w)).
    { inversion E as [r Hr| | |]; [by apply Hr|]. rewrite lookup_insert_eq. by eexists. }
    destruct Hs as [d Hd]. exists d.
    pose proof (export_loop_rel (λ m m', m !! mk w = Some d → m' !! mk w = Some d) ws None s2) as Hrel.
    rewrite Hl in Hrel. apply Hrel; [done|auto| |done].
    intros w' m r m' Hin Hst. eapply stages_manifest; [| |exact Hst];
      [by rewrite Forall_forall in Hws; apply Hws|by destruct Hw].
  - case_match; [done|]. exfalso.
    pose proof (export_loop_failed ws (EWrap "one or more windows failed (last)" e) s2) as Hf.
    by rewrite Hl in Hf.
Qed.

(** ** The run *)

Lemma range_ok_window now stream tenant t :
  char_free "/" stream = true → 1 <= CatchUpHours cfg <= 100000 → clock_range now →
  t ∈ hour_starts (catch_up_start cfg now) (previous_hour_end cfg now) →
  ok_window (window_at stream tenant t).
Proof.
  intros Hs Hn [Hc1 Hc2] Ht. rewrite catch_up_start_eq in Ht by lia.
  apply hour_starts_spec in Ht as [[k Hk] Hr].
  destruct (previous_hour_end_aligned cfg now) as [j Hj].
  assert (Hb : now - 2 * hour < previous_hour_end cfg now <= now).
  { unfold previous_hour_end. destruct (truncate_hour_spec now) as [Ht' _].
    unfold hour, minute, second in *. case_match; lia. }
  assert (Hd : (hour | t)).
  { exists (k + j - CatchUpHours cfg). lia. }
  assert (Hy : hour <= t < 2786860 * day_secs * second).
  { unfold hour, minute, second, day_secs in *. lia. }
  split; [|split; [|done]]; (split; [exact Hs|split]).
  - exact Hd.
  - apply four_digit_year_range. simpl. unfold hour, minute, second, day_secs in *. lia.
  - simpl. destruct Hd as [i Hi]. exists (i - 1). lia.
  - apply four_digit_year_range. simpl. unfold hour, minute, second, day_secs in *. lia.
Qed.

Context (Hstreams : Forall (λ x, char_free "/" x = true) (Streams cfg)).
Context (Hhours : 1 <= CatchUpHours cfg <= 100000).
Context (Hclock : ∀ s : W, clock_range (time_now s).1).

Lemma stream_ok stream : stream ∈ Streams cfg → char_free "/" stream = true.
Proof. revert stream. apply Forall_forall. exact Hstreams. Qed.

(** A run either stops before it exports anything, or is an export loop over
    windows in order. *)
(** The time a run reads, after the preflight. *)
Definition run_clock s : Z :=
  (time_now (PreflightBucket (S3Bucket cfg) (ComplianceMode cfg) s).2).1.

Lemma Run_cases s :
  (is_ok (Run s).1 = false ∧ objects (Run s).2 = objects s)
  ∨ ∃ now s1 ws s2, clock_range now ∧ objects s1 = objects s ∧ objects s2 = objects s
      ∧ collectWindows cfg (catch_up_start cfg now) (previous_hour_end cfg now) s1 = (Ok ws, s2)
      ∧ Forall ok_window ws ∧ Run s = export_loop ws None s2
      ∧ run_clock s = now.
Proof.
  pose proof (PreflightBucket_frame (S3Bucket cfg) (ComplianceMode cfg) s) as Hp.
  destruct (PreflightBucket (S3Bucket cfg) (ComplianceMode cfg) s) as [[warn|e] s0] eqn:E0;
    [|left; unfold AuditExport.Run, ebind; rewrite E0; done].
  pose proof (now_frame s0) as Hn. pose proof (Hclock s0) as Hr.
  destruct (time_now s0) as [now s1] eqn:En; cbn [fst snd] in *.
  pose proof (collectWindows_frame (catch_up_start cfg now) (previous_hour_end cfg now) s1) as Hc.
  destruct (collectWindows cfg (catch_up_start cfg now) (previous_hour_end cfg now) s1)
    as [[ws|e] s2] eqn:Ec; cbn [fst snd] in *.
  2: { left. unfold AuditExport.Run, ebind, eask, ewrap. rewrite E0, En, Ec.
       split; [done|]. cbn [fst snd wrap_err]. congruence. }
  right. exists now, s1, ws, s2.
  refine (conj Hr (conj _ (conj _ (conj Ec (conj _ (conj _ _))))));
    [congruence|congruence| |unfold AuditExport.Run, ebind, eask, ewrap; by rewrite E0, En, Ec|by unfold run_clock; rewrite E0; simpl; rewrite En].
  apply Forall_forall. intros w Hw.
  destruct (collectWindows_sound _ _ _ _ _ _ Ec Hw) as (stream & tenant & t & Hst & Ht & -> & _).
  by apply (range_ok_window now); [apply stream_ok|..].
Qed.

Lemma Run_rel (R : gmap string string → gmap string string → Prop) s :
  (∀ m, R m m) → (∀ a b c, R a b → R b c → R a c) →
  (∀ w m r m', ok_window w → stages w m r m' → R m m') →
  R (objects s) (objects (Run s).2).
Proof.
  intros Hrefl Htr Hst. destruct (Run_cases s) as [[_ ->]|(now & s1 & ws & s2 & _ & _ & E2 & _ & Hok & -> & _)];
    [apply Hrefl|]. rewrite <-E2. apply export_loop_rel; [done|done|].
  intros w m r m' Hin. apply Hst. rewrite Forall_forall in Hok. by apply Hok.
Qed.


(** C16: In compliance mode a run never changes or removes an object that is in
    a bucket where every signature has its data next to it, which runs keep
    true: it only adds objects, whatever calls fail.  A signature that is there
    without data would be replaced. *)
Theorem Run_worm s (Hm : ComplianceMode cfg = true) (Hs : sig_has_data (objects s)) :
  objects s ⊆ objects (Run s).2 ∧ sig_has_data (objects (Run s).2).
Proof.
  apply (Run_rel (λ m m', sig_has_data m → m ⊆ m' ∧ sig_has_data m')); [done| | |exact Hs].
  - intros a b c Hab Hbc Ha. destruct (Hab Ha) as [H1 H2]. destruct (Hbc H2) as [H3 H4].
    split; [by etrans|done].
  - intros w m r m' Hw Hst Hsd.
    by destruct (stages_worm visit gzip sha256 cfg signer w m r m' Hm Hw Hst Hsd).
Qed.

(** A run never changes a manifest that is in the bucket: a window is
    exported once. *)
Theorem Run_manifest_once s w d (Hw : good_window w) (Hd : objects s !! mk w = Some d) :
  objects (Run s).2 !! mk w = Some d.
Proof.
  apply (Run_rel (λ m m', m !! mk w = Some d → m' !! mk w = Some d)); [done|auto| |exact Hd].
  intros w' m r m' Hw' Hst. by apply (stages_manifest visit gzip sha256 cfg signer w' w m r m').
Qed.

(** A run that ends without error has exported every window of its range: for
    each configured stream and tenant, every hour of the catch-up range up to
    the last one whose delay has passed has its manifest. *)
Lemma run_exports_all s s' (Hne : Tenants cfg ≠ []) (Hr : Run s = (Ok tt, s')) :
  ∀ stream tenant t, stream ∈ Streams cfg → tenant ∈ config_tenants stream → (hour | t) →
    previous_hour_end cfg (run_clock s) - CatchUpHours cfg * hour <= t
      < previous_hour_end cfg (run_clock s) →
    is_Some (objects s' !! mk (window_at stream tenant t)).
Proof.
  destruct (Run_cases s) as [[Hf _]|(now & s1 & ws & s2 & Hnow & E1 & E2 & Hc & Hok & Hrun & ->)];
    [by rewrite Hr in Hf|].
  intros stream tenant t Hst Hten Hdiv Hrange. rewrite Hr in Hrun. symmetry in Hrun.
  assert (Ht : t ∈ hour_starts (catch_up_start cfg now) (previous_hour_end cfg now)).
  { apply hour_starts_spec. rewrite catch_up_start_eq by lia. split; [|done].
    destruct Hdiv as [i Hi], (previous_hour_end_aligned cfg now) as [j Hj].
    exists (i - j + CatchUpHours cfg). lia. }
  destruct (objects s !! mk (window_at stream tenant t)) as [d|] eqn:Ed.
  - exists d.
    assert (Hm : objects (Run s).2 !! mk (window_at stream tenant t) = Some d).
    { apply (Run_rel (λ m m', m !! mk (window_at stream tenant t) = Some d →
        m' !! mk (window_at stream tenant t) = Some d)); [done|auto| |exact Ed].
      intros w' m r m' Hw' Hst'.
      apply (stages_manifest visit gzip sha256 cfg signer w' _ m r m'); [done| |done].
      assert (Hokw : ok_window (window_at stream tenant t)).
      { by apply (range_ok_window now); [apply stream_ok|..]. }
      by destruct Hokw. }
    by rewrite Hr in Hm.
  - pose proof (export_loop_ok ws s2 s' Hok Hrun) as Hall. rewrite Forall_forall in Hall.
    apply Hall. apply (collectWindows_ok _ _ _ _ _ _ Hne Hc).
    exists stream. split; [done|]. exists tenant, t. rewrite E1. done.
Qed.
End run.

(** * A concrete run *)

(** 2025-01-01T10:10:00Z. *)
Definition demo_now : Z := 1735726200 * second.
Definition demo_cfg : Config :=
  match LoadConfig (list_to_map [("S3_BUCKET", "b"); ("STREAMS", "tenant-audit-log");
                                 ("TENANTS", "acme"); ("CATCHUP_HOURS", "1");
                                 ("COMPLIANCE_MODE", "true")]) with
  | Ok c => c
  | Err _ => sample_cfg
  end.
Definition demo_sim (faults : list fault) : sim :=
  {| sim_objects := ∅; sim_faults := faults; sim_http := []; sim_worm := true;
     sim_ctx := []; sim_race := [] |}.
Definition demo_signer : Signer := LocalSigner (λ k d, k) (KMSKeyID demo_cfg).
#[local] Instance demo_world : World sim := faulty demo_now.
#[local] Instance demo_vlogs : vlogsQuerier sim := VLogsClient (VLogsURL demo_cfg).
#[local] Instance demo_vlogs_laws : vlogsQuerierLaws sim := VLogsClient_laws _.
Definition demo_run (faults : list fault) : result unit * sim :=
  Run map_to_list plain_gzip (λ s, "digest") demo_cfg demo_signer (demo_sim faults).

Lemma demo_streams : Forall (λ x, char_free "/" x = true) (Streams demo_cfg).
Proof. apply (bool_decide_unpack _). by vm_compute. Qed.
Lemma demo_hours : 1 <= CatchUpHours demo_cfg <= 100000.
Proof. by vm_compute. Qed.
Lemma demo_clock (s : sim) : clock_range (time_now s).1.
Proof. by vm_compute. Qed.

(** Without failures the three objects of the window are written; when the
    answer to the manifest upload is lost the run fails although the window is
    complete; when the signature upload fails there is no manifest. *)
Example demo_outcomes :
  ((demo_run []).1, size (sim_objects (demo_run []).2)) = (Ok tt, 3%nat)
  ∧ (is_ok (demo_run [FNone; FNone; FNone; FNone; FNone; FNone; FNone; FNone; FAfter]).1,
     size (sim_objects (demo_run [FNone; FNone; FNone; FNone; FNone; FNone; FNone; FNone; FAfter]).2))
    = (false, 3%nat)
  ∧ (is_ok (demo_run [FNone; FNone; FNone; FNone; FNone; FNone; FNone; FBefore]).1,
     size (sim_objects (demo_run [FNone; FNone; FNone; FNone; FNone; FNone; FNone; FBefore]).2))
    = (false, 1%nat).
Proof. by vm_compute. Qed.


(** A bucket with the complete window of the hour before the range. *)
Definition demo_past : ExportWindow := window_at "tenant-audit-log" "acme" (1735718400 * second).
Definition demo_bucket : gmap string string :=
  {[ data_key demo_cfg demo_past := "d"; manifest_key demo_cfg demo_past := "{}";
     sig_key demo_cfg demo_past := "s" ]}.
(** One with the data of the window of the range, without a manifest. *)
Definition demo_hour_window : ExportWindow := window_at "tenant-audit-log" "acme" (1735722000 * second).
Definition demo_partial : gmap string string := {[ data_key demo_cfg demo_hour_window := "d" ]}.
Notation demo_run_on m :=
  (Run map_to_list plain_gzip (λ s, "digest") demo_cfg demo_signer (store m (demo_sim []))).

Lemma demo_past_good : good_window demo_past.
Proof. split; [done|]. split; [by exists 482144|by vm_compute]. Qed.
Lemma demo_hour_good : good_window demo_hour_window.
Proof. split; [done|]. split; [by exists 482145|by vm_compute]. Qed.

Lemma demo_bucket_sigs : sig_has_data demo_cfg demo_bucket ∧ sig_has_data demo_cfg demo_partial.
Proof.
  pose proof demo_past_good as Hp. pose proof demo_hour_good as Hh.
  split; intros w (Hw & _) [d Hd]; unfold demo_bucket, demo_partial in *.
  - apply lookup_insert_Some in Hd as [[E _]|[_ Hd]]; [by destruct (data_sig_ne demo_cfg _ w Hp Hw)|].
    apply lookup_insert_Some in Hd as [[E _]|[_ [E _]%lookup_singleton_Some]];
      [by destruct (manifest_sig_ne demo_cfg _ w Hp Hw)|].
    apply (sig_inj demo_cfg _ w Hp Hw) in E as (E1 & E2 & E3).
    exists "d". unfold data_key, S3KeyPrefix. rewrite <-E1, <-E2, <-E3. apply lookup_insert_eq.
  - apply lookup_singleton_Some in Hd as [E _]. by destruct (data_sig_ne demo_cfg _ w Hh Hw).
Qed.

(** The run adds the three objects of its window to the first bucket; with the
    second it fails, and the data that is there stays. *)
Lemma Run_worm_witness :
  demo_bucket ⊆ sim_objects (demo_run_on demo_bucket).2
  ∧ ((demo_run_on demo_bucket).1, size (sim_objects (demo_run_on demo_bucket).2)) = (Ok tt, 6%nat)
  ∧ demo_partial ⊆ sim_objects (demo_run_on demo_partial).2
  ∧ is_ok (demo_run_on demo_partial).1 = false.
Proof.
  split; [|split; [vm_compute; reflexivity|split; [|vm_compute; reflexivity]]].
  - apply (Run_worm map_to_list plain_gzip (λ s, "digest") demo_cfg demo_signer
      demo_streams demo_hours demo_clock (store demo_bucket (demo_sim []))); [by vm_compute|].
    apply demo_bucket_sigs.
  - apply (Run_worm map_to_list plain_gzip (λ s, "digest") demo_cfg demo_signer
      demo_streams demo_hours demo_clock (store demo_partial (demo_sim []))); [by vm_compute|].
    apply demo_bucket_sigs.
Defined.

Lemma demo_window_good : good_window (window_at "tenant-audit-log" "acme" 0).
Proof. split; [done|]. split; [by exists 0|by vm_compute]. Qed.

Lemma Run_manifest_once_witness :
  let w := window_at "tenant-audit-log" "acme" 0 in
  let s := store {[ manifest_key demo_cfg w := "m" ]} (demo_sim []) in
  sim_objects (Run map_to_list plain_gzip (λ s, "digest") demo_cfg demo_signer s).2
    !! manifest_key demo_cfg w = Some "m".
Proof.
  intros w s. apply (Run_manifest_once map_to_list plain_gzip (λ s, "digest") demo_cfg demo_signer
    demo_streams demo_hours demo_clock s w "m" demo_window_good).
  by vm_compute.
Defined.
