(* ===== verification/ColdRows.v ===== *)
(** internal/coldstorage: the rows of the three telemetry exports (types.go),
    how lines of VictoriaMetrics, VictoriaLogs and VictoriaTraces become rows
    (vmclient.go, vlogs_client.go, vtraces_client.go) and how rows become
    Parquet columns (parquet.go). *)
From S2P Require Import Prelude Strings GoTime Json World Vlogs.
From Stdlib Require Import Ascii.

Open Scope string_scope.
Open Scope Z_scope.

Definition SourceMetrics : string := "metrics".
Definition SourceLogs : string := "logs".
Definition SourceTraces : string := "traces".
Definition defaultTenant : string := "default".

(** Reading an absent key of a Go map of strings gives the empty string. *)
Definition field (raw : gmap string string) (k : string) : string := default "" (raw !! k).

(** A column that stays nil for an empty map. *)
Definition json_column (m : gmap string string) : option string :=
  if decide (m = ∅) then None else Some (marshal_flat m).

(** * Metrics *)

(** float64 values: their type, the zero value, the special values, and
    strconv.ParseFloat on a JSON number literal ([None] out of range). *)
Class Float64 := {
  float : Type; fzero : float; fnan : float; finf : float; fneginf : float;
  parse_float : string → option float }.

Record MetricRow `{Float64} := {
  mr_Timestamp : Z; mr_MetricName : string; mr_Value : float; mr_Tenant : string;
  mr_Cluster : string; mr_ClusterNamespace : string; mr_Namespace : string; mr_Pod : string;
  mr_Node : string; mr_Job : string; mr_Labels : gmap string string }.

(** A raw message is the JSON value it holds. *)
Record vmExportLine := {
  el_Metric : gmap string string; el_Values : list json; el_Timestamps : list Z }.

Fixpoint export_members (kvs : list (string * json)) (el : vmExportLine) : option vmExportLine :=
  match kvs with
  | [] => Some el
  | (k, x) :: r =>
      if equal_fold k "metric" then
        match x with
        | JObj m => let? m' := flat_members m (el_Metric el) in
            export_members r {| el_Metric := m'; el_Values := el_Values el;
                                el_Timestamps := el_Timestamps el |}
        | JNull => export_members r {| el_Metric := ∅; el_Values := el_Values el;
                                       el_Timestamps := el_Timestamps el |}
        | _ => None
        end
      else if equal_fold k "values" then
        match x with
        | JArr l => export_members r {| el_Metric := el_Metric el; el_Values := l;
                                        el_Timestamps := el_Timestamps el |}
        | JNull => export_members r {| el_Metric := el_Metric el; el_Values := [];
                                       el_Timestamps := el_Timestamps el |}
        | _ => None
        end
      else if equal_fold k "timestamps" then
        match x with
        | JArr l => let? ts := mapM decode_int64 l in
            export_members r {| el_Metric := el_Metric el; el_Values := el_Values el;
                                el_Timestamps := ts |}
        | JNull => export_members r {| el_Metric := el_Metric el; el_Values := el_Values el;
                                       el_Timestamps := [] |}
        | _ => None
        end
      else export_members r el
  end.
Definition decode_export_line (j : json) : option vmExportLine :=
  let zero := {| el_Metric := ∅; el_Values := []; el_Timestamps := [] |} in
  match j with JObj kvs => export_members kvs zero | JNull => Some zero | _ => None end.

Section metrics.
Context `{Float64}.

Definition parseVMValue (raw : json) : result float :=
  (* the numeric form first: null is no error and leaves zero *)
  let num := match raw with
             | JNum lit => parse_float lit
             | JNull => Some fzero
             | _ => None
             end in
  match num with
  | Some f => Ok f
  | None =>
      match raw with
      | JStr s =>
          if String.eqb s "NaN" then Ok fnan
          else if String.eqb s "Infinity" || String.eqb s "+Infinity" then Ok finf
          else if String.eqb s "-Infinity" then Ok fneginf
          else Err (EText ("parseVMValue: unexpected string value " +:+ quote s))
      | _ => Err (EText "json: cannot unmarshal into string")
      end
  end.

Definition promoted_labels : list string :=
  ["__name__"; "tenant"; "cluster"; "cluster_namespace"; "namespace"; "pod"; "node"; "job"].

Definition row_of (metric labels : gmap string string) (ts : Z) (v : float) : MetricRow :=
  {| mr_Timestamp := ts; mr_MetricName := field metric "__name__"; mr_Value := v;
     mr_Tenant := field metric "tenant"; mr_Cluster := field metric "cluster";
     mr_ClusterNamespace := field metric "cluster_namespace";
     mr_Namespace := field metric "namespace"; mr_Pod := field metric "pod";
     mr_Node := field metric "node"; mr_Job := field metric "job"; mr_Labels := labels |}.

(** The loop over the samples: values that do not parse are skipped. *)
Fixpoint sample_rows (metric labels : gmap string string) (samples : list (json * Z))
    : list MetricRow :=
  match samples with
  | [] => []
  | (raw, ts) :: r =>
      match parseVMValue raw with
      | Ok v => row_of metric labels ts v :: sample_rows metric labels r
      | Err _ => sample_rows metric labels r
      end
  end.

Definition ParseVMExportLine (text : string) : result (list MetricRow) :=
  let line := trim_space text in
  if decide (line = "") then Ok []
  else match unmarshal line ≫= decode_export_line with
       | None => Err (EWrap "parse VM export line" (EText "json"))
       | Some el =>
           if decide (length (el_Values el) = length (el_Timestamps el)) then
             let labels := filter (λ kv, kv.1 ∉ promoted_labels) (el_Metric el) in
             Ok (sample_rows (el_Metric el) labels (zip (el_Values el) (el_Timestamps el)))
           else Err (EText ("values/timestamps length mismatch: " +:+
                  itoa (Z.of_nat (length (el_Values el))) +:+ " vs " +:+
                  itoa (Z.of_nat (length (el_Timestamps el)))))
       end.

(** [ScanVMExport]: [fn] acts on a state, the sink of the rows. *)
Fixpoint scan_vm {S} (fn : list MetricRow → S → result unit * S) (lines : list string) (s : S)
    : result unit * S :=
  match lines with
  | [] => (Ok tt, s)
  | l :: r =>
      match ParseVMExportLine l with
      | Err e => (Err e, s)
      | Ok [] => scan_vm fn r s
      | Ok rows => match fn rows s with
                   | (Ok _, s') => scan_vm fn r s'
                   | (Err e, s') => (Err e, s')
                   end
      end
  end.
Definition ScanVMExport {S} (b : body) (fn : list MetricRow → S → result unit * S) (s : S)
    : result unit * S :=
  let (lines, err) := scan_lines (16 * 1024 * 1024) b in
  match scan_vm fn lines s, err with
  | (Ok _, s'), Some e => (Err e, s')
  | r, _ => r
  end.
End metrics.

(** * Logs *)

Record LogRow := {
  lr_TimestampNs : Z; lr_TraceId : string; lr_SpanId : string; lr_TraceFlags : Z;
  lr_SeverityText : string; lr_SeverityNumber : Z; lr_ServiceName : string; lr_Body : string;
  lr_Tenant : string; lr_Cluster : string; lr_ClusterNamespace : string; lr_Namespace : string;
  lr_Pod : string; lr_Node : string; lr_Attributes : gmap string string }.

Definition reserved_log_fields : list string :=
  ["_time"; "_msg"; "_stream"; "_stream_id"; "severity"; "service.name"; "trace_id"; "span_id";
   "k8s.cluster.namespace"; "k8s.namespace.name"; "k8s.pod.name"; "k8s.node.name";
   "k8s.cluster.name"; "tenant"].

Definition parseVLogsLine (raw : gmap string string) (tenant cluster : string) : LogRow :=
  {| lr_TimestampNs := match raw !! "_time" ≫= parse_rfc3339 with
                       | Some ts => unix_nano ts
                       | None => 0
                       end;
     lr_TraceId := field raw "trace_id"; lr_SpanId := field raw "span_id"; lr_TraceFlags := 0;
     lr_SeverityText := field raw "severity"; lr_SeverityNumber := 0;
     lr_ServiceName := field raw "service.name"; lr_Body := field raw "_msg";
     lr_Tenant := tenant; lr_Cluster := cluster;
     lr_ClusterNamespace := field raw "k8s.cluster.namespace";
     lr_Namespace := field raw "k8s.namespace.name"; lr_Pod := field raw "k8s.pod.name";
     lr_Node := field raw "k8s.node.name";
     lr_Attributes := filter (λ kv, kv.1 ∉ reserved_log_fields ∧ kv.2 ≠ "") raw |}.

(** * Traces *)

Record TraceEvent := { te_TimestampNs : Z; te_Name : string; te_Attributes : gmap string string }.

Record TraceRow := {
  tr_Timestamp : Z; tr_TraceId : string; tr_SpanId : string; tr_ParentSpanId : string;
  tr_TraceState : string; tr_TraceFlags : Z; tr_SpanName : string; tr_SpanKind : string;
  tr_ServiceName : string; tr_Duration : Z; tr_StatusCode : string; tr_StatusMessage : string;
  tr_Tenant : string; tr_Cluster : string; tr_ClusterNamespace : string; tr_Namespace : string;
  tr_Pod : string; tr_Node : string; tr_ResourceAttributes : gmap string string;
  tr_SpanAttributes : gmap string string; tr_Events : list TraceEvent }.

Definition spanKindName (s : string) : string :=
  if String.eqb s "1" then "SPAN_KIND_INTERNAL"
  else if String.eqb s "2" then "SPAN_KIND_SERVER"
  else if String.eqb s "3" then "SPAN_KIND_CLIENT"
  else if String.eqb s "4" then "SPAN_KIND_PRODUCER"
  else if String.eqb s "5" then "SPAN_KIND_CONSUMER"
  else "SPAN_KIND_UNSPECIFIED".

Definition statusCodeName (s : string) : string :=
  if String.eqb s "1" then "STATUS_CODE_OK"
  else if String.eqb s "2" then "STATUS_CODE_ERROR"
  else "STATUS_CODE_UNSET".

Definition promotedResourceAttrs : list string :=
  ["resource_attr:k8s.cluster.name"; "resource_attr:k8s.cluster.namespace";
   "resource_attr:k8s.namespace.name"; "resource_attr:k8s.pod.name"; "resource_attr:k8s.node.name";
   "resource_attr:service.name"].
Definition reservedTop : list string :=
  ["_time"; "_msg"; "_stream"; "_stream_id"; "trace_id"; "span_id"; "parent_span_id"; "name";
   "kind"; "duration"; "flags"; "start_time_unix_nano"; "end_time_unix_nano"; "status_code";
   "status_message"; "scope_name"; "scope_version"].

(** Where one field of the record goes: the loop body over the map. *)
Definition attr_step (acc : gmap string string * gmap string string) (kv : string * string)
    : gmap string string * gmap string string :=
  let (k, v) := kv in
  let (resAttrs, spanAttrs) := acc in
  if decide (v = "") then acc
  else match cut_prefix "resource_attr:" k with
       | Some a => if decide (k ∈ promotedResourceAttrs) then acc else (<[a := v]> resAttrs, spanAttrs)
       | None =>
           match cut_prefix "span_attr:" k with
           | Some a => (resAttrs, <[a := v]> spanAttrs)
           | None => if decide (k ∈ reservedTop) then acc else (resAttrs, <[k := v]> spanAttrs)
           end
       end.

Definition set_nonempty (k v : string) (m : gmap string string) : gmap string string :=
  if decide (v = "") then m else <[k := v]> m.

Definition span_timestamp (raw : gmap string string) : Z :=
  match parse_int64 (field raw "start_time_unix_nano") with
  | Some ns => ns
  | None => match parse_rfc3339 (field raw "_time") with
            | Some t => unix_nano t
            | None => 0
            end
  end.

(** [parseVTracesLine]; [order] is the order in which the range visits [raw]. *)
Definition parseVTracesLine (raw : gmap string string) (order : list (string * string))
    (tenant cluster : string) : TraceRow :=
  let (resAttrs, spanAttrs) := foldl attr_step (∅, ∅) order in
  {| tr_Timestamp := span_timestamp raw;
     tr_TraceId := field raw "trace_id"; tr_SpanId := field raw "span_id";
     tr_ParentSpanId := field raw "parent_span_id"; tr_TraceState := "";
     tr_TraceFlags := match parse_uint32 (field raw "flags") with
                      | Some f => Z.land (Z.shiftr f 8) 1
                      | None => 0
                      end;
     tr_SpanName := field raw "name"; tr_SpanKind := spanKindName (field raw "kind");
     tr_ServiceName := field raw "resource_attr:service.name";
     tr_Duration := default 0 (parse_int64 (field raw "duration"));
     tr_StatusCode := statusCodeName (field raw "status_code");
     tr_StatusMessage := field raw "status_message";
     tr_Tenant := tenant; tr_Cluster := cluster;
     tr_ClusterNamespace := field raw "resource_attr:k8s.cluster.namespace";
     tr_Namespace := field raw "resource_attr:k8s.namespace.name";
     tr_Pod := field raw "resource_attr:k8s.pod.name";
     tr_Node := field raw "resource_attr:k8s.node.name";
     tr_ResourceAttributes := resAttrs;
     tr_SpanAttributes :=
       set_nonempty "otel.scope.version" (field raw "scope_version")
         (set_nonempty "otel.scope.name" (field raw "scope_name") spanAttrs);
     tr_Events := [] |}.

(** * Batches *)

(** The scan loop that logs and traces share: rows collect in a batch that is
    handed to [fn] when it is full and at the end. *)
Definition batchSize : nat := 5000.

Section batches.
Context {R S : Type}.
Context (parse : gmap string string → R).
Context (fn : list R → S → result unit * S).
Context (limit : nat).

Definition flush (batch : list R) (s : S) : result (list R) * S :=
  match batch with
  | [] => (Ok [], s)
  | _ => match fn batch s with
         | (Ok _, s') => (Ok [], s')
         | (Err e, s') => (Err e, s')
         end
  end.

Fixpoint scan_batches (lines : list string) (batch : list R) (s : S) : result (list R) * S :=
  match lines with
  | [] => (Ok batch, s)
  | text :: r =>
      let line := trim_space text in
      if decide (line = "") then scan_batches r batch s
      else match unmarshal_flat line with
           | None => scan_batches r batch s
           | Some raw =>
               let batch' := (batch ++ [parse raw])%list in
               if (limit <=? length batch')%nat then
                 match flush batch' s with
                 | (Ok b, s') => scan_batches r b s'
                 | (Err e, s') => (Err e, s')
                 end
               else scan_batches r batch' s
           end
  end.

Definition scan_export (what : string) (b : body) (s : S) : result unit * S :=
  let (lines, err) := scan_lines (4 * 1024 * 1024) b in
  match scan_batches lines [] s, err with
  | (Err e, s'), _ => (Err e, s')
  | (Ok _, s'), Some e => (Err (EWrap ("scan " +:+ what +:+ " export") e), s')
  | (Ok batch, s'), None => match flush batch s' with
                            | (Ok _, s'') => (Ok tt, s'')
                            | (Err e, s'') => (Err e, s'')
                            end
  end.
End batches.

Definition ScanVLogsExport {S} (b : body) (tenant cluster : string)
    (fn : list LogRow → S → result unit * S) (s : S) : result unit * S :=
  scan_export (λ raw, parseVLogsLine raw tenant cluster) fn batchSize "vlogs" b s.

Definition ScanVTracesExport {S} (visit : gmap string string → list (string * string))
    (b : body) (tenant cluster : string)
    (fn : list TraceRow → S → result unit * S) (s : S) : result unit * S :=
  scan_export (λ raw, parseVTracesLine raw (visit raw) tenant cluster) fn batchSize "vtraces" b s.

(** * Parquet rows *)

Record metricParquetRow `{Float64} := {
  mp_timestamp : Z; mp_metric_name : string; mp_value : float; mp_tenant : string;
  mp_cluster : string; mp_cluster_namespace : string; mp_namespace : string; mp_pod : string;
  mp_node : string; mp_job : string; mp_labels : option string }.
Record logParquetRow := {
  lp_Timestamp : Z; lp_TraceId : string; lp_SpanId : string; lp_TraceFlags : Z;
  lp_SeverityText : string; lp_SeverityNumber : Z; lp_ServiceName : string; lp_Body : string;
  lp_tenant : string; lp_cluster : string; lp_cluster_namespace : string; lp_namespace : string;
  lp_pod : string; lp_node : string; lp_LogAttributes : option string }.
Record traceParquetRow := {
  tp_Timestamp : Z; tp_TraceId : string; tp_SpanId : string; tp_ParentSpanId : string;
  tp_TraceState : string; tp_TraceFlags : Z; tp_SpanName : string; tp_SpanKind : string;
  tp_ServiceName : string; tp_Duration : Z; tp_StatusCode : string; tp_StatusMessage : string;
  tp_tenant : string; tp_cluster : string; tp_cluster_namespace : string; tp_namespace : string;
  tp_pod : string; tp_node : string; tp_ResourceAttributes : option string;
  tp_SpanAttributes : option string; tp_Events : option string }.

Definition metric_parquet `{Float64} (r : MetricRow) : metricParquetRow :=
  {| mp_timestamp := mr_Timestamp r; mp_metric_name := mr_MetricName r; mp_value := mr_Value r;
     mp_tenant := mr_Tenant r; mp_cluster := mr_Cluster r;
     mp_cluster_namespace := mr_ClusterNamespace r; mp_namespace := mr_Namespace r;
     mp_pod := mr_Pod r; mp_node := mr_Node r; mp_job := mr_Job r;
     mp_labels := json_column (mr_Labels r) |}.

Definition log_parquet (r : LogRow) : logParquetRow :=
  {| lp_Timestamp := lr_TimestampNs r; lp_TraceId := lr_TraceId r; lp_SpanId := lr_SpanId r;
     lp_TraceFlags := lr_TraceFlags r; lp_SeverityText := lr_SeverityText r;
     lp_SeverityNumber := lr_SeverityNumber r; lp_ServiceName := lr_ServiceName r;
     lp_Body := lr_Body r; lp_tenant := lr_Tenant r; lp_cluster := lr_Cluster r;
     lp_cluster_namespace := lr_ClusterNamespace r; lp_namespace := lr_Namespace r;
     lp_pod := lr_Pod r; lp_node := lr_Node r;
     lp_LogAttributes := json_column (lr_Attributes r) |}.

(** An event as [{"ts":n,"name":s,"attrs":{...}}], attrs omitted when empty. *)
Definition event_text (ev : TraceEvent) : string :=
  let q s := dquote +:+ s +:+ dquote in
  "{" +:+ q "ts" +:+ ":" +:+ itoa (te_TimestampNs ev) +:+ "," +:+ q "name" +:+ ":" +:+
  marshal_string (te_Name ev) +:+
  match json_column (te_Attributes ev) with
  | Some a => "," +:+ q "attrs" +:+ ":" +:+ a
  | None => ""
  end +:+ "}".
Definition trace_parquet (r : TraceRow) : traceParquetRow :=
  {| tp_Timestamp := tr_Timestamp r; tp_TraceId := tr_TraceId r; tp_SpanId := tr_SpanId r;
     tp_ParentSpanId := tr_ParentSpanId r; tp_TraceState := tr_TraceState r;
     tp_TraceFlags := tr_TraceFlags r; tp_SpanName := tr_SpanName r; tp_SpanKind := tr_SpanKind r;
     tp_ServiceName := tr_ServiceName r; tp_Duration := tr_Duration r;
     tp_StatusCode := tr_StatusCode r; tp_StatusMessage := tr_StatusMessage r;
     tp_tenant := tr_Tenant r; tp_cluster := tr_Cluster r;
     tp_cluster_namespace := tr_ClusterNamespace r; tp_namespace := tr_Namespace r;
     tp_pod := tr_Pod r; tp_node := tr_Node r;
     tp_ResourceAttributes := json_column (tr_ResourceAttributes r);
     tp_SpanAttributes := json_column (tr_SpanAttributes r);
     tp_Events := match tr_Events r with
                  | [] => None
                  | evs => Some ("[" +:+ join "," (event_text <$> evs) +:+ "]")
                  end |}.

(** The three writers: the rows written so far and their number.  The Parquet
    library takes the rows; it can only fail when the pipe it writes to does. *)
Record ParquetWriter (P : Type) := { pw_rows : list P; pw_count : Z }.
Arguments pw_rows {P} _.
Arguments pw_count {P} _.

Definition NewParquetWriter {P} : ParquetWriter P := {| pw_rows := []; pw_count := 0 |}.
Definition write_rows {R P} (conv : R → P) (rows : list R) (w : ParquetWriter P)
    : result unit * ParquetWriter P :=
  (Ok tt, {| pw_rows := (pw_rows w ++ (conv <$> rows))%list;
             pw_count := pw_count w + Z.of_nat (length rows) |}).
Definition MetricsParquetWriter_Write `{Float64} := write_rows metric_parquet.
Definition LogsParquetWriter_Write := write_rows log_parquet.
Definition TracesParquetWriter_Write := write_rows trace_parquet.
