(* ===== verification/ColdRowFacts.v ===== *)
(** What holds of the telemetry rows: every parseable line is one row, in
    order and in bounded batches; no field of a record is lost; the JSON
    columns read back; where the order of a Go map matters. *)
From S2P Require Import Prelude Strings GoTime Json JsonFacts World Vlogs ColdRows.
From Stdlib Require Import Ascii.

Open Scope string_scope.
Open Scope Z_scope.

(** * Batches *)

(** The records of the lines that are not blank and parse. *)
Definition record_of (text : string) : option (gmap string string) :=
  let line := trim_space text in if decide (line = "") then None else unmarshal_flat line.
Definition records (lines : list string) : list (gmap string string) := omap record_of lines.

Section batches.
Context {R : Type} (parse : gmap string string → R).

(** The scan loop in terms of the records. *)
Lemma scan_batches_records {S} fn limit text r batch (s : S) :
  scan_batches parse fn limit (text :: r) batch s =
  match record_of text with
  | None => scan_batches parse fn limit r batch s
  | Some raw =>
      let batch' := (batch ++ [parse raw])%list in
      if (limit <=? length batch')%nat then
        match flush fn batch' s with
        | (Ok b, s') => scan_batches parse fn limit r b s'
        | (Err e, s') => (Err e, s')
        end
      else scan_batches parse fn limit r batch' s
  end.
Proof. cbn [scan_batches]. unfold record_of. case_decide; [done|]. by destruct (unmarshal_flat _). Qed.

(** Recording the batches: each is non-empty and at most [limit] long, and
    together with what is left they are the rows. *)
Definition record_batch (b : list R) (s : list (list R)) : result unit * list (list R) :=
  (Ok tt, (s ++ [b])%list).

Lemma scan_batches_bounded limit lines batch s r s' :
  (1 ≤ limit)%nat → (length batch < limit)%nat →
  Forall (λ b, (1 ≤ length b ≤ limit)%nat) s →
  scan_batches parse record_batch limit lines batch s = (r, s') →
  ∃ batch', r = Ok batch' ∧ (length batch' < limit)%nat
    ∧ Forall (λ b, (1 ≤ length b ≤ limit)%nat) s'
    ∧ (concat s' ++ batch' = concat s ++ batch ++ (parse <$> records lines))%list.
Proof.
  intros Hl. revert batch s. induction lines as [|text lines IH]; intros batch s Hb Hs.
  - intros [= <- <-]. exists batch. by rewrite app_nil_r.
  - rewrite scan_batches_records. unfold records. cbn [omap list_omap].
    destruct (record_of text) as [raw|]; [|by apply IH].
    cbv zeta. destruct (Nat.leb_spec limit (length (batch ++ [parse raw]))) as [Hle|Hlt].
    + unfold flush. destruct (batch ++ [parse raw])%list as [|x xs] eqn:E; [by destruct batch|].
      unfold record_batch at 1. intros Hr.
      apply IH in Hr as (batch' & -> & H1 & H2 & H3); [|simpl; lia|].
      * exists batch'. split_and!; [done|done|done|]. rewrite H3, concat_app. simpl.
        rewrite app_nil_r, <-app_assoc. f_equal. rewrite <-E, <-app_assoc. done.
      * apply Forall_app. split; [done|]. constructor; [|done].
        rewrite <-E, length_app in *. simpl in *. lia.
    + intros Hr. apply IH in Hr as (batch' & -> & H1 & H2 & H3); [|done|done].
      exists batch'. split_and!; [done|done|done|]. rewrite H3, <-app_assoc. done.
Qed.

(** Writing rows: everything parsed so far is in the writer or the batch. *)
Lemma scan_batches_write {P} (conv : R → P) limit lines batch (w : ParquetWriter P) r w' :
  scan_batches parse (write_rows conv) limit lines batch w = (r, w') →
  ∃ batch', r = Ok batch'
    ∧ (pw_rows w' ++ (conv <$> batch')
       = pw_rows w ++ (conv <$> batch) ++ (conv ∘ parse <$> records lines))%list
    ∧ pw_count w' + Z.of_nat (length batch')
      = pw_count w + Z.of_nat (length batch + length (records lines)).
Proof.
  revert batch w. induction lines as [|text lines IH]; intros batch w.
  - intros [= <- <-]. exists batch. rewrite app_nil_r. split_and!; [done|done|simpl; lia].
  - rewrite scan_batches_records. unfold records. cbn [omap list_omap].
    destruct (record_of text) as [raw|]; [|by apply IH].
    cbv zeta. destruct (Nat.leb_spec limit (length (batch ++ [parse raw]))) as [Hle|Hlt].
    + unfold flush. destruct (batch ++ [parse raw])%list as [|x xs] eqn:E; [by destruct batch|].
      unfold write_rows at 1. intros Hr. apply IH in Hr as (batch' & -> & H1 & H2).
      exists batch'. split_and!; [done|..].
      * rewrite H1. cbn [pw_rows]. rewrite <-E, fmap_app, <-!app_assoc. done.
      * rewrite H2. cbn [pw_count]. rewrite <-E, length_app.
        unfold records, omap. cbn [length]. lia.
    + intros Hr. apply IH in Hr as (batch' & -> & H1 & H2). exists batch'. split_and!; [done|..].
      * rewrite H1, fmap_app, <-app_assoc. done.
      * rewrite H2, length_app. unfold records, omap. cbn [length]. lia.
Qed.

Lemma scan_export_write {P} (conv : R → P) limit what b (w : ParquetWriter P) :
  scan_export parse (write_rows conv) limit what b NewParquetWriter = (Ok tt, w) →
  (scan_lines (4 * 1024 * 1024) b).2 = None
  ∧ pw_rows w = conv ∘ parse <$> records (scan_lines (4 * 1024 * 1024) b).1
  ∧ pw_count w = Z.of_nat (length (records (scan_lines (4 * 1024 * 1024) b).1)).
Proof.
  unfold scan_export. destruct (scan_lines (4 * 1024 * 1024) b) as [lines err].
  destruct (scan_batches parse (write_rows conv) limit lines [] NewParquetWriter) as [r w1] eqn:E.
  apply scan_batches_write in E as (batch & -> & H1 & H2). simpl in H1, H2.
  destruct err as [e|]; [done|]. unfold flush. destruct batch as [|x xs].
  - intros [= <-]. rewrite app_nil_r in H1. simpl. split_and!; [done|done|simpl in *; lia].
  - unfold write_rows. intros [= <-]. cbn [pw_rows pw_count]. simpl in *.
    split_and!; [done|done|lia].
Qed.
End batches.

(** C33: The Parquet file of a logs window holds exactly one row for every line
    that is a JSON object of strings, in the order of the export, and the row
    count is their number; a read error or an oversized line fails the window
    instead of truncating it. *)
Theorem logs_rows_complete b tenant cluster pw
    (H : ScanVLogsExport b tenant cluster LogsParquetWriter_Write NewParquetWriter = (Ok tt, pw)) :
  (scan_lines (4 * 1024 * 1024) b).2 = None
  ∧ pw_rows pw = (λ raw, log_parquet (parseVLogsLine raw tenant cluster))
                   <$> records (scan_lines (4 * 1024 * 1024) b).1
  ∧ pw_count pw = Z.of_nat (length (records (scan_lines (4 * 1024 * 1024) b).1)).
Proof. exact (scan_export_write _ _ _ _ _ _ H). Qed.

Definition logs_body : body :=
  let q s := dquote +:+ s +:+ dquote in
  {| b_text := "{" +:+ q "_msg" +:+ ":" +:+ q "hi" +:+ "}" +:+ String (byte 10) "junk"; b_err := None |}.

Lemma logs_rows_complete_witness :
  ∃ pw, ScanVLogsExport logs_body "t" "c" LogsParquetWriter_Write NewParquetWriter = (Ok tt, pw)
        ∧ pw_count pw = 1.
Proof.
  destruct (ScanVLogsExport logs_body "t" "c" LogsParquetWriter_Write NewParquetWriter) as [[[]|e] pw] eqn:E;
    [|by vm_compute in E].
  exists pw. split; [done|]. destruct (logs_rows_complete _ _ _ _ E) as (_ & _ & Hn).
  rewrite Hn. by vm_compute.
Defined.

(** C37: The traces scan never hands the writer an empty batch or one of more
    than 5000 rows, and the batches together are the parsed rows in order. *)
Theorem traces_batches_bounded visit b tenant cluster batches
    (H : ScanVTracesExport visit b tenant cluster record_batch [] = (Ok tt, batches)) :
  Forall (λ l, (1 ≤ length l ≤ batchSize)%nat) batches
  ∧ concat batches = (λ raw, parseVTracesLine raw (visit raw) tenant cluster)
                       <$> records (scan_lines (4 * 1024 * 1024) b).1.
Proof.
  unfold ScanVTracesExport, scan_export in H.
  destruct (scan_lines (4 * 1024 * 1024) b) as [lines err]. cbn [fst].
  assert (Hb1 : (1 ≤ batchSize)%nat) by (unfold batchSize; lia).
  destruct (scan_batches _ record_batch batchSize lines [] []) as [r s1] eqn:E.
  apply scan_batches_bounded in E as (batch & -> & H1 & H2 & H3); [|done|exact Hb1|done].
  destruct err as [e|]; [done|]. simpl in H3. unfold flush in H. destruct batch as [|x xs].
  - injection H as <-. by rewrite app_nil_r in H3.
  - unfold record_batch in H. injection H as <-. split.
    + apply Forall_app. split; [done|]. constructor; [|done]. cbn [length] in *. lia.
    + rewrite concat_app. simpl. by rewrite app_nil_r.
Qed.

Lemma traces_batches_bounded_witness :
  ∃ batches, ScanVTracesExport map_to_list logs_body "t" "c" record_batch [] = (Ok tt, batches)
             ∧ length (concat batches) = 1%nat.
Proof.
  destruct (ScanVTracesExport map_to_list logs_body "t" "c" record_batch []) as [[[]|e] bs] eqn:E;
    [|by vm_compute in E].
  exists bs. split; [done|]. destruct (traces_batches_bounded _ _ _ _ _ E) as (_ & Hc).
  rewrite Hc. by vm_compute.
Defined.

(** * JSON columns *)

(** A JSON column (labels, log, resource and span attributes) reads back as the
    map it was made from, for valid UTF-8. *)
Definition read_column (text : option string) : option (gmap string string) :=
  match text with None => Some ∅ | Some t => unmarshal_flat t end.
Definition valid_text (m : gmap string string) : Prop :=
  map_Forall (λ k v, utf8_valid k = true ∧ utf8_valid v = true) m.

Lemma read_json_column m : valid_text m → read_column (json_column m) = Some m.
Proof.
  unfold json_column. case_decide as Hm; [by subst|]. apply unmarshal_marshal_flat.
Qed.

(** * Records to columns *)

(** Where a field of a span record goes: nowhere, or to a key of the resource
    ([true]) or span ([false]) attributes. *)
Definition attr_target (kv : string * string) : option (bool * string) :=
  if decide (kv.2 = "") then None
  else match cut_prefix "resource_attr:" kv.1 with
       | Some a => if decide (kv.1 ∈ promotedResourceAttrs) then None else Some (true, a)
       | None => match cut_prefix "span_attr:" kv.1 with
                 | Some a => Some (false, a)
                 | None => if decide (kv.1 ∈ reservedTop) then None else Some (false, kv.1)
                 end
       end.

Lemma attr_step_target acc kv :
  attr_step acc kv = match attr_target kv with
                     | None => acc
                     | Some (true, a) => (<[a := kv.2]> acc.1, acc.2)
                     | Some (false, a) => (acc.1, <[a := kv.2]> acc.2)
                     end.
Proof.
  destruct kv as [k v], acc as [res span]. unfold attr_step, attr_target. cbn [fst snd].
  repeat case_decide; try done; repeat case_match; naive_solver.
Qed.

(** No two fields of the record compete for one attribute key. *)
Definition targets_apart (order : list (string * string)) : Prop :=
  ∀ x y t, x ∈ order → y ∈ order → attr_target x = Some t → attr_target y = Some t → x = y.

Lemma attr_step_commute acc x y :
  (∀ t, attr_target x = Some t → attr_target y = Some t → x = y) →
  attr_step (attr_step acc x) y = attr_step (attr_step acc y) x.
Proof.
  intros Hxy. rewrite !attr_step_target.
  destruct (attr_target x) as [[[] a]|] eqn:Ex, (attr_target y) as [[[] b]|] eqn:Ey; try done; simpl;
    (destruct (decide (a = b)) as [->|Hne]; [by rewrite (Hxy _ eq_refl eq_refl)|
     f_equal; by apply insert_insert_ne, not_eq_sym]).
Qed.

(** A span row does not depend on the order in which Go visits the
    record's fields, as long as no two fields compete for one attribute key. *)
Theorem span_order_independent raw order order' tenant cluster
    (Ho : order ≡ₚ map_to_list raw) (Ho' : order' ≡ₚ map_to_list raw) (Ha : targets_apart order) :
  parseVTracesLine raw order tenant cluster = parseVTracesLine raw order' tenant cluster.
Proof.
  unfold parseVTracesLine. rewrite (foldl_perm attr_step order order'); [done| |by rewrite Ho, Ho'].
  intros acc x y Hx Hy. apply attr_step_commute. intros t. by apply Ha.
Qed.

Definition span_record : gmap string string := list_to_map
  [("trace_id", "1"); ("span_attr:http.method", "GET"); ("resource_attr:zone", "a"); ("zone", "b")].

Lemma span_order_independent_witness :
  parseVTracesLine span_record (map_to_list span_record) "t" "c"
  = parseVTracesLine span_record (reverse (map_to_list span_record)) "t" "c".
Proof.
  apply span_order_independent; [done|apply reverse_Permutation|].
  assert (H : Forall (λ x, Forall (λ y, attr_target x = attr_target y → attr_target x = None ∨ x = y)
    (map_to_list span_record)) (map_to_list span_record)).
  { apply (bool_decide_unpack _). by vm_compute. }
  intros x y t Hx Hy Ex Ey. rewrite Forall_forall in H. specialize (H x Hx).
  rewrite Forall_forall in H. destruct (H y Hy) as [E|E]; congruence.
Defined.

(** A span attribute and a top-level field of the same name do compete:
    the visiting order decides which value the exported row has. *)
Theorem span_attribute_collision :
  ∃ raw order order', order ≡ₚ map_to_list raw ∧ order' ≡ₚ map_to_list raw
    ∧ tr_SpanAttributes (parseVTracesLine raw order "t" "c") !! "zone" = Some "x"
    ∧ tr_SpanAttributes (parseVTracesLine raw order' "t" "c") !! "zone" = Some "y".
Proof.
  exists (list_to_map [("span_attr:zone", "x"); ("zone", "y")]),
    [("zone", "y"); ("span_attr:zone", "x")], [("span_attr:zone", "x"); ("zone", "y")].
  split_and!; [apply (bool_decide_unpack _); by vm_compute..|done|done].
Qed.

(** Split on the next comparison of a key with a constant. *)
Ltac case_string_eqb :=
  match goal with |- context [String.eqb ?k ?c] => destruct (String.eqb_spec k c) as [->|?] end.

(** The column of a log field. *)
Definition log_column (r : LogRow) (k : string) : option string :=
  if String.eqb k "_msg" then Some (lr_Body r)
  else if String.eqb k "severity" then Some (lr_SeverityText r)
  else if String.eqb k "service.name" then Some (lr_ServiceName r)
  else if String.eqb k "trace_id" then Some (lr_TraceId r)
  else if String.eqb k "span_id" then Some (lr_SpanId r)
  else if String.eqb k "k8s.cluster.namespace" then Some (lr_ClusterNamespace r)
  else if String.eqb k "k8s.namespace.name" then Some (lr_Namespace r)
  else if String.eqb k "k8s.pod.name" then Some (lr_Pod r)
  else if String.eqb k "k8s.node.name" then Some (lr_Node r)
  else lr_Attributes r !! k.

(** A log row keeps every non-empty field of its record, in the column of
    that field or in the attributes, except the stream fields of VictoriaLogs
    and the time, tenant and cluster fields, which have columns of their own;
    and the attributes hold nothing else. *)
Theorem log_row_keeps_fields raw tenant cluster k v
    (Hk : k ∉ ["_time"; "_stream"; "_stream_id"; "tenant"; "k8s.cluster.name"]) (Hv : v ≠ "") :
  raw !! k = Some v → log_column (parseVLogsLine raw tenant cluster) k = Some v
  ∧ lr_Tenant (parseVLogsLine raw tenant cluster) = tenant
  ∧ lr_Cluster (parseVLogsLine raw tenant cluster) = cluster
  ∧ (∀ a x, lr_Attributes (parseVLogsLine raw tenant cluster) !! a = Some x →
       raw !! a = Some x ∧ a ∉ reserved_log_fields).
Proof.
  intros Hkv. split; [|split; [done|split; [done|]]].
  - unfold log_column. cbn [lr_Body lr_SeverityText lr_ServiceName lr_TraceId lr_SpanId
      lr_ClusterNamespace lr_Namespace lr_Pod lr_Node lr_Attributes parseVLogsLine].
    unfold field. repeat (case_string_eqb; [by rewrite Hkv|]).
    apply map_lookup_filter_Some. split; [done|]. split; [|done]. simpl.
    unfold reserved_log_fields. set_solver.
  - intros a x. simpl. intros [H1 [H2 _]]%map_lookup_filter_Some. done.
Qed.

Lemma log_row_keeps_fields_witness :
  log_column (parseVLogsLine {[ "app" := "x" ]} "t" "c") "app" = Some "x".
Proof.
  refine (proj1 (log_row_keeps_fields {[ "app" := "x" ]} "t" "c" "app" "x" _ _ _));
    [apply (bool_decide_unpack _); by vm_compute|discriminate|reflexivity].
Defined.

(** * Metrics *)

Section metrics.
Context `{Float64}.

(** The samples of a line that have a value, with their timestamps. *)
Definition sample_value (s : json * Z) : option (float * Z) :=
  match parseVMValue s.1 with Ok v => Some (v, s.2) | Err _ => None end.

Lemma sample_rows_omap metric labels samples :
  sample_rows metric labels samples
  = (λ vt, row_of metric labels vt.2 vt.1) <$> omap sample_value samples.
Proof.
  induction samples as [|[raw ts] r IH]; [done|]. cbn [sample_rows omap list_omap].
  unfold sample_value at 1. cbn [fst snd]. rewrite IH. by destruct (parseVMValue raw).
Qed.

(** The value of a label in a row: promoted labels have columns. *)
Definition row_label (r : MetricRow) (k : string) : string :=
  if String.eqb k "__name__" then mr_MetricName r
  else if String.eqb k "tenant" then mr_Tenant r
  else if String.eqb k "cluster" then mr_Cluster r
  else if String.eqb k "cluster_namespace" then mr_ClusterNamespace r
  else if String.eqb k "namespace" then mr_Namespace r
  else if String.eqb k "pod" then mr_Pod r
  else if String.eqb k "node" then mr_Node r
  else if String.eqb k "job" then mr_Job r
  else field (mr_Labels r) k.

Lemma row_label_metric metric ts v k :
  row_label (row_of metric (filter (λ kv, kv.1 ∉ promoted_labels) metric) ts v) k = field metric k.
Proof.
  unfold row_label, row_of. cbn [mr_MetricName mr_Tenant mr_Cluster mr_ClusterNamespace mr_Namespace
    mr_Pod mr_Node mr_Job mr_Labels].
  repeat (case_string_eqb; [done|]).
  unfold field. f_equal. apply option_eq. intros x. rewrite map_lookup_filter_Some. simpl.
  split; [by intros [? _]|]. intros Hx. split; [done|]. unfold promoted_labels. set_solver.
Qed.

(** A line of the metrics export becomes one row per sample whose value
    parses, in order, each with its own timestamp and with every label of the
    series in its column or in the labels. *)
Theorem metric_rows_complete text rows (H1 : trim_space text ≠ "")
    (H2 : ParseVMExportLine text = Ok rows) :
  ∃ el, (unmarshal (trim_space text) ≫= decode_export_line) = Some el
    ∧ length (el_Values el) = length (el_Timestamps el)
    ∧ (λ r, (mr_Value r, mr_Timestamp r)) <$> rows
      = omap sample_value (zip (el_Values el) (el_Timestamps el))
    ∧ Forall (λ r, ∀ k, row_label r k = field (el_Metric el) k) rows.
Proof.
  unfold ParseVMExportLine in H2. rewrite decide_False in H2 by done.
  destruct (unmarshal (trim_space text) ≫= decode_export_line) as [el|]; [|done].
  case_decide as Hl; [|done]. injection H2 as <-. exists el. split_and!; [done|done|..].
  - rewrite sample_rows_omap, <-list_fmap_compose.
    etrans; [|apply list_fmap_id]. apply list_fmap_ext. by intros i [v t] _.
  - rewrite sample_rows_omap. apply Forall_fmap, Forall_forall. intros [v t] _ k. simpl.
    apply row_label_metric.
Qed.

(** ** Reading a file back

    A reader of the Parquet file gets the labels of a series from the columns
    and the JSON column together; a label with the empty value is one the
    series does not have, and a label in both places is an error. *)
Definition label_columns (p : metricParquetRow) : list (string * string) :=
  [("__name__", mp_metric_name p); ("tenant", mp_tenant p); ("cluster", mp_cluster p);
   ("cluster_namespace", mp_cluster_namespace p); ("namespace", mp_namespace p);
   ("pod", mp_pod p); ("node", mp_node p); ("job", mp_job p)].
Definition nonempty_labels (m : gmap string string) : gmap string string :=
  filter (λ kv, kv.2 ≠ "") m.

(** A sample: the labels of its series, its timestamp and its value. *)
Notation sample := (gmap string string * Z * float)%type.

Definition read_back (p : metricParquetRow) : option sample :=
  let? others := read_column (mp_labels p) in
  if decide (Forall (λ kv, others !! kv.1 = None) (label_columns p))
  then Some (nonempty_labels (list_to_map (label_columns p) ∪ others), mp_timestamp p, mp_value p)
  else None.

(** The number a JSON value of the export stands for. *)
Definition number_of (raw : json) : option float :=
  match raw with
  | JNum lit => parse_float lit
  | JNull => Some fzero
  | JStr "NaN" => Some fnan
  | JStr "Infinity" | JStr "+Infinity" => Some finf
  | JStr "-Infinity" => Some fneginf
  | _ => None
  end.
Definition samples_of (el : vmExportLine) : list sample :=
  omap (λ vt, (λ v, (nonempty_labels (el_Metric el), vt.2, v)) <$> number_of vt.1)
    (zip (el_Values el) (el_Timestamps el)).

Lemma parseVMValue_number raw :
  match parseVMValue raw with Ok v => Some v | Err _ => None end = number_of raw.
Proof.
  unfold parseVMValue, number_of. destruct raw as [|b|lit|s|l|kvs]; try done.
  - by destruct (parse_float lit).
  - repeat case_string_eqb; cbn [orb]; try done.
    repeat match goal with |- context [match ?x with _ => _ end] => is_var x; destruct x; try done end.
Qed.

Lemma label_columns_lookup metric labels ts v k :
  k ∈ promoted_labels →
  (list_to_map (label_columns (metric_parquet (row_of metric labels ts v))) : gmap string string) !! k
  = Some (field metric k).
Proof.
  unfold promoted_labels. rewrite !elem_of_cons, elem_of_nil. simpl.
  by intros [->|[->|[->|[->|[->|[->|[->|[->|[]]]]]]]]].
Qed.

Lemma read_back_row metric ts v :
  valid_text metric →
  read_back (metric_parquet (row_of metric (filter (λ kv, kv.1 ∉ promoted_labels) metric) ts v))
  = Some (nonempty_labels metric, ts, v).
Proof.
  intros Hv. set (labels := filter _ metric).
  assert (Hl : ∀ k, labels !! k = if decide (k ∈ promoted_labels) then None else metric !! k).
  { intros k. unfold labels. rewrite map_lookup_filter. destruct (metric !! k); simpl; [|by case_decide].
    case_guard; by case_decide. }
  unfold read_back. cbn [mp_labels metric_parquet mr_Labels row_of].
  rewrite read_json_column
    by (intros k x [Hx _]%map_lookup_filter_Some; by apply (Hv k)).
  rewrite decide_True.
  2: { unfold label_columns. repeat constructor; cbn [fst]; by rewrite Hl. }
  cbn [mp_timestamp mp_value metric_parquet mr_Timestamp mr_Value row_of]. do 3 f_equal.
  apply map_eq. intros k. unfold nonempty_labels. rewrite !map_lookup_filter.
  destruct (decide (k ∈ promoted_labels)) as [Hk|Hk].
  - rewrite (lookup_union_Some_l _ _ _ (field metric k)) by (by apply label_columns_lookup).
    unfold field. by destruct (metric !! k).
  - rewrite lookup_union_r, Hl, decide_False by
      (done || by apply not_elem_of_list_to_map_1). done.
Qed.

(** The lines of the export that are not blank, and what each says. *)
Definition nonblank (lines : list string) : list string :=
  filter (λ text, trim_space text ≠ "") lines.
Definition line_says (text : string) (el : vmExportLine) : Prop :=
  (unmarshal (trim_space text) ≫= decode_export_line) = Some el ∧
  length (el_Values el) = length (el_Timestamps el).

Definition line_rows (el : vmExportLine) : list MetricRow :=
  sample_rows (el_Metric el) (filter (λ kv, kv.1 ∉ promoted_labels) (el_Metric el))
    (zip (el_Values el) (el_Timestamps el)).

Lemma scan_vm_write lines (w w' : ParquetWriter metricParquetRow) :
  scan_vm MetricsParquetWriter_Write lines w = (Ok tt, w') →
  ∃ els, Forall2 line_says (nonblank lines) els ∧
    pw_rows w' = (pw_rows w ++ (els ≫= λ el, metric_parquet <$> line_rows el))%list.
Proof.
  revert w. induction lines as [|text lines IH]; intros w; cbn [scan_vm].
  { intros [= <-]. exists []. split; [constructor|]. by rewrite app_nil_r. }
  unfold ParseVMExportLine, nonblank. rewrite filter_cons. cbv zeta. case_decide as Hb.
  { rewrite decide_False by naive_solver. by apply IH. }
  rewrite decide_True by done. destruct (unmarshal _ ≫= _) as [el|] eqn:Eel; [|done].
  case_decide as Hlen; [|done]. fold (line_rows el). intros E.
  assert (Hs : ∃ w1, pw_rows w1 = (pw_rows w ++ (metric_parquet <$> line_rows el))%list ∧
                     scan_vm MetricsParquetWriter_Write lines w1 = (Ok tt, w')).
  { destruct (line_rows el) as [|r rs]; [by exists w; rewrite app_nil_r|].
    by eexists; split; [|exact E]. }
  destruct Hs as (w1 & Hw1 & E1). destruct (IH w1 E1) as (els & Hels & Hrows).
  exists (el :: els). split; [by constructor|]. by rewrite Hrows, Hw1, <-app_assoc.
Qed.

Lemma read_back_line el :
  valid_text (el_Metric el) →
  mapM read_back (metric_parquet <$> line_rows el) = Some (samples_of el).
Proof.
  intros Hv. apply mapM_Some. unfold line_rows, samples_of. rewrite sample_rows_omap.
  induction (zip _ _) as [|[raw ts] l IH]; [constructor|]. cbn [omap list_omap].
  unfold sample_value at 1. cbn [fst snd]. rewrite <-parseVMValue_number.
  destruct (parseVMValue raw) as [v|e]; [|exact IH]. cbn [fmap list_fmap option_fmap option_map fst snd].
  constructor; [by apply read_back_row|exact IH].
Qed.

(** C38: The Parquet file of a metrics window reads back as the export: for
    every line that is not blank, in order, each sample with a number (null
    stands for zero), with its timestamp and exactly the labels of its series
    that have a value, when the labels are valid UTF-8.  Every such line has
    been understood, with as many values as timestamps. *)
Theorem metrics_file_roundtrip b w :
  ScanVMExport b MetricsParquetWriter_Write NewParquetWriter = (Ok tt, w) →
  ∃ els, Forall2 line_says (nonblank (scan_lines (16 * 1024 * 1024) b).1) els ∧
    (Forall (λ el, valid_text (el_Metric el)) els →
     mapM read_back (pw_rows w) = Some (els ≫= samples_of)).
Proof.
  unfold ScanVMExport. destruct (scan_lines _ b) as [lines err]. cbn [fst]. intros E.
  destruct (scan_vm MetricsParquetWriter_Write lines NewParquetWriter) as [[[]|e] w1] eqn:Es; [|done].
  destruct err; [done|]. injection E as ->.
  apply scan_vm_write in Es as (els & Hels & Hrows). exists els. split; [done|]. intros Hv.
  rewrite Hrows. cbn [pw_rows NewParquetWriter app]. apply mapM_Some.
  clear Hels Hrows. induction Hv as [|el els Hel _ IH]; [constructor|].
  rewrite !bind_cons. apply Forall2_app; [|exact IH]. by apply mapM_Some, read_back_line.
Qed.

(** A null sample value, which is how a gap or a stale marker arrives in
    JSON, becomes the number zero instead of being skipped or NaN. *)
Theorem metric_null_is_zero :
  let q s := dquote +:+ s +:+ dquote in
  let text := "{" +:+ q "metric" +:+ ":{" +:+ q "__name__" +:+ ":" +:+ q "up" +:+ "}," +:+
              q "values" +:+ ":[null]," +:+ q "timestamps" +:+ ":[5]}" in
  ∃ row, ParseVMExportLine text = Ok [row] ∧ mr_Value row = fzero ∧ mr_MetricName row = "up".
Proof. eexists. split; [by vm_compute|done]. Qed.
End metrics.

(** Values by name, for concrete runs. *)
Definition text_float : Float64 := {|
  float := string; fzero := "0"; fnan := "NaN"; finf := "+Inf"; fneginf := "-Inf";
  parse_float := Some |}.

Definition metric_text : string :=
  let q s := dquote +:+ s +:+ dquote in
  "{" +:+ q "metric" +:+ ":{" +:+ q "__name__" +:+ ":" +:+ q "up" +:+ "," +:+ q "zone" +:+ ":" +:+ q "z" +:+ "},"
  +:+ q "values" +:+ ":[1,true," +:+ q "NaN" +:+ "]," +:+ q "timestamps" +:+ ":[5,6,7]}".

Definition metric_body : body := {| b_text := metric_text; b_err := None |}.

(** Three values of a series, one of them not a number: two samples, each with
    the label that has a column and the one that has none. *)
Lemma metrics_file_roundtrip_witness :
  let labels : gmap string string := {["__name__" := "up"; "zone" := "z"]} in
  mapM (read_back (H := text_float))
    (pw_rows (ScanVMExport (H := text_float) metric_body MetricsParquetWriter_Write NewParquetWriter).2)
  = Some [(labels, 5, "1"); (labels, 7, "NaN")].
Proof.
  destruct (ScanVMExport (H := text_float) metric_body MetricsParquetWriter_Write NewParquetWriter)
    as [[[]|e] w] eqn:E; [|by vm_compute in E].
  destruct (metrics_file_roundtrip (H := text_float) metric_body w E) as (els & Hels & Hr).
  apply Forall2_cons_inv_l in Hels as (el & els' & [Hel _] & Hels & ->).
  apply Forall2_nil_inv_l in Hels as ->. vm_compute in Hel. injection Hel as <-.
  refine (eq_trans (Hr _) _); [|vm_compute; reflexivity].
  constructor; [|constructor]. apply (bool_decide_unpack _). vm_compute. exact I.
Defined.

Lemma metric_rows_complete_witness :
  ∃ rows, ParseVMExportLine (H := text_float) metric_text = Ok rows
    ∧ (λ r, (mr_Value r, mr_Timestamp r)) <$> rows = [("1", 5); ("NaN", 7)].
Proof.
  destruct (ParseVMExportLine (H := text_float) metric_text) as [rows|] eqn:E; [|by vm_compute in E].
  exists rows. split; [done|].
  destruct (metric_rows_complete (H := text_float) metric_text rows ltac:(by vm_compute) E)
    as (el & Hel & _ & Hr & _).
  rewrite Hr. vm_compute in Hel. injection Hel as <-. by vm_compute.
Defined.
