(* ===== verification/ColdExport.v ===== *)
(** internal/coldstorage: configuration (config.go), partitions (types.go),
    the queries of the three clients (vmclient.go, vlogs_client.go,
    vtraces_client.go) and the export run (exporter.go). *)
From S2P Require Import Prelude Strings GoTime Json World Vlogs Env AuditExport ColdRows.
From Stdlib Require Import Ascii.

Open Scope string_scope.
Open Scope Z_scope.

(** * Configuration *)

Record ColdConfig := {
  cc_VMURL : string; cc_VLogsURL : string; cc_VTracesURL : string;
  cc_Sources : list string; cc_Tenants : list string; cc_Clusters : list string;
  cc_S3Endpoint : string; cc_S3Bucket : string; cc_S3Prefix : string; cc_S3AccessKey : string;
  cc_S3SecretKey : string; cc_S3Region : string; cc_S3UsePathStyle : bool; cc_S3ForceHTTP : bool;
  cc_ExportDelay : Z; cc_CatchUpHours : Z }.

Definition optional_list (env : environ) (key : string) : list string :=
  if decide (getenv env key = "") then [] else split_list (getenv env key).
Definition known_source (s : string) : bool :=
  String.eqb s SourceMetrics || String.eqb s SourceLogs || String.eqb s SourceTraces.

Definition ColdLoadConfig (env : environ) : result ColdConfig :=
  let cfg := {|
    cc_VMURL := GetEnvOrDefault env "VM_URL" "http://vmselect:8481/select/0/prometheus";
    cc_VLogsURL := GetEnvOrDefault env "VLOGS_URL" "http://vlselect:9471";
    cc_VTracesURL := GetEnvOrDefault env "VTRACES_URL" "http://vt-vtselect:10471";
    cc_Sources := split_list (GetEnvOrDefault env "SOURCES" SourceMetrics);
    cc_Tenants := optional_list env "TENANTS";
    cc_Clusters := optional_list env "CLUSTERS";
    cc_S3Endpoint := GetEnvOrDefault env "S3_ENDPOINT" "";
    cc_S3Bucket := GetEnvOrDefault env "S3_BUCKET" "";
    cc_S3Prefix := GetEnvOrDefault env "S3_PREFIX" "telemetry";
    cc_S3AccessKey := GetEnvOrDefault env "S3_ACCESS_KEY" "";
    cc_S3SecretKey := GetEnvOrDefault env "S3_SECRET_KEY" "";
    cc_S3Region := GetEnvOrDefault env "S3_REGION" "us-east-1";
    cc_S3UsePathStyle := GetEnvBool env "S3_USE_PATH_STYLE" true;
    cc_S3ForceHTTP := GetEnvBool env "S3_FORCE_HTTP" false;
    cc_ExportDelay := GetEnvDuration env "EXPORT_DELAY" (5 * minute);
    cc_CatchUpHours := GetEnvInt env "CATCHUP_HOURS" 24 |} in
  if decide (cc_Sources cfg = []) then Err (EText "SOURCES must not be empty")
  else match List.find (λ s, negb (known_source s)) (cc_Sources cfg) with
       | Some s => Err (EText ("unknown source " +:+ quote s +:+ ": must be one of metrics, logs, traces"))
       | None =>
           if decide (cc_S3Bucket cfg = "") then Err (EText "S3_BUCKET is required")
           else if negb (Bool.eqb (bool_decide (cc_S3AccessKey cfg = ""))
                                  (bool_decide (cc_S3SecretKey cfg = "")))
           then Err (EText "S3_ACCESS_KEY and S3_SECRET_KEY must both be set or both be absent")
           else Ok cfg
       end.

(** * Partitions *)

Record ColdWindow := {
  cw_source : string; cw_tenant : string; cw_cluster : string; cw_start : Z; cw_end : Z }.

Definition ColdKeyPrefix (w : ColdWindow) (prefix : string) : string :=
  let base := "tenant=" +:+ cw_tenant w +:+ "/cluster=" +:+ cw_cluster w +:+
              "/dt=" +:+ fmt_date "-" (cw_start w) +:+ "/hour=" +:+ fmt_hh (cw_start w) +:+
              "/" +:+ cw_source w +:+ "/" in
  if decide (prefix = "") then base else prefix +:+ "/" +:+ base.

(** * Decoding label values *)

(** Decoding [{"status": s, "data": [...]}]. *)
Definition decode_string (j : json) : option string := flat_value j.
Fixpoint label_members (kvs : list (string * json)) (acc : string * list string)
    : option (string * list string) :=
  match kvs with
  | [] => Some acc
  | (k, x) :: r =>
      if equal_fold k "status" then
        match x with
        | JStr s => label_members r (s, acc.2)
        | JNull => label_members r acc
        | _ => None
        end
      else if equal_fold k "data" then
        match x with
        | JArr l => let? vs := mapM decode_string l in label_members r (acc.1, vs)
        | JNull => label_members r (acc.1, [])
        | _ => None
        end
      else label_members r acc
  end.
(** json.Decoder reads one value and leaves what follows it. *)
Definition decode_first (text : string) : option json :=
  match parse_value (2 * String.length text + 2) text with Some (j, _) => Some j | None => None end.
Definition label_values (text : string) : result (list string) :=
  match decode_first text with
  | Some (JObj kvs) =>
      match label_members kvs ("", []) with
      | Some (status, data) =>
          if String.eqb status "success" then Ok data
          else Err (EText ("label values status " +:+ quote status))
      | None => Err (EText "decode label values response")
      end
  | Some JNull => Err (EText ("label values status " +:+ quote ""))
  | _ => Err (EText "decode label values response")
  end.

Definition tenant_filter (tenant : string) : bool :=
  negb (String.eqb tenant "") && negb (String.eqb tenant defaultTenant).
Definition ClusterField : string := "k8s.cluster.name".
Definition TraceClusterField : string := "resource_attr:k8s.cluster.name".
Definition backquote : string := String (byte 96) "".

Section cold.
Context `{Float64} {W} `{World W}.
Context (visit : gmap string string → list (string * string)).
(** The Parquet encoding of the rows, for each of the three schemas. *)
Context (metrics_file : list metricParquetRow → string).
Context (logs_file : list logParquetRow → string).
Context (traces_file : list traceParquetRow → string).
Context (cfg : ColdConfig).

(** ** VictoriaMetrics *)

Definition vm_base : string := trim_right_char "/"%char (cc_VMURL cfg).

(** A GET whose failure means that [source] is unavailable; [what] starts
    the text of a status error. *)
Definition get_source (source what url : string) : eff W body :=
  ecase (http_get url) (λ r, eret
    match r with
    | Err e => Err (ESource source e)
    | Ok resp =>
        if resp_status resp =? 200 then Ok (resp_body resp)
        else Err (ESource source (EText (what +:+ "HTTP " +:+ itoa (resp_status resp) +:+ ": " +:+
                                         limited 1024 (resp_body resp))))
    end).

Definition ExportMetrics (tenant cluster : string) (start end_ : Z) : eff W body :=
  let selector := if decide (tenant = "") then "{cluster=" +:+ quote cluster +:+ "}"
                  else "{tenant=" +:+ quote tenant +:+ ",cluster=" +:+ quote cluster +:+ "}" in
  let params : gmap string string := list_to_map
    [("match[]", selector); ("start", fmt_rfc3339 start); ("end", fmt_rfc3339 end_);
     ("format", "jsonl"); ("reduce_mem_usage", "1")] in
  get_source "VictoriaMetrics" "" (vm_base +:+ "/api/v1/export?" +:+ encode_params params).

Definition discoverLabelValues (label matcher : string) (start end_ : Z) : eff W (list string) :=
  let base : gmap string string := list_to_map
    [("start", fmt_rfc3339 start); ("end", fmt_rfc3339 end_)] in
  let params := if decide (matcher = "") then base else <["match[]" := matcher]> base in
  do b := get_source "VictoriaMetrics" "label values "
            (vm_base +:+ "/api/v1/label/" +:+ label +:+ "/values?" +:+ encode_params params) in
  (* the decoder stops at the end of the value: a read that breaks later is
     not seen *)
  eret match b_err b, decode_first (b_text b) with
       | Some e, None => Err (EWrap "decode label values response" e)
       | _, _ => label_values (b_text b)
       end.

Definition VM_DiscoverTenants (start end_ : Z) : eff W (list string) :=
  discoverLabelValues "tenant" "" start end_.
Definition VM_DiscoverClusters (tenant : string) (start end_ : Z) : eff W (list string) :=
  let filter := if tenant_filter tenant then "{tenant=" +:+ quote tenant +:+ "}" else "" in
  discoverLabelValues "cluster" filter start end_.

(** ** VictoriaLogs *)

Definition vlogs_base : string := NewBaseClient (cc_VLogsURL cfg).
Definition ExportLogs (tenant cluster : string) (start end_ : Z) : eff W body :=
  let by_cluster := ClusterField +:+ ":" +:+ quote cluster in
  let logsql := if tenant_filter tenant
                then "tenant:" +:+ quote tenant +:+ " AND " +:+ by_cluster else by_cluster in
  QueryStream vlogs_base vlogsSource "/select/logsql/query"
    (list_to_map [("query", logsql); ("start", fmt_rfc3339 start); ("end", fmt_rfc3339 end_)]).
Definition DiscoverLogTenants (start end_ : Z) : eff W (list string) :=
  DiscoverFieldValues vlogs_base vlogsSource "tenant" "*" start end_.
Definition DiscoverLogClusters (tenant : string) (start end_ : Z) : eff W (list string) :=
  let filter := if tenant_filter tenant then "tenant:" +:+ quote tenant else "*" in
  DiscoverFieldValues vlogs_base vlogsSource ClusterField filter start end_.

(** ** VictoriaTraces *)

Definition vtraces_base : string := trim_right_char "/"%char (cc_VTracesURL cfg).
Definition ExportTraces (tenant cluster : string) (start end_ : Z) : eff W body :=
  let by_cluster := backquote +:+ TraceClusterField +:+ backquote +:+ ":" +:+ quote cluster in
  let logsql := if tenant_filter tenant
                then "tenant:" +:+ quote tenant +:+ " AND " +:+ by_cluster else by_cluster in
  let params : gmap string string := list_to_map
    [("query", logsql); ("start", fmt_rfc3339 start); ("end", fmt_rfc3339 end_)] in
  get_source "VictoriaTraces" "" (vtraces_base +:+ "/select/logsql/query?" +:+ encode_params params).
Definition traces_field_values (fld query : string) (start end_ : Z) : eff W (list string) :=
  let params : gmap string string := list_to_map
    [("field", fld); ("query", query); ("start", fmt_rfc3339 start); ("end", fmt_rfc3339 end_)] in
  do b := get_source "VictoriaTraces" "field_values "
            (vtraces_base +:+ "/select/logsql/field_values?" +:+ encode_params params) in
  eret match b_err b with
       | Some e => Err (EWrap "read field_values response" e)
       | None => match field_values (b_text b) with
                 | (vs, None) => Ok vs
                 | (_, Some e) => Err e
                 end
       end.
Definition DiscoverTraceTenants (start end_ : Z) : eff W (list string) :=
  traces_field_values "tenant" "*" start end_.
Definition DiscoverTraceClusters (tenant : string) (start end_ : Z) : eff W (list string) :=
  let filter := if tenant_filter tenant then "tenant:" +:+ quote tenant else "*" in
  traces_field_values TraceClusterField filter start end_.

(** ** Discovery *)

(** The synthetic tenant or cluster when nothing was found. *)
Definition or_default (m : eff W (list string)) : eff W (list string) :=
  do l := m in eret (Ok (if decide (l = []) then [defaultTenant] else l)).

Definition discoverTenants (source : string) (from upToEnd : Z) : eff W (list string) :=
  if decide (cc_Tenants cfg = []) then
    if String.eqb source SourceMetrics then or_default (VM_DiscoverTenants from upToEnd)
    else if String.eqb source SourceLogs then or_default (DiscoverLogTenants from upToEnd)
    else or_default (DiscoverTraceTenants from upToEnd)
  else eret (Ok (cc_Tenants cfg)).

Definition discoverClusters (source tenant : string) (from upToEnd : Z) : eff W (list string) :=
  if decide (cc_Clusters cfg = []) then
    if String.eqb source SourceMetrics then VM_DiscoverClusters tenant from upToEnd
    else if String.eqb source SourceLogs then DiscoverLogClusters tenant from upToEnd
    else if String.eqb source SourceTraces then
      or_default (DiscoverTraceClusters tenant from upToEnd)
    else eret (Ok [])
  else eret (Ok (cc_Clusters cfg)).

(** ** One window *)

Definition success_key (w : ColdWindow) : string := ColdKeyPrefix w (cc_S3Prefix cfg) +:+ "_SUCCESS".
Definition parquet_key (w : ColdWindow) : string :=
  ColdKeyPrefix w (cc_S3Prefix cfg) +:+ cw_source w +:+ ".parquet".

(** The pipe between the Parquet writer and the upload.  A failed upload
    closes the pipe; whether the writer notices depends on how far it is.
    The write error is reported first. *)
Definition stream_parquet (what key : string) (file : result string) : eff W unit :=
  match file with
  | Err e => ecase (UploadStream key (Err e))
               (λ _, eret (Err (EWrap ("write " +:+ what +:+ "parquet stream") e)))
  | Ok out =>
      ecase (UploadStream key (Ok out)) (λ up,
        match up with
        | Ok _ => eret (Ok tt)
        | Err e => eask first_wins (λ noticed, eret
            (Err (EWrap ((if (noticed : bool) then "write " else "upload ") +:+ what +:+ "parquet stream") e)))
        end)
  end.

Definition metrics_rows (b : body) : result string :=
  match ScanVMExport b MetricsParquetWriter_Write NewParquetWriter with
  | (Ok _, pw) => Ok (metrics_file (pw_rows pw))
  | (Err e, _) => Err e
  end.
Definition logs_rows (tenant cluster : string) (b : body) : result string :=
  match ScanVLogsExport b tenant cluster LogsParquetWriter_Write NewParquetWriter with
  | (Ok _, pw) => Ok (logs_file (pw_rows pw))
  | (Err e, _) => Err e
  end.
Definition traces_rows (tenant cluster : string) (b : body) : result string :=
  match ScanVTracesExport visit b tenant cluster TracesParquetWriter_Write NewParquetWriter with
  | (Ok _, pw) => Ok (traces_file (pw_rows pw))
  | (Err e, _) => Err e
  end.

Definition write_marker (w : ColdWindow) : eff W unit :=
  ewrap "upload success marker" (PutObject (success_key w) "").

Definition exportMetricsWindow (w : ColdWindow) : eff W unit :=
  let vmTenant := if String.eqb (cw_tenant w) defaultTenant then "" else cw_tenant w in
  do b := ExportMetrics vmTenant (cw_cluster w) (cw_start w) (cw_end w) in
  do _ := stream_parquet "" (parquet_key w) (metrics_rows b) in
  write_marker w.
Definition exportLogsWindow (w : ColdWindow) : eff W unit :=
  do b := ExportLogs (cw_tenant w) (cw_cluster w) (cw_start w) (cw_end w) in
  do _ := stream_parquet "logs " (parquet_key w) (logs_rows (cw_tenant w) (cw_cluster w) b) in
  write_marker w.
Definition exportTracesWindow (w : ColdWindow) : eff W unit :=
  do b := ExportTraces (cw_tenant w) (cw_cluster w) (cw_start w) (cw_end w) in
  do _ := stream_parquet "traces " (parquet_key w) (traces_rows (cw_tenant w) (cw_cluster w) b) in
  write_marker w.

Definition cold_exportWindow (w : ColdWindow) : eff W unit :=
  do exists_ := ewrap "idempotency check" (ObjectExists (success_key w)) in
  if (exists_ : bool) then eret (Ok tt)
  else if String.eqb (cw_source w) SourceMetrics then exportMetricsWindow w
  else if String.eqb (cw_source w) SourceLogs then exportLogsWindow w
  else if String.eqb (cw_source w) SourceTraces then exportTracesWindow w
  else eret (Ok tt).

(** ** The run *)

Definition cold_previous_hour_end (now : Z) : Z :=
  let e := truncate_hour now in
  if now - e <? cc_ExportDelay cfg then e - hour else e.
Definition cold_catch_up_start (now : Z) : Z :=
  cold_previous_hour_end now - hour + wrap64 (wrap64 (- (cc_CatchUpHours cfg - 1)) * hour).

Definition cold_window_at (source tenant cluster : string) (t : Z) : ColdWindow :=
  {| cw_source := source; cw_tenant := tenant; cw_cluster := cluster; cw_start := t;
     cw_end := t + hour |}.
Definition cold_collect_window (w : ColdWindow) : eff W (list ColdWindow) :=
  do exists_ := ewrap ("check success marker " +:+ quote (success_key w)) (ObjectExists (success_key w)) in
  eret (Ok (if (exists_ : bool) then [] else [w])).

(** The loop over the tenants of a source: when the source cannot be reached
    the remaining tenants are left for the next run. *)
Fixpoint collect_tenants (source : string) (from upToEnd : Z) (tenants : list string)
    : eff W (list ColdWindow) :=
  match tenants with
  | [] => eret (Ok [])
  | tenant :: rest =>
      ecase (discoverClusters source tenant from upToEnd) (λ res,
        match res with
        | Err e =>
            if errors_as is_source_err e then eret (Ok [])
            else eret (Err (EWrap ("source " +:+ quote source +:+ " tenant " +:+ quote tenant +:+
                                   ": discover clusters") e))
        | Ok clusters =>
            do a := efor clusters (λ cluster, efor (hour_starts from upToEnd) (λ t,
                      cold_collect_window (cold_window_at source tenant cluster t))) in
            do b := collect_tenants source from upToEnd rest in
            eret (Ok (a ++ b)%list)
        end)
  end.
Definition collect_source (from upToEnd : Z) (source : string) : eff W (list ColdWindow) :=
  ecase (discoverTenants source from upToEnd) (λ res,
    match res with
    | Err e =>
        if errors_as is_source_err e then eret (Ok [])
        else eret (Err (EWrap ("source " +:+ quote source +:+ ": discover tenants") e))
    | Ok tenants => collect_tenants source from upToEnd tenants
    end).
Definition cold_collectWindows (from upToEnd : Z) : eff W (list ColdWindow) :=
  efor (cc_Sources cfg) (collect_source from upToEnd).

Fixpoint cold_export_loop (windows : list ColdWindow) (exportErr : option gerror) : eff W unit :=
  match windows with
  | [] => eret (match exportErr with None => Ok tt | Some e => Err e end)
  | w :: r =>
      eask ctx_err (λ c,
        match c with
        | Some e => eret (Err e)
        | None =>
            ecase (cold_exportWindow w) (λ res,
              match res with
              | Ok _ => cold_export_loop r exportErr
              | Err err =>
                  if errors_as is_source_err err
                  then eret (Err (EWrap "source outage" err))
                  else cold_export_loop r (Some (EWrap "one or more windows failed (last)" err))
              end)
        end)
  end.

Definition cold_Run : eff W unit :=
  eask time_now (λ now,
    do windows := ewrap "collect windows"
                    (cold_collectWindows (cold_catch_up_start now) (cold_previous_hour_end now)) in
    cold_export_loop windows None).
End cold.
