(* ===== verification/ColdExportFacts.v ===== *)
(** What the cold-storage exporter guarantees: the configuration it accepts,
    when partitions have keys of their own, that a _SUCCESS marker never comes
    without its data whatever fails, and what a run without error has exported. *)
From S2P Require Import Prelude Strings GoTime Json JsonFacts World Vlogs Env AuditExport.
From S2P Require Import AuditExportFacts ColdRows ColdExport.
From Stdlib Require Import Ascii.

Open Scope string_scope.
Open Scope Z_scope.

(** * Configuration *)

(** A configuration that loads has at least one source, only known
    sources, a bucket, and both or neither of the static keys. *)
Theorem ColdLoadConfig_valid env cfg (H : ColdLoadConfig env = Ok cfg) :
  cc_Sources cfg ≠ [] ∧ (∀ s, s ∈ cc_Sources cfg → s ∈ [SourceMetrics; SourceLogs; SourceTraces])
  ∧ cc_S3Bucket cfg ≠ "" ∧ (cc_S3AccessKey cfg = "" ↔ cc_S3SecretKey cfg = "").
Proof.
  unfold ColdLoadConfig in H. case_decide as H1; [done|].
  destruct (List.find _ _) eqn:Hf; [done|]. case_decide as H2; [done|].
  destruct (Bool.eqb _ _) eqn:H3; [|done]. simpl in H. injection H as <-.
  apply eqb_prop in H3. refine (conj H1 (conj _ (conj H2 _))).
  - intros s Hs. apply list_elem_of_In in Hs. pose proof (List.find_none _ _ Hf s Hs) as Hk.
    apply negb_false_iff in Hk. unfold known_source in Hk.
    apply orb_true_iff in Hk as [[Hk|Hk]%orb_true_iff|Hk]; apply String.eqb_eq in Hk; subst s;
      apply (bool_decide_unpack _); by vm_compute.
  - repeat case_bool_decide; naive_solver.
Qed.

Definition cold_demo_env : environ := list_to_map
  [("S3_BUCKET", "b"); ("SOURCES", "metrics,logs"); ("TENANTS", "acme"); ("CLUSTERS", "c1");
   ("CATCHUP_HOURS", "1")].
Definition cold_demo_cfg : ColdConfig :=
  match ColdLoadConfig cold_demo_env with
  | Ok c => c
  | Err _ => Build_ColdConfig "" "" "" [] [] [] "" "" "" "" "" "" false false 0 0
  end.

Lemma ColdLoadConfig_valid_witness :
  SourceLogs ∈ [SourceMetrics; SourceLogs; SourceTraces] ∧ cc_Sources cold_demo_cfg ≠ [].
Proof.
  destruct (ColdLoadConfig_valid cold_demo_env cold_demo_cfg) as (H1 & H2 & _); [by vm_compute|].
  split; [apply H2; apply (bool_decide_unpack _); by vm_compute|exact H1].
Defined.

(** * Partitions *)

Lemma length_base_tail t src : four_digit_year t →
  String.length ("/dt=" +:+ fmt_date "-" t +:+ "/hour=" +:+ fmt_hh t +:+ "/" +:+ src +:+ "/")
  = (24 + String.length src)%nat.
Proof.
  intros Ht. unfold fmt_hh. pose proof (hour_of_range t).
  rewrite !string_length_app, length_fmt_date, length_pad_int by (done || lia). simpl. lia.
Qed.

Lemma ColdKeyPrefix_inj_aux w w' prefix :
  char_free "/" (cw_tenant w) = true → char_free "/" (cw_tenant w') = true →
  char_free "/" (cw_cluster w) = true → char_free "/" (cw_cluster w') = true →
  (hour | cw_start w) → (hour | cw_start w') →
  four_digit_year (cw_start w) → four_digit_year (cw_start w') →
  ColdKeyPrefix w prefix = ColdKeyPrefix w' prefix →
  cw_source w = cw_source w' ∧ cw_tenant w = cw_tenant w' ∧ cw_cluster w = cw_cluster w'
  ∧ cw_start w = cw_start w'.
Proof.
  intros Ht Ht' Hc Hc' Hh Hh' Hy Hy' H. unfold ColdKeyPrefix in H. cbv zeta in H.
  assert (Hb : "tenant=" +:+ cw_tenant w +:+ "/cluster=" +:+ cw_cluster w +:+
              "/dt=" +:+ fmt_date "-" (cw_start w) +:+ "/hour=" +:+ fmt_hh (cw_start w) +:+
              "/" +:+ cw_source w +:+ "/"
            = "tenant=" +:+ cw_tenant w' +:+ "/cluster=" +:+ cw_cluster w' +:+
              "/dt=" +:+ fmt_date "-" (cw_start w') +:+ "/hour=" +:+ fmt_hh (cw_start w') +:+
              "/" +:+ cw_source w' +:+ "/").
  { case_decide; [exact H|]. by apply string_app_inj_l, string_app_inj_l in H. }
  clear H. apply string_app_inj_l in Hb.
  apply (string_app_inj_sep "/") in Hb as [Et Hb]; [|done..].
  apply (string_app_inj_l "cluster=") in Hb.
  apply (string_app_inj_sep "/") in Hb as [Ec Hb]; [|done..].
  apply (string_app_inj_l "dt=") in Hb.
  apply fmt_date_inj in Hb as [Ed Hb]; [|done..].
  apply string_app_inj_l in Hb.
  assert (Hl : String.length (fmt_hh (cw_start w)) = String.length (fmt_hh (cw_start w'))).
  { unfold fmt_hh. pose proof (hour_of_range (cw_start w)). pose proof (hour_of_range (cw_start w')).
    by rewrite !length_pad_int by lia. }
  assert (Hs : String.length (cw_source w) = String.length (cw_source w')).
  { apply (f_equal String.length) in Hb. rewrite !string_length_app in Hb. simpl in Hb. lia. }
  apply string_app_inj_len in Hb as [Eh Hb]; [|rewrite !string_length_app; simpl; lia].
  apply string_app_inj_l in Hb. apply string_app_inj_len in Hb as [Es _]; [|done].
  split_and!; [done|done|done|].
  pose proof (hour_of_range (cw_start w)). pose proof (hour_of_range (cw_start w')).
  apply hour_of_day_inj; [done|done|done|]. unfold fmt_hh in Eh. apply (pad_int_inj 2); lia || done.
Qed.

(** Two cold-storage windows share a partition only if they are the same
    window, for tenant and cluster names without a slash. *)
Theorem ColdKeyPrefix_inj w w' prefix
    (Ht : char_free "/" (cw_tenant w) = true) (Ht' : char_free "/" (cw_tenant w') = true)
    (Hc : char_free "/" (cw_cluster w) = true) (Hc' : char_free "/" (cw_cluster w') = true)
    (Hh : (hour | cw_start w)) (Hh' : (hour | cw_start w'))
    (Hy : four_digit_year (cw_start w)) (Hy' : four_digit_year (cw_start w'))
    (H : ColdKeyPrefix w prefix = ColdKeyPrefix w' prefix) :
  cw_source w = cw_source w' ∧ cw_tenant w = cw_tenant w' ∧ cw_cluster w = cw_cluster w'
  ∧ cw_start w = cw_start w'.
Proof. by eapply ColdKeyPrefix_inj_aux. Qed.

Lemma ColdKeyPrefix_inj_witness :
  let w := cold_window_at "logs" "acme" "c1" 0 in
  cw_source w = cw_source w ∧ cw_tenant w = cw_tenant w ∧ cw_cluster w = cw_cluster w
  ∧ cw_start w = cw_start w.
Proof.
  intros w. apply (ColdKeyPrefix_inj w w "telemetry");
    first [reflexivity | exists 0; reflexivity | vm_compute; split; discriminate].
Defined.

(** A tenant name with a slash can take the partition of another tenant:
    the two windows have the same keys, so one of them is never exported. *)
Theorem cold_partition_collision prefix t :
  let w := cold_window_at SourceLogs "a/cluster=b" "c" t in
  let w' := cold_window_at SourceLogs "a" "b/cluster=c" t in
  ColdKeyPrefix w prefix = ColdKeyPrefix w' prefix ∧ cw_tenant w ≠ cw_tenant w'.
Proof. split; [|done]. unfold ColdKeyPrefix. cbn [cw_tenant cw_cluster cw_start cw_source cold_window_at].
  by case_decide. Qed.

(** * One window *)

Section window.
Context `{Float64} {W} `{WorldLaws W}.
Context (visit : gmap string string → list (string * string)).
Context (metrics_file : list metricParquetRow → string).
Context (logs_file : list logParquetRow → string).
Context (traces_file : list traceParquetRow → string).
Context (cfg : ColdConfig).
Notation sk := (success_key cfg).
Notation dk := (parquet_key cfg).
Notation exportWindow := (cold_exportWindow visit metrics_file logs_file traces_file cfg).

(** The file of a window for the body the source returned. *)
Definition window_file (w : ColdWindow) (b : body) : result string :=
  if String.eqb (cw_source w) SourceMetrics then metrics_rows metrics_file b
  else if String.eqb (cw_source w) SourceLogs
  then logs_rows logs_file (cw_tenant w) (cw_cluster w) b
  else traces_rows visit traces_file (cw_tenant w) (cw_cluster w) b.

Lemma get_source_frames src what url : frames (get_source src what url).
Proof. unfold get_source. auto with kof. Qed.
Lemma QueryStream_frames base src ep params : frames (QueryStream base src ep params).
Proof. intros w. apply QueryStream_frame. Qed.
Lemma DiscoverFieldValues_frames base src f q s e : frames (DiscoverFieldValues base src f q s e).
Proof. intros w. apply DiscoverFieldValues_frame. Qed.

#[local] Hint Resolve get_source_frames QueryStream_frames DiscoverFieldValues_frames : kof.

Lemma or_default_frames m : frames m → frames (or_default m).
Proof. intros. unfold or_default. auto with kof. Qed.
#[local] Hint Resolve or_default_frames : kof.

Lemma discoverTenants_frames src from up : frames (discoverTenants cfg src from up).
Proof.
  unfold discoverTenants, VM_DiscoverTenants, discoverLabelValues, DiscoverLogTenants,
    DiscoverTraceTenants, traces_field_values. repeat case_match; auto 6 with kof.
Qed.
Lemma discoverClusters_frames src tenant from up : frames (discoverClusters cfg src tenant from up).
Proof.
  unfold discoverClusters, VM_DiscoverClusters, discoverLabelValues, DiscoverLogClusters,
    DiscoverTraceClusters, traces_field_values. repeat case_match; auto 6 with kof.
Qed.

(** Streaming stores the complete file or nothing. *)
Lemma stream_parquet_stages what k file s r s' :
  stream_parquet what k file s = (r, s') →
  (is_ok r = false ∧ objects s' = objects s)
  ∨ ∃ out, file = Ok out ∧ objects s' = <[k := out]> (objects s).
Proof.
  unfold stream_parquet. destruct file as [out|e].
  - unfold ecase. pose proof (UploadStream_wrote k out s) as Hu.
    destruct (UploadStream k (Ok out) s) as [[[]|e] s1]; simpl in Hu.
    + intros [= <- <-]. right. by exists out.
    + unfold eask, eret. pose proof (race_frame s1) as Hr. destruct (first_wins s1) as [f s2].
      simpl in Hr. intros [= <- <-]. rewrite Hr.
      destruct Hu as [Hu|Hu]; [left; done|right; by exists out].
  - unfold ecase, eret. pose proof (UploadStream_broken k e s) as [_ Hu].
    destruct (UploadStream k (Err e) s) as [u s1]. intros [= <- <-]. by left.
Qed.

(** How far the export of a window got. *)
Inductive cold_stages (w : ColdWindow) (m : gmap string string)
    : result unit → gmap string string → Prop :=
  | cs_none r : (r = Ok tt → is_Some (m !! sk w)) → cold_stages w m r m
  | cs_data e b out :
      m !! sk w = None → window_file w b = Ok out → cold_stages w m (Err e) (<[dk w := out]> m)
  | cs_done r b out :
      m !! sk w = None → window_file w b = Ok out →
      cold_stages w m r (<[sk w := ""]> (<[dk w := out]> m)).

(** The shape the three exports share. *)
Lemma window_steps w (query : eff W body) what s r s' :
  objects s !! sk w = None → frames query →
  (do b := query in
   do _ := stream_parquet what (dk w) (window_file w b) in write_marker cfg w) s = (r, s') →
  cold_stages w (objects s) r (objects s').
Proof.
  intros Hn Hq. unfold ebind. specialize (Hq s). destruct (query s) as [[b|e] s1]; simpl in Hq;
    [|intros [= <- <-]; rewrite Hq; by apply cs_none].
  destruct (stream_parquet what (dk w) (window_file w b) s1) as [[[]|e] s2] eqn:E;
    apply stream_parquet_stages in E as [[Ho Hs]|(out & Hf & Hs)]; try done; rewrite Hq in Hs.
  - unfold write_marker, ewrap. pose proof (PutObject_wrote (sk w) "" s2) as Hp.
    destruct (PutObject (sk w) "" s2) as [[[]|e] s3]; simpl in Hp; intros [= <- <-]; rewrite Hs in Hp.
    + rewrite Hp. by eapply cs_done.
    + destruct Hp as [-> | ->]; [by eapply cs_data|by eapply cs_done].
  - intros [= <- <-]. rewrite Hs. by apply cs_none.
  - intros [= <- <-]. rewrite Hs. by eapply cs_data.
Qed.

Lemma exportWindow_cold_stages w s r s' :
  known_source (cw_source w) = true →
  exportWindow w s = (r, s') → cold_stages w (objects s) r (objects s').
Proof.
  intros Hk. unfold cold_exportWindow, ebind at 1, ewrap at 1.
  pose proof (ObjectExists_frame (sk w) s) as Hf.
  destruct (ObjectExists (sk w) s) as [[ex|e] s1] eqn:E1; simpl in *;
    [|intros [= <- <-]; rewrite Hf; by apply cs_none].
  apply ObjectExists_spec in E1. destruct ex.
  { intros [= <- <-]. rewrite Hf. apply cs_none. intros _. symmetry in E1.
    by apply bool_decide_eq_true in E1. }
  assert (Hnone : objects s1 !! sk w = None).
  { rewrite Hf. symmetry in E1. apply bool_decide_eq_false in E1. by apply eq_None_not_Some. }
  rewrite <-Hf. unfold known_source in Hk.
  destruct (String.eqb (cw_source w) SourceMetrics) eqn:Em.
  - intros Hx. eapply window_steps; [done| |unfold window_file; rewrite Em; exact Hx].
    unfold ExportMetrics. auto with kof.
  - destruct (String.eqb (cw_source w) SourceLogs) eqn:El.
    + intros Hx. eapply window_steps; [done| |unfold window_file; rewrite Em, El; exact Hx].
      unfold ExportLogs. auto with kof.
    + destruct (String.eqb (cw_source w) SourceTraces) eqn:Et; [|done].
      intros Hx. eapply window_steps; [done| |unfold window_file; rewrite Em, El; exact Hx].
      unfold ExportTraces. auto with kof.
Qed.

(** ** Keys *)

Lemma known_source_cases s :
  known_source s = true → s = "metrics" ∨ s = "logs" ∨ s = "traces".
Proof.
  unfold known_source. rewrite !orb_true_iff, !String.eqb_eq. tauto.
Qed.

Lemma cold_prefix_slash w p : ∃ x, ColdKeyPrefix w p = (x +:+ "/")%string.
Proof.
  unfold ColdKeyPrefix. cbv zeta. case_decide.
  - exists ("tenant=" +:+ cw_tenant w +:+ "/cluster=" +:+ cw_cluster w +:+
      "/dt=" +:+ fmt_date "-" (cw_start w) +:+ "/hour=" +:+ fmt_hh (cw_start w) +:+ "/" +:+ cw_source w).
    by rewrite !string_app_assoc.
  - exists (p +:+ "/" +:+ "tenant=" +:+ cw_tenant w +:+ "/cluster=" +:+ cw_cluster w +:+
      "/dt=" +:+ fmt_date "-" (cw_start w) +:+ "/hour=" +:+ fmt_hh (cw_start w) +:+ "/" +:+ cw_source w).
    by rewrite !string_app_assoc.
Qed.

Lemma cold_keys_eq w w' s t :
  char_free "/" s = true → char_free "/" t = true →
  (ColdKeyPrefix w (cc_S3Prefix cfg) +:+ s = ColdKeyPrefix w' (cc_S3Prefix cfg) +:+ t)%string →
  ColdKeyPrefix w (cc_S3Prefix cfg) = ColdKeyPrefix w' (cc_S3Prefix cfg) ∧ s = t.
Proof.
  intros Hs Ht E. destruct (cold_prefix_slash w (cc_S3Prefix cfg)) as [x Hx].
  destruct (cold_prefix_slash w' (cc_S3Prefix cfg)) as [y Hy]. rewrite Hx, Hy in *.
  rewrite !string_app_assoc in E. apply string_app_inj_last in E as [-> ->]; done.
Qed.

Lemma marker_data_ne w w' : known_source (cw_source w') = true → sk w ≠ dk w'.
Proof.
  intros Hk E. unfold success_key, parquet_key in E.
  destruct (known_source_cases _ Hk) as [Es|[Es|Es]]; rewrite Es in E;
    apply cold_keys_eq in E as [_ ?]; done.
Qed.

Lemma data_key_inj w w' :
  known_source (cw_source w) = true → known_source (cw_source w') = true → dk w = dk w' →
  ColdKeyPrefix w (cc_S3Prefix cfg) = ColdKeyPrefix w' (cc_S3Prefix cfg) ∧ cw_source w = cw_source w'.
Proof.
  intros Hk Hk' E. unfold parquet_key in E.
  destruct (known_source_cases _ Hk) as [Es|[Es|Es]], (known_source_cases _ Hk') as [Es'|[Es'|Es']];
    rewrite Es, Es' in E; apply cold_keys_eq in E as [-> ?]; try done; by rewrite Es, Es'.
Qed.

Lemma marker_inj w w' :
  sk w = sk w' → ColdKeyPrefix w (cc_S3Prefix cfg) = ColdKeyPrefix w' (cc_S3Prefix cfg).
Proof. intros E. by apply cold_keys_eq in E as [-> _]. Qed.

(** The source is the last segment of the partition. *)
Lemma prefix_source w w' p :
  known_source (cw_source w) = true → known_source (cw_source w') = true →
  ColdKeyPrefix w p = ColdKeyPrefix w' p → cw_source w = cw_source w'.
Proof.
  intros Hk Hk' E.
  assert (Hx : ∀ v, ∃ x, ColdKeyPrefix v p = (x +:+ String "/" (cw_source v)) +:+ "/").
  { intros v. unfold ColdKeyPrefix. cbv zeta. case_decide.
    - exists ("tenant=" +:+ cw_tenant v +:+ "/cluster=" +:+ cw_cluster v +:+
        "/dt=" +:+ fmt_date "-" (cw_start v) +:+ "/hour=" +:+ fmt_hh (cw_start v)).
      by rewrite !string_app_assoc.
    - exists (p +:+ "/" +:+ "tenant=" +:+ cw_tenant v +:+ "/cluster=" +:+ cw_cluster v +:+
        "/dt=" +:+ fmt_date "-" (cw_start v) +:+ "/hour=" +:+ fmt_hh (cw_start v)).
      by rewrite !string_app_assoc. }
  destruct (Hx w) as [x Ex], (Hx w') as [y Ey]. rewrite Ex, Ey in E.
  apply string_app_inj_len in E as [E _]; [|done].
  apply string_app_inj_last in E as [_ E]; [done|..];
    [destruct (known_source_cases _ Hk) as [->|[->| ->]]|destruct (known_source_cases _ Hk') as [->|[->| ->]]];
    done.
Qed.

(** ** What holds of the bucket *)

(** A marker is never without its file, and the file is the rendering of a
    response for a window of that partition. *)
Definition cold_consistent (m : gmap string string) : Prop :=
  ∀ w, known_source (cw_source w) = true → is_Some (m !! sk w) →
  ∃ w' b out, ColdKeyPrefix w' (cc_S3Prefix cfg) = ColdKeyPrefix w (cc_S3Prefix cfg)
    ∧ cw_source w' = cw_source w ∧ window_file w' b = Ok out ∧ m !! dk w = Some out.

Lemma cold_stages_consistent w m r m' :
  known_source (cw_source w) = true → cold_stages w m r m' → cold_consistent m → cold_consistent m'.
Proof.
  intros Hk Hst Hc w1 Hk1 Hm.
  assert (Hdata : ∀ out, m !! sk w = None → is_Some (m !! sk w1) → (<[dk w := out]> m) !! dk w1 = m !! dk w1).
  { intros out Hn [x Hx]. apply lookup_insert_ne. intros E.
    apply data_key_inj in E as [E _]; [|done..]. unfold success_key in *. congruence. }
  destruct Hst as [|e b out Hn Hf|r b out Hn Hf]; [by apply Hc| |].
  - rewrite lookup_insert_ne in Hm by (by apply not_eq_sym, marker_data_ne).
    rewrite Hdata by done. by apply Hc.
  - destruct (decide (sk w1 = sk w)) as [E|E].
    + apply marker_inj in E. pose proof (prefix_source _ _ _ Hk1 Hk E) as Es.
      exists w, b, out. split_and!; [done|done|done|].
      rewrite lookup_insert_ne by (by apply marker_data_ne).
      unfold parquet_key. rewrite E, Es. apply lookup_insert_eq.
    + rewrite !lookup_insert_ne in Hm by (done || by apply not_eq_sym, marker_data_ne).
      rewrite lookup_insert_ne by (by apply marker_data_ne). rewrite Hdata by done. by apply Hc.
Qed.

(** Markers stay. *)
Lemma cold_stages_marker w w1 m r m' :
  known_source (cw_source w) = true →
  cold_stages w m r m' → is_Some (m !! sk w1) → is_Some (m' !! sk w1).
Proof.
  intros Hk Hst Hm. destruct Hst as [|e b out Hn Hf|r b out Hn Hf]; [done| |].
  - by rewrite lookup_insert_ne by (by apply not_eq_sym, marker_data_ne).
  - destruct (decide (sk w1 = sk w)) as [->|E]; [by rewrite lookup_insert_eq|].
    by rewrite !lookup_insert_ne by (done || by apply not_eq_sym, marker_data_ne).
Qed.
End window.
