(* ===== verification/ColdRunFacts.v ===== *)
(** What a whole run of the cold-storage exporter guarantees. *)
From S2P Require Import Prelude Strings GoTime Json World Vlogs Env AuditExport AuditExportFacts.
From S2P Require Import AuditRunFacts ColdRows ColdRowFacts ColdExport ColdExportFacts.
From Stdlib Require Import Ascii.

Open Scope string_scope.
Open Scope Z_scope.

Section run.
Context `{HF : Float64} {W} `{HW : World W} `{HL : !WorldLaws W}.
Context (visit : gmap string string → list (string * string)).
Context (metrics_file : list metricParquetRow → string).
Context (logs_file : list logParquetRow → string).
Context (traces_file : list traceParquetRow → string).
Context (cfg : ColdConfig).
Notation sk := (success_key cfg).
Notation stages := (cold_stages visit metrics_file logs_file traces_file cfg).
Notation consistent := (cold_consistent visit metrics_file logs_file traces_file cfg).
Notation exportWindow := (cold_exportWindow visit metrics_file logs_file traces_file cfg).
Notation export_loop := (cold_export_loop visit metrics_file logs_file traces_file cfg).
Notation Run := (cold_Run visit metrics_file logs_file traces_file cfg).

(** ** Collecting windows *)

Lemma efor_frames {A B} (l : list A) (f : A → eff W (list B)) :
  (∀ x, frames (f x)) → frames (efor l f).
Proof. intros Hf w. apply efor_frame. intros. apply Hf. Qed.

Lemma cold_collect_window_frames w : frames (cold_collect_window cfg w).
Proof. unfold cold_collect_window. auto with kof. Qed.

Lemma collect_tenants_frames src from up ts : frames (collect_tenants cfg src from up ts).
Proof.
  induction ts as [|t ts IH]; cbn [collect_tenants]; [auto with kof|].
  apply frames_case; [apply discoverClusters_frames|]. intros [cs|e].
  - apply frames_bind; [|auto with kof]. apply efor_frames. intros. apply efor_frames. intros.
    apply cold_collect_window_frames.
  - case_match; auto with kof.
Qed.

Lemma collect_source_frames from up src : frames (collect_source cfg from up src).
Proof.
  unfold collect_source. apply frames_case; [apply discoverTenants_frames|]. intros [ts|e].
  - apply collect_tenants_frames.
  - case_match; auto with kof.
Qed.

Lemma cold_collect_frames from up : frames (cold_collectWindows cfg from up).
Proof. apply efor_frames. intros. apply collect_source_frames. Qed.

Lemma cold_collect_window_ok w s ws s' :
  cold_collect_window cfg w s = (Ok ws, s') → ∀ x, x ∈ ws ↔ x = w ∧ objects s !! sk w = None.
Proof.
  unfold cold_collect_window. intros (b & s1 & Hb%ewrap_ok%ObjectExists_spec & [= <- _])%ebind_ok x.
  subst b. case_bool_decide as Hs.
  - destruct Hs as [d Hd]. rewrite Hd. split; [by intros ?%elem_of_nil|by intros [_ ?]].
  - rewrite list_elem_of_singleton. apply eq_None_not_Some in Hs. naive_solver.
Qed.

(** The windows of some clusters of a tenant. *)
Definition pending_clusters (from up : Z) (m : gmap string string) (src tenant : string)
    (clusters : list string) (w : ColdWindow) : Prop :=
  ∃ cluster t, cluster ∈ clusters ∧ t ∈ hour_starts from up
    ∧ w = cold_window_at src tenant cluster t ∧ m !! sk w = None.

Lemma collect_clusters_ok from up src tenant clusters s ws s' :
  efor clusters (λ cluster, efor (hour_starts from up) (λ t,
    cold_collect_window cfg (cold_window_at src tenant cluster t))) s = (Ok ws, s') →
  ∀ w, w ∈ ws ↔ pending_clusters from up (objects s) src tenant clusters w.
Proof.
  intros Hc w.
  apply (efor_ok (objects s) (λ cluster l, ∀ w, w ∈ l ↔ ∃ t, t ∈ hour_starts from up
      ∧ w = cold_window_at src tenant cluster t ∧ objects s !! sk w = None)) in Hc as (bss & HFa & ->);
    [|intros x s0; apply efor_frames; intros; apply cold_collect_window_frames| |done].
  - rewrite (elem_of_concat_Forall2 _ (λ cluster w, ∃ t, t ∈ hour_starts from up
      ∧ w = cold_window_at src tenant cluster t ∧ objects s !! sk w = None) _ _ _ (λ x bs _ Hb, Hb w) HFa).
    unfold pending_clusters. naive_solver.
  - intros cluster s1 l s2 _ Hm Hl w'.
    apply (efor_ok (objects s) (λ t l, ∀ x, x ∈ l ↔ x = cold_window_at src tenant cluster t
        ∧ objects s !! sk (cold_window_at src tenant cluster t) = None)) in Hl as (bss & HFa & ->);
      [|intros x s0; apply cold_collect_window_frames
       |intros t s3 l' s4 _ Hm3 Hl'; rewrite <-Hm3; by eapply cold_collect_window_ok|exact Hm].
    rewrite (elem_of_concat_Forall2 _ (λ t w, w = cold_window_at src tenant cluster t
      ∧ objects s !! sk (cold_window_at src tenant cluster t) = None) _ _ _ (λ x bs _ Hb, Hb w') HFa).
    split; [intros (t & ? & -> & ?)|intros (t & ? & -> & ?)]; eauto.
Qed.

Lemma collect_tenants_source from up src ts s ws s' w :
  collect_tenants cfg src from up ts s = (Ok ws, s') → w ∈ ws → cw_source w = src.
Proof.
  revert s ws s'. induction ts as [|t ts IH]; intros s ws s'; cbn [collect_tenants].
  - intros [= <- <-]. by intros ?%elem_of_nil.
  - unfold ecase. destruct (discoverClusters cfg src t from up s) as [[cs|e] s1].
    + intros (a & s2 & Ha & (b & s3 & Hb & Hr)%ebind_ok)%ebind_ok. injection Hr as <- <-.
      intros [Hw|Hw]%elem_of_app; [|by eapply IH].
      apply (collect_clusters_ok _ _ _ _ _ _ _ _ Ha) in Hw. unfold pending_clusters in Hw. naive_solver.
    + case_match; [intros [= <- <-]; by intros ?%elem_of_nil|done].
Qed.

Lemma cold_collect_source from up s ws s' w :
  cold_collectWindows cfg from up s = (Ok ws, s') → w ∈ ws → cw_source w ∈ cc_Sources cfg.
Proof.
  intros Hc Hw.
  apply (efor_ok (objects s) (λ src l, ∀ w, w ∈ l → cw_source w = src)) in Hc as (bss & HFa & ->);
    [|intros x s0; apply collect_source_frames| |done].
  - induction HFa as [|src l ls lss Hl _ IH]; [by apply elem_of_nil in Hw|].
    simpl in Hw. apply elem_of_app in Hw as [Hw|Hw].
    + rewrite (Hl w Hw). left.
    + right. by apply IH.
  - intros src s1 l s2 _ _ Hl w' Hw'. unfold collect_source, ecase in Hl.
    destruct (discoverTenants cfg src from up s1) as [[ts|e] s3]; [by eapply collect_tenants_source|].
    case_match; [|done]. injection Hl as <- <-. by apply elem_of_nil in Hw'.
Qed.

Lemma collect_tenants_ok from up src ts s ws s' :
  cc_Clusters cfg ≠ [] → collect_tenants cfg src from up ts s = (Ok ws, s') →
  ∀ w, w ∈ ws ↔ ∃ tenant, tenant ∈ ts
    ∧ pending_clusters from up (objects s) src tenant (cc_Clusters cfg) w.
Proof.
  intros Hne. revert s ws s'. induction ts as [|t ts IH]; intros s ws s'; cbn [collect_tenants].
  - intros [= <- <-] w. split; [by intros ?%elem_of_nil|intros (? & ?%elem_of_nil & _); done].
  - unfold ecase, discoverClusters. rewrite decide_False by done. unfold eret at 1.
    intros (a & s2 & Ha & (b & s3 & Hb & Hr)%ebind_ok)%ebind_ok w. injection Hr as <- <-.
    assert (Hs2 : objects s2 = objects s).
    { match type of Ha with ?m s = _ => assert (Hfr : frames m) end.
      { apply efor_frames. intros. apply efor_frames. intros. apply cold_collect_window_frames. }
      specialize (Hfr s). by rewrite Ha in Hfr. }
    rewrite elem_of_app, (collect_clusters_ok _ _ _ _ _ _ _ _ Ha w), (IH _ _ _ Hb w), Hs2.
    set_solver.
Qed.

Lemma cold_collect_ok from up s ws s' w :
  cc_Tenants cfg ≠ [] → cc_Clusters cfg ≠ [] → cold_collectWindows cfg from up s = (Ok ws, s') →
  w ∈ ws ↔ ∃ src tenant, src ∈ cc_Sources cfg ∧ tenant ∈ cc_Tenants cfg
    ∧ pending_clusters from up (objects s) src tenant (cc_Clusters cfg) w.
Proof.
  intros Ht Hcl Hc.
  apply (efor_ok (objects s) (λ src l, ∀ w, w ∈ l ↔ ∃ tenant, tenant ∈ cc_Tenants cfg
      ∧ pending_clusters from up (objects s) src tenant (cc_Clusters cfg) w)) in Hc as (bss & HFa & ->);
    [|intros x s0; apply collect_source_frames| |done].
  - rewrite (elem_of_concat_Forall2 _ (λ src w, ∃ tenant, tenant ∈ cc_Tenants cfg
      ∧ pending_clusters from up (objects s) src tenant (cc_Clusters cfg) w) _ _ _ (λ x bs _ Hb, Hb w) HFa).
    naive_solver.
  - intros src s1 l s2 _ Hm Hl w'. unfold collect_source, ecase, discoverTenants in Hl.
    rewrite decide_False in Hl by done. unfold eret at 1 in Hl.
    by rewrite (collect_tenants_ok _ _ _ _ _ _ _ Hcl Hl w'), Hm.
Qed.

(** ** The export loop *)

Lemma cold_loop_rel (R : gmap string string → gmap string string → Prop) ws err s :
  (∀ m, R m m) → (∀ a b c, R a b → R b c → R a c) →
  Forall (λ w, known_source (cw_source w) = true) ws →
  (∀ w m r m', known_source (cw_source w) = true → stages w m r m' → R m m') →
  R (objects s) (objects (export_loop ws err s).2).
Proof.
  intros Hrefl Htr Hk Hst. revert err s. induction Hk as [|w ws Hw _ IH]; intros err s; [apply Hrefl|].
  cbn [cold_export_loop]. unfold eask. pose proof (ctx_frame s) as Hc.
  destruct (ctx_err s) as [[e|] s1]; simpl in Hc; [simpl; rewrite Hc; apply Hrefl|].
  unfold ecase. destruct (exportWindow w s1) as [r s2] eqn:E.
  apply (exportWindow_cold_stages visit metrics_file logs_file traces_file cfg w) in E; [|exact Hw].
  rewrite Hc in E. pose proof (Hst _ _ _ _ Hw E) as HR.
  destruct r as [u|e]; [eapply Htr; [exact HR|apply IH]|].
  case_match; [exact HR|]. eapply Htr; [exact HR|apply IH].
Qed.

Lemma cold_loop_failed ws e s : is_ok (export_loop ws (Some e) s).1 = false.
Proof.
  revert e s. induction ws as [|w ws IH]; intros e s; [done|]. cbn [cold_export_loop].
  unfold eask, ecase. destruct (ctx_err s) as [[c|] s1]; [done|].
  destruct (exportWindow w s1) as [[u|e'] s2]; [apply IH|]. case_match; [done|apply IH].
Qed.

Lemma cold_loop_ok ws s s' :
  Forall (λ w, known_source (cw_source w) = true) ws →
  export_loop ws None s = (Ok tt, s') → Forall (λ w, is_Some (objects s' !! sk w)) ws.
Proof.
  intros Hk. revert s. induction Hk as [|w ws Hw Hws IH]; intros s; [done|].
  cbn [cold_export_loop]. unfold eask, ecase. destruct (ctx_err s) as [[c|] s1]; [done|].
  destruct (exportWindow w s1) as [[[]|e] s2] eqn:E; intros Hl.
  - constructor; [|by apply (IH s2)].
    apply (exportWindow_cold_stages visit metrics_file logs_file traces_file cfg w) in E; [|exact Hw].
    assert (Hs : is_Some (objects s2 !! sk w)).
    { inversion E as [r Hr| |]; [by apply Hr|]. rewrite lookup_insert_eq. by eexists. }
    pose proof (cold_loop_rel (λ m m', is_Some (m !! sk w) → is_Some (m' !! sk w)) ws None s2) as Hrel.
    rewrite Hl in Hrel. apply Hrel; [done|auto|done| |done].
    intros w' m r m' Hk' Hst.
    by apply (cold_stages_marker visit metrics_file logs_file traces_file cfg w' w m r m').
  - case_match; [done|]. exfalso.
    pose proof (cold_loop_failed ws (EWrap "one or more windows failed (last)" e) s2) as Hf.
    by rewrite Hl in Hf.
Qed.

(** ** The run *)

Context (Hsources : ∀ s, s ∈ cc_Sources cfg → known_source s = true).

Lemma cold_Run_cases s :
  (is_ok (Run s).1 = false ∧ objects (Run s).2 = objects s)
  ∨ ∃ now s1 ws s2, objects s1 = objects s ∧ objects s2 = objects s
      ∧ cold_collectWindows cfg (cold_catch_up_start cfg now) (cold_previous_hour_end cfg now) s1 = (Ok ws, s2)
      ∧ Forall (λ w, known_source (cw_source w) = true) ws
      ∧ Run s = export_loop ws None s2 ∧ now = (time_now s).1.
Proof.
  pose proof (now_frame s) as Hn. destruct (time_now s) as [now s1] eqn:En; cbn [fst snd] in *.
  pose proof (cold_collect_frames (cold_catch_up_start cfg now) (cold_previous_hour_end cfg now) s1) as Hc.
  destruct (cold_collectWindows cfg (cold_catch_up_start cfg now) (cold_previous_hour_end cfg now) s1)
    as [[ws|e] s2] eqn:Ec; cbn [fst snd] in *.
  2: { left. unfold cold_Run, ebind, eask, ewrap. rewrite En, Ec.
       split; [done|]. cbn [fst snd wrap_err]. congruence. }
  right. exists now, s1, ws, s2.
  refine (conj Hn (conj _ (conj Ec (conj _ (conj _ eq_refl)))));
    [congruence| |unfold cold_Run, ebind, eask, ewrap; by rewrite En, Ec].
  apply Forall_forall. intros w Hw. apply Hsources. by eapply cold_collect_source.
Qed.


(** With configured tenants and clusters, a run that ends without error has
    exported every source, tenant, cluster and hour of its range. *)
Lemma cold_run_exports_all s s' (Ht : cc_Tenants cfg ≠ []) (Hcl : cc_Clusters cfg ≠ [])
    (Hr : Run s = (Ok tt, s')) :
  ∀ src tenant cluster t, src ∈ cc_Sources cfg → tenant ∈ cc_Tenants cfg → cluster ∈ cc_Clusters cfg →
    t ∈ hour_starts (cold_catch_up_start cfg (time_now s).1) (cold_previous_hour_end cfg (time_now s).1) →
    is_Some (objects s' !! sk (cold_window_at src tenant cluster t)).
Proof.
  destruct (cold_Run_cases s) as [[Hf _]|(now & s1 & ws & s2 & E1 & E2 & Hc & Hk & Hrun & ->)];
    [by rewrite Hr in Hf|].
  intros src tenant cluster t Hsrc Hten Hclu Hin. rewrite Hr in Hrun. symmetry in Hrun.
  destruct (objects s !! sk (cold_window_at src tenant cluster t)) as [d|] eqn:Ed.
  - pose proof (cold_loop_rel (λ m m', is_Some (m !! sk (cold_window_at src tenant cluster t)) →
      is_Some (m' !! sk (cold_window_at src tenant cluster t))) ws None s2) as Hrel.
    rewrite Hrun in Hrel. apply Hrel; [done|auto|done| |rewrite E2, Ed; by eexists].
    intros w' m r m' Hk' Hst.
    by apply (cold_stages_marker visit metrics_file logs_file traces_file cfg w' _ m r m').
  - pose proof (cold_loop_ok ws s2 s' Hk Hrun) as Hall. rewrite Forall_forall in Hall.
    apply Hall. apply (cold_collect_ok _ _ _ _ _ _ Ht Hcl Hc).
    exists src, tenant. split; [done|split; [done|]]. exists cluster, t. by rewrite E1.
Qed.
End run.

(** * A concrete run *)

#[local] Instance cold_demo_world : World sim := faulty demo_now.
#[local] Instance cold_demo_float : Float64 := text_float.
Definition demo_file {P} (l : list P) : string := pretty (length l).
Definition cold_demo_run (faults : list fault) : result unit * sim :=
  cold_Run map_to_list demo_file demo_file demo_file
    cold_demo_cfg (demo_sim faults).

Lemma cold_demo_sources s : s ∈ cc_Sources cold_demo_cfg → known_source s = true.
Proof.
  assert (H : Forall (λ s, known_source s = true) (cc_Sources cold_demo_cfg))
    by (apply (bool_decide_unpack _); by vm_compute).
  rewrite Forall_forall in H. apply H.
Qed.

Lemma empty_cold_consistent :
  cold_consistent map_to_list demo_file demo_file demo_file cold_demo_cfg ∅.
Proof. intros w _ [d Hd]. by rewrite lookup_empty in Hd. Qed.

