(* ===== verification/Startup.v ===== *)
(** How the commands build what they run: the S3 clients of internal/s3,
    internal/audit and internal/coldstorage, the exporters and the main
    functions of cmd/audit-logs-exporter and cmd/cold-storage-exporter,
    internal/telemetry, and the Kubernetes clients of internal/k8s/client.go.

    The SDKs are parameters.  A job is a function from the environment and the
    world to the exit code of the process and the world; its log and its
    deferred calls, which release what the process held, are left out. *)
From S2P Require Import Prelude Strings GoTime Json Env World Vlogs AuditEvents AuditExport ColdRows ColdExport.

Open Scope string_scope.
Open Scope Z_scope.

(** * internal/s3: building a client *)

Record S3Config := {
  s3_Endpoint : string; s3_Bucket : string; s3_Region : string; s3_AccessKey : string;
  s3_SecretKey : string; s3_UsePathStyle : bool; s3_ForceHTTP : bool }.

(** awsconfig.LoadOptions, what the client sets of them: the region and static
    credentials (key, secret, session token). *)
Record LoadOptions := { lo_Region : string; lo_Credentials : option (string * string * string) }.
(** s3.Options, likewise; an HTTP client is whether it skips the verification. *)
Record S3Options := {
  so_UsePathStyle : bool; so_HTTPClient : option bool; so_BaseEndpoint : option string }.

Definition load_options (cfg : S3Config) : LoadOptions :=
  {| lo_Region := s3_Region cfg;
     lo_Credentials :=
       if negb (bool_decide (s3_AccessKey cfg = "")) && negb (bool_decide (s3_SecretKey cfg = ""))
       then Some (s3_AccessKey cfg, s3_SecretKey cfg, "") else None |}.
Definition s3_options (cfg : S3Config) (o : S3Options) : S3Options :=
  {| so_UsePathStyle := s3_UsePathStyle cfg;
     so_HTTPClient := if s3_ForceHTTP cfg then Some true else so_HTTPClient o;
     so_BaseEndpoint := if bool_decide (s3_Endpoint cfg = "") then so_BaseEndpoint o
                        else Some (s3_Endpoint cfg) |}.

Section jobs.
(** The SDK: the configuration it loads, and the services as a client with
    these options sees the objects of a bucket. *)
Context {W aws_config : Type}.
Context (LoadDefaultConfig : LoadOptions → result aws_config)
        (NewFromConfig : aws_config → (S3Options → S3Options) → string → World W).

(** [Client]: the raw client, with the bucket it is for. *)
Record S3Client := { rawClient : World W; s3_bucket : string }.

Definition NewClientFromRaw (raw : World W) (bucket : string) : S3Client :=
  {| rawClient := raw; s3_bucket := bucket |}.
Definition NewClient (cfg : S3Config) : result S3Client :=
  try awsCfg := wrap_err "load AWS config" (LoadDefaultConfig (load_options cfg)) in
  Ok {| rawClient := NewFromConfig awsCfg (s3_options cfg) (s3_Bucket cfg);
        s3_bucket := s3_Bucket cfg |}.

(** * The audit exporter *)

Definition audit_s3_config (cfg : Config) : S3Config :=
  {| s3_Endpoint := S3Endpoint cfg; s3_Bucket := S3Bucket cfg; s3_Region := S3Region cfg;
     s3_AccessKey := S3AccessKey cfg; s3_SecretKey := S3SecretKey cfg;
     s3_UsePathStyle := S3UsePathStyle cfg; s3_ForceHTTP := S3ForceHTTP cfg |}.
Definition NewS3Client (cfg : Config) : result S3Client := NewClient (audit_s3_config cfg).

Context (visit : gmap string string → list (string * string))
        (gzip : list string → string) (sha256 : string → string) (hmac : string → string → string).

Record Exporter := { ex_cfg : Config; ex_vlogs : string; ex_s3 : S3Client; ex_signer : Signer }.
Definition NewExporter (cfg : Config) : result Exporter :=
  try s3client := wrap_err "create S3 client" (NewS3Client cfg) in
  Ok {| ex_cfg := cfg; ex_vlogs := VLogsURL cfg; ex_s3 := s3client; ex_signer := NewSigner hmac cfg |}.
Definition Exporter_Run (e : Exporter) : eff W unit :=
  let services : World W := rawClient (ex_s3 e) in
  @Run visit gzip sha256 W services (VLogsClient (ex_vlogs e)) (ex_cfg e) (ex_signer e).

(** [main]: a failure exits with 1, returning exits with 0. *)
Definition exit_of (r : result unit * W) : Z * W :=
  match r with (Ok _, w) => (0, w) | (Err _, w) => (1, w) end.
Definition audit_main (env : environ) (w : W) : Z * W :=
  match LoadConfig env with
  | Err _ => (1, w)
  | Ok cfg => match NewExporter cfg with
              | Err _ => (1, w)
              | Ok exporter => exit_of (Exporter_Run exporter w)
              end
  end.

(** * The cold-storage exporter *)

Context `{Float64}.
Context (metrics_file : list metricParquetRow → string)
        (logs_file : list logParquetRow → string) (traces_file : list traceParquetRow → string).

Definition cold_s3_config (cfg : ColdConfig) : S3Config :=
  {| s3_Endpoint := cc_S3Endpoint cfg; s3_Bucket := cc_S3Bucket cfg; s3_Region := cc_S3Region cfg;
     s3_AccessKey := cc_S3AccessKey cfg; s3_SecretKey := cc_S3SecretKey cfg;
     s3_UsePathStyle := cc_S3UsePathStyle cfg; s3_ForceHTTP := cc_S3ForceHTTP cfg |}.
Definition ColdNewS3Client (cfg : ColdConfig) : result S3Client := NewClient (cold_s3_config cfg).

(** The clients of the three sources are their URLs. *)
Record ColdExporter := { ce_cfg : ColdConfig; ce_s3 : S3Client }.
Definition ColdNewExporter (cfg : ColdConfig) : result ColdExporter :=
  try s3client := wrap_err "create S3 client" (ColdNewS3Client cfg) in
  Ok {| ce_cfg := cfg; ce_s3 := s3client |}.
Definition ColdExporter_Run (e : ColdExporter) : eff W unit :=
  let services : World W := rawClient (ce_s3 e) in
  @cold_Run _ W services visit metrics_file logs_file traces_file (ce_cfg e).

Definition cold_main (env : environ) (w : W) : Z * W :=
  match ColdLoadConfig env with
  | Err _ => (1, w)
  | Ok cfg => match ColdNewExporter cfg with
              | Err _ => (1, w)
              | Ok exporter => exit_of (ColdExporter_Run exporter w)
              end
  end.
End jobs.

(** * internal/telemetry *)

Section telemetry.
(** The SDK of OpenTelemetry: an exporter to the endpoint of the environment,
    the resource that describes the process, and providers. *)
Context {exporter resource provider : Type}.
Context (otlptracegrpc_New : environ → result exporter)
        (resource_New : environ → string → result resource)
        (resource_Merge : resource → resource → option resource)
        (resource_Default : resource) (resource_named : string → resource)
        (NewTracerProvider : exporter → resource → provider).

(** The global provider and the names of the propagators. *)
Record otel_globals := { tracer_provider : option provider; propagators : list string }.
Inductive ShutdownFunc := ShutdownNothing | ShutdownProvider (p : provider).

(** The resource of the process; when it cannot be detected one that has at
    least the name of the service. *)
Definition setup_resource (env : environ) (serviceName : string) : resource :=
  match resource_New env serviceName with
  | Ok res => res
  | Err _ => default resource_Default (resource_Merge resource_Default (resource_named serviceName))
  end.
Definition Setup (env : environ) (serviceName : string) (g : otel_globals)
    : result ShutdownFunc * otel_globals :=
  if bool_decide (getenv env "OTEL_EXPORTER_OTLP_ENDPOINT" = "") then (Ok ShutdownNothing, g)
  else match wrap_err "create OTLP gRPC trace exporter" (otlptracegrpc_New env) with
       | Err e => (Err e, g)
       | Ok exp =>
           let tp := NewTracerProvider exp (setup_resource env serviceName) in
           (Ok (ShutdownProvider tp),
            {| tracer_provider := Some tp; propagators := ["TraceContext"; "Baggage"] |})
       end.

(** The process is always named, if the SDK names it and merging keeps names. *)
Lemma setup_resource_named (service : resource → string) env name :
  (∀ r, resource_New env name = Ok r → service r = name) →
  (∃ r, resource_Merge resource_Default (resource_named name) = Some r ∧ service r = name) →
  service (setup_resource env name) = name.
Proof.
  intros Hnew (r & Hm & Hr). unfold setup_resource. rewrite Hm.
  destruct (resource_New env name) as [r'|] eqn:E; [by apply Hnew|done].
Qed.
End telemetry.

(** Names of spans. *)
Definition client_span (method host path : string) : string := method +:+ " " +:+ host +:+ path.
Definition reconcile_span (kind name namespace : string) : string :=
  "Reconcile " +:+ kind +:+ " " +:+ namespace +:+ "/" +:+ name.

(** * internal/k8s: building clients *)

Section clients.
(** client-go: transports, what a kubeconfig loads to, and the three clients
    that are made of it. *)
Context {transport kubeconfig settings client clientset metrics : Type}.
Context (otelhttp_NewTransport : transport → transport) (DefaultTransport : transport).

Record rest_config := {
  rc_settings : settings; rc_QPS : Z; rc_Burst : Z;
  rc_WrapTransport : option (option transport → transport) }.

Context (ClientConfig : kubeconfig → result rest_config)
        (parse_kubeconfig : string → result kubeconfig) (default_kubeconfig : kubeconfig)
        (kubernetes_NewForConfig : rest_config → result clientset)
        (client_New : rest_config → result client)
        (versioned_NewForConfig : rest_config → result metrics).

Record KubeClient := {
  kcl_Client : client; kcl_Clientset : clientset; kcl_Metrics : metrics;
  kcl_Config : option kubeconfig }.

Definition QPS : Z := 20.
Definition Burst : Z := 30.

(** telemetry.NewTransport; a nil transport is the default one. *)
Definition NewTransport (base : option transport) : transport :=
  otelhttp_NewTransport (default DefaultTransport base).
Definition instrumentRestConfig (c : rest_config) : rest_config :=
  {| rc_settings := rc_settings c; rc_QPS := rc_QPS c; rc_Burst := rc_Burst c;
     rc_WrapTransport := Some (λ rt, NewTransport
       (match rc_WrapTransport c with Some prev => Some (prev rt) | None => rt end)) |}.
Definition limited (c : rest_config) : rest_config :=
  {| rc_settings := rc_settings c; rc_QPS := QPS; rc_Burst := Burst;
     rc_WrapTransport := rc_WrapTransport c |}.

Definition clients_of (c : rest_config) (config : option kubeconfig) : result KubeClient :=
  let c := instrumentRestConfig (limited c) in
  try cs := kubernetes_NewForConfig c in
  try cl := client_New c in
  try mc := versioned_NewForConfig c in
  Ok {| kcl_Client := cl; kcl_Clientset := cs; kcl_Metrics := mc; kcl_Config := config |}.
Definition NewClientFromRestConfig (c : rest_config) : result KubeClient := clients_of c None.
Definition NewClientFromConfig (config : kubeconfig) : result KubeClient :=
  try c := ClientConfig config in clients_of c (Some config).
Definition K8sNewClient : result KubeClient := NewClientFromConfig default_kubeconfig.
Definition NewKubeClientFromKubeconfig (text : string) : result KubeClient :=
  try config := parse_kubeconfig text in NewClientFromConfig config.

(** Every client is limited and traces the transport that was configured. *)
Lemma clients_limited c config k :
  clients_of c config = Ok k →
  ∃ c', client_New c' = Ok (kcl_Client k) ∧ kubernetes_NewForConfig c' = Ok (kcl_Clientset k) ∧
    rc_QPS c' = 20 ∧ rc_Burst c' = 30 ∧ rc_settings c' = rc_settings c ∧
    ∀ rt, (λ f, f rt) <$> rc_WrapTransport c' =
      Some (NewTransport (match rc_WrapTransport c with Some prev => Some (prev rt) | None => rt end)).
Proof.
  unfold clients_of. intros (cs & Hcs & (cl & Hcl & (mc & _ & [= <-])%rbind_ok)%rbind_ok)%rbind_ok.
  eexists. split; [exact Hcl|]. split; [exact Hcs|]. done.
Qed.
End clients.
