(* ===== verification/StartupFacts.v ===== *)
(** The exporter jobs from their environment to the objects in the bucket. *)
From S2P Require Import Prelude Strings GoTime Json Env World Vlogs AuditEvents AuditExport AuditExportFacts AuditRunFacts ColdRows ColdExport ColdRowFacts ColdExportFacts ColdRunFacts Startup.
From Stdlib Require Import Ascii.

Open Scope string_scope.
Open Scope Z_scope.

(** * Configuration *)

(** The keys that load are used both or not at all. *)
Lemma static_credentials env cfg :
  LoadConfig env = Ok cfg →
  lo_Credentials (load_options (audit_s3_config cfg)) =
  if decide (S3AccessKey cfg = "") then None else Some (S3AccessKey cfg, S3SecretKey cfg, "").
Proof.
  intros H. unfold LoadConfig in H. case_decide as H1; [done|]. case_decide as H2; [done|].
  destruct (Bool.eqb _ _) eqn:E; [|done]. simpl in H. injection H as <-. apply eqb_prop in E.
  unfold load_options. simpl in *. rewrite <-E.
  case_decide; [rewrite bool_decide_eq_true_2|rewrite bool_decide_eq_false_2]; done.
Qed.

Lemma ColdLoadConfig_sources env cfg :
  ColdLoadConfig env = Ok cfg → ∀ s, s ∈ cc_Sources cfg → known_source s = true.
Proof.
  intros (_ & Hk & _)%ColdLoadConfig_valid s Hs%Hk. rewrite !elem_of_cons, elem_of_nil in Hs.
  by destruct Hs as [-> |[-> |[-> |[]]]].
Qed.

Section jobs.
Context {W aws_config : Type}.
Context (LoadDefaultConfig : LoadOptions → result aws_config)
        (NewFromConfig : aws_config → (S3Options → S3Options) → string → World W).
Context (Hlaws : ∀ a o b, @WorldLaws W (NewFromConfig a o b)).
Context (visit : gmap string string → list (string * string))
        (gzip : list string → string) (sha256 : string → string) (hmac : string → string → string).

Lemma exit_of_ok (r : result unit * W) w' : exit_of r = (0, w') → r = (Ok tt, w').
Proof. destruct r as [[[]|e] w1]; [by intros [= ->]|done]. Qed.

Lemma NewClient_raw cfg client :
  NewClient LoadDefaultConfig NewFromConfig cfg = Ok client →
  ∃ a, LoadDefaultConfig (load_options cfg) = Ok a ∧
    rawClient client = NewFromConfig a (s3_options cfg) (s3_Bucket cfg).
Proof.
  unfold NewClient. destruct (LoadDefaultConfig (load_options cfg)) as [a|]; [|done].
  intros [= <-]. by exists a.
Qed.

Notation objects_in client := (@objects W (rawClient client)).
Notation audit_main := (audit_main LoadDefaultConfig NewFromConfig visit gzip sha256 hmac).

(** C3: An audit export job that exits with 0 has had a valid configuration.
    When tenants are configured (nothing is said of discovered ones), no stream
    has a slash in its name and CATCHUP_HOURS is between 1 and 100000, it has
    left a manifest for every configured stream and tenant and every hour of
    its range in the bucket that its configuration names. *)
Theorem audit_job_exports_all env w w'
    (Hclock : ∀ a o b s, clock_range (@time_now W (NewFromConfig a o b) s).1)
    (Hexit : audit_main env w = (0, w')) :
  ∃ cfg client, LoadConfig env = Ok cfg ∧ NewS3Client LoadDefaultConfig NewFromConfig cfg = Ok client ∧
    (Forall (λ x, char_free "/" x = true) (Streams cfg) → 1 <= CatchUpHours cfg <= 100000 →
     Tenants cfg ≠ [] →
     ∃ now, now = (@time_now W (rawClient client)
              (@PreflightBucket W (rawClient client) (S3Bucket cfg) (ComplianceMode cfg) w).2).1 ∧
       ∀ stream tenant t, stream ∈ Streams cfg → tenant ∈ config_tenants cfg stream → (hour | t) →
         previous_hour_end cfg now - CatchUpHours cfg * hour <= t < previous_hour_end cfg now →
         is_Some (objects_in client w' !! manifest_key cfg (window_at stream tenant t))).
Proof.
  unfold Startup.audit_main in Hexit. destruct (LoadConfig env) as [cfg|] eqn:Ecfg; [|done].
  unfold NewExporter in Hexit.
  destruct (NewS3Client LoadDefaultConfig NewFromConfig cfg) as [client|] eqn:Ec; [|done].
  exists cfg, client. split; [done|]. split; [done|]. intros Hst Hh Hne.
  apply exit_of_ok in Hexit. unfold Exporter_Run in Hexit. simpl in Hexit.
  apply NewClient_raw in Ec as (a & _ & Eraw). rewrite Eraw in *.
  pose proof (Hlaws a (s3_options (audit_s3_config cfg)) (s3_Bucket (audit_s3_config cfg))) as Hl.
  eexists. split; [done|].
  eapply (@run_exports_all visit gzip sha256 W _ Hl _ (VLogsClient_laws _)); [done|done| |done|exact Hexit].
  apply Hclock.
Qed.

Context `{Float64}.
Context (metrics_file : list metricParquetRow → string)
        (logs_file : list logParquetRow → string) (traces_file : list traceParquetRow → string).
Notation cold_main :=
  (cold_main LoadDefaultConfig NewFromConfig visit metrics_file logs_file traces_file).

End jobs.

(** * Jobs that succeed *)

Definition demo_sdk (o : LoadOptions) : result unit := Ok tt.
Definition demo_services (_ : unit) (o : S3Options → S3Options) (bucket : string) : World sim :=
  faulty demo_now.
Definition demo_job_env : environ :=
  list_to_map [("S3_BUCKET", "b"); ("STREAMS", "tenant-audit-log"); ("TENANTS", "acme");
               ("CATCHUP_HOURS", "1"); ("COMPLIANCE_MODE", "true")].
Notation demo_audit_main :=
  (audit_main demo_sdk demo_services map_to_list plain_gzip (λ _, "digest") (λ k _, k) demo_job_env).

Lemma audit_job_exports_all_witness :
  (demo_audit_main (demo_sim [])).1 = 0 ∧ (demo_audit_main (demo_sim [FNone; FBefore])).1 = 1 ∧
  ∃ cfg now, LoadConfig demo_job_env = Ok cfg ∧
    ∀ t, (hour | t) → previous_hour_end cfg now - CatchUpHours cfg * hour <= t < previous_hour_end cfg now →
      is_Some (sim_objects (demo_audit_main (demo_sim [])).2
               !! manifest_key cfg (window_at "tenant-audit-log" "acme" t)).
Proof.
  split; [vm_compute; reflexivity|]. split; [vm_compute; reflexivity|].
  destruct (audit_job_exports_all demo_sdk demo_services (λ _ _ _, faulty_laws demo_now) map_to_list
    plain_gzip (λ _, "digest") (λ k _, k) demo_job_env (demo_sim []) (demo_audit_main (demo_sim [])).2)
    as (cfg & client & Hcfg & Hclient & Hall).
  - intros a o b s. vm_compute. split; [discriminate|reflexivity].
  - vm_compute. reflexivity.
  - assert (E : cfg = demo_cfg) by (vm_compute in Hcfg; injection Hcfg as <-; reflexivity).
    assert (Er : client = {| rawClient := faulty demo_now; s3_bucket := "b" |})
      by (rewrite E in Hclient; vm_compute in Hclient; injection Hclient as <-; reflexivity).
    subst cfg client. destruct Hall as (now & _ & Hall);
      [exact demo_streams|exact demo_hours|vm_compute; discriminate|].
    exists demo_cfg, now. split; [reflexivity|]. intros t.
    apply Hall; apply (bool_decide_unpack _); vm_compute; reflexivity.
Defined.

#[local] Instance demo_float : Float64 := text_float.
Definition demo_cold_env : environ :=
  list_to_map [("S3_BUCKET", "b"); ("SOURCES", "logs"); ("TENANTS", "acme"); ("CLUSTERS", "c1");
               ("CATCHUP_HOURS", "1")].
Notation demo_cold_main :=
  (cold_main demo_sdk demo_services map_to_list demo_file demo_file demo_file demo_cold_env).

