(* ===== verification/Process.v ===== *)
(** The processes of cmd/main.go, cmd/acl/main.go and cmd/file-watcher/main.go:
    the order of what main does, the goroutine that serves HTTP, and the ways
    to exit.

    A process is a list of instructions that a main thread runs next to at most
    one server thread.  A call is named; what it does is modelled elsewhere
    (Startup.v, AclServer.v, Pages.v, Regional.v, FileWatcher.v).  The server
    follows net/http: ListenAndServe does not return nil, and returns
    ErrServerClosed only when Shutdown is called. *)
From S2P Require Import Prelude Strings.
From stdpp Require Import relations.

Open Scope string_scope.

(** * Instructions *)

Inductive instr :=
  | Try (call : string)      (* a call; its error exits with 1 *)
  | Call (call : string)     (* a call that cannot fail *)
  | Serve (fatal : bool)     (* start serving in a goroutine; whether its error exits *)
  | Listen                   (* call the server in the main thread; its error exits *)
  | WaitServer               (* wait until serving has ended *)
  | Shutdown (fatal : bool). (* shut the server down; whether an error exits *)

#[export] Instance instr_eq_dec : EqDecision instr.
Proof. solve_decision. Defined.

(** [SIdle]: nothing serves.  [SStarting]: the goroutine has not reached
    ListenAndServe, so that the field [server] is nil. *)
Inductive server_state := SIdle | SStarting (fatal : bool) | SListening (fatal : bool) | SEnded.
(** [Killed]: a signal the process does not handle. *)
Inductive exit := Exit (code : Z) | Panic | Killed.

Record process := {
  todo : list instr;
  made : list string;
  server : server_state;
  handles_signals : bool;
  exited : option exit }.

Definition start (p : list instr) : process :=
  {| todo := p; made := []; server := SIdle; handles_signals := false; exited := None |}.

Definition set_todo (l : list instr) (p : process) : process :=
  {| todo := l; made := made p; server := server p; handles_signals := handles_signals p;
     exited := exited p |}.
Definition set_server (s : server_state) (p : process) : process :=
  {| todo := todo p; made := made p; server := s; handles_signals := handles_signals p;
     exited := exited p |}.
Definition exits (e : exit) (p : process) : process :=
  {| todo := todo p; made := made p; server := server p; handles_signals := handles_signals p;
     exited := Some e |}.
Definition add_made (call : string) (p : process) : process :=
  {| todo := todo p; made := (made p ++ [call])%list; server := server p;
     handles_signals := handles_signals p; exited := exited p |}.

(** The calls from which on signals cancel a context instead of killing the
    process: signal.NotifyContext and ctrl.SetupSignalHandler, which exits with
    1 on a second signal. *)
Definition signal_calls : list string := ["signal.NotifyContext"; "ctrl.SetupSignalHandler"].
Definition set_signals (call : string) (p : process) : process :=
  {| todo := todo p; made := made p; server := server p;
     handles_signals := handles_signals p || bool_decide (call ∈ signal_calls); exited := exited p |}.

(** * Steps *)

Inductive step : process → process → Prop :=
  | step_try p c r :
      exited p = None → todo p = Try c :: r → step p (set_signals c (add_made c (set_todo r p)))
  | step_try_fails p c r :
      exited p = None → todo p = Try c :: r → step p (exits (Exit 1) p)
  | step_call p c r :
      exited p = None → todo p = Call c :: r → step p (set_signals c (add_made c (set_todo r p)))
  | step_serve p f r :
      exited p = None → todo p = Serve f :: r → step p (set_server (SStarting f) (set_todo r p))
  | step_listen p r :
      exited p = None → todo p = Listen :: r →
      step p (set_server (SListening true) (set_todo (WaitServer :: r) p))
  | step_wait p r :
      exited p = None → todo p = WaitServer :: r → server p = SEnded → step p (set_todo r p)
  | step_shutdown p f r b :
      exited p = None → todo p = Shutdown f :: r → server p = SListening b ∨ server p = SEnded →
      step p (set_server SEnded (set_todo r p))
  | step_shutdown_fails p r f b :
      exited p = None → todo p = Shutdown f :: r → server p = SListening b →
      step p (if f then exits (Exit 1) p else set_server SEnded (set_todo r p))
  | step_shutdown_nil p f r b :
      exited p = None → todo p = Shutdown f :: r → server p = SIdle ∨ server p = SStarting b →
      step p (exits Panic p)
  | step_listening p f :
      exited p = None → server p = SStarting f → step p (set_server (SListening f) p)
  | step_listen_fails p f :
      exited p = None → server p = SListening f →
      step p (if f then exits (Exit 1) p else set_server SEnded p)
  | step_return p :
      exited p = None → todo p = [] → step p (exits (Exit 0) p)
  | step_killed p :
      exited p = None → handles_signals p = false → step p (exits Killed p)
  | step_second_signal p :
      exited p = None → "ctrl.SetupSignalHandler" ∈ made p → step p (exits (Exit 1) p).

(** * The programs *)

(** cmd/main.go: what it does before and after it starts to serve.  Without the
    controllers main waits for the server. *)
Definition kof_boot : list instr :=
  [Try "telemetry.Setup"; Try "k8s.NewClient"; Try "controller.InitIsIstio"].
Definition kof_controllers : list instr :=
  [Try "ctrl.NewManager"; Call "record.InitFromRecorder"; Try "PromxyServerGroup";
   Try "ClusterDeployment"; Try "AlertsConfigMap"; Try "RegionalClusterConfigMapReconciler";
   Try "VMStorageConnection"; Try "healthz"; Try "readyz";
   Try "controller.CreateOrUpdateRegionlessConfigMap"].
Definition kof_wait (runController : bool) : list instr :=
  ((if runController then [Call "ctrl.SetupSignalHandler"; Try "mgr.Start"] else [WaitServer]) ++
   [Shutdown true; WaitServer])%list.
Definition kof_main (runController : bool) : list instr :=
  (kof_boot ++ [Serve true] ++ kof_controllers ++ kof_wait runController)%list.

(** cmd/acl/main.go. *)
Definition acl_main : list instr :=
  [Try "telemetry.Setup"; Try "oidc.NewProvider"; Listen; Shutdown true].

(** cmd/file-watcher/main.go: the deferred shutdown runs when main returns. *)
Definition watcher_main : list instr :=
  [Try "filewatcher.ParseFlags"; Call "signal.NotifyContext"; Try "filewatcher.NewWatcher";
   Try "k8s.NewClient"; Serve false; Try "watcher.Run"; Shutdown false].
