(* ===== verification/ProcessFacts.v ===== *)
(** What it takes for the processes to end: with 0 the operator ends only after
    its manager; the ACL server never does. *)
From S2P Require Import Prelude Strings Process.
From stdpp Require Import relations.

Open Scope string_scope.

(** * Every process *)

Definition calls (l : list instr) : list string :=
  omap (λ i, match i with Try c | Call c => Some c | _ => None end) l.

(** An invariant of the states a program reaches. *)
Lemma reach_ind (I : process → Prop) p s :
  I (start p) → (∀ s s', I s → step s s' → I s') → rtc step (start p) s → I s.
Proof.
  intros H0 Hstep Hr. induction Hr as [|x y z Hxy _ IH]; [done|]. by eapply IH, Hstep.
Qed.

(** Main makes its calls in their order, and what it has not made is to do. *)
Lemma made_prefix p s : rtc step (start p) s → (made s ++ calls (todo s))%list = calls p.
Proof.
  apply (reach_ind (λ s, (made s ++ calls (todo s))%list = calls p)); [done|].
  intros s1 s2 <- Hs. destruct Hs; simpl; repeat case_match; simpl;
    repeat match goal with H : todo _ = _ |- _ => rewrite H end; simpl; rewrite <-?app_assoc; done.
Qed.

Lemma returned p s : rtc step (start p) s → exited s = Some (Exit 0) → todo s = [].
Proof.
  apply (reach_ind (λ s, exited s = Some (Exit 0) → todo s = [])); [done|].
  intros s1 s2 Hi Hs. destruct Hs; simpl; repeat case_match; simpl; naive_solver.
Qed.

(** A process that ends with 0 has made every call of its main. *)
Lemma exit_0_made p s : rtc step (start p) s → exited s = Some (Exit 0) → made s = calls p.
Proof.
  intros Hr He. rewrite <-(made_prefix p s Hr), (returned p s Hr He). simpl. by rewrite app_nil_r.
Qed.

(** * The operator *)

Definition suffix_of (p : list instr) (s : process) : Prop := ∃ l, p = (l ++ todo s)%list.

Lemma suffix_step p s s' : Listen ∉ p → suffix_of p s → step s s' → suffix_of p s'.
Proof.
  intros Hl [l ->] Hs.
  assert (Hpop : ∀ i r, todo s = i :: r → suffix_of (l ++ todo s) (set_todo r s)).
  { intros i r ->. exists (l ++ [i])%list. simpl. by rewrite <-app_assoc. }
  destruct Hs; repeat case_match; subst; try (by eapply Hpop); try (by exists l).
  exfalso. apply Hl. rewrite elem_of_app. right.
  match goal with H : todo _ = _ |- _ => rewrite H end. by left.
Qed.

(** The server of the operator ends the process when it fails. *)
Definition fatal_server (s : process) : Prop :=
  ∀ f, server s = SStarting f ∨ server s = SListening f → f = true.

Lemma fatal_step p s s' :
  Serve false ∉ p → suffix_of p s → fatal_server s → step s s' → fatal_server s'.
Proof.
  intros Hp [l ->] Hf Hs. destruct Hs; unfold fatal_server in *; simpl; repeat case_match;
    simpl in *; try naive_solver.
  intros f' [[= <-]|?]; [|done]. destruct f; [done|]. exfalso. apply Hp.
  rewrite elem_of_app. right. match goal with H : todo _ = _ |- _ => rewrite H end. by left.
Qed.

Lemma kof_no_listen rc : Listen ∉ kof_main rc ∧ Serve false ∉ kof_main rc.
Proof. split; apply (bool_decide_unpack _); destruct rc; vm_compute; done. Qed.

(** The last three instructions without the controllers. *)
Lemma split_web l i r :
  kof_main false = (l ++ i :: r)%list →
  (3 ≤ length r ∧ i ≠ WaitServer ∧ ∀ f, i ≠ Shutdown f)%nat ∨
  (i = WaitServer ∧ length r = 2)%nat ∨ (length r < 2)%nat.
Proof.
  unfold kof_main. simpl. intros E.
  repeat (destruct l as [|? l]; simpl in E; [injection E as <- <-; simpl; auto with lia|injection E as _ E]).
  by destruct l.
Qed.

Lemma web_waits s : rtc step (start (kof_main false)) s →
  suffix_of (kof_main false) s ∧ fatal_server s ∧ server s ≠ SEnded ∧ (3 ≤ length (todo s))%nat.
Proof.
  apply (reach_ind (λ s, suffix_of (kof_main false) s ∧ fatal_server s ∧ server s ≠ SEnded ∧
    (3 ≤ length (todo s))%nat)).
  { split; [by exists []|]. split; [by intros f [?|?]|]. simpl. split; [done|lia]. }
  intros s1 s2 (Hsuf & Hf & He & Hl) Hs. destruct (kof_no_listen false) as [Hno Hno'].
  split; [by eapply suffix_step|]. split; [by eapply fatal_step|]. destruct Hsuf as [l E].
  assert (Hsp : ∀ i r, todo s1 = i :: r →
    (3 ≤ length r ∧ i ≠ WaitServer ∧ ∀ f, i ≠ Shutdown f)%nat ∨ (i = WaitServer ∧ length r = 2)%nat).
  { intros i r Hi. rewrite Hi in E, Hl. apply split_web in E as [?|[?|?]]; [by left|by right|].
    simpl in Hl. lia. }
  destruct Hs; simpl; repeat case_match; simpl; try done;
    try (match goal with H : todo _ = _ |- _ => destruct (Hsp _ _ H) as [(? & ? & ?)|[? ?]] end);
    try done; try naive_solver lia.
  specialize (Hf false). naive_solver.
Qed.

(** The operator ends with 0 only if it runs the controllers and its
    manager has ended without error, after every call of the start-up has
    succeeded, in the order of main, and the server has been shut down; without
    the controllers it never ends with 0. *)
Lemma kof_exit_0 rc s :
  rtc step (start (kof_main rc)) s → exited s = Some (Exit 0) →
  rc = true ∧ made s = calls (kof_main true) ∧ last (made s) = Some "mgr.Start" ∧ server s = SEnded.
Proof.
  intros Hr He. destruct rc.
  2:{ destruct (web_waits s Hr) as (_ & _ & _ & Hl). rewrite (returned _ _ Hr He) in Hl. simpl in Hl. lia. }
  pose proof (exit_0_made _ _ Hr He) as Hm. split; [done|]. split; [done|]. rewrite Hm. split; [done|].
  cut (suffix_of (kof_main true) s ∧ (todo s = [] → server s = SEnded)).
  { intros [_ H]. by apply H, (returned (kof_main true)). }
  revert Hr. clear. apply (reach_ind (λ s, suffix_of (kof_main true) s ∧ (todo s = [] → server s = SEnded))).
  { split; [by exists []|done]. }
  intros s1 s2 [Hsuf Hd] Hs. destruct (kof_no_listen true) as [Hno _].
  split; [by eapply suffix_step|]. destruct Hsuf as [l E].
  assert (Hlast : ∀ i, todo s1 = [i] → i = WaitServer).
  { intros i Hi. rewrite Hi in E. apply (f_equal last) in E. rewrite last_snoc in E. simpl in E. by simplify_eq. }
  destruct Hs; simpl; repeat case_match; simpl; try done; intros; subst;
    try (exfalso; specialize (Hd ltac:(assumption)); congruence); try naive_solver;
    match goal with H : todo _ = _ |- _ => pose proof (Hlast _ H) end; naive_solver.
Qed.

(** * The ACL server *)

(** C17: No run of the ACL server gets to the shutdown that its main calls
    after serving: the server ends by an error, which exits with 1, and no
    signal is handled; so the timeout of the shutdown has no effect and what
    the tracer holds back is lost. *)
Theorem acl_never_shuts_down s : rtc step (start acl_main) s →
  exited s ≠ Some (Exit 0) ∧ server s ≠ SEnded ∧ handles_signals s = false ∧ Shutdown true ∈ todo s.
Proof.
  set (I := λ s, exited s ≠ Some (Exit 0) ∧ server s ≠ SEnded ∧ handles_signals s = false ∧
    (∀ f, server s = SStarting f ∨ server s = SListening f → f = true) ∧
    todo s ∈ [acl_main; drop 1 acl_main; drop 2 acl_main; [WaitServer; Shutdown true]]).
  intros Hr. cut (I s).
  { intros (? & ? & ? & _ & Ht). split_and!; try done. rewrite !elem_of_cons, elem_of_nil in Ht.
    destruct Ht as [-> |[-> |[-> |[-> |[]]]]]; apply (bool_decide_unpack _); reflexivity. }
  revert Hr. apply (reach_ind I).
  { unfold I. simpl. split_and!; try done; [by intros f [?|?]|by left]. }
  intros s1 s2 (He & Hs & Hh & Hf & Ht) Hstep. unfold I.
  rewrite !elem_of_cons, elem_of_nil in Ht. unfold acl_main in *. simpl in Ht.
  assert (Hfail : server s1 ≠ SListening false) by (intros E; by specialize (Hf false (or_intror E))).
  destruct Ht as [Ht|[Ht|[Ht|[Ht|[]]]]]; destruct Hstep;
    try (match goal with H : todo _ = _ :: _ |- _ =>
           rewrite Ht in H; first [discriminate H|injection H; intros; subst] end);
    simpl; try case_match; try congruence; split_and!; try done;
    try (by rewrite Hh); try (by rewrite ?Ht, !elem_of_cons; auto);
    intros ? [?|?]; simplify_eq; auto.
Qed.

(** * Runs *)

(** One step without a failure. *)
Ltac next_step :=
  eapply rtc_l;
  [first [ eapply step_try; reflexivity | eapply step_call; reflexivity | eapply step_serve; reflexivity
         | eapply step_listen; reflexivity | eapply step_wait; reflexivity
         | eapply step_shutdown; [reflexivity|reflexivity|left; reflexivity]
         | eapply step_return; reflexivity ]|]; cbn.

(** The goroutine gets to serve before the manager is made. *)
Lemma kof_run : ∃ s, rtc step (start (kof_main true)) s ∧ exited s = Some (Exit 0).
Proof.
  eexists. split.
  - do 4 next_step. eapply rtc_l; [eapply step_listening; reflexivity|]. cbn. do 15 next_step.
    apply rtc_refl.
  - reflexivity.
Defined.

Lemma acl_serves : ∃ s, rtc step (start acl_main) s ∧ server s = SListening true.
Proof. eexists. split; [do 3 next_step; apply rtc_refl|reflexivity]. Defined.

Lemma acl_never_shuts_down_witness :
  ∃ s, rtc step (start acl_main) s ∧ server s = SListening true ∧ handles_signals s = false.
Proof.
  destruct acl_serves as (s & Hr & Hs). exists s. split; [exact Hr|]. split; [exact Hs|].
  apply (acl_never_shuts_down s Hr).
Defined.

(** The file watcher can end by a panic: its shutdown reads the server before
    the goroutine has set it. *)
Lemma watcher_may_panic : ∃ s, rtc step (start watcher_main) s ∧ exited s = Some Panic.
Proof.
  eexists. split.
  - do 6 next_step. eapply rtc_l; [eapply step_shutdown_nil; [reflexivity|reflexivity|right; reflexivity]|].
    apply rtc_refl.
  - reflexivity.
Qed.
