(* ===== verification/FileWatcher.v ===== *)
(** internal/filewatcher: flags (config.go), the baseline of file hashes and
    its Secret (baseline.go), the gauges (metrics.go) and the watcher with its
    debounce (watcher.go). *)
From S2P Require Import Prelude Strings GoTime Json Env World.
From Stdlib Require Import Ascii.

Open Scope string_scope.
Open Scope Z_scope.

(** * Flags *)

Record FWConfig := {
  fw_WatchPaths : list string; fw_Recursive : bool; fw_MetricsAddr : string;
  fw_DebounceDuration : Z; fw_BaselineSecretNamespace : string;
  fw_BaselineSecretName : string; fw_BaselineEnabled : bool }.

(** The values of the flags while they are parsed. *)
Record flag_values := {
  fv_paths : list string; fv_recursive : bool; fv_metricsAddr : string; fv_debounce : string;
  fv_enabled : bool; fv_secret : string; fv_namespace : string }.
Definition default_flags : flag_values :=
  {| fv_paths := []; fv_recursive := true; fv_metricsAddr := ":9090"; fv_debounce := "100ms";
     fv_enabled := false; fv_secret := "file-watcher-baseline"; fv_namespace := "kof" |}.

(** flag.FlagSet: [-name value], [-name=value], two dashes for one; a boolean
    flag takes no separate value; the first other argument ends the flags. *)
Definition set_bool (name v : string) (f : flag_values) : option flag_values :=
  let? b := parse_bool v in
  if String.eqb name "recursive" then
    Some {| fv_paths := fv_paths f; fv_recursive := b; fv_metricsAddr := fv_metricsAddr f;
            fv_debounce := fv_debounce f; fv_enabled := fv_enabled f; fv_secret := fv_secret f;
            fv_namespace := fv_namespace f |}
  else
    Some {| fv_paths := fv_paths f; fv_recursive := fv_recursive f; fv_metricsAddr := fv_metricsAddr f;
            fv_debounce := fv_debounce f; fv_enabled := b; fv_secret := fv_secret f;
            fv_namespace := fv_namespace f |}.
(** [pathsFlag.Set] appends; the string flags replace. *)
Definition set_string (name v : string) (f : flag_values) : option flag_values :=
  if String.eqb name "watch-path" then
    Some {| fv_paths := (fv_paths f ++ [v])%list; fv_recursive := fv_recursive f;
            fv_metricsAddr := fv_metricsAddr f; fv_debounce := fv_debounce f;
            fv_enabled := fv_enabled f; fv_secret := fv_secret f; fv_namespace := fv_namespace f |}
  else if String.eqb name "metrics-addr" then
    Some {| fv_paths := fv_paths f; fv_recursive := fv_recursive f; fv_metricsAddr := v;
            fv_debounce := fv_debounce f; fv_enabled := fv_enabled f; fv_secret := fv_secret f;
            fv_namespace := fv_namespace f |}
  else if String.eqb name "debounce" then
    Some {| fv_paths := fv_paths f; fv_recursive := fv_recursive f; fv_metricsAddr := fv_metricsAddr f;
            fv_debounce := v; fv_enabled := fv_enabled f; fv_secret := fv_secret f;
            fv_namespace := fv_namespace f |}
  else if String.eqb name "baseline-secret-name" then
    Some {| fv_paths := fv_paths f; fv_recursive := fv_recursive f; fv_metricsAddr := fv_metricsAddr f;
            fv_debounce := fv_debounce f; fv_enabled := fv_enabled f; fv_secret := v;
            fv_namespace := fv_namespace f |}
  else if String.eqb name "baseline-namespace" then
    Some {| fv_paths := fv_paths f; fv_recursive := fv_recursive f; fv_metricsAddr := fv_metricsAddr f;
            fv_debounce := fv_debounce f; fv_enabled := fv_enabled f; fv_secret := fv_secret f;
            fv_namespace := v |}
  else None.
Definition is_bool_flag (name : string) : bool :=
  String.eqb name "recursive" || String.eqb name "baseline-enabled".

(** The text of an argument after its dashes, [None] when it is no flag. *)
Definition flag_text (arg : string) : option string :=
  match arg with
  | String "-" (String "-" EmptyString) => None
  | String "-" (String "-" r) => Some r
  | String "-" EmptyString => None
  | String "-" r => Some r
  | _ => None
  end.
Definition bad_name (t : string) : bool :=
  match t with String "-" _ | String "=" _ => true | _ => false end.

Fixpoint parse_flags (args : list string) (f : flag_values) : result flag_values :=
  match args with
  | [] => Ok f
  | arg :: rest =>
      match flag_text arg with
      | None => Ok f
      | Some t =>
          if bad_name t then Err (EText ("bad flag syntax: " +:+ arg))
          else match cut_char "=" t with
               | Some (name, v) =>
                   match (if is_bool_flag name then set_bool name v f else set_string name v f) with
                   | Some f' => parse_flags rest f'
                   | None => Err (EText ("invalid flag " +:+ arg))
                   end
               | None =>
                   if is_bool_flag t then
                     match set_bool t "true" f with
                     | Some f' => parse_flags rest f'
                     | None => Err (EText ("invalid flag " +:+ arg))
                     end
                   else match rest with
                        | [] => Err (EText ("flag needs an argument: " +:+ arg))
                        | v :: rest' =>
                            match set_string t v f with
                            | Some f' => parse_flags rest' f'
                            | None => Err (EText ("flag provided but not defined: " +:+ arg))
                            end
                        end
               end
      end
  end.

Definition parseFrom (args : list string) : result FWConfig :=
  try f := parse_flags args default_flags in
  if decide (fv_paths f = []) then Err (EText "at least one --watch-path is required")
  else match parse_duration (fv_debounce f) with
       | None => Err (EText ("invalid --debounce " +:+ quote (fv_debounce f)))
       | Some debounce =>
           Ok {| fw_WatchPaths := fv_paths f; fw_Recursive := fv_recursive f;
                 fw_MetricsAddr := fv_metricsAddr f; fw_DebounceDuration := debounce;
                 fw_BaselineSecretNamespace := fv_namespace f;
                 fw_BaselineSecretName := fv_secret f; fw_BaselineEnabled := fv_enabled f |}
       end.

(** * Files *)

(** A node of the file system; a file that cannot be read is an error of
    open or read. *)
Inductive node :=
  | NFile (content : string)
  | NBroken (err : gerror)
  | NDir (entries : list (string * node)).

(** [os.Stat] of a path: nothing there, an error, or what is there. *)
Inductive stat_result := StatMissing | StatError (e : gerror) | StatNode (n : node).

(** The 64-bit FNV-1a digest in 16 hexadecimal digits. *)
Definition hash_content (content : string) : string := hex_fixed 16 (fnv64a content).
Definition hashFile (path : string) (n : node) : result string :=
  match n with
  | NFile content => Ok (hash_content content)
  | NBroken e => Err (EWrap ("open " +:+ path) e)
  | NDir _ => Err (EWrap ("hash " +:+ path) (EText "is a directory"))
  end.

(** The walk of [filepath.WalkDir] over the entries in the order they are
    listed, which is sorted; unreadable files are passed over. *)
Fixpoint walk_hash (path : string) (n : node) (out : gmap string string) : gmap string string :=
  match n with
  | NDir entries =>
      let fix go (es : list (string * node)) (out : gmap string string) : gmap string string :=
        match es with
        | [] => out
        | (name, child) :: r => go r (walk_hash (path +:+ "/" +:+ name) child out)
        end in
      go entries out
  | _ => match hashFile path n with Ok h => <[path := h]> out | Err _ => out end
  end.

Definition hashTree (root : string) (st : stat_result) (out : gmap string string)
    : result (gmap string string) :=
  match st with
  | StatMissing => Ok (<[root := ""]> out)
  | StatError e => Err (EWrap ("stat " +:+ root) e)
  | StatNode (NDir _ as n) => Ok (walk_hash root n out)
  | StatNode n => try h := hashFile root n in Ok (<[root := h]> out)
  end.

(** * The baseline store *)

(** The interface of a store of hashes by path. *)
Class BaselineStore (S : Type) := {
  Load : S → result (gmap string string) * S;
  Save : gmap string string → S → result unit * S }.

(** A Kubernetes client for one Secret: the data of the Secret, if it exists,
    and whether the next calls fail. *)
Record secret_client := { sc_data : option (gmap string string); sc_fail : list bool }.
Definition next_call (c : secret_client) : bool * secret_client :=
  match sc_fail c with
  | [] => (false, c)
  | b :: r => (b, {| sc_data := sc_data c; sc_fail := r |})
  end.

(** Entries whose key is no hex-encoded path are skipped; [order] is the order
    in which the range visits the data. *)
Definition load_step (hashes : gmap string string) (kv : string * string) : gmap string string :=
  match hex_decode kv.1 with Some path => <[path := kv.2]> hashes | None => hashes end.
Definition decode_data (order : list (string * string)) : gmap string string :=
  foldl load_step ∅ order.
Definition encode_data (hashes : gmap string string) : gmap string string :=
  list_to_map (prod_map hex_encode id <$> map_to_list hashes).

#[export] Instance secretBaselineStore : BaselineStore secret_client := {
  Load c :=
    let (fails, c') := next_call c in
    if (fails : bool) then (Err (EWrap "get baseline secret" (EText "api")), c')
    else match sc_data c' with
         | None => (Ok ∅, c')
         | Some data => (Ok (decode_data (map_to_list data)), c')
         end;
  Save hashes c :=
    let (fails, c') := next_call c in
    if (fails : bool) then (Err (EWrap "create or update baseline secret" (EText "api")), c')
    else (Ok tt, {| sc_data := Some (encode_data hashes); sc_fail := sc_fail c' |}) }.

(** * The watcher *)

Inductive event_kind := deletedEvent | modifiedEvent.
#[export] Instance event_kind_eq_dec : EqDecision event_kind.
Proof. solve_decision. Defined.
#[export] Instance event_kind_countable : Countable event_kind.
Proof.
  refine (inj_countable' (λ e, match e with deletedEvent => true | modifiedEvent => false end)
    (λ b : bool, if b then deletedEvent else modifiedEvent) _). by intros [].
Defined.

(** A line "file event detected": path, event and time. *)
Record log_line := { ll_path : string; ll_event : event_kind; ll_time : Z }.
#[export] Instance log_line_eq_dec : EqDecision log_line.
Proof. solve_decision. Defined.

(** The state of a Watcher: the time of the last event per path, the gauges,
    the directories registered with fsnotify, and the lines logged for events,
    latest first. *)
Record watcher := {
  wt_last : gmap string Z;
  wt_drift : gmap (string * event_kind) bool;
  wt_watched : list string;
  wt_log : list log_line }.
Definition NewWatcher : watcher :=
  {| wt_last := ∅; wt_drift := ∅; wt_watched := []; wt_log := [] |}.

Definition setDriftDetected (path : string) (event : event_kind) (changed : bool) (w : watcher) : watcher :=
  {| wt_last := wt_last w; wt_drift := <[(path, event) := changed]> (wt_drift w);
     wt_watched := wt_watched w; wt_log := wt_log w |}.
(** [fw.Add] followed by [incWatchedPaths]. *)
Definition add_watched (path : string) (w : watcher) : watcher :=
  {| wt_last := wt_last w; wt_drift := wt_drift w; wt_watched := (wt_watched w ++ [path])%list;
     wt_log := wt_log w |}.
Definition log_event (path : string) (event : event_kind) (now : Z) (w : watcher) : watcher :=
  {| wt_last := wt_last w; wt_drift := wt_drift w; wt_watched := wt_watched w;
     wt_log := {| ll_path := path; ll_event := event; ll_time := now |} :: wt_log w |}.

(** [debounce], at time [now]. *)
Definition debounce (cfg : FWConfig) (path : string) (now : Z) (w : watcher) : bool * watcher :=
  let fire := (true, {| wt_last := <[path := now]> (wt_last w); wt_drift := wt_drift w;
                        wt_watched := wt_watched w; wt_log := wt_log w |}) in
  match wt_last w !! path with
  | Some last => if now - last <? fw_DebounceDuration cfg then (false, w) else fire
  | None => fire
  end.

Record fs_event := {
  ev_name : string; ev_create : bool; ev_write : bool; ev_remove : bool; ev_rename : bool;
  ev_chmod : bool }.

Definition event_type (e : fs_event) : option event_kind :=
  if ev_remove e || ev_rename e then Some deletedEvent
  else if ev_write e || ev_create e then Some modifiedEvent
  else None.

(** [handleEvent] at time [now]; [is_dir] says whether the path is a directory
    when it is looked at, [add_ok] whether fsnotify accepts it. *)
Definition handleEvent (cfg : FWConfig) (is_dir add_ok : bool) (e : fs_event) (now : Z)
    (w : watcher) : watcher :=
  match event_type e with
  | None => w
  | Some t =>
      let (fired, w1) := debounce cfg (ev_name e) now w in
      if (fired : bool) then
        let w2 := setDriftDetected (ev_name e) t true (log_event (ev_name e) t now w1) in
        if fw_Recursive cfg && ev_create e && is_dir && add_ok
        then add_watched (ev_name e) w2 else w2
      else w1
  end.

(** The event loop: what the select receives, in order. *)
Inductive input :=
  | InEvent (e : fs_event) (is_dir add_ok : bool) (now : Z)
  | InError
  | InDone
  | InClosed.
Fixpoint watch (cfg : FWConfig) (inputs : list input) (w : watcher) : watcher :=
  match inputs with
  | [] => w
  | InDone :: _ | InClosed :: _ => w
  | InError :: r => watch cfg r w
  | InEvent e is_dir add_ok now :: r => watch cfg r (handleEvent cfg is_dir add_ok e now w)
  end.

(** One path of [initBaseline]'s loop. *)
Definition baseline_step (st : gmap string string * watcher) (kv : string * string)
    : gmap string string * watcher :=
  let (stored, w) := st in
  let (path, hash) := kv in
  if decide (hash = "") then
    (stored, setDriftDetected path modifiedEvent false (setDriftDetected path deletedEvent true w))
  else match stored !! path with
       | None =>
           (<[path := hash]> stored,
            setDriftDetected path deletedEvent false (setDriftDetected path modifiedEvent false w))
       | Some storedHash =>
           (stored,
            setDriftDetected path deletedEvent false
              (setDriftDetected path modifiedEvent (negb (bool_decide (storedHash = hash))) w))
       end.

(** The hashes of all watch paths; a path that fails is passed over. *)
Definition hash_roots (fs : string → stat_result) (roots : list string) : gmap string string :=
  foldl (λ out root, match hashTree root (fs root) out with Ok out' => out' | Err _ => out end)
    ∅ roots.

(** Without a store every gauge of the known files is set to zero. *)
Definition clear_step (w : watcher) (kv : string * string) : watcher :=
  setDriftDetected kv.1 deletedEvent false (setDriftDetected kv.1 modifiedEvent false w).

Section baseline.
Context {S} `{BaselineStore S}.

(** [initBaseline]; [visit] orders the entries of the map of current hashes. *)
Definition initBaseline (cfg : FWConfig) (fs : string → stat_result)
    (visit : gmap string string → list (string * string)) (store : option S) (w : watcher)
    : result unit * option S * watcher :=
  let current := hash_roots fs (fw_WatchPaths cfg) in
  match store with
  | None => (Ok tt, None, foldl clear_step w (visit current))
  | Some s =>
      match Load s with
      | (Err e, s') => (Err e, Some s', w)
      | (Ok stored, s') =>
          let (stored', w') := foldl baseline_step (stored, w) (visit current) in
          match Save stored' s' with
          | (Err e, s'') => (Err (EWrap "save initial baseline" e), Some s'', w')
          | (Ok _, s'') => (Ok tt, Some s'', w')
          end
      end
  end.
End baseline.

(** * Registering directories *)

(** The directories below a root, in walk order; [add_ok] says which of them
    fsnotify accepts. *)
Fixpoint walk_dirs (path : string) (n : node) : list string :=
  match n with
  | NDir entries =>
      let fix go (es : list (string * node)) : list string :=
        match es with
        | [] => []
        | (name, child) :: r => (walk_dirs (path +:+ "/" +:+ name) child ++ go r)%list
        end in
      path :: go entries
  | _ => []
  end.

Definition addPath (cfg : FWConfig) (add : string → result unit) (root : string) (st : stat_result)
    (w : watcher) : result watcher :=
  if fw_Recursive cfg then
    match st with
    | StatMissing => Err (ENotFound root)
    | StatError e => Err e
    | StatNode n =>
        Ok (foldl (λ w path, if is_ok (add path) then add_watched path w else w) w (walk_dirs root n))
    end
  else match add root with
       | Ok _ => Ok (add_watched root w)
       | Err e => if is_not_found e then Ok w else Err e
       end.

(** The loop of [Run] over the watch paths; [walk] is what the walk sees. *)
Fixpoint add_paths (cfg : FWConfig) (add : string → result unit) (walk : string → stat_result)
    (roots : list string) (w : watcher) : result unit * watcher :=
  match roots with
  | [] => (Ok tt, w)
  | root :: r =>
      match addPath cfg add root (walk root) w with
      | Err e => (Err (EWrap ("failed to add watch path " +:+ quote root) e), w)
      | Ok w' => add_paths cfg add walk r w'
      end
  end.

(** [Run]: a failing baseline is logged and the events are still watched. *)
Definition fw_Run {S} `{BaselineStore S} (cfg : FWConfig) (add : string → result unit)
    (walk fs : string → stat_result) (visit : gmap string string → list (string * string))
    (inputs : list input) (store : option S) : result unit * option S * watcher :=
  match add_paths cfg add walk (fw_WatchPaths cfg) NewWatcher with
  | (Err e, w) => (Err e, store, w)
  | (Ok _, w) =>
      let '(_, store', w') := initBaseline cfg fs visit store w in
      (Ok tt, store', watch cfg inputs w')
  end.
