(* ===== verification/FileWatcherFacts.v ===== *)
(** What the file watcher guarantees: the debounce of events, the comparison
    of a start with the stored baseline, and the store itself. *)
From S2P Require Import Prelude Strings GoTime Json Env World FileWatcher.
From Stdlib Require Import Ascii.

Open Scope string_scope.
Open Scope Z_scope.

(** * Vocabulary *)

(** The events [watch] reads before it stops, with their times. *)
Fixpoint received (inputs : list input) : list (fs_event * Z) :=
  match inputs with
  | [] => []
  | InDone :: _ | InClosed :: _ => []
  | InError :: r => received r
  | InEvent e _ _ now :: r => (e, now) :: received r
  end.

(** What an event says of its file: gone, changed, or nothing of interest. *)
Definition change_of (e : fs_event) : option event_kind :=
  if ev_remove e || ev_rename e then Some deletedEvent
  else if ev_write e || ev_create e then Some modifiedEvent
  else None.

(** A line for the path less than [d] before the time. *)
Definition recent (d : Z) (log : list log_line) (p : string) (t : Z) : bool :=
  existsb (λ x, String.eqb (ll_path x) p && (t - ll_time x <? d)) log.

(** The log, latest line first, after the events: a change is logged unless a
    change of its path, of whatever kind, was logged less than [d] before. *)
Fixpoint logged (d : Z) (log : list log_line) (events : list (fs_event * Z)) : list log_line :=
  match events with
  | [] => log
  | (e, t) :: r =>
      match change_of e with
      | Some k =>
          if recent d log (ev_name e) t then logged d log r
          else logged d ({| ll_path := ev_name e; ll_event := k; ll_time := t |} :: log) r
      | None => logged d log r
      end
  end.

(** In a log, latest line first, two lines of one path are [d] apart. *)
Fixpoint spaced (d : Z) (log : list log_line) : Prop :=
  match log with
  | [] => True
  | x :: r => (∀ y, y ∈ r → ll_path y = ll_path x → d <= ll_time x - ll_time y) ∧ spaced d r
  end.

(** The last-event table remembers the latest line of each path, the lines of
    a path are spaced, and the gauges at 1 are those of the logged events. *)
Record watcher_inv (d : Z) (w : watcher) : Prop := {
  inv_last : ∀ p t, wt_last w !! p = Some t →
    (∃ x, x ∈ wt_log w ∧ ll_path x = p ∧ ll_time x = t)
    ∧ ∀ x, x ∈ wt_log w → ll_path x = p → ll_time x <= t;
  inv_fresh : ∀ p x, wt_last w !! p = None → x ∈ wt_log w → ll_path x ≠ p;
  inv_spaced : spaced d (wt_log w);
  inv_gauge : ∀ p k b, wt_drift w !! (p, k) = Some b ↔
    b = true ∧ ∃ x, x ∈ wt_log w ∧ ll_path x = p ∧ ll_event x = k }.

(** The files of a map of hashes that are there. *)
Definition present (current : gmap string string) : gmap string string :=
  filter (λ kv, kv.2 ≠ "") current.
(** A file whose content is not the one first recorded. *)
Definition drifted (stored : gmap string string) (path hash : string) : bool :=
  match stored !! path with
  | Some h => bool_decide (hash ≠ "" ∧ h ≠ hash)
  | None => false
  end.
(** What a start does to the gauges of one file. *)
Definition gauge_after (stored current : gmap string string) (old : gmap (string * event_kind) bool)
    (path : string) (k : event_kind) : option bool :=
  match current !! path with
  | None => old !! (path, k)
  | Some hash => Some (match k with
                       | deletedEvent => bool_decide (hash = "")
                       | modifiedEvent => drifted stored path hash
                       end)
  end.

(** * The event loop *)

Section loop.
Context (cfg : FWConfig) (Hd : 0 <= fw_DebounceDuration cfg).
Let d := fw_DebounceDuration cfg.

Lemma NewWatcher_inv : watcher_inv d NewWatcher.
Proof.
  split; simpl; [done|set_solver|done|]. intros p k b. rewrite lookup_empty. split; [done|].
  intros (_ & x & []%elem_of_nil & _).
Qed.

(** Nothing but [wt_last], [wt_drift] and [wt_log] matters. *)
Lemma inv_ext w w' : wt_last w' = wt_last w → wt_drift w' = wt_drift w → wt_log w' = wt_log w →
  watcher_inv d w → watcher_inv d w'.
Proof. intros E1 E2 E3 [H1 H2 H3 H4]. split; rewrite ?E1, ?E2, ?E3; done. Qed.

(** An event that passes the debounce. *)
Lemma inv_fire w p k now :
  (∀ t, wt_last w !! p = Some t → d <= now - t) → watcher_inv d w →
  watcher_inv d {| wt_last := <[p := now]> (wt_last w);
                   wt_drift := <[(p, k) := true]> (wt_drift w);
                   wt_watched := wt_watched w;
                   wt_log := {| ll_path := p; ll_event := k; ll_time := now |} :: wt_log w |}.
Proof.
  intros Hold [H1 H2 H3 H4].
  assert (Hprev : ∀ x, x ∈ wt_log w → ll_path x = p → d <= now - ll_time x).
  { intros x Hx E. destruct (wt_last w !! p) as [t|] eqn:El; [|by destruct (H2 p x El Hx)].
    pose proof (proj2 (H1 p t El) x Hx E). pose proof (Hold t eq_refl). lia. }
  split; simpl.
  - intros q t Hq. destruct (decide (p = q)) as [->|Hne].
    + rewrite lookup_insert_eq in Hq. simplify_eq. split; [eexists; split; [left|done]|].
      intros x [->|Hx]%elem_of_cons Ex; simpl; [lia|]. pose proof (Hprev x Hx Ex).
      subst d. lia.
    + rewrite lookup_insert_ne in Hq by done. destruct (H1 q t Hq) as ((x & Hx & Ex & Et) & Hle).
      split; [exists x; split; [by right|done]|].
      intros y [->|Hy]%elem_of_cons Ey; simpl in *; [done|by apply Hle].
  - intros q x Hq. destruct (decide (p = q)) as [->|Hne]; [by rewrite lookup_insert_eq in Hq|].
    rewrite lookup_insert_ne in Hq by done. intros [->|Hx]%elem_of_cons; simpl; [done|by eapply H2].
  - split; [|done]. intros y Hy Ey. by apply Hprev.
  - intros q j b. destruct (decide ((p, k) = (q, j))) as [[= -> ->]|Hne].
    + rewrite lookup_insert_eq. split; [|by intros [-> _]]. intros [= <-]. split; [done|].
      eexists. split; [by left|done].
    + rewrite lookup_insert_ne, H4 by done. split; intros [-> (x & Hx & Ep & Ek)]; (split; [done|]).
      * exists x. split; [by right|done].
      * apply elem_of_cons in Hx as [->|Hx]; [by destruct Hne; simpl in *; congruence|by exists x].
Qed.

(** The table answers what the log says. *)
Lemma recent_last w p t :
  watcher_inv d w →
  recent d (wt_log w) p t = match wt_last w !! p with Some t' => t - t' <? d | None => false end.
Proof.
  intros Hi. apply eq_bool_prop_intro. rewrite !Is_true_true. unfold recent. rewrite existsb_exists.
  split.
  - intros (x & Hx%list_elem_of_In & [Ep%String.eqb_eq Ht%Z.ltb_lt]%andb_true_iff).
    destruct (wt_last w !! p) as [t'|] eqn:El; [|by destruct (inv_fresh _ _ Hi _ _ El Hx)].
    pose proof (proj2 (inv_last _ _ Hi _ _ El) x Hx Ep). apply Z.ltb_lt. lia.
  - destruct (wt_last w !! p) as [t'|] eqn:El; [|done]. intros Ht.
    destruct (proj1 (inv_last _ _ Hi _ _ El)) as (x & Hx & Ep & Et). exists x.
    rewrite <-list_elem_of_In. split; [done|]. by rewrite Ep, Et, String.eqb_refl.
Qed.

Lemma event_type_change e : event_type e = change_of e.
Proof. done. Qed.

(** One event keeps the invariant, and the log is that of the specification. *)
Lemma handleEvent_inv is_dir add_ok e now w :
  watcher_inv d w →
  watcher_inv d (handleEvent cfg is_dir add_ok e now w)
  ∧ wt_log (handleEvent cfg is_dir add_ok e now w) = logged d (wt_log w) [(e, now)].
Proof.
  intros Hi. unfold handleEvent. rewrite event_type_change. simpl.
  destruct (change_of e) as [k|]; [|done]. rewrite recent_last by done.
  unfold debounce. set (w2 := {| wt_last := <[ev_name e := now]> (wt_last w) |}).
  assert (Hfire : (∀ t, wt_last w !! ev_name e = Some t → d <= now - t) →
    let w3 := setDriftDetected (ev_name e) k true (log_event (ev_name e) k now w2) in
    let w4 := if fw_Recursive cfg && ev_create e && is_dir && add_ok
              then add_watched (ev_name e) w3 else w3 in
    watcher_inv d w4 ∧
    wt_log w4 = {| ll_path := ev_name e; ll_event := k; ll_time := now |} :: wt_log w).
  { intros Hold w3 w4. pose proof (inv_fire w (ev_name e) k now Hold Hi) as Hinv.
    assert (E : wt_last w4 = wt_last w3 ∧ wt_drift w4 = wt_drift w3 ∧ wt_log w4 = wt_log w3)
      by (unfold w4; by case_match).
    destruct E as (E1 & E2 & E3). split; [by apply (inv_ext w3)|]. by rewrite E3. }
  fold d. destruct (wt_last w !! ev_name e) as [t|] eqn:El.
  - destruct (Z.ltb_spec (now - t) d) as [Hlt|Hge]; [done|].
    apply Hfire. intros t' [= <-]. lia.
  - apply Hfire. intros t' [=].
Qed.

Lemma watch_inv inputs : ∀ w, watcher_inv d w →
  watcher_inv d (watch cfg inputs w)
  ∧ wt_log (watch cfg inputs w) = logged d (wt_log w) (received inputs).
Proof.
  induction inputs as [|[e is_dir add_ok now| | |] r IH]; intros w Hi; simpl; [done| |by apply IH|done..].
  destruct (handleEvent_inv is_dir add_ok e now w Hi) as (Hi' & Hl).
  destruct (IH _ Hi') as (Hi'' & Hl'). split; [done|]. rewrite Hl', Hl. simpl.
  destruct (change_of e); [by case_match|done].
Qed.
End loop.

(** * The comparison with the baseline *)

Section baseline.

Lemma lookup_present current p :
  present current !! p = match current !! p with
                         | Some h => if decide (h = "") then None else Some h
                         | None => None
                         end.
Proof.
  unfold present. rewrite map_lookup_filter. destruct (current !! p) as [h|]; [|done]. simpl.
  repeat case_guard || case_decide; simpl in *; naive_solver.
Qed.

Lemma set_gauge w p k q j b :
  wt_drift (setDriftDetected p k b w) !! (q, j)
  = if decide ((p, k) = (q, j)) then Some b else wt_drift w !! (q, j).
Proof.
  simpl. case_decide as E; [rewrite E; by rewrite lookup_insert_eq|by rewrite lookup_insert_ne].
Qed.

(** One step, in the vocabulary of the specification. *)
Lemma baseline_step_spec stored w p h :
  (baseline_step (stored, w) (p, h)).1 = stored ∪ present {[p := h]}
  ∧ ∀ q k, wt_drift (baseline_step (stored, w) (p, h)).2 !! (q, k)
           = gauge_after stored {[p := h]} (wt_drift w) q k.
Proof.
  assert (Hgen : ∀ b, (if decide (h = "") then False else b = drifted stored p h) →
    ∀ q k, wt_drift (setDriftDetected p deletedEvent false (setDriftDetected p modifiedEvent b w)) !! (q, k)
           = gauge_after stored {[p := h]} (wt_drift w) q k).
  { intros b Hb q k. rewrite !set_gauge. unfold gauge_after. case_decide as Eh; [done|].
    destruct (decide (p = q)) as [->|Hne].
    - rewrite lookup_singleton_eq. destruct k; simpl.
      + rewrite bool_decide_eq_false_2 by done. by case_decide.
      + rewrite Hb. by repeat case_decide.
    - rewrite lookup_singleton_ne by done. by rewrite !decide_False by (intros [=]; done). }
  unfold baseline_step. destruct (decide (h = "")) as [->|Hh].
  - split.
    + apply map_eq. intros q. cbn [fst]. rewrite lookup_union, lookup_present.
      destruct (decide (p = q)) as [->|]; [rewrite lookup_singleton_eq, decide_True by done
        |rewrite lookup_singleton_ne by done]; by destruct (stored !! q).
    + intros q k. cbn [snd]. rewrite !set_gauge. unfold gauge_after, drifted.
      destruct (decide (p = q)) as [->|Hne].
      * rewrite lookup_singleton_eq. destruct k; repeat (rewrite decide_False by done);
          rewrite decide_True by done; [by rewrite bool_decide_eq_true_2|].
        destruct (stored !! q); [|done]. by rewrite bool_decide_eq_false_2 by naive_solver.
      * rewrite lookup_singleton_ne by done. by rewrite !decide_False by (intros [=]; done).
  - assert (Hst : ∀ q, present {[p := h]} !! q = if decide (p = q) then Some h else None).
    { intros q. rewrite lookup_present. destruct (decide (p = q)) as [->|].
      - by rewrite lookup_singleton_eq, decide_False.
      - by rewrite lookup_singleton_ne. }
    destruct (stored !! p) as [h0|] eqn:E; (split; [|apply Hgen; try done]).
    + apply map_eq. intros q. cbn [fst]. rewrite lookup_union, Hst. case_decide as Ep; [subst; by rewrite E|].
      by destruct (stored !! q).
    + unfold drifted. rewrite E.
      destruct (decide (h0 = h)) as [->|]; [by rewrite bool_decide_eq_true_2, bool_decide_eq_false_2 by naive_solver|].
      by rewrite bool_decide_eq_false_2, bool_decide_eq_true_2 by naive_solver.
    + apply map_eq. intros q. cbn [fst]. rewrite lookup_union, Hst. case_decide as Ep.
      * subst. by rewrite E, lookup_insert_eq.
      * rewrite lookup_insert_ne by done. by destruct (stored !! q).
    + unfold drifted. by rewrite E.
Qed.

Lemma baseline_fold_spec l : ∀ stored w, NoDup l.*1 →
  (foldl baseline_step (stored, w) l).1 = stored ∪ present (list_to_map l)
  ∧ ∀ q k, wt_drift (foldl baseline_step (stored, w) l).2 !! (q, k)
           = gauge_after stored (list_to_map l) (wt_drift w) q k.
Proof.
  induction l as [|[p h] l IH]; intros stored w Hnd; cbn [foldl list_to_map].
  - split; [|done].
    apply map_eq. intros q. cbn [fst]. rewrite lookup_union. by destruct (stored !! q).
  - apply NoDup_cons in Hnd as [Hp Hnd].
    destruct (baseline_step_spec stored w p h) as (E1 & E2).
    destruct (baseline_step (stored, w) (p, h)) as [stored1 w1]. cbn [fst snd] in E1, E2.
    destruct (IH stored1 w1 Hnd) as (E3 & E4).
    assert (Hl : list_to_map l !! p = (None : option string)) by by apply not_elem_of_list_to_map_1.
    split.
    + rewrite E3, E1, <-(assoc_L (∪)). f_equal. apply map_eq. intros q.
      rewrite lookup_union, !lookup_present. destruct (decide (p = q)) as [->|].
      * cbn. rewrite lookup_singleton_eq, lookup_insert_eq, Hl. by case_decide.
      * cbn. rewrite lookup_singleton_ne, lookup_insert_ne by done.
        destruct (list_to_map l !! q); [|done]. by case_decide.
    + intros q k. rewrite E4. unfold gauge_after. destruct (decide (p = q)) as [->|].
      * cbn. rewrite Hl, lookup_insert_eq, E2. unfold gauge_after.
        by rewrite lookup_singleton_eq.
      * cbn. rewrite lookup_insert_ne by done. destruct (list_to_map l !! q) as [h'|].
        -- f_equal. destruct k; [done|]. unfold drifted. rewrite E1, lookup_union.
           rewrite lookup_present, lookup_singleton_ne by done. by destruct (stored !! q).
        -- rewrite E2. unfold gauge_after. by rewrite lookup_singleton_ne.
Qed.
End baseline.

(** The result of a start with a store that can be read. *)
Section start.
Context {S} `{BaselineStore S} (cfg : FWConfig) (fs : string → stat_result)
  (visit : gmap string string → list (string * string)).
Context (Hvisit : ∀ m, visit m ≡ₚ map_to_list m).

Lemma visit_fold m stored w :
  (foldl baseline_step (stored, w) (visit m)).1 = stored ∪ present m
  ∧ ∀ q k, wt_drift (foldl baseline_step (stored, w) (visit m)).2 !! (q, k)
           = gauge_after stored m (wt_drift w) q k.
Proof using Hvisit.
  assert (Hnd : NoDup (visit m).*1) by (rewrite Hvisit; apply NoDup_fst_map_to_list).
  assert (E : list_to_map (visit m) = m).
  { rewrite (list_to_map_proper _ (map_to_list m)) by done. apply list_to_map_to_list. }
  pose proof (baseline_fold_spec (visit m) stored w Hnd) as Hf. by rewrite E in Hf.
Qed.
End start.

(** * The store *)

Lemma load_fold l : ∀ acc p, NoDup l.*1 →
  foldl load_step acc (prod_map hex_encode id <$> l) !! p
  = match (list_to_map l : gmap string string) !! p with Some v => Some v | None => acc !! p end.
Proof.
  induction l as [|[k v] l IH]; intros acc p Hnd; [done|]. apply NoDup_cons in Hnd as [Hk Hnd].
  cbn. unfold load_step at 2. cbn. rewrite hex_decode_encode, IH by done.
  destruct (decide (k = p)) as [->|].
  - by rewrite (not_elem_of_list_to_map_1 l p), !lookup_insert_eq by done.
  - by rewrite !lookup_insert_ne.
Qed.

Lemma decode_encode_data hashes : decode_data (map_to_list (encode_data hashes)) = hashes.
Proof.
  assert (Hp : map_to_list (encode_data hashes) ≡ₚ (prod_map hex_encode id <$> map_to_list hashes)).
  { apply map_to_list_to_map. rewrite <-list_fmap_compose.
    change (fst ∘ prod_map hex_encode id) with (hex_encode ∘ (fst : string * string → string)).
    rewrite list_fmap_compose. apply (NoDup_fmap_2 _), NoDup_fst_map_to_list. }
  apply Permutation_map_inv in Hp as (l & -> & Hl).
  apply map_eq. intros p. unfold decode_data.
  change (map (prod_map hex_encode id) l) with (prod_map hex_encode id <$> l).
  assert (Hnd : NoDup l.*1) by (rewrite <-Hl; apply NoDup_fst_map_to_list).
  rewrite load_fold, (list_to_map_proper l _ Hnd (Permutation_sym Hl)), list_to_map_to_list by done.
  by destruct (hashes !! p).
Qed.

(** * Properties *)

(** C35: whatever events arrive, the log is that of the specification: a change
    is logged, as a deletion when the file is removed or renamed and as a
    modification when it is written or created, exactly when no change of its
    path was logged less than the debounce duration before.  So the lines of a
    path are at least that far apart, and a gauge is at 1 exactly when its
    path has a line of its kind: a change that follows a logged one of the
    same path too soon is dropped, with its gauge, even when it is of the
    other kind. *)
Theorem watch_debounced (cfg : FWConfig) (inputs : list input) :
  0 <= fw_DebounceDuration cfg →
  let w := watch cfg inputs NewWatcher in
  let d := fw_DebounceDuration cfg in
  wt_log w = logged d [] (received inputs)
  ∧ spaced d (wt_log w)
  ∧ ∀ p k b, wt_drift w !! (p, k) = Some b ↔
      b = true ∧ ∃ x, x ∈ wt_log w ∧ ll_path x = p ∧ ll_event x = k.
Proof.
  intros Hd w d. destruct (watch_inv cfg Hd inputs _ (NewWatcher_inv cfg Hd)) as (Hi & Hl).
  split; [exact Hl|]. split; apply Hi.
Qed.

(** C34: a start with a baseline store records every file that is there and
    was not recorded before, never replaces a recorded hash, and sets the
    gauges of each hashed file to what the comparison with the first recorded
    content says: modified iff the content differs, deleted iff the watched
    path is gone; other gauges keep their value.  The order in which the map
    of hashes is visited does not matter. *)
Theorem initBaseline_spec {S} `{BaselineStore S} (cfg : FWConfig) (fs : string → stat_result)
    (visit : gmap string string → list (string * string)) (s s' : S)
    (stored : gmap string string) (w : watcher) :
  (∀ m, visit m ≡ₚ map_to_list m) →
  Load s = (Ok stored, s') →
  let current := hash_roots fs (fw_WatchPaths cfg) in
  let '(r, store, w') := initBaseline cfg fs visit (Some s) w in
  (r, store) = (match Save (stored ∪ present current) s' with
                | (Ok _, s'') => (Ok tt, Some s'')
                | (Err e, s'') => (Err (EWrap "save initial baseline" e), Some s'')
                end)
  ∧ ∀ path k, wt_drift w' !! (path, k) = gauge_after stored current (wt_drift w) path k.
Proof.
  intros Hv El current. unfold initBaseline. rewrite El. fold current.
  destruct (visit_fold visit Hv current stored w) as (E1 & E2).
  destruct (foldl baseline_step (stored, w) (visit current)) as [st w1]. cbn [fst snd] in E1, E2.
  subst st. by destruct (Save (stored ∪ present current) s') as [[[]|e] s''].
Qed.

(** what the Secret store saves it loads again, when the calls to the
    Kubernetes API succeed. *)
Theorem baseline_store_roundtrip (hashes : gmap string string) (c : secret_client) :
  sc_fail c = [] →
  ∃ c', Save hashes c = (Ok tt, c') ∧ (Load c').1 = Ok hashes.
Proof.
  intros Hf. simpl. unfold next_call. rewrite Hf. eexists. split; [done|].
  simpl. rewrite Hf. simpl. f_equal. apply decode_encode_data.
Qed.

(** a file deleted below a watched directory between two starts is not
    noticed by the second one: its gauge is not set, although its hash is in
    the baseline, while a missing watch path is flagged. *)
Theorem deleted_below_directory_unnoticed :
  let cfg := {| fw_WatchPaths := ["/etc"; "/run/token"]; fw_Recursive := true;
                fw_MetricsAddr := ":9090"; fw_DebounceDuration := 100000000;
                fw_BaselineSecretNamespace := "kof"; fw_BaselineSecretName := "b";
                fw_BaselineEnabled := true |} in
  let before p := if String.eqb p "/etc" then StatNode (NDir [("passwd", NFile "root")])
                  else StatNode (NFile "t") in
  let after p := if String.eqb p "/etc" then StatNode (NDir []) else StatMissing in
  let '(_, s1, _) := initBaseline cfg before map_to_list
                       (Some {| sc_data := None; sc_fail := [] |}) NewWatcher in
  let '(r, s2, w) := initBaseline cfg after map_to_list s1 NewWatcher in
  r = Ok tt
  ∧ (∃ data h, (s2 ≫= sc_data) = Some data ∧ data !! hex_encode "/etc/passwd" = Some h)
  ∧ wt_drift w !! ("/etc/passwd", deletedEvent) = None
  ∧ wt_drift w !! ("/run/token", deletedEvent) = Some true.
Proof. vm_compute. split; [done|]. split; [eauto|]. done. Qed.

(** * Witnesses *)

Definition demo_cfg : FWConfig :=
  {| fw_WatchPaths := ["/etc"; "/run/token"]; fw_Recursive := true; fw_MetricsAddr := ":9090";
     fw_DebounceDuration := 100; fw_BaselineSecretNamespace := "kof";
     fw_BaselineSecretName := "b"; fw_BaselineEnabled := true |}.
Definition demo_event (p : string) (remove : bool) : fs_event :=
  {| ev_name := p; ev_create := false; ev_write := negb remove; ev_remove := remove;
     ev_rename := false; ev_chmod := false |}.
Definition demo_inputs : list input :=
  [InEvent (demo_event "/etc/a" false) false true 10; InEvent (demo_event "/etc/a" true) false true 60;
   InError; InEvent (demo_event "/etc/a" true) false true 130; InDone;
   InEvent (demo_event "/etc/b" true) false true 500].
Definition demo_fs (p : string) : stat_result :=
  if String.eqb p "/etc" then StatNode (NDir [("new", NFile "x"); ("passwd", NFile "root")])
  else StatMissing.
Definition demo_stored : gmap string string := {["/etc/passwd" := "0000"]}.
Definition demo_client : secret_client := {| sc_data := Some (encode_data demo_stored); sc_fail := [] |}.

(** A deletion 50 after a modification of the same file is dropped, one 120
    after it is logged; what comes after the end is not read. *)
Lemma watch_debounced_witness :
  let w := watch demo_cfg demo_inputs NewWatcher in
  wt_log w = [{| ll_path := "/etc/a"; ll_event := deletedEvent; ll_time := 130 |};
              {| ll_path := "/etc/a"; ll_event := modifiedEvent; ll_time := 10 |}]
  ∧ spaced 100 (wt_log w)
  ∧ wt_drift (watch demo_cfg (take 2 demo_inputs) NewWatcher) !! ("/etc/a", deletedEvent) = None.
Proof.
  destruct (watch_debounced demo_cfg demo_inputs) as (Hl & Hs & _); [vm_compute; discriminate|].
  destruct (watch_debounced demo_cfg (take 2 demo_inputs)) as (_ & _ & Hg); [vm_compute; discriminate|].
  split_and!; [exact Hl|exact Hs|].
  destruct (wt_drift _ !! _) as [b|] eqn:E; [|reflexivity]. apply Hg in E as (_ & x & Hx & Hp & Hk).
  vm_compute in Hx. apply elem_of_cons in Hx as [->|Hx]; [discriminate Hk|].
  by apply elem_of_nil in Hx.
Defined.

Lemma initBaseline_spec_witness :
  wt_drift (initBaseline demo_cfg demo_fs map_to_list (Some demo_client) NewWatcher).2
    !! ("/etc/passwd", modifiedEvent) = Some true.
Proof.
  pose proof (initBaseline_spec demo_cfg demo_fs map_to_list demo_client demo_client demo_stored
    NewWatcher (λ m, reflexivity _)) as H.
  assert (E : Load demo_client = (Ok demo_stored, demo_client)) by (vm_compute; reflexivity).
  specialize (H E). cbv zeta in H.
  destruct (initBaseline demo_cfg demo_fs map_to_list (Some demo_client) NewWatcher) as [[r st] w'].
  destruct H as [_ H]. cbn [snd]. rewrite H. vm_compute. reflexivity.
Defined.

Lemma baseline_store_roundtrip_witness :
  ∃ c', Save demo_stored demo_client = (Ok tt, c') ∧ (Load c').1 = Ok demo_stored.
Proof. apply (baseline_store_roundtrip demo_stored demo_client). reflexivity. Defined.
