(* ===== verification/Server.v ===== *)
(** internal/server: requests, replies, the router of router.go and the
    middleware of middleware.go, with the parts of net/url they use. *)
From S2P Require Import Prelude Strings GoTime Json World Vlogs.
From Stdlib Require Import Ascii.

Open Scope string_scope.
Open Scope Z_scope.

(** * net/url *)

(** The bytes a path keeps as they are; the others become [%XX]. *)
Definition path_byte (a : ascii) : bool :=
  unreserved a || existsb (Ascii.eqb a) (String.list_ascii_of_string "$&+,/:;=@").
Definition host_byte (a : ascii) : bool :=
  unreserved a || (nat_of_ascii a =? 34)%nat
  || existsb (Ascii.eqb a) (String.list_ascii_of_string "!$&'()*+,;=:[]<>").
Fixpoint url_escape (keep : ascii → bool) (s : string) : string :=
  match s with
  | EmptyString => ""
  | String a r =>
      let n := nat_of_ascii a in
      (if keep a then String a ""
       else String "%" (String (upper_hex (n / 16)) (String (upper_hex (n mod 16)) "")))
      +:+ url_escape keep r
  end.

(** [QueryUnescape]: [None] on a bad escape. *)
Fixpoint query_unescape (s : string) : option string :=
  match s with
  | EmptyString => Some ""
  | String "%" (String a (String b r)) =>
      match hex_val a, hex_val b, query_unescape r with
      | Some x, Some y, Some t => Some (String (ascii_of_nat (x * 16 + y)) t)
      | _, _, _ => None
      end
  | String "%" _ => None
  | String a r =>
      match query_unescape r with
      | Some t => Some (String (if Ascii.eqb a "+" then " "%char else a) t)
      | None => None
      end
  end.

(** url.Values; every key in the map has a value. *)
Notation values := (gmap string (list string)).
Definition v_has (v : values) (k : string) : bool := bool_decide (is_Some (v !! k)).
Definition v_get (v : values) (k : string) : string :=
  match v !! k with Some (x :: _) => x | _ => "" end.
Definition v_set (k x : string) (v : values) : values := <[k := [x]]> v.
Definition v_add (v : values) (kv : string * string) : values :=
  <[kv.1 := (default [] (v !! kv.1) ++ [kv.2])%list]> v.

(** One piece of a query between ampersands: nothing, a pair, or an error. *)
Definition query_piece (p : string) : option (option (string * string)) :=
  if decide (p = "") then Some None
  else if contains ";" p then None
  else let (k, x) := match cut_char "=" p with Some kv => kv | None => (p, "") end in
       match query_unescape k, query_unescape x with
       | Some k', Some x' => Some (Some (k', x'))
       | _, _ => None
       end.
(** [url.ParseQuery]: the pairs that parse, and whether all pieces do.
    [URL.Query] keeps the pairs and ignores the error. *)
Definition query_pairs (s : string) : list (string * string) :=
  omap (λ p, match query_piece p with Some kv => kv | None => None end) (split_char "&" s).
Definition parse_values (s : string) : values := foldl v_add ∅ (query_pairs s).
Definition query_ok (s : string) : bool :=
  forallb (λ p, match query_piece p with Some _ => true | None => false end) (split_char "&" s).
Definition ParseQuery (s : string) : result values :=
  if query_ok s then Ok (parse_values s) else Err (EText "invalid query").

(** [Values.Encode]: keys sorted, the values of a key in their order. *)
Definition value_pairs (v : values) : list (string * string) :=
  sort_strings ((map_to_list v).*1) ≫= λ k, (λ x, (k, x)) <$> default [] (v !! k).
Definition encode_pair (kv : string * string) : string :=
  query_escape kv.1 +:+ "=" +:+ query_escape kv.2.
Definition Encode (v : values) : string := join "&" (encode_pair <$> value_pairs v).

(** [URL.String] of a URL without user, raw path or fragment. *)
Definition url_string (scheme host path query : string) : string :=
  let escaped := if decide (path = "*") then "*" else url_escape path_byte path in
  (if decide (scheme = "") then "" else scheme +:+ ":")
  +:+ (if decide (scheme = "" ∧ host = "") then ""
       else if decide (host = "" ∧ path = "") then "" else "//")
  +:+ url_escape host_byte host
  +:+ (if decide (escaped ≠ "" ∧ host ≠ "") then if has_prefix "/" escaped then "" else "/" else "")
  +:+ escaped
  +:+ (if decide (query = "") then "" else "?" +:+ query).

(** * Requests and replies *)

(** A token that the provider verified: its claims, a JSON text. *)
Record IDToken := { tok_claims : string }.

(** A request: [rq_path] is the decoded path, [rq_query] the raw query,
    [rq_auth] the Authorization header. *)
Record request := {
  rq_method : string; rq_path : string; rq_query : string; rq_body : body; rq_auth : string }.
Definition Query (req : request) : values := parse_values (rq_query req).

(** A reply: status, content type and text. *)
Record reply := { rp_status : Z; rp_type : string; rp_text : string }.

(** A request to a backend. *)
Record backend_request := {
  br_method : string; br_url : string; br_body : option body }.

(** What handling a request does: the requests it makes, the headers it
    sets, and the reply; no reply is a panic. *)
Record outcome := { sent : list backend_request; headers : list (string * string); rep : option reply }.

Definition newline : string := String (byte 10) "".
(** [Response.Fail] and [http.Error]. *)
Definition Fail (content : string) (code : Z) : reply :=
  {| rp_status := code; rp_type := "text/plain; charset=utf-8"; rp_text := content +:+ newline |}.
Definition SendJson (json : string) (code : Z) : reply :=
  {| rp_status := code; rp_type := "application/json"; rp_text := json +:+ newline |}.
Definition replies (r : reply) : outcome := {| sent := []; headers := []; rep := Some r |}.
Definition panics : outcome := {| sent := []; headers := []; rep := None |}.

(** The text of an error. *)
Fixpoint error_text (e : gerror) : string :=
  match e with
  | EText m | ENotFound m | EAlreadyExists m => m
  | EWrap m c => m +:+ ": " +:+ error_text c
  | ESource s c => s +:+ " unavailable: " +:+ error_text c
  | ECanceled => "context canceled"
  | ETooLarge => "http: request body too large"
  | EUnknownCloud t => "unknown cloud provider: " +:+ t
  end.

(** * Handlers and middleware *)

(** A handler gets the request and what its context holds: the token. *)
Definition Handler := request → option IDToken → outcome.
Definition Middleware := Handler → Handler.

(** [Chain]: the first middleware is the outermost. *)
Fixpoint Chain (h : Handler) (middleware : list Middleware) : Handler :=
  match middleware with
  | [] => h
  | m :: r => m (Chain h r)
  end.

(** A panic becomes an internal error; the requests already made and the
    headers already set stay.  The value of a panic of the Go runtime is an
    error. *)
Definition RecoveryMiddleware : Middleware := λ next req tok,
  let o := next req tok in
  match rep o with
  | Some _ => o
  | None => {| sent := sent o; headers := headers o; rep := Some (Fail "Internal Server Error" 500) |}
  end.

Definition GetJwtTokenFromHeader (req : request) : string :=
  match cut_prefix "Bearer " (rq_auth req) with Some t => t | None => "" end.

(** [AuthenticationMiddleware]; [verify] is the verifier of the OIDC
    provider. *)
Definition AuthenticationMiddleware (verify : string → option IDToken) (SkipOnEmptyToken : bool)
    : Middleware := λ next req tok,
  let jwtToken := GetJwtTokenFromHeader req in
  if bool_decide (jwtToken = "") && SkipOnEmptyToken then next req tok
  else if bool_decide (jwtToken = "") then replies (Fail "Unauthorized" 401)
  else match verify jwtToken with
       | None => replies (Fail "Unauthorized" 401)
       | Some idToken => next req (Some idToken)
       end.

Record CORSConfig := {
  AllowOrigins : list string; AllowMethods : list string; AllowHeaders : list string;
  AllowCredentials : bool; MaxAge : Z }.
Definition DefaultCORSConfig : CORSConfig :=
  {| AllowOrigins := ["*"]; AllowMethods := ["GET"; "POST"; "PUT"; "DELETE"; "OPTIONS"];
     AllowHeaders := ["Origin"; "Content-Type"; "Accept"; "Authorization"];
     AllowCredentials := true; MaxAge := 0 |}.
Definition cors_headers (c : CORSConfig) : list (string * string) :=
  ([("Access-Control-Allow-Origin", join ", " (AllowOrigins c));
    ("Access-Control-Allow-Methods", join ", " (AllowMethods c));
    ("Access-Control-Allow-Headers", join ", " (AllowHeaders c))]
   ++ (if AllowCredentials c then [("Access-Control-Allow-Credentials", "true")] else [])
   ++ (if 0 <? MaxAge c then [("Access-Control-Max-Age", itoa (MaxAge c))] else []))%list.
Definition CORSMiddleware (config : option CORSConfig) : Middleware := λ next req tok,
  let hs := cors_headers (default DefaultCORSConfig config) in
  if String.eqb (rq_method req) "OPTIONS" then
    {| sent := []; headers := hs; rep := Some {| rp_status := 204; rp_type := ""; rp_text := "" |} |}
  else let o := next req tok in
       {| sent := sent o; headers := (hs ++ headers o)%list; rep := rep o |}.

(** * The router *)

Definition parts (path : string) : list string := split_char "/" path.

Fixpoint prefix_match (prefix req : list string) : bool :=
  match prefix, req with
  | [], _ => true
  | p :: ps, r :: rs => String.eqb p r && prefix_match ps rs
  | _ :: _, [] => false
  end.
Fixpoint same_match (route req : list string) : bool :=
  match route, req with
  | [], [] => true
  | p :: ps, r :: rs => (String.eqb p "*" || String.eqb p r) && same_match ps rs
  | _, _ => false
  end.
Definition isWildcardMatch (routePath requestPath : string) : bool :=
  let routeParts := parts routePath in
  let requestParts := parts requestPath in
  match last routeParts with
  | Some "*" => prefix_match (removelast routeParts) requestParts
  | _ => same_match routeParts requestParts
  end.

(** The routes by method and path. *)
Notation routes H := (gmap string (gmap string H)).

Section router.
Context {H : Type}.

Definition addRoute (method path : string) (handler : H) (r : routes H) : routes H :=
  <[method := <[path := handler]> (default ∅ (r !! method))]> r.

(** [findHandler]; [visit] orders the entries of the map the loop ranges
    over. *)
Definition findHandler (visit : gmap string H → list (string * H)) (r : routes H)
    (method path : string) : option (string * H) :=
  match r !! method with
  | None => None
  | Some methodRoutes =>
      match methodRoutes !! path with
      | Some handler => Some (path, handler)
      | None => head (filter (λ kv, isWildcardMatch kv.1 path = true) (visit methodRoutes))
      end
  end.
End router.

(** [Router.ServeHTTP] under the middleware of its server; the route goes to
    the span name only. *)
Definition ServeHTTP (visit : gmap string Handler → list (string * Handler)) (r : routes Handler)
    (notFound : Handler) (middleware : list Middleware) : Handler := λ req tok,
  let handler := match findHandler visit r (rq_method req) (rq_path req) with
                 | Some (_, h) => h
                 | None => notFound
                 end in
  Chain handler middleware req tok.
