(* ===== verification/ServerFacts.v ===== *)
(** Facts of the server: query strings round trip, the router does not depend
    on the order of its map when no two of its patterns overlap, and panics
    do not get out. *)
From S2P Require Import Prelude Strings GoTime Json World Vlogs Server.
From Stdlib Require Import Ascii.

Open Scope string_scope.
Open Scope Z_scope.

(** * Query strings *)

Lemma char_free_app c a b : char_free c (a +:+ b) = char_free c a && char_free c b.
Proof.
  induction a as [|x a IH]; [done|]. change (String x a +:+ b) with (String x (a +:+ b)).
  simpl. by rewrite IH, andb_assoc.
Qed.

Lemma split_char_free c s : char_free c s = true → split_char c s = [s].
Proof.
  induction s as [|a s IH]; [done|]. simpl. intros [Ha Hs]%andb_prop.
  apply negb_true_iff in Ha. by rewrite Ha, IH.
Qed.

Lemma split_char_app c a b : char_free c a = true →
  split_char c (a +:+ String c b) = a :: split_char c b.
Proof.
  induction a as [|x a IH]; intros H.
  - change ("" +:+ String c b) with (String c b). simpl. by rewrite Ascii.eqb_refl.
  - change (String x a +:+ String c b) with (String x (a +:+ String c b)). simpl in *.
    apply andb_prop in H as [Hx Ha]. apply negb_true_iff in Hx. by rewrite Hx, IH.
Qed.

(** Splitting undoes joining when no part has the separator. *)
Lemma split_join c l : l ≠ [] → Forall (λ s, char_free c s = true) l →
  split_char c (join (String c "") l) = l.
Proof.
  induction l as [|s [|t l] IH]; intros Hn Hf; [done|..].
  - apply Forall_cons in Hf as [Hs _]. by apply split_char_free.
  - apply Forall_cons in Hf as [Hs Hf].
    change (join (String c "") (s :: t :: l)) with (s +:+ (String c "" +:+ join (String c "") (t :: l))).
    change (String c "" +:+ ?x) with (String c x). rewrite split_char_app by done. by rewrite IH.
Qed.

Lemma cut_char_app c a b : char_free c a = true → cut_char c (a +:+ String c b) = Some (a, b).
Proof.
  induction a as [|x a IH]; intros H.
  - change ("" +:+ String c b) with (String c b). simpl. by rewrite Ascii.eqb_refl.
  - change (String x a +:+ String c b) with (String x (a +:+ String c b)). simpl in *.
    apply andb_prop in H as [Hx Ha]. apply negb_true_iff in Hx. by rewrite Hx, IH.
Qed.

Lemma contains_char c s : contains (String c "") s = negb (char_free c s).
Proof.
  induction s as [|a s IH]; [done|]. simpl. rewrite IH. unfold has_prefix. simpl.
  destruct (ascii_dec c a) as [->|Hne]; [by rewrite Ascii.eqb_refl; destruct s|].
  destruct (Ascii.eqb_spec a c); [by subst|done].
Qed.

Definition escape_byte (a : ascii) : string :=
  if unreserved a then String a ""
  else if (nat_of_ascii a =? 32)%nat then "+"
  else String "%" (String (upper_hex (nat_of_ascii a / 16)) (String (upper_hex (nat_of_ascii a mod 16)) "")).

Lemma query_escape_cons a s : query_escape (String a s) = escape_byte a +:+ query_escape s.
Proof. done. Qed.

(** Checked on each of the 256 bytes. *)
Lemma escape_byte_ok a :
  char_free "&" (escape_byte a) && char_free "=" (escape_byte a) && char_free ";" (escape_byte a) = true
  ∧ ∀ s t, query_unescape s = Some t → query_unescape (escape_byte a +:+ s) = Some (String a t).
Proof.
  destruct a as [[] [] [] [] [] [] [] []]; (split; [vm_compute; reflexivity|]); intros s t H;
    cbv -[query_unescape]; cbn [query_unescape]; cbv -[query_unescape]; rewrite ?H; reflexivity.
Qed.

Lemma query_unescape_escape s : query_unescape (query_escape s) = Some s.
Proof.
  induction s as [|a s IH]; [done|]. rewrite query_escape_cons. by apply (proj2 (escape_byte_ok a)).
Qed.

Lemma query_escape_free c s : c = "&"%char ∨ c = "="%char ∨ c = ";"%char →
  char_free c (query_escape s) = true.
Proof.
  intros Hc. induction s as [|a s IH]; [done|]. rewrite query_escape_cons, char_free_app, IH.
  destruct (escape_byte_ok a) as [[[H1 H2]%andb_prop H3]%andb_prop _].
  destruct Hc as [-> | [-> | ->]]; by rewrite ?H1, ?H2, ?H3.
Qed.

Lemma query_piece_encode kv : query_piece (encode_pair kv) = Some (Some kv).
Proof.
  destruct kv as [k x]. unfold query_piece, encode_pair. cbn [fst snd].
  assert (Hc : cut_char "=" (query_escape k +:+ "=" +:+ query_escape x)
               = Some (query_escape k, query_escape x)).
  { apply cut_char_app. apply query_escape_free. auto. }
  rewrite decide_False by (intros E; by rewrite E in Hc).
  rewrite contains_char, !char_free_app, !(query_escape_free ";") by auto. simpl.
  by rewrite Hc, !query_unescape_escape.
Qed.

Lemma encode_pair_free kv : char_free "&" (encode_pair kv) = true.
Proof. unfold encode_pair. by rewrite !char_free_app, !query_escape_free by auto. Qed.

Lemma split_Encode v : value_pairs v ≠ [] → split_char "&" (Encode v) = encode_pair <$> value_pairs v.
Proof.
  intros Hn. apply split_join; [by destruct (value_pairs v)|].
  apply Forall_fmap, Forall_true. intros kv. apply encode_pair_free.
Qed.

Lemma query_pairs_Encode v : query_pairs (Encode v) = value_pairs v.
Proof.
  unfold query_pairs. destruct (decide (value_pairs v = [])) as [E|E].
  - unfold Encode. by rewrite E.
  - rewrite split_Encode by done. induction (value_pairs v) as [|kv l IH]; [done|].
    cbn. rewrite query_piece_encode. f_equal. by destruct l; [|apply IH].
Qed.

Lemma query_ok_Encode v : query_ok (Encode v) = true.
Proof.
  unfold query_ok. destruct (decide (value_pairs v = [])) as [E|E].
  - unfold Encode. by rewrite E.
  - rewrite split_Encode by done. induction (value_pairs v) as [|kv l IH]; [done|].
    cbn. rewrite query_piece_encode. by destruct l; [|apply IH].
Qed.

(** The values of one key among some pairs. *)
Definition vals (k : string) (l : list (string * string)) : list string :=
  (filter (λ kv, kv.1 = k) l).*2.

Lemma foldl_v_add l : ∀ m k,
  foldl v_add m l !! k = match vals k l with
                         | [] => m !! k
                         | vs => Some (default [] (m !! k) ++ vs)%list
                         end.
Proof.
  induction l as [|[k' x] l IH]; intros m k; [done|]. cbn [foldl]. rewrite IH.
  unfold vals, v_add. cbn [fst snd]. destruct (decide (k' = k)) as [->|Hne].
  - rewrite filter_cons_True by done. rewrite lookup_insert_eq. cbn.
    destruct (filter _ l).*2 as [|y vs]; [done|]. by rewrite <-app_assoc.
  - rewrite filter_cons_False by done. by rewrite lookup_insert_ne.
Qed.

Lemma vals_app k l l' : vals k (l ++ l') = (vals k l ++ vals k l')%list.
Proof. unfold vals. by rewrite filter_app, fmap_app. Qed.

Lemma vals_same k l : vals k ((λ x, (k, x)) <$> l) = l.
Proof.
  unfold vals. induction l as [|x l IH]; [done|]. rewrite fmap_cons, filter_cons_True by done.
  cbn. by f_equal.
Qed.
Lemma vals_other k k' l : k' ≠ k → vals k ((λ x, (k', x)) <$> l) = [].
Proof.
  intros Hne. unfold vals. induction l as [|x l IH]; [done|].
  by rewrite fmap_cons, filter_cons_False.
Qed.

Lemma vals_value_pairs k v : vals k (value_pairs v) = default [] (v !! k).
Proof.
  unfold value_pairs. pose proof (NoDup_fst_map_to_list v) as Hnd.
  assert (Hin : k ∈ (map_to_list v).*1 ↔ is_Some (v !! k)).
  { rewrite list_elem_of_fmap. split.
    - intros ([k' x] & -> & Hx). apply elem_of_map_to_list in Hx. by exists x.
    - intros [x Hx]. exists (k, x). split; [done|]. by apply elem_of_map_to_list. }
  rewrite <-(elem_of_sort_strings k) in Hin. rewrite <-(sort_strings_perm (map_to_list v).*1) in Hnd.
  revert Hin Hnd. generalize (sort_strings (map_to_list v).*1) as ks.
  assert (Hks : ∀ ks, NoDup ks →
    vals k (ks ≫= λ k, (λ x, (k, x)) <$> default [] (v !! k))
    = if decide (k ∈ ks) then default [] (v !! k) else []).
  { induction ks as [|k' ks IH]; intros Hnd; [done|]. apply NoDup_cons in Hnd as [Hk Hnd].
    rewrite bind_cons, vals_app, IH by done. destruct (decide (k' = k)) as [->|Hne].
    - rewrite vals_same, (decide_False (P := k ∈ ks)), app_nil_r by done.
      by rewrite decide_True by by left.
    - rewrite vals_other by done. cbn. destruct (decide (k ∈ ks)).
      + by rewrite decide_True by by right.
      + rewrite decide_False; [done|]. by intros [->|?]%elem_of_cons. }
  intros ks Hin Hnd. rewrite Hks by done. case_decide as E; [done|].
  destruct (v !! k); [|done]. by destruct E; apply Hin.
Qed.

Definition well_formed (v : values) : Prop := map_Forall (λ _ l, l ≠ []) v.

Lemma parse_values_Encode v : well_formed v → parse_values (Encode v) = v.
Proof.
  intros Hw. apply map_eq. intros k. unfold parse_values. rewrite query_pairs_Encode, foldl_v_add.
  rewrite vals_value_pairs, lookup_empty. destruct (v !! k) as [l|] eqn:E; [|done].
  cbn. by destruct l; [destruct (Hw k [] E)|].
Qed.

Lemma well_formed_parse s : well_formed (parse_values s).
Proof.
  intros k l. unfold parse_values. rewrite foldl_v_add, lookup_empty.
  destruct (vals k (query_pairs s)); [done|]. by intros [= <-].
Qed.
Lemma well_formed_set k x v : well_formed v → well_formed (v_set k x v).
Proof. intros Hw. by apply map_Forall_insert_2. Qed.
Lemma well_formed_Query req : well_formed (Query req).
Proof. apply well_formed_parse. Qed.
#[export] Hint Resolve well_formed_parse well_formed_set well_formed_Query : kof.

(** * Routing *)

(** Two patterns that some path matches both. *)
Fixpoint comparable (ps qs : list string) : bool :=
  match ps, qs with
  | p :: ps', q :: qs' => String.eqb p q && comparable ps' qs'
  | _, _ => true
  end.
Fixpoint fits (ps qs : list string) : bool :=
  match ps, qs with
  | [], _ => true
  | p :: ps', q :: qs' => (String.eqb q "*" || String.eqb p q) && fits ps' qs'
  | _ :: _, [] => false
  end.
Fixpoint unifies (ps qs : list string) : bool :=
  match ps, qs with
  | [], [] => true
  | p :: ps', q :: qs' => (String.eqb p "*" || String.eqb q "*" || String.eqb p q) && unifies ps' qs'
  | _, _ => false
  end.
Definition is_open (p : string) : bool := match last (parts p) with Some "*" => true | _ => false end.
Definition overlap (p q : string) : bool :=
  match is_open p, is_open q with
  | true, true => comparable (removelast (parts p)) (removelast (parts q))
  | true, false => fits (removelast (parts p)) (parts q)
  | false, true => fits (removelast (parts q)) (parts p)
  | false, false => unifies (parts p) (parts q)
  end.
(** A pattern without stars matches itself only. *)
Definition literal (p : string) : bool := forallb (λ x, negb (String.eqb x "*")) (parts p).

(** The patterns of one method, by name: no two of those that have stars
    overlap. *)
Definition unambiguous {H} (m : gmap string H) : bool :=
  let keys := filter (λ p, literal p = false) ((map_to_list m).*1) in
  forallb (λ p, forallb (λ q, String.eqb p q || negb (overlap p q)) keys) keys.

Lemma prefix_prefix ps qs r : prefix_match ps r = true → prefix_match qs r = true → comparable ps qs = true.
Proof.
  revert qs r. induction ps as [|p ps IH]; intros [|q qs] [|x r]; simpl; try done.
  intros [->%String.eqb_eq H1]%andb_prop [->%String.eqb_eq H2]%andb_prop.
  rewrite String.eqb_refl. by eapply IH.
Qed.
Lemma prefix_same ps qs r : prefix_match ps r = true → same_match qs r = true → fits ps qs = true.
Proof.
  revert qs r. induction ps as [|p ps IH]; intros [|q qs] [|x r]; simpl; try done.
  intros [->%String.eqb_eq H1]%andb_prop [Hq H2]%andb_prop. rewrite String.eqb_sym in Hq.
  apply andb_true_intro. split; [|by eapply IH].
  destruct (String.eqb_spec q "*"); [done|]. simpl. rewrite String.eqb_sym in Hq.
  destruct (String.eqb_spec q "*"); [done|]. by rewrite String.eqb_sym.
Qed.
Lemma same_same ps qs r : same_match ps r = true → same_match qs r = true → unifies ps qs = true.
Proof.
  revert qs r. induction ps as [|p ps IH]; intros [|q qs] [|x r]; simpl; try done.
  intros [Hp H1]%andb_prop [Hq H2]%andb_prop.
  apply andb_true_intro. split; [|by eapply IH].
  destruct (String.eqb_spec p "*"); [done|]. destruct (String.eqb_spec q "*"); [done|].
  simpl in *. apply String.eqb_eq in Hp as ->, Hq as ->. by rewrite String.eqb_refl.
Qed.

Lemma match_cases p x :
  isWildcardMatch p x = if is_open p then prefix_match (removelast (parts p)) (parts x)
                        else same_match (parts p) (parts x).
Proof.
  unfold isWildcardMatch, is_open. destruct (last (parts p)) as [s|]; [|done].
  destruct s as [|[[] [] [] [] [] [] [] []] [|? ?]]; done.
Qed.

(** A pattern matches itself. *)
Lemma self_match p : isWildcardMatch p p = true.
Proof.
  rewrite match_cases. generalize (parts p) as l. intros l.
  assert (Hs : ∀ l, same_match l l = true).
  { intros k. induction k as [|x k IH]; [done|]. simpl. by rewrite String.eqb_refl, IH, orb_true_r. }
  destruct (is_open p); [|apply Hs]. induction l as [|x [|y l] IH]; [done..|].
  change (String.eqb x x && prefix_match (removelast (y :: l)) (y :: l) = true).
  rewrite String.eqb_refl. exact IH.
Qed.

Lemma overlap_spec p q x : isWildcardMatch p x = true → isWildcardMatch q x = true → overlap p q = true.
Proof.
  rewrite !match_cases. unfold overlap. destruct (is_open p), (is_open q); intros H1 H2.
  - by eapply prefix_prefix.
  - by eapply prefix_same.
  - by eapply prefix_same.
  - by eapply same_same.
Qed.

Lemma same_match_literal ps r :
  forallb (λ x, negb (String.eqb x "*")) ps = true → same_match ps r = true → ps = r.
Proof.
  revert r. induction ps as [|p ps IH]; intros [|x r]; simpl; try done.
  intros [Hp%negb_true_iff H1]%andb_prop [Hx H2]%andb_prop. rewrite Hp in Hx. simpl in Hx.
  apply String.eqb_eq in Hx as ->. f_equal. by apply IH.
Qed.

Lemma literal_match p x : literal p = true → isWildcardMatch p x = true → p = x.
Proof.
  intros Hl. assert (Ho : is_open p = false).
  { unfold is_open, literal in *. destruct (last (parts p)) as [s|] eqn:E; [|done].
    apply last_Some_elem_of, list_elem_of_In in E.
    rewrite forallb_forall in Hl. apply Hl, negb_true_iff, String.eqb_neq in E.
    destruct s as [|[[] [] [] [] [] [] [] []] [|? ?]]; done. }
  rewrite match_cases, Ho. intros Hm.
  rewrite <-(join_split_char "/" p), <-(join_split_char "/" x). f_equal. by apply same_match_literal.
Qed.

(** In an unambiguous table the order of the loop does not matter. *)
Lemma findHandler_order {H} (visit visit' : gmap string H → list (string * H)) (r : routes H) method path :
  (∀ m, visit m ≡ₚ map_to_list m) → (∀ m, visit' m ≡ₚ map_to_list m) →
  (∀ m, r !! method = Some m → unambiguous m = true) →
  findHandler visit r method path = findHandler visit' r method path.
Proof.
  intros Hv Hv' Hu. unfold findHandler. destruct (r !! method) as [m|] eqn:Em; [|done].
  destruct (m !! path) eqn:Ep; [done|]. specialize (Hu m eq_refl).
  set (f := λ kv : string * H, isWildcardMatch kv.1 path = true).
  assert (Huniq : ∀ x y, x ∈ map_to_list m → y ∈ map_to_list m → f x → f y → x = y).
  { intros [k1 h1] [k2 h2] H1 H2 F1 F2. unfold f in *. simpl in *.
    assert (Hlit : ∀ k h, (k, h) ∈ map_to_list m → isWildcardMatch k path = true → literal k = false).
    { intros k h Hk Hm. destruct (literal k) eqn:E; [|done]. apply literal_match in Hm as ->; [|done].
      apply elem_of_map_to_list in Hk. congruence. }
    assert (Hin : ∀ k h, (k, h) ∈ map_to_list m → isWildcardMatch k path = true →
      In k (filter (λ p, literal p = false) (map_to_list m).*1)).
    { intros k h Hk Hm. apply list_elem_of_In, list_elem_of_filter. split; [by eapply Hlit|].
      apply list_elem_of_fmap. by exists (k, h). }
    unfold unambiguous in Hu. rewrite forallb_forall in Hu.
    pose proof (Hu k1 (Hin _ _ H1 F1)) as Hq. rewrite forallb_forall in Hq.
    specialize (Hq k2 (Hin _ _ H2 F2)). rewrite (overlap_spec k1 k2 path F1 F2), orb_false_r in Hq.
    apply String.eqb_eq in Hq as ->. f_equal. apply elem_of_map_to_list in H1, H2. congruence. }
  assert (Hp : filter f (visit m) ≡ₚ filter f (visit' m)) by (by rewrite Hv, Hv').
  assert (Hmem : ∀ x, x ∈ filter f (visit m) → x ∈ map_to_list m ∧ f x).
  { intros x Hx. apply list_elem_of_filter in Hx as [Hfx Hx]. by rewrite Hv in Hx. }
  destruct (filter f (visit m)) as [|x l], (filter f (visit' m)) as [|y l'] eqn:E; simpl.
  - done.
  - by apply Permutation_nil_l in Hp.
  - by apply Permutation_nil_r in Hp.
  - f_equal. destruct (Hmem x) as [H1 H2]; [by left|]. destruct (Hmem y) as [H3 H4].
    { rewrite Hp. by left. }
    by apply Huniq.
Qed.

(** * Panics *)

Lemma recovery_replies next req tok : is_Some (rep (RecoveryMiddleware next req tok)).
Proof. unfold RecoveryMiddleware. by destruct (rep (next req tok)) eqn:E; rewrite ?E. Qed.

Lemma recovery_sent next req tok : sent (RecoveryMiddleware next req tok) = sent (next req tok).
Proof. unfold RecoveryMiddleware. by destruct (rep (next req tok)). Qed.
