(* ===== verification/Acl.v ===== *)
(** internal/acl/handlers and the route table of cmd/acl: the proxy that lets
    a tenant read only its own metrics, logs and traces. *)
From S2P Require Import Prelude Strings GoTime Json World Vlogs Server.
From Stdlib Require Import Ascii.

Open Scope string_scope.
Open Scope Z_scope.

(** * Claims *)

Definition TenantLabelName : string := "tenant".
Definition MaxBodySize : Z := 10 * (1024 * 1024).
Definition TenantGroupPrefix : string := "tenant:".
Definition PrometheusQueryParamName : string := "query".
Definition PrometheusMatchParamName : string := "match[]".
Definition DummyMatchSelector : string := "{__name__=~" +:+ dquote +:+ ".+" +:+ dquote +:+ "}".

Record Claims := {
  cl_Email : string; cl_Name : string; cl_Groups : list string; cl_Verified : bool;
  cl_TenantID : string }.
Definition no_claims : Claims :=
  {| cl_Email := ""; cl_Name := ""; cl_Groups := []; cl_Verified := false; cl_TenantID := "" |}.

(** Decoding into the struct: the fields by name without case, a null leaves
    a field as it was (and empties a slice), another type is an error. *)
Definition string_field (j : json) (old : string) : option string :=
  match j with JStr s => Some s | JNull => Some old | _ => None end.
Definition groups_field (j : json) : option (list string) :=
  match j with
  | JArr l => mapM flat_value l
  | JNull => Some []
  | _ => None
  end.
Definition claim_member (c : Claims) (kv : string * json) : option Claims :=
  let (k, j) := kv in
  if equal_fold k "email" then
    (λ s, {| cl_Email := s; cl_Name := cl_Name c; cl_Groups := cl_Groups c;
             cl_Verified := cl_Verified c; cl_TenantID := cl_TenantID c |}) <$> string_field j (cl_Email c)
  else if equal_fold k "name" then
    (λ s, {| cl_Email := cl_Email c; cl_Name := s; cl_Groups := cl_Groups c;
             cl_Verified := cl_Verified c; cl_TenantID := cl_TenantID c |}) <$> string_field j (cl_Name c)
  else if equal_fold k "groups" then
    (λ l, {| cl_Email := cl_Email c; cl_Name := cl_Name c; cl_Groups := l;
             cl_Verified := cl_Verified c; cl_TenantID := cl_TenantID c |}) <$> groups_field j
  else if equal_fold k "email_verified" then
    match j with
    | JBool b => Some {| cl_Email := cl_Email c; cl_Name := cl_Name c; cl_Groups := cl_Groups c;
                         cl_Verified := b; cl_TenantID := cl_TenantID c |}
    | JNull => Some c
    | _ => None
    end
  else if equal_fold k "tenant" then
    (λ s, {| cl_Email := cl_Email c; cl_Name := cl_Name c; cl_Groups := cl_Groups c;
             cl_Verified := cl_Verified c; cl_TenantID := s |}) <$> string_field j (cl_TenantID c)
  else Some c.
Definition decode_claims (text : string) : option Claims :=
  match unmarshal text with
  | Some (JObj kvs) => foldl (λ c kv, c ≫= λ c, claim_member c kv) (Some no_claims) kvs
  | Some JNull => Some no_claims
  | _ => None
  end.
(** [idToken.Claims(claims)]. *)
Definition token_claims (t : IDToken) : option Claims := decode_claims (tok_claims t).

Fixpoint getTenantIDFromGroups (groups : list string) : string :=
  match groups with
  | [] => ""
  | group :: r =>
      match cut_prefix TenantGroupPrefix group with
      | Some id => if decide (id = "") then getTenantIDFromGroups r else id
      | None => getTenantIDFromGroups r
      end
  end.

Definition ExtractTenantIDFromToken (idToken : IDToken) : result string :=
  match token_claims idToken with
  | None => Err (EText "failed to parse claims")
  | Some claims =>
      if decide (cl_TenantID claims = "") then
        let tenantID := getTenantIDFromGroups (cl_Groups claims) in
        if decide (tenantID = "") then
          Err (EText ("unauthorized: user has no tenant group (expected " +:+ TenantGroupPrefix +:+ " prefix)"))
        else Ok tenantID
      else Ok (cl_TenantID claims)
  end.

Definition isAdminUser (idToken : IDToken) (adminEmail : string) : bool :=
  if decide (adminEmail = "") then false
  else match token_claims idToken with
       | None => false
       | Some claims => String.eqb (cl_Email claims) adminEmail
       end.

(** * Proxies *)

Record Config := { Host : string; Scheme : string; DevMode : bool; AdminEmail : string }.

Definition BuildURL (scheme host path query : string) : string := url_string scheme host path query.

(** [http.MaxBytesReader] read to its end. *)
Definition read_limited (n : Z) (b : body) : result string :=
  if n <? Z.of_nat (String.length (b_text b)) then Err ETooLarge
  else match b_err b with Some e => Err e | None => Ok (b_text b) end.

Definition extractQuery (req : request) : result values :=
  if String.eqb (rq_method req) "POST" then
    try q := read_limited MaxBodySize (rq_body req) in ParseQuery q
  else Ok (Query req).

Definition isQueryEndpoint (path : string) : bool := contains "query" path.

(** The body of a proxied request: the stream of the request for POST. *)
Definition post_body (req : request) : option body :=
  if String.eqb (rq_method req) "POST" then Some (rq_body req) else None.
Definition text_body (s : string) : body := {| b_text := s; b_err := None |}.

Definition unable : reply := Fail "unable to make request" 500.

Section proxies.
(** What the backends answer, the text of a response's status line, and the
    enforcer of prom-label-proxy for a tenant and a query. *)
Context (backend : backend_request → result response) (status_text : response → string)
  (enforce : string → string → result string).

(** [StreamProxyRequest] and the error reply of its callers.  When the copy
    breaks off, the status is already sent if any byte was. *)
Definition stream_reply (r : result response) : reply :=
  match r with
  | Err _ => unable
  | Ok resp =>
      if resp_status resp =? 200 then
        let text := b_text (resp_body resp) in
        match b_err (resp_body resp) with
        | None => {| rp_status := 200; rp_type := "application/json"; rp_text := text |}
        | Some _ =>
            if decide (text = "") then unable
            else {| rp_status := 200; rp_type := "application/json"; rp_text := text +:+ rp_text unable |}
        end
      else unable
  end.
Definition StreamProxyRequest (url method : string) (b : option body) : outcome :=
  let br := {| br_method := method; br_url := url; br_body := b |} in
  {| sent := [br]; headers := []; rep := Some (stream_reply (backend br)) |}.

(** [ProxyRequest], then a look at the response. *)
Definition ProxyRequest (url method : string) (b : option body) (f : result response → option reply)
    : outcome :=
  let br := {| br_method := method; br_url := url; br_body := b |} in
  {| sent := [br]; headers := []; rep := f (backend br) |}.

(** The interface Proxy: its configuration and what it does for a tenant. *)
Record Proxy := {
  config : Config;
  HandleTenantInjection : request → IDToken → outcome }.

(** [strings.Split(path, "/")[2:]] panics when there are fewer parts. *)
Definition ProxyBypass (req : request) (proxy : Proxy) : outcome :=
  match parts (rq_path req) with
  | _ :: _ :: pathParts =>
      StreamProxyRequest
        (BuildURL (Scheme (config proxy)) (Host (config proxy)) (join "/" pathParts) (Encode (Query req)))
        (rq_method req) (post_body req)
  | _ => panics
  end.

Definition ACLProxy (proxy : Proxy) : Handler := λ req tok,
  match tok with
  | Some idToken =>
      if isAdminUser idToken (AdminEmail (config proxy)) then ProxyBypass req proxy
      else HandleTenantInjection proxy req idToken
  | None =>
      if DevMode (config proxy) then ProxyBypass req proxy
      else replies (Fail "Unauthorized: authentication required" 401)
  end.

Definition AdminProxy (proxy : Proxy) : Handler := λ req tok,
  let isAdmin := match tok with
                 | Some idToken => isAdminUser idToken (AdminEmail (config proxy))
                 | None => false
                 end in
  if isAdmin then ProxyBypass req proxy
  else if DevMode (config proxy) then ProxyBypass req proxy
  else replies (Fail "Forbidden: admin access required" 403).

(** * Metrics *)

Definition injectTenantIDLabel (tenantID originalQuery : string) : result string :=
  enforce tenantID originalQuery.

(** The parameter to restrict, with the query it is in; [None] when a query
    endpoint gets none. *)
Definition choose_param (path : string) (query : values) : option (string * values) :=
  if v_has query PrometheusQueryParamName then Some (PrometheusQueryParamName, query)
  else if v_has query PrometheusMatchParamName then Some (PrometheusMatchParamName, query)
  else if isQueryEndpoint path then None
  else Some (PrometheusMatchParamName, v_set PrometheusMatchParamName DummyMatchSelector query).

Definition promxy_query (cfg : Config) (req : request) (idToken : IDToken) : outcome :=
  match extractQuery req with
  | Err e =>
      if errors_as (λ e, match e with ETooLarge => true | _ => false end) e then
        replies (Fail ("request body too large: " +:+ error_text e) 413)
      else replies (Fail ("failed to extract query: " +:+ error_text e) 400)
  | Ok query0 =>
      match choose_param (rq_path req) query0 with
      | None => replies (Fail ("missing required query parameter: " +:+ PrometheusQueryParamName) 400)
      | Some (paramName, query1) =>
          match ExtractTenantIDFromToken idToken with
          | Err e => replies (Fail ("failed to extract tenant ID: " +:+ error_text e) 401)
          | Ok tenantID =>
              match injectTenantIDLabel tenantID (v_get query1 paramName) with
              | Err e => replies (Fail ("failed to inject tenant ID label into query: " +:+ error_text e) 400)
              | Ok modifiedQuery =>
                  let query2 := v_set paramName modifiedQuery query1 in
                  let path := trim_prefix "/metrics" (rq_path req) in
                  if String.eqb (rq_method req) "POST" then
                    StreamProxyRequest (BuildURL (Scheme cfg) (Host cfg) path (Encode (Query req)))
                      (rq_method req) (Some (text_body (Encode query2)))
                  else
                    StreamProxyRequest (BuildURL (Scheme cfg) (Host cfg) path (Encode query2))
                      (rq_method req) None
              end
          end
      end
  end.
Definition PromxyQueryHandler (cfg : Config) : Proxy :=
  {| config := cfg; HandleTenantInjection := promxy_query cfg |}.

(** The tenant of a request, or the reply that there is none. *)
Definition with_tenant (idToken : IDToken) (k : string → outcome) : outcome :=
  match ExtractTenantIDFromToken idToken with
  | Err e => replies (Fail ("failed to extract tenant ID: " +:+ error_text e) 401)
  | Ok tenantID => k tenantID
  end.

(** * Logs *)

Definition logs_inject (cfg : Config) (req : request) (idToken : IDToken) : outcome :=
  with_tenant idToken (λ tenantID,
    let query := v_set "extra_filters" (TenantLabelName +:+ ":=" +:+ dquote +:+ tenantID +:+ dquote)
                   (Query req) in
    let path := trim_prefix "/logs" (rq_path req) in
    StreamProxyRequest (BuildURL (Scheme cfg) (Host cfg) path (Encode query)) (rq_method req)
      (post_body req)).
Definition logsHandler (cfg : Config) : Proxy :=
  {| config := cfg; HandleTenantInjection := logs_inject cfg |}.

(** * Alerts and rules *)

(** v1.Alert of the Prometheus client, and its JSON. *)
Context {Alert : Type} (Alert_Labels : Alert → gmap string string) (Alert_State : Alert → string).

Record AlertsResponse := { as_Status : string; as_Alerts : list (option Alert) }.
Definition filterAlertsByTenant (alerts : list (option Alert)) (tenantID : string) : list (option Alert) :=
  filter (λ alert, match alert with
                   | Some a => bool_decide (Alert_Labels a !! TenantLabelName = Some tenantID)
                   | None => false
                   end = true) alerts.

Context (decode_alerts : body → result AlertsResponse) (encode_alerts : AlertsResponse → string).
Definition non_ok (resp : response) : reply :=
  Fail ("received non-OK response: " +:+ status_text resp) (resp_status resp).
Definition alerts_inject (cfg : Config) (req : request) (idToken : IDToken) : outcome :=
  with_tenant idToken (λ tenantID,
    let path := trim_prefix "/metrics" (rq_path req) in
    ProxyRequest (BuildURL (Scheme cfg) (Host cfg) path (Encode (Query req))) (rq_method req) None (λ r,
      Some match r with
      | Err e => Fail ("failed to proxy request: " +:+ error_text e) 500
      | Ok resp =>
          if resp_status resp =? 200 then
            match decode_alerts (resp_body resp) with
            | Err e => Fail ("failed to decode alerts: " +:+ error_text e) 500
            | Ok alerts =>
                SendJson (encode_alerts {| as_Status := as_Status alerts;
                                           as_Alerts := filterAlertsByTenant (as_Alerts alerts) tenantID |}) 200
            end
          else non_ok resp
      end)).
Definition PromxyAlertsHandler (cfg : Config) : Proxy :=
  {| config := cfg; HandleTenantInjection := alerts_inject cfg |}.

Context {float : Type}.
Record AlertRule := {
  ar_State : string; ar_Name : string; ar_Query : string; ar_Duration : float;
  ar_Labels : gmap string string; ar_Annotations : gmap string string;
  ar_Alerts : list (option Alert); ar_Health : string; ar_EvaluationTime : float;
  ar_LastEvaluation : string; ar_Type : string }.
Record RuleGroup := {
  rg_EvaluationTime : float; rg_File : string; rg_Interval : float; rg_LastEvaluation : string;
  rg_Limit : Z; rg_Name : string; rg_Rules : list (option AlertRule) }.
Record RulesResponse := { rs_Status : string; rs_Groups : list (option RuleGroup) }.

Definition is_firing (alert : option Alert) : bool :=
  match alert with Some a => String.eqb (Alert_State a) "firing" | None => false end.
(** The state the remaining alerts give an alerting rule. *)
Definition rule_state (matchingAlerts : list (option Alert)) : string :=
  if bool_decide (matchingAlerts = []) then "inactive"
  else if existsb is_firing matchingAlerts then "firing"
  else "pending".
Definition filter_rule (tenantID : string) (rule : AlertRule) : AlertRule :=
  if String.eqb (ar_Type rule) "alerting" then
    let matchingAlerts := filterAlertsByTenant (ar_Alerts rule) tenantID in
    {| ar_State := rule_state matchingAlerts; ar_Name := ar_Name rule; ar_Query := ar_Query rule;
       ar_Duration := ar_Duration rule; ar_Labels := ar_Labels rule;
       ar_Annotations := ar_Annotations rule; ar_Alerts := matchingAlerts;
       ar_Health := ar_Health rule; ar_EvaluationTime := ar_EvaluationTime rule;
       ar_LastEvaluation := ar_LastEvaluation rule; ar_Type := ar_Type rule |}
  else rule.
(** A null group or rule is a nil pointer that the loops dereference: [None]
    is the panic. *)
Definition filter_group (tenantID : string) (group : option RuleGroup) : option (option RuleGroup) :=
  match group with
  | None => None
  | Some g =>
      match mapM id (rg_Rules g) with
      | None => None
      | Some rules =>
          Some (Some {| rg_EvaluationTime := rg_EvaluationTime g; rg_File := rg_File g;
                        rg_Interval := rg_Interval g; rg_LastEvaluation := rg_LastEvaluation g;
                        rg_Limit := rg_Limit g; rg_Name := rg_Name g;
                        rg_Rules := (λ rule, Some (filter_rule tenantID rule)) <$> rules |})
      end
  end.

Context (decode_rules : body → result RulesResponse) (encode_rules : RulesResponse → string).
Definition rules_inject (cfg : Config) (req : request) (idToken : IDToken) : outcome :=
  with_tenant idToken (λ tenantID,
    let path := trim_prefix "/metrics" (rq_path req) in
    ProxyRequest (BuildURL (Scheme cfg) (Host cfg) path (Encode (Query req))) (rq_method req) None (λ r,
      match r with
      | Err e => Some (Fail ("failed to proxy request: " +:+ error_text e) 500)
      | Ok resp =>
          if resp_status resp =? 200 then
            match decode_rules (resp_body resp) with
            | Err e => Some (Fail ("failed to decode rules: " +:+ error_text e) 500)
            | Ok rules =>
                match mapM (filter_group tenantID) (rs_Groups rules) with
                | None => None
                | Some groups =>
                    Some (SendJson (encode_rules {| rs_Status := rs_Status rules; rs_Groups := groups |}) 200)
                end
            end
          else Some (non_ok resp)
      end)).
Definition PromxyRulesHandler (cfg : Config) : Proxy :=
  {| config := cfg; HandleTenantInjection := rules_inject cfg |}.

(** * Traces *)

Definition tenant_attr : string := "resource_attr:" +:+ TenantLabelName.

(** Decoding [tags] into a map: the text null makes the map nil, which the
    assignment that follows cannot write to. *)
Inductive tags_result := BadTags | NilTags | TagMap (m : gmap string string).
Definition decode_tags (rawTags : string) : tags_result :=
  if decide (rawTags = "") then TagMap ∅
  else match unmarshal rawTags with
       | Some JNull => NilTags
       | Some (JObj kvs) => match flat_members kvs ∅ with Some m => TagMap m | None => BadTags end
       | _ => BadTags
       end.

Definition traces_inject (cfg : Config) (req : request) (idToken : IDToken) : outcome :=
  with_tenant idToken (λ tenantID,
    match decode_tags (v_get (Query req) "tags") with
    | BadTags => replies (Fail "failed to parse tags" 500)
    | NilTags => panics
    | TagMap tags =>
        let query := v_set "tags" (marshal_flat (<[tenant_attr := tenantID]> tags)) (Query req) in
        let path := trim_prefix "/traces" (rq_path req) in
        StreamProxyRequest (BuildURL (Scheme cfg) (Host cfg) path (Encode query)) (rq_method req)
          (post_body req)
    end).
Definition JaegerTracesHandler (cfg : Config) : Proxy :=
  {| config := cfg; HandleTenantInjection := traces_inject cfg |}.
End proxies.
