(* ===== verification/Jaeger.v ===== *)
(** internal/acl/handlers: the handlers of single traces and of service names,
    which filter what VictoriaTraces answers. *)
From S2P Require Import Prelude Strings GoTime Json World Vlogs Server Acl.
From Stdlib Require Import Ascii.

Open Scope string_scope.
Open Scope Z_scope.

(** * Decoding into structs *)

(** An object decodes member by member, a null leaves the zero value. *)
Definition decode_struct {A} (member : A → string * json → option A) (zero : A) (j : json) : option A :=
  match j with
  | JObj kvs => foldl (λ a kv, a ≫= λ a, member a kv) (Some zero) kvs
  | JNull => Some zero
  | _ => None
  end.
(** A slice: null is the nil slice. *)
Definition decode_slice {A} (d : json → option A) (j : json) : option (option (list A)) :=
  match j with
  | JArr l => Some <$> mapM d l
  | JNull => Some None
  | _ => None
  end.
Definition decode_pointer {A} (d : json → option A) (j : json) : option (option A) :=
  match j with JNull => Some None | _ => Some <$> d j end.
Definition int_field (j : json) (old : Z) : option Z :=
  match j with JNull => Some old | _ => decode_int64 j end.

Record KeyValue := { kv_Key : string; kv_Type : string; kv_Value : json }.
Record Process := { ServiceName : string; Tags : option (list KeyValue) }.
(** [Spans] is a raw message: kept as the tree of its text. *)
Record JaegerTrace := {
  TraceID : string; Spans : option json; Processes : option (gmap string Process) }.
Record JaegerTraceResponse := {
  Data : option (list (option JaegerTrace)); Errors : json; Limit : Z; Offset : Z; Total : Z }.

Definition keyvalue_member (t : KeyValue) (kv : string * json) : option KeyValue :=
  let (k, j) := kv in
  if equal_fold k "key" then
    (λ s, {| kv_Key := s; kv_Type := kv_Type t; kv_Value := kv_Value t |}) <$> string_field j (kv_Key t)
  else if equal_fold k "type" then
    (λ s, {| kv_Key := kv_Key t; kv_Type := s; kv_Value := kv_Value t |}) <$> string_field j (kv_Type t)
  else if equal_fold k "value" then
    Some {| kv_Key := kv_Key t; kv_Type := kv_Type t; kv_Value := j |}
  else Some t.
Definition decode_keyvalue : json → option KeyValue :=
  decode_struct keyvalue_member {| kv_Key := ""; kv_Type := ""; kv_Value := JNull |}.

Definition process_member (p : Process) (kv : string * json) : option Process :=
  let (k, j) := kv in
  if equal_fold k "serviceName" then
    (λ s, {| ServiceName := s; Tags := Tags p |}) <$> string_field j (ServiceName p)
  else if equal_fold k "tags" then
    (λ l, {| ServiceName := ServiceName p; Tags := l |}) <$> decode_slice decode_keyvalue j
  else Some p.
Definition decode_process : json → option Process :=
  decode_struct process_member {| ServiceName := ""; Tags := None |}.

(** A map: null is the nil map; members are added to the map that is there. *)
Definition decode_processes (j : json) (old : option (gmap string Process))
    : option (option (gmap string Process)) :=
  match j with
  | JNull => Some None
  | JObj kvs =>
      Some <$> foldl (λ m kv, m ≫= λ m, (λ p, <[kv.1 := p]> m) <$> decode_process kv.2)
                     (Some (default ∅ old)) kvs
  | _ => None
  end.

Definition trace_member (t : JaegerTrace) (kv : string * json) : option JaegerTrace :=
  let (k, j) := kv in
  if equal_fold k "traceID" then
    (λ s, {| TraceID := s; Spans := Spans t; Processes := Processes t |}) <$> string_field j (TraceID t)
  else if equal_fold k "spans" then
    Some {| TraceID := TraceID t; Spans := Some j; Processes := Processes t |}
  else if equal_fold k "processes" then
    (λ p, {| TraceID := TraceID t; Spans := Spans t; Processes := p |}) <$> decode_processes j (Processes t)
  else Some t.
Definition decode_trace : json → option JaegerTrace :=
  decode_struct trace_member {| TraceID := ""; Spans := None; Processes := None |}.

Definition response_member (r : JaegerTraceResponse) (kv : string * json) : option JaegerTraceResponse :=
  let (k, j) := kv in
  let int_member (old : Z) (set : Z → JaegerTraceResponse) := set <$> int_field j old in
  if equal_fold k "data" then
    (λ l, {| Data := l; Errors := Errors r; Limit := Limit r; Offset := Offset r; Total := Total r |})
      <$> decode_slice (decode_pointer decode_trace) j
  else if equal_fold k "errors" then
    Some {| Data := Data r; Errors := j; Limit := Limit r; Offset := Offset r; Total := Total r |}
  else if equal_fold k "limit" then
    int_member (Limit r) (λ n, {| Data := Data r; Errors := Errors r; Limit := n; Offset := Offset r;
                                  Total := Total r |})
  else if equal_fold k "offset" then
    int_member (Offset r) (λ n, {| Data := Data r; Errors := Errors r; Limit := Limit r; Offset := n;
                                   Total := Total r |})
  else if equal_fold k "total" then
    int_member (Total r) (λ n, {| Data := Data r; Errors := Errors r; Limit := Limit r;
                                  Offset := Offset r; Total := n |})
  else Some r.
Definition decode_response (text : string) : option JaegerTraceResponse :=
  unmarshal text ≫= decode_struct response_member
    {| Data := None; Errors := JNull; Limit := 0; Offset := 0; Total := 0 |}.

(** * Encoding *)

(** A raw message keeps its members in the order of its text. *)
Fixpoint render_raw (j : json) : string :=
  match j with
  | JArr l => "[" +:+ join "," (map render_raw l) +:+ "]"
  | JObj kvs =>
      "{" +:+ join "," (map (λ kv, match kv with (k, v) => marshal_string k +:+ ":" +:+ render_raw v end) kvs)
      +:+ "}"
  | _ => marshal j
  end.
Definition encode_slice {A} (f : A → string) (l : option (list A)) : string :=
  match l with None => "null" | Some l => "[" +:+ join "," (f <$> l) +:+ "]" end.
Definition encode_keyvalue (t : KeyValue) : string :=
  struct_text [("key", marshal_string (kv_Key t)); ("type", marshal_string (kv_Type t));
               ("value", marshal (kv_Value t))].
Definition encode_process (p : Process) : string :=
  struct_text [("serviceName", marshal_string (ServiceName p));
               ("tags", encode_slice encode_keyvalue (Tags p))].
Definition encode_trace (t : option JaegerTrace) : string :=
  match t with
  | None => "null"
  | Some t =>
      struct_text [("traceID", marshal_string (TraceID t));
                   ("spans", match Spans t with Some j => render_raw j | None => "null" end);
                   ("processes", match Processes t with
                                 | Some m => render_object (encode_process <$> m)
                                 | None => "null"
                                 end)]
  end.
Definition encode_response (r : JaegerTraceResponse) : string :=
  struct_text [("data", encode_slice encode_trace (Data r)); ("errors", marshal (Errors r));
               ("limit", itoa (Limit r)); ("offset", itoa (Offset r)); ("total", itoa (Total r))].
(** [json.NewEncoder(res.Writer).Encode]: no status or content type is set. *)
Definition encoded (text : string) : reply :=
  {| rp_status := 200; rp_type := ""; rp_text := text +:+ newline |}.

(** * Single traces *)

(** A tag value is an interface: it equals a string only when it is one. *)
Definition tag_is (key value : string) (t : KeyValue) : bool :=
  String.eqb (kv_Key t) key && match kv_Value t with JStr s => String.eqb s value | _ => false end.
Definition hasProcessTagWithValue (trace : JaegerTrace) (key value : string) : bool :=
  existsb (λ p, existsb (tag_is key value) (default [] (Tags p.2)))
    (map_to_list (default ∅ (Processes trace))).

(** The traces of the tenant; a null trace is a nil pointer, and [None] the
    panic of its dereference. *)
Definition filter_traces (tenantID : string) (data : list (option JaegerTrace))
    : option (list (option JaegerTrace)) :=
  traces ← mapM id data;
  Some (Some <$> filter (λ t, hasProcessTagWithValue t TenantLabelName tenantID = true) traces).

Section handlers.
Context (backend : backend_request → result response) (status_text : response → string).

Definition trace_inject (cfg : Config) (req : request) (idToken : IDToken) : outcome :=
  with_tenant idToken (λ tenantID,
    let path := trim_prefix "/traces" (rq_path req) in
    ProxyRequest backend (BuildURL (Scheme cfg) (Host cfg) path (Encode (Query req))) (rq_method req)
      (post_body req) (λ r,
      match r with
      | Err e => Some unable
      | Ok resp =>
          if resp_status resp =? 200 then
            match b_err (resp_body resp) with
            | Some _ => Some (Fail "unable to read response" 500)
            | None =>
                match decode_response (b_text (resp_body resp)) with
                | None => Some (Fail "unable to parse response" 500)
                | Some result =>
                    match filter_traces tenantID (default [] (Data result)) with
                    | None => None
                    | Some filteredData =>
                        Some (encoded (encode_response
                          {| Data := Some filteredData; Errors := Errors result; Limit := Limit result;
                             Offset := Offset result; Total := Z.of_nat (length filteredData) |}))
                    end
                end
            end
          else Some (non_ok status_text resp)
      end)).
Definition JaegerTraceHandler (cfg : Config) : Proxy :=
  {| config := cfg; HandleTenantInjection := trace_inject cfg |}.

(** * Service names *)

(** The entries a json.Decoder yields until the end of the text; [None] is a
    decoding error. *)
Fixpoint decode_entries (fuel : nat) (text : string) : option (list (gmap string string)) :=
  match fuel with
  | O => None
  | S fuel' =>
      if decide (skip_ws text = "") then Some []
      else match parse_value (2 * String.length text + 2) text with
           | None => None
           | Some (j, rest) =>
               entry ← match j with JObj kvs => flat_members kvs ∅ | JNull => Some ∅ | _ => None end;
               entries ← decode_entries fuel' rest;
               Some (entry :: entries)
           end
  end.
Definition service_attr : string := "resource_attr:service.name".
Definition service_names (entries : list (gmap string string)) : list string :=
  omap (λ entry, entry !! service_attr) entries.
Definition services_query : string := "* | uniq by (" +:+ dquote +:+ service_attr +:+ dquote +:+ ")".
Definition services_filter (tenantID : string) : string :=
  dquote +:+ "resource_attr:" +:+ TenantLabelName +:+ dquote +:+ ":=" +:+ dquote +:+ tenantID +:+ dquote.

Definition encode_services (names : list string) : string :=
  struct_text [("data", encode_slice marshal_string (Some names)); ("limit", "0"); ("offset", "0");
               ("total", itoa (Z.of_nat (length names)))].

Definition services_inject (cfg : Config) (req : request) (idToken : IDToken) : outcome :=
  with_tenant idToken (λ tenantID,
    let query := v_set "query" services_query (v_set "extra_filters" (services_filter tenantID) (Query req)) in
    ProxyRequest backend (BuildURL (Scheme cfg) (Host cfg) "/select/logsql/query" (Encode query))
      (rq_method req) (post_body req) (λ r,
      Some match r with
      | Err e => unable
      | Ok resp =>
          if resp_status resp =? 200 then
            match b_err (resp_body resp) with
            | Some _ => Fail "unable to decode response" 500
            | None =>
                let text := b_text (resp_body resp) in
                match decode_entries (S (String.length text)) text with
                | None => Fail "unable to decode response" 500
                | Some entries => encoded (encode_services (service_names entries))
                end
            end
          else non_ok status_text resp
      end)).
Definition JaegerServicesHandler (cfg : Config) : Proxy :=
  {| config := cfg; HandleTenantInjection := services_inject cfg |}.
End handlers.
