(* ===== verification/AclServer.v ===== *)
(** cmd/acl: the ACL server put together, its handlers, routes and
    middleware. *)
From S2P Require Import Prelude Strings GoTime Json World Vlogs Server Acl Jaeger.
From Stdlib Require Import Ascii.

Open Scope string_scope.
Open Scope Z_scope.

(** The flags of the command that the handlers depend on. *)
Record AclFlags := {
  promxyHost : string; promxyScheme : string; logsHost : string; logsScheme : string;
  tracesHost : string; tracesScheme : string; developmentMode : bool; adminEmail : string;
  enableServerCORS : bool }.

Definition NotFoundHandler : Handler := λ _ _,
  replies {| rp_status := 404; rp_type := "text/plain"; rp_text := "404 - Page not found" +:+ newline |}.

Section server.
Context (backend : backend_request → result response) (status_text : response → string)
  (enforce : string → string → result string) (verify : string → option IDToken).
Context {Alert float : Type} (Alert_Labels : Alert → gmap string string) (Alert_State : Alert → string)
  (decode_alerts : body → result (@AlertsResponse Alert)) (encode_alerts : @AlertsResponse Alert → string)
  (decode_rules : body → result (@RulesResponse Alert float)) (encode_rules : @RulesResponse Alert float → string).
Context (flags : AclFlags).

Definition promxyConfig : Config :=
  {| Host := promxyHost flags; Scheme := promxyScheme flags; DevMode := developmentMode flags;
     AdminEmail := adminEmail flags |}.
Definition logsConfig : Config :=
  {| Host := logsHost flags; Scheme := logsScheme flags; DevMode := developmentMode flags;
     AdminEmail := adminEmail flags |}.
Definition tracesConfig : Config :=
  {| Host := tracesHost flags; Scheme := tracesScheme flags; DevMode := developmentMode flags;
     AdminEmail := adminEmail flags |}.

Definition acl_query : Handler := ACLProxy backend (PromxyQueryHandler backend enforce promxyConfig).
Definition acl_rules : Handler :=
  ACLProxy backend (PromxyRulesHandler backend status_text Alert_Labels Alert_State decode_rules
                      encode_rules promxyConfig).
Definition acl_alerts : Handler :=
  ACLProxy backend (PromxyAlertsHandler backend status_text Alert_Labels decode_alerts encode_alerts
                      promxyConfig).
Definition acl_buildinfo : Handler := λ req _,
  ProxyBypass backend req (PromxyQueryHandler backend enforce promxyConfig).
Definition acl_admin : Handler := AdminProxy backend (PromxyQueryHandler backend enforce promxyConfig).
Definition acl_logs : Handler := ACLProxy backend (logsHandler backend logsConfig).
Definition acl_services : Handler :=
  ACLProxy backend (JaegerServicesHandler backend status_text tracesConfig).
Definition acl_trace : Handler := ACLProxy backend (JaegerTraceHandler backend status_text tracesConfig).
Definition acl_traces : Handler := ACLProxy backend (JaegerTracesHandler backend tracesConfig).

(** The routes in the order they are added. *)
Definition acl_table : list (string * string * Handler) :=
  [("GET", "/metrics/api/v1/query_exemplars/*", acl_query);
   ("POST", "/metrics/api/v1/query_exemplars/*", acl_query);
   ("GET", "/metrics/api/v1/format_query/*", acl_query);
   ("POST", "/metrics/api/v1/format_query/*", acl_query);
   ("GET", "/metrics/api/v1/parse_query/*", acl_query);
   ("POST", "/metrics/api/v1/parse_query/*", acl_query);
   ("GET", "/metrics/api/v1/query_range/*", acl_query);
   ("POST", "/metrics/api/v1/query_range/*", acl_query);
   ("GET", "/metrics/api/v1/query/*", acl_query);
   ("POST", "/metrics/api/v1/query/*", acl_query);
   ("GET", "/metrics/api/v1/series/*", acl_query);
   ("POST", "/metrics/api/v1/series/*", acl_query);
   ("GET", "/metrics/api/v1/labels/*", acl_query);
   ("POST", "/metrics/api/v1/labels/*", acl_query);
   ("GET", "/metrics/api/v1/label/*", acl_query);
   ("GET", "/metrics/api/v1/rules/*", acl_rules);
   ("GET", "/metrics/api/v1/alerts/*", acl_alerts);
   ("GET", "/metrics/api/v1/status/buildinfo", acl_buildinfo);
   ("GET", "/metrics/api/v1/status/config", acl_admin);
   ("GET", "/metrics/api/v1/status/flags", acl_admin);
   ("GET", "/metrics/api/v1/status/runtimeinfo", acl_admin);
   ("GET", "/metrics/api/v1/status/tsdb", acl_admin);
   ("GET", "/metrics/api/v1/status/blocks", acl_admin);
   ("GET", "/logs/*", acl_logs);
   ("POST", "/logs/*", acl_logs);
   ("GET", "/traces/select/jaeger/api/services", acl_services);
   ("GET", "/traces/select/jaeger/api/traces/*", acl_trace);
   ("GET", "/traces/select/jaeger/api/traces", acl_traces)].
Definition add_routes {H} (table : list (string * string * H)) : routes H :=
  foldl (λ r t, addRoute t.1.1 t.1.2 t.2 r) ∅ table.

(** The middleware that acts on requests: SpanNameMiddleware and
    LoggingMiddleware only report. *)
Definition acl_middleware : list Middleware :=
  ([RecoveryMiddleware; AuthenticationMiddleware verify (developmentMode flags)]
   ++ (if enableServerCORS flags then [CORSMiddleware None] else []))%list.

(** One request to the ACL server. *)
Definition acl_server (visit : gmap string Handler → list (string * Handler)) (req : request) : outcome :=
  ServeHTTP visit (add_routes acl_table) NotFoundHandler acl_middleware req None.
End server.
