(* ===== verification/AclFacts.v ===== *)
(** What the ACL server guarantees: who gets anything forwarded, what a tenant
    can ask for and see, and where the isolation has holes. *)
From S2P Require Import Prelude Strings GoTime Json JsonFacts World Vlogs Server ServerFacts Acl.
From S2P Require Import Jaeger AclServer.
From Stdlib Require Import Ascii.

Open Scope string_scope.
Open Scope Z_scope.

(** * Routes *)

Lemma addRoute_lookup {H} (r : routes H) m p h m' p' :
  addRoute m p h r !! m' ≫= (λ rs, rs !! p')
  = if decide (m = m' ∧ p = p') then Some h else r !! m' ≫= (λ rs, rs !! p').
Proof.
  unfold addRoute. destruct (decide (m = m')) as [->|Hm].
  - rewrite lookup_insert_eq. cbn. destruct (decide (p = p')) as [->|Hp].
    + by rewrite decide_True, lookup_insert_eq.
    + rewrite decide_False, lookup_insert_ne by naive_solver. by destruct (r !! m').
  - rewrite lookup_insert_ne, decide_False by naive_solver. done.
Qed.

(** A route in the table of the router was added. *)
Lemma add_routes_elem {H} (table : list (string * string * H)) m p h :
  add_routes table !! m ≫= (λ rs, rs !! p) = Some h → (m, p, h) ∈ table.
Proof.
  unfold add_routes. induction table as [|[[m' p'] h'] l IH] using rev_ind; [done|].
  rewrite foldl_snoc, elem_of_app, list_elem_of_singleton, addRoute_lookup. cbn [fst snd].
  case_decide as E; [destruct E as [-> ->]; intros [= ->]; by right|]. left. by apply IH.
Qed.

Lemma findHandler_elem {H} visit (table : list (string * string * H)) m path p h :
  (∀ rs : gmap string H, visit rs ≡ₚ map_to_list rs) →
  findHandler visit (add_routes table) m path = Some (p, h) →
  (m, p, h) ∈ table ∧ (p = path ∨ isWildcardMatch p path = true).
Proof.
  intros Hv. unfold findHandler. destruct (add_routes table !! m) as [rs|] eqn:Em; [|done].
  assert (Hin : ∀ q k, rs !! q = Some k → (m, q, k) ∈ table).
  { intros q k Hq. apply add_routes_elem. by rewrite Em. }
  destruct (rs !! path) as [k|] eqn:Ep.
  - intros [= <- <-]. split; [by apply Hin|by left].
  - intros Hh. assert (Hf : (p, h) ∈ filter (λ kv, isWildcardMatch kv.1 path = true) (visit rs)).
    { destruct (filter _ _); [done|]. simpl in Hh. simplify_eq. by left. }
    apply list_elem_of_filter in Hf as [Hm Hf]. rewrite Hv in Hf. apply elem_of_map_to_list in Hf.
    split; [by apply Hin|by right].
Qed.

(** Whether a table is unambiguous does not depend on its handlers. *)
Lemma unambiguous_fmap {H K} (f : H → K) m : unambiguous (f <$> m) = unambiguous m.
Proof.
  unfold unambiguous. rewrite map_to_list_fmap, <-list_fmap_compose.
  done.
Qed.

Lemma add_routes_fmap {H K} (f : H → K) (table : list (string * string * H)) :
  add_routes (prod_map id f <$> table) = (λ rs : gmap string H, f <$> rs) <$> add_routes table.
Proof.
  unfold add_routes. induction table as [|[[m p] h] l IH] using rev_ind; [done|].
  rewrite fmap_app, !foldl_app. cbn. rewrite IH. unfold addRoute.
  rewrite fmap_insert, lookup_fmap, fmap_insert. do 2 f_equal. by destruct (foldl _ _ _ !! m).
Qed.

Definition unambiguous_table (table : list (string * string * unit)) : bool :=
  forallb (λ kv, unambiguous kv.2) (map_to_list (add_routes table)).

Lemma unambiguous_routes {H} (table : list (string * string * H)) m rs :
  unambiguous_table (prod_map id (λ _, tt) <$> table) = true →
  add_routes table !! m = Some rs → unambiguous rs = true.
Proof.
  intros Hall Hm. unfold unambiguous_table in Hall. rewrite forallb_forall in Hall.
  rewrite <-(unambiguous_fmap (λ _, tt)). refine (Hall (m, ((λ _ : H, tt) <$> rs) : gmap string unit) _).
  apply list_elem_of_In, elem_of_map_to_list. by rewrite add_routes_fmap, lookup_fmap, Hm.
Qed.

(** The pages about the state of Promxy. *)
Definition status_page (path : string) : bool := isWildcardMatch "/metrics/api/v1/status/*" path.

(** A tag of a trace, found in the map of its processes. *)
Lemma hasProcessTag_spec x key value :
  hasProcessTagWithValue x key value = true ↔
  ∃ k p ts tag, default ∅ (Processes x) !! k = Some p ∧ Tags p = Some ts
                ∧ tag ∈ ts ∧ kv_Key tag = key ∧ kv_Value tag = JStr value.
Proof.
  unfold hasProcessTagWithValue. rewrite existsb_exists. split.
  - intros ([k p] & Hin & Ht). apply list_elem_of_In, elem_of_map_to_list in Hin. cbn [snd] in Ht.
    destruct (Tags p) as [ts|] eqn:E; [|done]. apply existsb_exists in Ht as (tag & Hin' & Htag).
    unfold tag_is in Htag. apply andb_prop in Htag as [Hk Hv]. apply String.eqb_eq in Hk.
    destruct (kv_Value tag) eqn:Ev; try done. apply String.eqb_eq in Hv as ->.
    exists k, p, ts, tag. by rewrite list_elem_of_In.
  - intros (k & p & ts & tag & Hp & Ht & Hin & Hk & Hv). exists (k, p).
    split; [by apply list_elem_of_In, elem_of_map_to_list|]. cbn [snd]. rewrite Ht.
    apply existsb_exists. exists tag. split; [by apply list_elem_of_In|]. unfold tag_is.
    by rewrite Hk, Hv, !String.eqb_refl.
Qed.

Set Default Proof Using "Type".

Section acl.
Context (backend : backend_request → result response) (status_text : response → string)
  (enforce : string → string → result string) (verify : string → option IDToken).
Context {Alert float : Type} (Alert_Labels : Alert → gmap string string) (Alert_State : Alert → string)
  (decode_alerts : body → result (@AlertsResponse Alert)) (encode_alerts : @AlertsResponse Alert → string)
  (decode_rules : body → result (@RulesResponse Alert float)) (encode_rules : @RulesResponse Alert float → string).
Context (flags : AclFlags).

#[local] Notation table := (acl_table backend status_text enforce Alert_Labels Alert_State decode_alerts
  encode_alerts decode_rules encode_rules flags).
#[local] Notation server := (acl_server backend status_text enforce verify Alert_Labels Alert_State
  decode_alerts encode_alerts decode_rules encode_rules flags).

Lemma acl_unambiguous m rs : add_routes table !! m = Some rs → unambiguous rs = true.
Proof.
  apply unambiguous_routes. vm_compute. reflexivity.
Qed.

Lemma acl_unambiguous_method m : ∀ rs, add_routes table !! m = Some rs → unambiguous rs = true.
Proof. intros rs. apply acl_unambiguous. Qed.

(** * Who gets through *)

#[local] Opaque add_routes findHandler.

Lemma with_tenant_sent tok k br :
  br ∈ sent (with_tenant tok k) → ∃ t, ExtractTenantIDFromToken tok = Ok t ∧ br ∈ sent (k t).
Proof.
  unfold with_tenant. destruct (ExtractTenantIDFromToken tok) as [t|e]; [by eauto|].
  simpl. by intros ?%not_elem_of_nil.
Qed.

Lemma ProxyBypass_sent req p q :
  config p = config q → ProxyBypass backend req p = ProxyBypass backend req q.
Proof. intros E. unfold ProxyBypass. by rewrite E. Qed.

Lemma promxy_query_tenant cfg req tok br :
  br ∈ sent (promxy_query backend enforce cfg req tok) → ∃ t, ExtractTenantIDFromToken tok = Ok t.
Proof.
  unfold promxy_query, replies. intros H.
  repeat (case_match; simpl in H; try (by apply not_elem_of_nil in H); eauto).
Qed.

(** What the middleware lets through. *)
Lemma guarded_sent (h : Handler) req br :
  developmentMode flags = false → br ∈ sent (Chain h (acl_middleware verify flags) req None) →
  ∃ tok, verify (GetJwtTokenFromHeader req) = Some tok ∧ br ∈ sent (h req (Some tok)).
Proof.
  intros Hdev. unfold acl_middleware. cbn [app Chain].
  rewrite recovery_sent. unfold AuthenticationMiddleware. rewrite Hdev, andb_false_r.
  case_bool_decide as Ej; [by intros ?%not_elem_of_nil|].
  destruct (verify (GetJwtTokenFromHeader req)) as [tok|]; [|by intros ?%not_elem_of_nil].
  intros H. exists tok. split; [done|].
  destruct (enableServerCORS flags); [|exact H]. simpl in H. unfold CORSMiddleware in H.
  destruct (String.eqb (rq_method req) "OPTIONS"); [by apply not_elem_of_nil in H|exact H].
Qed.

Lemma ServeHTTP_sent visit (rs : routes Handler) req br :
  developmentMode flags = false →
  br ∈ sent (ServeHTTP visit rs NotFoundHandler (acl_middleware verify flags) req None) →
  ∃ tok, verify (GetJwtTokenFromHeader req) = Some tok
         ∧ ∃ p h, findHandler visit rs (rq_method req) (rq_path req) = Some (p, h)
                  ∧ br ∈ sent (h req (Some tok)).
Proof.
  intros Hdev H. apply guarded_sent in H as (tok & Hv & H); [|done]. exists tok. split; [done|].
  destruct (findHandler visit rs (rq_method req) (rq_path req)) as [[p h]|]; [by eauto|].
  by apply not_elem_of_nil in H.
Qed.

Lemma AdminProxy_sent p req tok br :
  DevMode (config p) = false → br ∈ sent (AdminProxy backend p req (Some tok)) →
  isAdminUser tok (AdminEmail (config p)) = true.
Proof.
  intros Hd. unfold AdminProxy. rewrite Hd. destruct (isAdminUser _ _); [done|].
  by intros ?%not_elem_of_nil.
Qed.

Lemma ACLProxy_sent p req tok br :
  (∀ br, br ∈ sent (HandleTenantInjection p req tok) → ∃ t, ExtractTenantIDFromToken tok = Ok t) →
  br ∈ sent (ACLProxy backend p req (Some tok)) →
  isAdminUser tok (AdminEmail (config p)) = true ∨ ∃ t, ExtractTenantIDFromToken tok = Ok t.
Proof.
  intros Ht. unfold ACLProxy. destruct (isAdminUser _ _); [by left|]. right. by eapply Ht.
Qed.
(** Each handler for tenants sends something only for an admin or a tenant. *)
Definition tenant_only (h : Handler) : Prop := ∀ req tok br,
  br ∈ sent (h req (Some tok)) →
  isAdminUser tok (adminEmail flags) = true ∨ ∃ t, ExtractTenantIDFromToken tok = Ok t.

Lemma with_tenant_only p :
  AdminEmail (config p) = adminEmail flags →
  (∀ req tok, ∃ k, HandleTenantInjection p req tok = with_tenant tok k) →
  tenant_only (ACLProxy backend p).
Proof.
  intros Ha Hk req tok br H. rewrite <-Ha. apply (ACLProxy_sent p req tok br); [|done].
  intros br' H'. destruct (Hk req tok) as [k E]. rewrite E in H'.
  apply with_tenant_sent in H' as (t & Ht & _). by exists t.
Qed.

Lemma acl_query_tenant : tenant_only (acl_query backend enforce flags).
Proof.
  intros req tok br H. apply (ACLProxy_sent (PromxyQueryHandler backend enforce (promxyConfig flags)) req tok br); [|done].
  intros br' H'. by apply (promxy_query_tenant (promxyConfig flags) req tok br').
Qed.

Lemma acl_tenant_handlers :
  Forall tenant_only
    [acl_query backend enforce flags;
     acl_rules backend status_text Alert_Labels Alert_State decode_rules encode_rules flags;
     acl_alerts backend status_text Alert_Labels decode_alerts encode_alerts flags;
     acl_logs backend flags; acl_services backend status_text flags; acl_trace backend status_text flags;
     acl_traces backend flags].
Proof.
  repeat apply Forall_cons_2; [by apply acl_query_tenant|..|by apply Forall_nil];
    (apply with_tenant_only; [reflexivity|intros req tok; eexists; reflexivity]).
Qed.

(** Every route is one of three kinds. *)
Inductive route_kind (p : string) (h : Handler) : Prop :=
  | route_buildinfo (Hp : p = "/metrics/api/v1/status/buildinfo")
  | route_admin (Hh : h = acl_admin backend enforce flags)
  | route_tenant (Hh : tenant_only h) (Hp : overlap p "/metrics/api/v1/status/*" = false).

Lemma acl_table_kinds m p h : (m, p, h) ∈ table → route_kind p h.
Proof.
  pose proof acl_tenant_handlers as Hall. unfold acl_table.
  repeat (apply Forall_cons in Hall as [?H Hall]). clear Hall.
  intros Hin. repeat (apply elem_of_cons in Hin as [Hin|Hin]; [injection Hin as -> -> ->|]);
    try (by apply not_elem_of_nil in Hin);
    first [by apply route_tenant; [assumption|vm_compute; reflexivity] | by apply route_admin | by apply route_buildinfo].
Qed.


(** the answer of the ACL server does not depend on the order in which
    Go visits the map of routes: no two patterns with a star overlap, and
    exact paths are looked up first. *)
Theorem acl_server_deterministic visit visit' req :
  (∀ rs : gmap string Handler, visit rs ≡ₚ map_to_list rs) →
  (∀ rs : gmap string Handler, visit' rs ≡ₚ map_to_list rs) →
  server visit req = server visit' req.
Proof.
  intros Hv Hv'. unfold acl_server, ServeHTTP.
  rewrite (findHandler_order visit visit'); [reflexivity|exact Hv|exact Hv'|apply acl_unambiguous_method].
Qed.

(** in production a request without a bearer token, or with one the
    provider does not verify, is answered 401 and nothing is sent to a
    backend, whatever its method and path; so are CORS preflights, which
    carry no token, because authentication comes before the CORS middleware. *)
Theorem acl_unauthenticated visit req :
  developmentMode flags = false →
  GetJwtTokenFromHeader req = "" ∨ verify (GetJwtTokenFromHeader req) = None →
  server visit req = replies (Fail "Unauthorized" 401).
Proof.
  intros Hdev Ht. unfold acl_server, ServeHTTP.
  generalize (match findHandler visit (add_routes table) (rq_method req) (rq_path req) with
              | Some (_, h) => h | None => NotFoundHandler end) as h. intros h.
  unfold acl_middleware. cbn [app Chain]. unfold RecoveryMiddleware, AuthenticationMiddleware.
  rewrite Hdev, andb_false_r. case_bool_decide as Ej; [reflexivity|].
  destruct Ht as [Ht|Ht]; [done|]. by rewrite Ht.
Qed.

(** every request to the ACL server gets a reply, also when its handler
    panics. *)
Theorem acl_server_replies visit req : is_Some (rep (server visit req)).
Proof. apply recovery_replies. Qed.

(** * What a tenant can ask for *)

(** The requests of the metrics handler. *)
Lemma promxy_query_sent cfg req tok br :
  br ∈ sent (promxy_query backend enforce cfg req tok) →
  ∃ query0 p query1 t v', extractQuery req = Ok query0
    ∧ choose_param (rq_path req) query0 = Some (p, query1)
    ∧ ExtractTenantIDFromToken tok = Ok t ∧ enforce t (v_get query1 p) = Ok v'
    ∧ br = let url q := BuildURL (Scheme cfg) (Host cfg) (trim_prefix "/metrics" (rq_path req)) (Encode q) in
           if String.eqb (rq_method req) "POST"
           then {| br_method := rq_method req; br_url := url (Query req);
                   br_body := Some (text_body (Encode (v_set p v' query1))) |}
           else {| br_method := rq_method req; br_url := url (v_set p v' query1); br_body := None |}.
Proof.
  unfold promxy_query, replies, injectTenantIDLabel. intros H.
  destruct (extractQuery req) as [query0|e];
    [|case_match; by apply not_elem_of_nil in H].
  destruct (choose_param (rq_path req) query0) as [[p query1]|] eqn:Ec; [|by apply not_elem_of_nil in H].
  destruct (ExtractTenantIDFromToken tok) as [t|e]; [|by apply not_elem_of_nil in H].
  destruct (enforce t (v_get query1 p)) as [v'|e] eqn:Ee; [|by apply not_elem_of_nil in H].
  exists query0, p, query1, t, v'. do 4 (split; [done|]).
  destruct (String.eqb (rq_method req) "POST"); by apply list_elem_of_singleton in H.
Qed.

Lemma extractQuery_well_formed req q : extractQuery req = Ok q → well_formed q.
Proof.
  unfold extractQuery, ParseQuery. intros H. destruct (String.eqb _ _).
  - apply rbind_ok in H as (text & _ & H). destruct (query_ok text); [|done].
    injection H as <-. auto with kof.
  - injection H as <-. apply well_formed_parse.
Qed.

Lemma choose_param_cases path q0 p q1 :
  choose_param path q0 = Some (p, q1) →
  p = "query" ∧ q1 = q0 ∧ is_Some (q0 !! "query")
  ∨ p = "match[]" ∧ q0 !! "query" = None
    ∧ (q1 = q0 ∧ is_Some (q0 !! "match[]")
       ∨ q1 = v_set "match[]" ("{__name__=~" +:+ dquote +:+ ".+" +:+ dquote +:+ "}") q0
         ∧ q0 !! "match[]" = None ∧ contains "query" path = false).
Proof.
  unfold choose_param, v_has, isQueryEndpoint. case_bool_decide as E1; [intros [= <- <-]; by left|].
  apply eq_None_not_Some in E1.
  case_bool_decide as E2; [intros [= <- <-]; right; auto|]. apply eq_None_not_Some in E2.
  destruct (contains "query" path); [done|]. intros [= <- <-]. right. split_and!; auto.
Qed.

(** The parameters a metrics request is asked with: those of the body of a
    POST, of the URL otherwise. *)
Definition params (req : request) : values :=
  if String.eqb (rq_method req) "POST" then parse_values (b_text (rq_body req)) else Query req.

Lemma extractQuery_params req q : extractQuery req = Ok q → q = params req.
Proof.
  unfold extractQuery, params, read_limited, ParseQuery. destruct (String.eqb _ _); [|by intros [= <-]].
  intros (text & Ht & H)%rbind_ok. repeat case_match; by simplify_eq.
Qed.

(** C4: What the metrics handler forwards for a tenant is the request with one
    parameter replaced by what the enforcer makes of its first value for the
    tenant: the query if there is one; otherwise the selectors, where a request
    without any, whose path is not that of a query, asks for everything of the
    tenant.  The restricted parameters are in the body of a POST, in the URL
    otherwise.  Nothing else is restricted: selectors beside a query, and the
    parameters in the URL of a POST, which a comment of the code says are
    cleared, are forwarded as the user wrote them. *)
Theorem promxy_query_restricted cfg req tok br :
  br ∈ sent (promxy_query backend enforce cfg req tok) →
  ∃ t p v v', ExtractTenantIDFromToken tok = Ok t ∧ enforce t v = Ok v'
    ∧ (p = "query" ∧ is_Some (params req !! "query") ∧ v = v_get (params req) "query"
       ∨ p = "match[]" ∧ params req !! "query" = None
         ∧ (is_Some (params req !! "match[]") ∧ v = v_get (params req) "match[]"
            ∨ params req !! "match[]" = None ∧ contains "query" (rq_path req) = false
              ∧ v = "{__name__=~" +:+ dquote +:+ ".+" +:+ dquote +:+ "}"))
    ∧ parse_values (Encode (<[p := [v']]> (params req))) = <[p := [v']]> (params req)
    ∧ br_method br = rq_method req
    ∧ if String.eqb (rq_method req) "POST"
      then br_url br = BuildURL (Scheme cfg) (Host cfg) (trim_prefix "/metrics" (rq_path req)) (Encode (Query req))
           ∧ br_body br = Some (text_body (Encode (<[p := [v']]> (params req))))
      else br_url br = BuildURL (Scheme cfg) (Host cfg) (trim_prefix "/metrics" (rq_path req))
                         (Encode (<[p := [v']]> (params req)))
           ∧ br_body br = None.
Proof.
  intros H. apply promxy_query_sent in H as (q0 & p & q1 & t & v' & Hx & Hc & Ht & Hv & ->).
  pose proof (extractQuery_well_formed _ _ Hx) as Hw. apply extractQuery_params in Hx as ->.
  assert (Hq : v_set p v' q1 = <[p := [v']]> (params req)).
  { apply choose_param_cases in Hc as [(-> & -> & _)|(-> & _ & [[-> _]|(-> & _)])]; unfold v_set; [done..|].
    by rewrite insert_insert_eq. }
  exists t, p, (v_get q1 p), v'. rewrite <-Hq. do 2 (split; [done|]). split.
  { apply choose_param_cases in Hc as [(-> & -> & ?)|(-> & ? & [[-> ?]|(-> & ? & ?)])]; [by left|right..].
    - split_and!; auto.
    - split_and!; try done. right. split_and!; try done. unfold v_get, v_set. by rewrite lookup_insert_eq. }
  split; [|by destruct (String.eqb (rq_method req) "POST")].
  rewrite Hq. apply parse_values_Encode. change (well_formed (v_set p v' (params req))).
  apply well_formed_set.
  apply choose_param_cases in Hc as [(-> & _)|(-> & _)]; auto with kof.
Qed.

(** the selectors of a request that also has a query are not enforced:
    they go to the backend as the user wrote them, on every path, so the
    series and labels endpoints, which read only the selectors, answer for any
    tenant. *)
Theorem match_with_query_unrestricted cfg req tok t v' :
  rq_method req = "GET" →
  is_Some (Query req !! PrometheusQueryParamName) →
  ExtractTenantIDFromToken tok = Ok t →
  enforce t (v_get (Query req) PrometheusQueryParamName) = Ok v' →
  ∃ q, sent (promxy_query backend enforce cfg req tok)
       = [{| br_method := "GET";
             br_url := BuildURL (Scheme cfg) (Host cfg) (trim_prefix "/metrics" (rq_path req)) (Encode q);
             br_body := None |}]
       ∧ parse_values (Encode q) = q
       ∧ q !! PrometheusMatchParamName = Query req !! PrometheusMatchParamName.
Proof.
  intros Hm Hq Ht Hv. exists (v_set PrometheusQueryParamName v' (Query req)). split.
  - unfold promxy_query, extractQuery. rewrite Hm. cbn [String.eqb Ascii.eqb Bool.eqb].
    unfold choose_param, v_has. rewrite bool_decide_eq_true_2 by done.
    unfold injectTenantIDLabel. by rewrite Ht, Hv.
  - split; [apply parse_values_Encode; auto with kof|]. unfold v_set. by rewrite lookup_insert_ne.
Qed.

(** The URL query that the logs and services handlers send. *)
Lemma v_set_parse q k x : well_formed q →
  parse_values (Encode (v_set k x q)) = v_set k x q.
Proof. intros Hw. apply parse_values_Encode. auto with kof. Qed.

(** C25: What the logs handler forwards for a tenant is the request with the
    filter of the tenant as the only extra filter of its URL, and the other
    parameters of the URL as the user gave them.  The body of a POST is the
    user's, and extra filters in it are not looked at. *)
Theorem logs_filtered cfg req tok br :
  br ∈ sent (logs_inject backend cfg req tok) →
  ∃ t q, ExtractTenantIDFromToken tok = Ok t
    ∧ q = <["extra_filters" := ["tenant:=" +:+ dquote +:+ t +:+ dquote]]> (Query req)
    ∧ parse_values (Encode q) = q
    ∧ br = {| br_method := rq_method req;
              br_url := BuildURL (Scheme cfg) (Host cfg) (trim_prefix "/logs" (rq_path req)) (Encode q);
              br_body := if String.eqb (rq_method req) "POST" then Some (rq_body req) else None |}.
Proof.
  intros H. apply with_tenant_sent in H as (t & Ht & H). apply list_elem_of_singleton in H as ->.
  eexists t, _. split; [done|]. split; [reflexivity|]. split; [|done].
  apply (v_set_parse (Query req) "extra_filters"). apply well_formed_Query.
Qed.

(** C26: a search for traces is forwarded only with the tenant attribute of
    the user among the tags, whatever tags the request had: the backend
    decodes the tags to the request's with that one set. *)
Theorem traces_tags_enforced cfg req tok br :
  br ∈ sent (traces_inject backend cfg req tok) →
  ∃ t tags q x, ExtractTenantIDFromToken tok = Ok t
    ∧ decode_tags (v_get (Query req) "tags") = TagMap tags
    ∧ br_url br = BuildURL (Scheme cfg) (Host cfg) (trim_prefix "/traces" (rq_path req)) (Encode q)
    ∧ parse_values (Encode q) = q ∧ q !! "tags" = Some [x]
    ∧ (utf8_valid t = true → map_Forall (λ k v, utf8_valid k = true ∧ utf8_valid v = true) tags →
       unmarshal_flat x = Some (<[tenant_attr := t]> tags)).
Proof.
  intros H. apply with_tenant_sent in H as (t & Ht & H).
  destruct (decode_tags (v_get (Query req) "tags")) as [| |tags]; [by apply not_elem_of_nil in H..|].
  apply list_elem_of_singleton in H as ->.
  eexists t, tags, _, _. split; [done|]. split; [done|]. split; [reflexivity|].
  split; [apply v_set_parse, well_formed_Query|]. split; [apply lookup_insert_eq|].
  intros Hut Htags. apply unmarshal_marshal_flat. apply map_Forall_insert_2; [|done]. by split.
Qed.

(** The tags null make the map nil, and the handler panics. *)
Lemma traces_null_tags cfg req tok t :
  ExtractTenantIDFromToken tok = Ok t → v_get (Query req) "tags" = "null" →
  traces_inject backend cfg req tok = panics.
Proof. intros Ht Hq. unfold traces_inject, with_tenant. by rewrite Ht, Hq. Qed.

(** * What a tenant can see *)

Lemma filterAlertsByTenant_spec alerts t x :
  x ∈ filterAlertsByTenant Alert_Labels alerts t ↔
  x ∈ alerts ∧ ∃ a, x = Some a ∧ Alert_Labels a !! TenantLabelName = Some t.
Proof.
  unfold filterAlertsByTenant. rewrite list_elem_of_filter. destruct x as [a|].
  - rewrite bool_decide_eq_true. split.
    + intros [H1 H2]. split; [done|]. by exists a.
    + intros (H1 & b & [= <-] & H2). done.
  - split; [by intros [? _]|]. by intros (_ & b & ? & _).
Qed.

(** the alerts a tenant is answered are those of Promxy's answer that
    carry the label of the tenant, in their order. *)
Theorem alerts_of_tenant cfg req tok r :
  rep (alerts_inject backend status_text Alert_Labels decode_alerts encode_alerts cfg req tok) = Some r →
  rp_status r = 200 →
  ∃ t br resp alerts, ExtractTenantIDFromToken tok = Ok t
    ∧ sent (alerts_inject backend status_text Alert_Labels decode_alerts encode_alerts cfg req tok) = [br]
    ∧ backend br = Ok resp
    ∧ decode_alerts (resp_body resp) = Ok alerts
    ∧ ∃ mine, rp_text r = encode_alerts {| as_Status := as_Status alerts; as_Alerts := mine |} +:+ newline
              ∧ mine `sublist_of` as_Alerts alerts
              ∧ ∀ x, x ∈ mine ↔ x ∈ as_Alerts alerts
                                ∧ ∃ a, x = Some a ∧ Alert_Labels a !! TenantLabelName = Some t.
Proof.
  unfold alerts_inject, with_tenant. destruct (ExtractTenantIDFromToken tok) as [t|e]; [|by intros [= <-]].
  unfold ProxyRequest. cbn [rep]. set (br := Build_backend_request _ _ _).
  intros [= <-]. destruct (backend br) as [resp|e] eqn:Eb; [|done].
  destruct (resp_status resp =? 200) eqn:Es; [|intros Hs; cbn in Hs; by rewrite Hs in Es].
  destruct (decode_alerts (resp_body resp)) as [alerts|e] eqn:Ed; [|done]. intros _.
  exists t, br, resp, alerts. do 4 (split; [done|]).
  exists (filterAlertsByTenant Alert_Labels (as_Alerts alerts) t). split; [done|].
  split; [apply sublist_filter|]. intros x. apply filterAlertsByTenant_spec.
Qed.

(** What the rules handler makes of one rule: alerting rules keep the alerts
    of the tenant, and their state is the highest state among those. *)
Definition rule_for (t : string) (old new : @AlertRule Alert float) : Prop :=
  if String.eqb (ar_Type old) "alerting" then
    ar_Alerts new = filterAlertsByTenant Alert_Labels (ar_Alerts old) t
    ∧ (ar_State new = "inactive" ↔ ar_Alerts new = [])
    ∧ (ar_State new = "firing" ↔
       ∃ a, Some a ∈ ar_Alerts old ∧ Alert_Labels a !! TenantLabelName = Some t ∧ Alert_State a = "firing")
    ∧ (ar_State new = "pending" ∨ ar_State new = "firing" ∨ ar_State new = "inactive")
    ∧ (ar_Name new, ar_Query new, ar_Labels new, ar_Type new)
      = (ar_Name old, ar_Query old, ar_Labels old, ar_Type old)
  else new = old.

Lemma filter_rule_spec t old : rule_for t old (filter_rule Alert_Labels Alert_State t old).
Proof.
  clear verify enforce.
  unfold rule_for, filter_rule. destruct (String.eqb (ar_Type old) "alerting"); [|done].
  cbn [ar_Alerts ar_State ar_Name ar_Query ar_Labels ar_Type].
  set (mine := filterAlertsByTenant Alert_Labels (ar_Alerts old) t).
  assert (Hf : existsb (is_firing Alert_State) mine = true ↔
    ∃ a, Some a ∈ ar_Alerts old ∧ Alert_Labels a !! TenantLabelName = Some t ∧ Alert_State a = "firing").
  { rewrite existsb_exists. split.
    - intros ([a|] & Hin & Ha); [|done]. apply list_elem_of_In, filterAlertsByTenant_spec in Hin.
      destruct Hin as (Hin & b & [= <-] & Hl). exists a. split; [done|]. split; [done|].
      by apply String.eqb_eq.
    - intros (a & Hin & Hl & Ha). exists (Some a). split; [|by apply String.eqb_eq].
      apply list_elem_of_In, filterAlertsByTenant_spec. eauto. }
  split; [done|]. unfold rule_state. rewrite <-Hf.
  case_bool_decide as Em; [rewrite Em; simpl; naive_solver|].
  destruct (existsb (is_firing Alert_State) mine); naive_solver.
Qed.

Definition group_for (t : string) (old new : option (@RuleGroup Alert float)) : Prop :=
  match old, new with
  | Some g, Some g' =>
      rg_Name g' = rg_Name g ∧ rg_File g' = rg_File g
      ∧ Forall2 (λ r r', ∃ o n, r = Some o ∧ r' = Some n ∧ rule_for t o n) (rg_Rules g) (rg_Rules g')
  | _, _ => False
  end.

Lemma mapM_id_Some {A} (l : list (option A)) k : mapM id l = Some k → l = Some <$> k.
Proof.
  revert k. induction l as [|[x|] l IH]; intros k; cbn; [by intros [= <-]| |done].
  destruct (mapM id l) as [k'|]; [|done]. intros [= <-]. by rewrite (IH k').
Qed.

Lemma filter_group_spec t old new : filter_group Alert_Labels Alert_State t old = Some new → group_for t old new.
Proof.
  unfold filter_group. destruct old as [g|]; [|done]. destruct (mapM id (rg_Rules g)) as [rules|] eqn:E; [|done].
  intros [= <-]. cbn. do 2 (split; [done|]). rewrite (mapM_id_Some _ _ E).
  apply Forall2_fmap_l, Forall2_fmap_r, Forall_Forall2_diag, Forall_true. intros r.
  eexists _, _. do 2 (split; [done|]). apply filter_rule_spec.
Qed.

(** the rules a tenant is answered are those of Promxy, group by group
    and rule by rule; an alerting rule keeps the alerts of the tenant only,
    is firing exactly when one of those is, and inactive exactly when there
    are none. *)
Theorem rules_of_tenant cfg req tok r :
  let o := rules_inject backend status_text Alert_Labels Alert_State decode_rules encode_rules cfg req tok in
  rep o = Some r → rp_status r = 200 →
  ∃ t br resp rules groups, ExtractTenantIDFromToken tok = Ok t ∧ sent o = [br] ∧ backend br = Ok resp
    ∧ decode_rules (resp_body resp) = Ok rules
    ∧ rp_text r = encode_rules {| rs_Status := rs_Status rules; rs_Groups := groups |} +:+ newline
    ∧ Forall2 (group_for t) (rs_Groups rules) groups.
Proof.
  cbv zeta. unfold rules_inject, with_tenant.
  destruct (ExtractTenantIDFromToken tok) as [t|e]; [|by intros [= <-]].
  unfold ProxyRequest. cbn [rep sent]. set (br := Build_backend_request _ _ _).
  destruct (backend br) as [resp|e] eqn:Eb; [|by intros [= <-]].
  destruct (resp_status resp =? 200) eqn:Es; [|by intros [= <-] Hs; cbn in Hs; rewrite Hs in Es].
  destruct (decode_rules (resp_body resp)) as [rules|e] eqn:Ed; [|by intros [= <-]].
  destruct (mapM (filter_group Alert_Labels Alert_State t) (rs_Groups rules)) as [groups|] eqn:Eg; [|done].
  intros [= <-] _. exists t, br, resp, rules, groups. do 5 (split; [done|]).
  apply mapM_Some in Eg. eapply Forall2_impl; [exact Eg|]. intros g g'. apply filter_group_spec.
Qed.

(** C27: the traces a tenant is answered are those of the backend's answer in
    which some process has the tag of the tenant, in their order, and the
    total is their number. *)
Theorem traces_of_tenant cfg req tok r :
  let o := trace_inject backend status_text cfg req tok in
  rep o = Some r → rp_status r = 200 →
  ∃ t br resp result traces mine, ExtractTenantIDFromToken tok = Ok t ∧ sent o = [br] ∧ backend br = Ok resp
    ∧ decode_response (b_text (resp_body resp)) = Some result
    ∧ default [] (Data result) = Some <$> traces
    ∧ rp_text r = encode_response {| Data := Some (Some <$> mine); Errors := Errors result;
                                     Limit := Limit result; Offset := Offset result;
                                     Total := Z.of_nat (length mine) |} +:+ newline
    ∧ mine `sublist_of` traces
    ∧ ∀ x, x ∈ mine ↔ x ∈ traces ∧ ∃ k p ts tag, default ∅ (Processes x) !! k = Some p ∧ Tags p = Some ts
                        ∧ tag ∈ ts ∧ kv_Key tag = TenantLabelName ∧ kv_Value tag = JStr t.
Proof.
  clear verify enforce. cbv zeta. unfold trace_inject, with_tenant.
  destruct (ExtractTenantIDFromToken tok) as [t|e]; [|by intros [= <-]].
  unfold ProxyRequest. cbn [rep sent]. set (br := Build_backend_request _ _ _).
  destruct (backend br) as [resp|e] eqn:Eb; [|by intros [= <-]].
  destruct (resp_status resp =? 200) eqn:Es; [|by intros [= <-] Hs; cbn in Hs; rewrite Hs in Es].
  destruct (b_err (resp_body resp)); [by intros [= <-]|].
  destruct (decode_response (b_text (resp_body resp))) as [result|] eqn:Ed; [|by intros [= <-]].
  unfold filter_traces. destruct (mapM id (default [] (Data result))) as [traces|] eqn:Em; [|done].
  cbn [mbind option_bind]. intros [= <-] _.
  exists t, br, resp, result, traces, (filter (λ x, hasProcessTagWithValue x TenantLabelName t = true) traces).
  do 4 (split; [done|]). split; [by apply mapM_id_Some|]. split; [by rewrite length_fmap|].
  split; [apply sublist_filter|]. intros x. rewrite list_elem_of_filter, hasProcessTag_spec. naive_solver.
Qed.
End acl.

(** * Witnesses *)

Definition demo_flags : AclFlags :=
  {| promxyHost := "promxy:8082"; promxyScheme := "http"; logsHost := "logs:9471"; logsScheme := "http";
     tracesHost := "traces:10471"; tracesScheme := "http"; developmentMode := false;
     adminEmail := "admin@example.com"; enableServerCORS := true |}.
Definition demo_token : IDToken :=
  {| tok_claims := marshal (JObj [("groups", JArr [JStr "dev"; JStr "tenant:acme"])]) |}.
Definition demo_verify (t : string) : option IDToken := if String.eqb t "good" then Some demo_token else None.
Definition demo_backend (b : backend_request) : result response :=
  Ok {| resp_status := 200;
        resp_body := text_body (marshal (JObj [("data", JArr [
          JObj [("traceID", JStr "t1"); ("spans", JArr []); ("processes", JObj [("p1",
            JObj [("tags", JArr [JObj [("key", JStr "tenant"); ("value", JStr "acme")]])])])];
          JObj [("traceID", JStr "t2"); ("spans", JArr []); ("processes", JObj [])]])])) |}.
Definition demo_status (r : response) : string := "200 OK".
Definition demo_enforce (t q : string) : result string := Ok (t +:+ "/" +:+ q).
(** An alert is its labels and its state. *)
Definition demo_alert : Type := gmap string string * string.
Definition demo_alerts (b : body) : result (@AlertsResponse demo_alert) :=
  Ok {| as_Status := "success"; as_Alerts := [Some ({[ "tenant" := "acme" ]}, "firing");
                                              Some ({[ "tenant" := "other" ]}, "firing"); None] |}.
Definition demo_encode_alerts (a : @AlertsResponse demo_alert) : string :=
  itoa (Z.of_nat (length (as_Alerts a))).
Definition demo_rule : @AlertRule demo_alert unit :=
  {| ar_State := "firing"; ar_Name := "r"; ar_Query := "up"; ar_Duration := tt; ar_Labels := ∅;
     ar_Annotations := ∅; ar_Alerts := [Some ({[ "tenant" := "other" ]}, "firing")]; ar_Health := "ok";
     ar_EvaluationTime := tt; ar_LastEvaluation := ""; ar_Type := "alerting" |}.
Definition demo_rules (b : body) : result (@RulesResponse demo_alert unit) :=
  Ok {| rs_Status := "success";
        rs_Groups := [Some {| rg_EvaluationTime := tt; rg_File := "f"; rg_Interval := tt;
                              rg_LastEvaluation := ""; rg_Limit := 0; rg_Name := "g";
                              rg_Rules := [Some demo_rule] |}] |}.
Definition demo_encode_rules (r : @RulesResponse demo_alert unit) : string :=
  join "," ((λ g, match g with
                  | Some g => join "," ((λ r, match r with Some r => ar_State r | None => "" end) <$> rg_Rules g)
                  | None => ""
                  end) <$> rs_Groups r).
#[local] Notation demo_server := (acl_server demo_backend demo_status demo_enforce demo_verify fst snd
  demo_alerts demo_encode_alerts demo_rules demo_encode_rules demo_flags map_to_list).
Definition demo_request (path query auth : string) : request :=
  {| rq_method := "GET"; rq_path := path; rq_query := query; rq_body := text_body ""; rq_auth := auth |}.
Definition demo_cfg : Config := promxyConfig demo_flags.

(** The run of one request of each kind. *)
Example demo_replies :
  (rp_text <$> rep (demo_server (demo_request "/metrics/api/v1/rules/" "" "Bearer good"))) = Some ("inactive" +:+ newline)
  ∧ (rp_text <$> rep (demo_server (demo_request "/metrics/api/v1/alerts/" "" "Bearer good"))) = Some ("1" +:+ newline)
  ∧ (rp_status <$> rep (demo_server (demo_request "/metrics/api/v1/status/flags" "" "Bearer good"))) = Some 403
  ∧ (rp_status <$> rep (demo_server (demo_request "/traces/select/jaeger/api/traces" "tags=null" "Bearer good"))) = Some 500
  ∧ (rp_status <$> rep (demo_server (demo_request "/nothing" "" "Bearer good"))) = Some 404.
Proof. by vm_compute. Qed.

Definition demo_logs : request := demo_request "/logs/select/logsql/query" "query=error" "Bearer good".
Definition demo_logs_sent : backend_request :=
  {| br_method := "GET";
     br_url := "http://logs:9471/select/logsql/query?extra_filters=tenant%3A%3D%22acme%22&query=error";
     br_body := None |}.

Lemma acl_server_deterministic_witness :
  demo_server demo_logs
  = acl_server demo_backend demo_status demo_enforce demo_verify fst snd demo_alerts demo_encode_alerts
      demo_rules demo_encode_rules demo_flags (λ m, reverse (map_to_list m)) demo_logs.
Proof.
  apply acl_server_deterministic; intros rs; [reflexivity|apply reverse_Permutation].
Defined.

Lemma acl_unauthenticated_witness :
  demo_server (demo_request "/metrics/api/v1/query/" "query=up" "Bearer bad")
  = replies (Fail "Unauthorized" 401).
Proof. apply acl_unauthenticated; [reflexivity|]. right. reflexivity. Defined.

Definition demo_query : request :=
  demo_request "/metrics/api/v1/series/" "query=up&match[]=secret" "Bearer good".

(** A POST of a query, with a selector in the URL that stays. *)
Definition demo_post : request :=
  {| rq_method := "POST"; rq_path := "/metrics/api/v1/query/"; rq_query := "match[]=secret";
     rq_body := text_body "query=up"; rq_auth := "Bearer good" |}.
Definition demo_post_sent : backend_request :=
  {| br_method := "POST"; br_url := "http://promxy:8082/api/v1/query/?match%5B%5D=secret";
     br_body := Some (text_body "query=acme%2Fup") |}.
Lemma demo_post_out : sent (promxy_query demo_backend demo_enforce demo_cfg demo_post demo_token) = [demo_post_sent].
Proof. by vm_compute. Qed.

Lemma promxy_query_restricted_witness :
  ∃ t p v v', ExtractTenantIDFromToken demo_token = Ok t ∧ demo_enforce t v = Ok v'
    ∧ p = "query" ∧ v = "up"
    ∧ br_url demo_post_sent = "http://promxy:8082/api/v1/query/?match%5B%5D=secret"
    ∧ br_body demo_post_sent = Some (text_body (Encode (<[p := [v']]> (params demo_post)))).
Proof.
  destruct (promxy_query_restricted demo_backend demo_enforce demo_cfg demo_post demo_token demo_post_sent)
    as (t & p & v & v' & Ht & Hv & [(Hp & _ & Hq)|(_ & Hn & _)] & _ & _ & _ & Hb).
  - pose proof demo_post_out as E. rewrite E. left.
  - exists t, p, v, v'. split; [exact Ht|]. split; [exact Hv|]. split; [exact Hp|].
    split; [rewrite Hq; vm_compute; reflexivity|]. split; [reflexivity|exact Hb].
  - vm_compute in Hn. discriminate.
Defined.

Lemma match_with_query_unrestricted_witness :
  ∃ q, sent (promxy_query demo_backend demo_enforce demo_cfg demo_query demo_token)
       = [{| br_method := "GET"; br_url := BuildURL "http" "promxy:8082" "/api/v1/series/" (Encode q);
             br_body := None |}]
       ∧ parse_values (Encode q) = q
       ∧ q !! PrometheusMatchParamName = Query demo_query !! PrometheusMatchParamName.
Proof.
  apply (match_with_query_unrestricted demo_backend demo_enforce demo_cfg demo_query demo_token "acme" "acme/up");
    [reflexivity|eexists; vm_compute; reflexivity|vm_compute; reflexivity|vm_compute; reflexivity].
Defined.

Lemma logs_filtered_witness :
  ∃ t q, ExtractTenantIDFromToken demo_token = Ok t
    ∧ q = <["extra_filters" := ["tenant:=" +:+ dquote +:+ t +:+ dquote]]> (Query demo_logs)
    ∧ parse_values (Encode q) = q
    ∧ demo_logs_sent = {| br_method := "GET";
                          br_url := BuildURL "http" "logs:9471" "/select/logsql/query" (Encode q);
                          br_body := None |}.
Proof.
  assert (E : sent (logs_inject demo_backend (logsConfig demo_flags) demo_logs demo_token) = [demo_logs_sent])
    by (vm_compute; reflexivity).
  apply (logs_filtered demo_backend (logsConfig demo_flags) demo_logs demo_token demo_logs_sent).
  rewrite E. left.
Defined.

Definition demo_tags : request := demo_request "/traces/select/jaeger/api/traces" "" "Bearer good".
Definition demo_tags_sent : backend_request :=
  {| br_method := "GET";
     br_url := "http://traces:10471/select/jaeger/api/traces?tags=%7B%22resource_attr%3Atenant%22%3A%22acme%22%7D";
     br_body := None |}.
Lemma traces_tags_enforced_witness :
  ∃ t tags q x, ExtractTenantIDFromToken demo_token = Ok t
    ∧ decode_tags (v_get (Query demo_tags) "tags") = TagMap tags
    ∧ br_url demo_tags_sent = BuildURL "http" "traces:10471" "/select/jaeger/api/traces" (Encode q)
    ∧ parse_values (Encode q) = q ∧ q !! "tags" = Some [x]
    ∧ (utf8_valid t = true → map_Forall (λ k v, utf8_valid k = true ∧ utf8_valid v = true) tags →
       unmarshal_flat x = Some (<[tenant_attr := t]> tags)).
Proof.
  assert (E : sent (traces_inject demo_backend (tracesConfig demo_flags) demo_tags demo_token) = [demo_tags_sent])
    by (vm_compute; reflexivity).
  apply (traces_tags_enforced demo_backend (tracesConfig demo_flags) demo_tags demo_token demo_tags_sent).
  rewrite E. left.
Defined.

Definition demo_get (path : string) : request := demo_request path "" "Bearer good".
Definition alerts_reply : reply := SendJson "1" 200.
Lemma alerts_of_tenant_witness :
  ∃ t br resp alerts, ExtractTenantIDFromToken demo_token = Ok t
    ∧ sent (alerts_inject demo_backend demo_status (@fst (gmap string string) string) demo_alerts demo_encode_alerts demo_cfg
              (demo_get "/metrics/api/v1/alerts/") demo_token) = [br]
    ∧ demo_backend br = Ok resp
    ∧ demo_alerts (resp_body resp) = Ok alerts
    ∧ ∃ mine, rp_text alerts_reply
              = demo_encode_alerts {| as_Status := as_Status alerts; as_Alerts := mine |} +:+ newline
              ∧ mine `sublist_of` as_Alerts alerts
              ∧ ∀ x, x ∈ mine ↔ x ∈ as_Alerts alerts
                                ∧ ∃ a : demo_alert, x = Some a ∧ a.1 !! TenantLabelName = Some t.
Proof.
  apply (alerts_of_tenant demo_backend demo_status (@fst (gmap string string) string) demo_alerts
    demo_encode_alerts demo_cfg (demo_get "/metrics/api/v1/alerts/") demo_token alerts_reply).
  - vm_compute. reflexivity.
  - reflexivity.
Defined.

Definition rules_reply : reply := SendJson "inactive" 200.
Lemma rules_of_tenant_witness :
  ∃ t br resp rules groups, ExtractTenantIDFromToken demo_token = Ok t
    ∧ sent (rules_inject demo_backend demo_status (@fst (gmap string string) string) snd demo_rules
              demo_encode_rules demo_cfg (demo_get "/metrics/api/v1/rules/") demo_token) = [br]
    ∧ demo_backend br = Ok resp ∧ demo_rules (resp_body resp) = Ok rules
    ∧ rp_text rules_reply = demo_encode_rules {| rs_Status := rs_Status rules; rs_Groups := groups |} +:+ newline
    ∧ Forall2 (group_for (@fst (gmap string string) string) snd t) (rs_Groups rules) groups.
Proof.
  apply (rules_of_tenant demo_backend demo_status (@fst (gmap string string) string) snd demo_rules
    demo_encode_rules demo_cfg (demo_get "/metrics/api/v1/rules/") demo_token rules_reply).
  - vm_compute. reflexivity.
  - reflexivity.
Defined.

Definition trace_reply : reply :=
  encoded (encode_response
    {| Data := Some [Some {| TraceID := "t1"; Spans := Some (JArr []);
                             Processes := Some {["p1" := {| ServiceName := "";
                               Tags := Some [{| kv_Key := "tenant"; kv_Type := ""; kv_Value := JStr "acme" |}] |}]} |}];
       Errors := JNull; Limit := 0; Offset := 0; Total := 1 |}).
Lemma traces_of_tenant_witness :
  ∃ t br resp result traces mine, ExtractTenantIDFromToken demo_token = Ok t
    ∧ sent (trace_inject demo_backend demo_status (tracesConfig demo_flags)
              (demo_get "/traces/select/jaeger/api/traces/t1") demo_token) = [br]
    ∧ demo_backend br = Ok resp
    ∧ decode_response (b_text (resp_body resp)) = Some result
    ∧ default [] (Data result) = Some <$> traces
    ∧ rp_text trace_reply = encode_response {| Data := Some (Some <$> mine); Errors := Errors result;
                                     Limit := Limit result; Offset := Offset result;
                                     Total := Z.of_nat (length mine) |} +:+ newline
    ∧ mine `sublist_of` traces
    ∧ ∀ x, x ∈ mine ↔ x ∈ traces ∧ ∃ k p ts tag, default ∅ (Processes x) !! k = Some p ∧ Tags p = Some ts
                        ∧ tag ∈ ts ∧ kv_Key tag = TenantLabelName ∧ kv_Value tag = JStr t.
Proof.
  apply (traces_of_tenant demo_backend demo_status (tracesConfig demo_flags)
    (demo_get "/traces/select/jaeger/api/traces/t1") demo_token trace_reply).
  - vm_compute. reflexivity.
  - reflexivity.
Defined.
