(* ===== verification/Fuel.v ===== *)
(** The fuel of the parsers is enough: more of it gives the same result, since
    every step consumes a byte of the text. *)
From S2P Require Import Prelude Strings GoTime Json Env World Vlogs Server Acl Jaeger.
From Stdlib Require Import Ascii.

Open Scope string_scope.
Open Scope nat_scope.

Notation len := String.length.

(** * What is consumed *)

Lemma len_skip_ws s : len (skip_ws s) ≤ len s.
Proof. induction s as [|a s IH]; simpl; [done|]. case_match; simpl; lia. Qed.

Lemma len_span_digits s d r : span_digits s = (d, r) → len d + len r = len s.
Proof.
  revert d r. induction s as [|a s IH]; intros d r; simpl.
  - by intros [= <- <-].
  - destruct (digit_val a); [|by intros [= <- <-]].
    destruct (span_digits s) as [d' r'] eqn:E. intros [= <- <-]. simpl. by rewrite (IH _ _ eq_refl).
Qed.

Lemma len_hex4 s n r : hex4 s = Some (n, r) → len r + 4 = len s.
Proof.
  destruct s as [|? [|? [|? [|? s]]]]; simpl; try done. repeat case_match; try done.
  intros [= _ <-]. lia.
Qed.

Lemma after_u {A} (f : string → A) (d : A) s :
  (∃ r, s = String "\" (String "u" r)) ∨
  match s with String "\" (String "u" r) => f r | _ => d end = d.
Proof.
  destruct s as [|a s]; [by right|]. destruct a as [[] [] [] [] [] [] [] []]; try (by right).
  destruct s as [|b s]; [by right|]. destruct b as [[] [] [] [] [] [] [] []]; try (by right).
  left. by exists s.
Qed.

Lemma len_unicode_escape s t r : unicode_escape s = Some (t, r) → len r + 4 ≤ len s.
Proof.
  unfold unicode_escape. destruct (hex4 s) as [[n r0]|] eqn:E; [|done]. apply len_hex4 in E.
  destruct (is_high n); [|generalize (encode_rune n); intros rune; destruct (is_low n); intros [= _ <-]; lia].
  set (f := λ r', match hex4 r' with
                  | Some (n', r'') =>
                      if is_low n' then Some (encode_rune (65536 + (n - 55296) * 1024 + (n' - 56320)), r'')
                      else Some (rune_error, r0)
                  | None => Some (rune_error, r0)
                  end).
  intros H. assert (Hf : (∃ r1, r0 = String "\" (String "u" r1) ∧ f r1 = Some (t, r)) ∨
                         Some (rune_error, r0) = Some (t, r)).
  { destruct (after_u f (Some (rune_error, r0)) r0) as [[r1 Hr]|Hd].
    - left. exists r1. split; [exact Hr|]. unfold f. clear f. subst r0. exact H.
    - right. rewrite <-Hd. exact H. }
  clear H. destruct Hf as [(r1 & -> & H)|H].
  - revert H. unfold f. clear f. generalize rune_error. intros err. simpl in E.
    destruct (hex4 r1) as [[n' r2]|] eqn:E2; [|intros [= _ <-]; simpl; lia].
    match goal with |- context [encode_rune ?x] => generalize (encode_rune x) end. intros rune.
    apply len_hex4 in E2. destruct (is_low n'); intros [= _ <-]; simpl; lia.
  - injection H as _ <-. lia.
Qed.

(** ** Strings *)

(** What follows one character, quoted or not. *)
Lemma len_parse_str fuel s t r : parse_str fuel s = Some (t, r) → len r < len s.
Proof.
  revert s t r. induction fuel as [|fuel IH]; intros s t r; cbn [parse_str]; [done|]. cbv zeta.
  assert (Hemit : ∀ x r0, (match parse_str fuel r0 with Some (u, r') => Some (x +:+ u, r') | None => None end)
                          = Some (t, r) → len r < len r0).
  { intros x r0. destruct (parse_str fuel r0) as [[u r']|] eqn:E; [|done]. intros [= _ <-]. by eapply IH. }
  destruct s as [|a s]; [done|]. destruct (nat_of_ascii a =? 34); [intros [= _ <-]; simpl; lia|].
  destruct (nat_of_ascii a =? 92).
  - destruct s as [|b s1]; [done|].
    assert (Hs : (match simple_escape b with
                  | Some t0 => match parse_str fuel s1 with Some (u, r') => Some (t0 +:+ u, r') | None => None end
                  | None => None end) = Some (t, r) → len r < S (S (len s1))).
    { destruct (simple_escape b); [|done]. intros H%Hemit. lia. }
    destruct b as [[] [] [] [] [] [] [] []]; try exact Hs.
    destruct (unicode_escape s1) as [[t0 r0]|] eqn:E; [|done]. apply len_unicode_escape in E.
    intros H%Hemit. simpl. lia.
  - destruct (_ <? 32); [done|]. destruct (is_ascii a); [intros H%Hemit; simpl; lia|].
    assert (Hd : match parse_str fuel s with Some (u, r') => Some (rune_error +:+ u, r') | None => None end
                 = Some (t, r) → len r < S (len s)) by (intros H%Hemit; lia).
    destruct (rune_len (String a s)) as [|[|[|[|[|n]]]]]; try exact Hd;
      repeat (destruct s as [|? s]; [exact Hd|]); intros H%Hemit; simpl; lia.
Qed.

Lemma parse_str_fuel f g s : len s < f → len s < g → parse_str f s = parse_str g s.
Proof.
  revert g s. induction f as [|f IH]; intros g s Hf Hg; [lia|]. destruct g as [|g]; [lia|]. cbn [parse_str]. cbv zeta.
  assert (Hemit : ∀ r, len r < len s → parse_str f r = parse_str g r) by (intros r Hr; apply IH; lia).
  clear IH Hf Hg. destruct s as [|a s]; [done|]. simpl in Hemit.
  destruct (nat_of_ascii a =? 34); [done|]. destruct (nat_of_ascii a =? 92).
  - destruct s as [|b s1]; [done|]. simpl in Hemit.
    assert (Hs : match simple_escape b with
                 | Some t0 => match parse_str f s1 with Some (u, r') => Some (t0 +:+ u, r') | None => None end
                 | None => None end =
                 match simple_escape b with
                 | Some t0 => match parse_str g s1 with Some (u, r') => Some (t0 +:+ u, r') | None => None end
                 | None => None end) by (rewrite (Hemit s1) by lia; done).
    destruct b as [[] [] [] [] [] [] [] []]; try exact Hs.
    destruct (unicode_escape s1) as [[t0 r0]|] eqn:E; [|done]. apply len_unicode_escape in E.
    by rewrite (Hemit r0) by lia.
  - destruct (_ <? 32); [done|]. destruct (is_ascii a); [by rewrite (Hemit s) by lia|].
    pose proof (Hemit s ltac:(lia)) as Hd.
    destruct (rune_len (String a s)) as [|[|[|[|[|n]]]]]; try (by rewrite Hd);
      repeat (destruct s as [|? s]; [by rewrite Hd|]); simpl in Hemit; by rewrite (Hemit s) by lia.
Qed.

(** ** Numbers and literals *)

Lemma len_parse_frac s t r : parse_frac s = Some (t, r) → len r ≤ len s.
Proof.
  assert (Hd : Some ("", s) = Some (t, r) → len r ≤ len s) by (by intros [= _ <-]).
  destruct s as [|a s]; [exact Hd|]. unfold parse_frac.
  destruct a as [[] [] [] [] [] [] [] []]; try exact Hd.
  destruct (span_digits s) as [d r'] eqn:E. apply len_span_digits in E.
  case_bool_decide; [done|]. intros [= _ <-]. simpl. lia.
Qed.
Lemma len_parse_exp s t r : parse_exp s = Some (t, r) → len r ≤ len s.
Proof.
  unfold parse_exp. cbv zeta.
  assert (Hd : ∀ p x, (let (d, r') := span_digits x in
      if bool_decide (d = "") then None else Some (p +:+ d, r')) = Some (t, r) → len r ≤ len x).
  { intros p x. destruct (span_digits x) as [d r'] eqn:E. apply len_span_digits in E.
    case_bool_decide; [done|]. intros [= _ <-]. lia. }
  destruct s as [|e s]; [by intros [= _ <-]|]. destruct (_ || _); [|by intros [= _ <-]].
  assert (Hs : ∀ p x, len x ≤ len s → (let (d, r') := span_digits x in
      if bool_decide (d = "") then None else Some (p +:+ d, r')) = Some (t, r) → len r ≤ len (String e s)).
  { intros p x Hx H%Hd. simpl. lia. }
  destruct s as [|a s]; [by apply Hs|].
  destruct a as [[] [] [] [] [] [] [] []]; apply Hs; simpl; lia.
Qed.
Lemma len_parse_num s t r : parse_num s = Some (t, r) → len r < len s.
Proof.
  unfold parse_num.
  assert (H0 : ∃ sg s0, (match s with String "-" r => ("-", r) | _ => ("", s) end) = (sg, s0) ∧ len s0 ≤ len s).
  { destruct s as [|a s]; [by eexists _, _|].
    destruct a as [[] [] [] [] [] [] [] []]; eexists _, _; (split; [reflexivity|simpl; lia]). }
  destruct H0 as (sg & s0 & -> & Hs0).
  destruct (match s0 with String "0" r => ("0", r) | _ => span_digits s0 end) as [d s1] eqn:E1.
  assert (H1 : len d + len s1 = len s0).
  { destruct s0 as [|a s0]; [by apply len_span_digits|].
    destruct a as [[] [] [] [] [] [] [] []]; try (by apply len_span_digits); by injection E1 as <- <-. }
  case_bool_decide as Hd; [done|]. assert (1 <= len d) by (destruct d; [done|simpl; lia]).
  destruct (parse_frac s1) as [[f s2]|] eqn:E2; [|done]. apply len_parse_frac in E2.
  destruct (parse_exp s2) as [[e s3]|] eqn:E3; [|done]. apply len_parse_exp in E3.
  intros [= _ <-]. lia.
Qed.

Lemma len_cut_prefix p s r : cut_prefix p s = Some r → len r + len p = len s.
Proof. intros ->%cut_prefix_Some. rewrite string_length_app. lia. Qed.

(** * Values *)

(** The three functions consume at least a byte. *)
Definition consumes {A} (p : string → option (A * string)) : Prop :=
  ∀ s a r, p s = Some (a, r) → len r < len s.

Lemma len_parse fuel :
  consumes (parse_value fuel) ∧ consumes (parse_elems fuel) ∧ consumes (parse_members fuel).
Proof.
  induction fuel as [|fuel (IHv & IHe & IHm)]; [done|]. split_and!; intros s x r0.
  - cbn [parse_value]. pose proof (len_skip_ws s) as Hw. destruct (skip_ws s) as [|a r]; [done|].
    cbv zeta. simpl in Hw. pose proof (len_skip_ws r) as Hw'.
    destruct (nat_of_ascii a =? 34).
    { destruct (parse_str _ r) as [[t r']|] eqn:E; [|done]. apply len_parse_str in E. intros [= _ <-]. lia. }
    destruct (nat_of_ascii a =? 91).
    { assert (He : ∀ r', match parse_elems fuel r' with Some (l, r'') => Some (JArr l, r'') | None => None end
                         = Some (x, r0) → len r' ≤ len r → len r0 < len s).
      { intros r'. destruct (parse_elems fuel r') as [[l r'']|] eqn:E; [|done]. apply IHe in E.
        intros [= _ <-] ?. lia. }
      destruct (skip_ws r) as [|b r'] eqn:Er; [intros H; by eapply He|].
      destruct b as [[] [] [] [] [] [] [] []]; try (intros H; by eapply He).
      intros [= _ <-]. simpl in Hw'. lia. }
    destruct (nat_of_ascii a =? 123).
    { assert (He : ∀ r', match parse_members fuel r' with Some (l, r'') => Some (JObj l, r'') | None => None end
                         = Some (x, r0) → len r' ≤ len r → len r0 < len s).
      { intros r'. destruct (parse_members fuel r') as [[l r'']|] eqn:E; [|done]. apply IHm in E.
        intros [= _ <-] ?. lia. }
      destruct (skip_ws r) as [|b r'] eqn:Er; [intros H; by eapply He|].
      destruct b as [[] [] [] [] [] [] [] []]; try (intros H; by eapply He).
      intros [= _ <-]. simpl in Hw'. lia. }
    destruct (cut_prefix "null" _) as [r'|] eqn:E1.
    { apply len_cut_prefix in E1. intros [= _ <-]. simpl in E1. lia. }
    destruct (cut_prefix "true" _) as [r'|] eqn:E2.
    { apply len_cut_prefix in E2. intros [= _ <-]. simpl in E2. lia. }
    destruct (cut_prefix "false" _) as [r'|] eqn:E3.
    { apply len_cut_prefix in E3. intros [= _ <-]. simpl in E3. lia. }
    destruct (parse_num _) as [[d r']|] eqn:E4; [|done]. apply len_parse_num in E4.
    intros [= _ <-]. simpl in E4. lia.
  - cbn [parse_elems]. destruct (parse_value fuel s) as [[v r]|] eqn:E; [|done]. apply IHv in E.
    pose proof (len_skip_ws r) as Hw. destruct (skip_ws r) as [|b r']; [done|]. simpl in Hw.
    destruct b as [[] [] [] [] [] [] [] []]; try done.
    + intros [= _ <-]. lia.
    + destruct (parse_elems fuel r') as [[l r'']|] eqn:E'; [|done]. apply IHe in E'. intros [= _ <-]. lia.
  - cbn [parse_members]. pose proof (len_skip_ws s) as Hw. destruct (skip_ws s) as [|q r]; [done|].
    simpl in Hw. destruct (nat_of_ascii q =? 34); [|done].
    destruct (parse_str _ r) as [[k r1]|] eqn:E; [|done]. apply len_parse_str in E.
    pose proof (len_skip_ws r1) as Hw1. destruct (skip_ws r1) as [|b r2]; [done|]. simpl in Hw1.
    destruct b as [[] [] [] [] [] [] [] []]; try done.
    destruct (parse_value fuel r2) as [[v r3]|] eqn:E2; [|done]. apply IHv in E2.
    pose proof (len_skip_ws r3) as Hw3. destruct (skip_ws r3) as [|b r4]; [done|]. simpl in Hw3.
    destruct b as [[] [] [] [] [] [] [] []]; try done.
    + intros [= _ <-]. lia.
    + destruct (parse_members fuel r4) as [[l r5]|] eqn:E'; [|done]. apply IHm in E'. intros [= _ <-]. lia.
Qed.

(** More fuel than the recursion can spend, two units a byte, changes nothing:
    the fuel of [unmarshal] is as good as any larger one. *)
Lemma parse_fuel f :
  (∀ g s, 2 * len s + 2 ≤ f → 2 * len s + 2 ≤ g → parse_value f s = parse_value g s) ∧
  (∀ g s, 2 * len s + 3 ≤ f → 2 * len s + 3 ≤ g → parse_elems f s = parse_elems g s) ∧
  (∀ g s, 2 * len s + 3 ≤ f → 2 * len s + 3 ≤ g → parse_members f s = parse_members g s).
Proof.
  induction f as [|f (IHv & IHe & IHm)]; [split_and!; lia|].
  split_and!; intros [|g] s Hf Hg; try lia.
  - cbn [parse_value]. pose proof (len_skip_ws s) as Hw. destruct (skip_ws s) as [|a r]; [done|].
    simpl in Hw. pose proof (len_skip_ws r) as Hw'. cbv zeta. destruct (_ =? 34); [done|].
    destruct (_ =? 91).
    { pose proof (IHe g (skip_ws r) ltac:(lia) ltac:(lia)) as He.
      destruct (skip_ws r) as [|b r']; [by rewrite He|].
      destruct b as [[] [] [] [] [] [] [] []]; try done; by rewrite He. }
    destruct (_ =? 123); [|done].
    pose proof (IHm g (skip_ws r) ltac:(lia) ltac:(lia)) as Hm.
    destruct (skip_ws r) as [|b r']; [by rewrite Hm|].
    destruct b as [[] [] [] [] [] [] [] []]; try done; by rewrite Hm.
  - cbn [parse_elems]. rewrite (IHv g s) by lia. destruct (parse_value g s) as [[v r]|] eqn:E; [|done].
    apply (len_parse g) in E. pose proof (len_skip_ws r) as Hw. destruct (skip_ws r) as [|b r']; [done|].
    simpl in Hw. destruct b as [[] [] [] [] [] [] [] []]; try done. by rewrite (IHe g r') by lia.
  - cbn [parse_members]. pose proof (len_skip_ws s) as Hw. destruct (skip_ws s) as [|q r]; [done|].
    simpl in Hw. destruct (_ =? 34); [|done].
    destruct (parse_str _ r) as [[k r1]|] eqn:E; [|done]. apply len_parse_str in E.
    pose proof (len_skip_ws r1) as Hw1. destruct (skip_ws r1) as [|b r2]; [done|]. simpl in Hw1.
    destruct b as [[] [] [] [] [] [] [] []]; try done. rewrite (IHv g r2) by lia.
    destruct (parse_value g r2) as [[v r3]|] eqn:E2; [|done]. apply (len_parse g) in E2.
    pose proof (len_skip_ws r3) as Hw3. destruct (skip_ws r3) as [|b r4]; [done|]. simpl in Hw3.
    destruct b as [[] [] [] [] [] [] [] []]; try done. by rewrite (IHm g r4) by lia.
Qed.

(** [unmarshal] answers as the parser does with any fuel that suffices. *)
Lemma unmarshal_fuel fuel s : 2 * len s + 2 ≤ fuel →
  unmarshal s = match parse_value fuel s with
                | Some (j, r) => if bool_decide (skip_ws r = "") then Some j else None
                | None => None
                end.
Proof.
  intros H. unfold unmarshal.
  by rewrite (proj1 (parse_fuel _) fuel s (le_n _) H).
Qed.

(** * The entries of a response *)

(** An entry takes a byte at least, so the text is consumed. *)
Lemma decode_entries_fuel f g s : len s < f → len s < g → decode_entries f s = decode_entries g s.
Proof.
  revert g s. induction f as [|f IH]; intros [|g] s Hf Hg; try lia.
  cbn [decode_entries]. case_decide; [done|].
  destruct (parse_value _ s) as [[j rest]|] eqn:E; [|done]. apply len_parse in E.
  by rewrite (IH g rest) by lia.
Qed.

(** * Durations *)

Lemma len_span_unit s u r : span_unit s = (u, r) → len u + len r = len s.
Proof.
  revert u r. induction s as [|a s IH]; intros u r; simpl; [by intros [= <- <-]|].
  destruct (_ || _); [by intros [= <- <-]|].
  destruct (span_unit s) as [u' r'] eqn:E. intros [= <- <-]. simpl. by rewrite (IH _ _ eq_refl).
Qed.

Lemma len_duration_part s w r : duration_part s = Some (w, r) → len r < len s.
Proof.
  unfold duration_part. destruct (span_digits s) as [ip s1] eqn:E1. apply len_span_digits in E1.
  assert (H2 : ∃ fp s2, match s1 with
      | String "." r => let (f, r') := span_digits r in (f, r')
      | _ => ("", s1) end = (fp, s2) ∧ len fp + len s2 ≤ len s1).
  { destruct s1 as [|a s1]; [by eexists _, _|].
    destruct a as [[] [] [] [] [] [] [] []]; try (by eexists _, _).
    destruct (span_digits s1) as [f r'] eqn:E. apply len_span_digits in E.
    eexists _, _. split; [reflexivity|simpl; lia]. }
  destruct H2 as (fp & s2 & -> & H2). destruct (_ && _) eqn:Hne; [done|].
  assert (1 ≤ len ip + len fp) by (destruct ip, fp; [done|simpl; lia..]).
  cbv zeta. case_match; [done|]. destruct (span_unit s2) as [u s3] eqn:E3. apply len_span_unit in E3.
  destruct (unit_of u); [|done]. simpl. case_match; [done|]. case_match; [done|].
  intros [= _ <-]. lia.
Qed.

Lemma duration_parts_fuel f g d s :
  len s ≤ f → len s ≤ g → duration_parts f d s = duration_parts g d s.
Proof.
  revert g d s. induction f as [|f IH]; intros g d s Hf Hg.
  { destruct s; [by destruct g|simpl in Hf; lia]. }
  destruct s as [|a s]; [by destruct g|]. destruct g as [|g]; [simpl in Hg; lia|].
  cbn [duration_parts]. destruct (duration_part _) as [[w r]|] eqn:E; [|done]. apply len_duration_part in E.
  simpl. case_match; [done|]. apply IH; simpl in *; lia.
Qed.
