(* ===== verification/Kube.v ===== *)
(** The Kubernetes API as the controllers use it: metadata of objects, the
    options of a list call, and for every kind of object an interface [Kube]
    with the laws of the API server ([KubeLaws], [KubeFrame]).  [sim_kube] is
    an instance over maps whose failures follow a schedule. *)
From S2P Require Import Prelude Strings World.

Open Scope string_scope.

(** * Metadata *)

Record OwnerReference := {
  or_APIVersion : string; or_Kind : string; or_Name : string; or_UID : string }.

(** A nil map of labels reads like an empty one.  [om_deleted]: the deletion
    timestamp is set. *)
Record ObjectMeta := {
  om_Name : string;
  om_Namespace : string;
  om_UID : string;
  om_Labels : gmap string string;
  om_Annotations : gmap string string;
  om_Finalizers : list string;
  om_Owners : list OwnerReference;
  om_deleted : bool }.

#[export] Instance OwnerReference_eq_dec : EqDecision OwnerReference.
Proof. solve_decision. Defined.
#[export] Instance ObjectMeta_eq_dec : EqDecision ObjectMeta.
Proof. solve_decision. Defined.

(** Metadata of a new object. *)
Definition new_meta (namespace name : string) (labels : gmap string string) : ObjectMeta :=
  {| om_Name := name; om_Namespace := namespace; om_UID := ""; om_Labels := labels;
     om_Annotations := ∅; om_Finalizers := []; om_Owners := []; om_deleted := false |}.

(** A kind of object; [admitted] is what the server stores for what it is sent. *)
Class Object (O : Type) := {
  om : O → ObjectMeta;
  admitted : O → O;
  admitted_om o : om (admitted o) = om o }.

(** Reading a Go map: the zero value for a key that is absent. *)
Definition at_key (m : gmap string string) (k : string) : string := default "" (m !! k).

(** [types.NamespacedName]. *)
Definition object_key {O} `{Object O} (o : O) : string * string :=
  (om_Namespace (om o), om_Name (om o)).

(** * Selecting *)

(** Options of [client.List]; the empty namespace stands for all of them. *)
Inductive ListOption :=
  | InNamespace (namespace : string)
  | HasLabels (labels : list string)
  | MatchingLabels (labels : gmap string string)
  | MatchingLabelsSelector (selects : gmap string string → bool).

Definition option_matches (m : ObjectMeta) (o : ListOption) : bool :=
  match o with
  | InNamespace ns => bool_decide (ns = "") || bool_decide (om_Namespace m = ns)
  | HasLabels ls => forallb (λ l, bool_decide (is_Some (om_Labels m !! l))) ls
  | MatchingLabels ls => forallb (λ kv, bool_decide (om_Labels m !! kv.1 = Some kv.2)) (map_to_list ls)
  | MatchingLabelsSelector selects => selects (om_Labels m)
  end.
Definition matches {O} `{Object O} (opts : list ListOption) (o : O) : bool :=
  forallb (option_matches (om o)) opts.

(** * The interface *)

Notation objects_of O := (gmap (string * string) O).

Class Kube (W O : Type) `{Object O} := {
  stored : W → objects_of O;
  kube_list : list ListOption → W → result (list O) * W;
  kube_get : string * string → W → result O * W;
  kube_create : O → W → result unit * W;
  kube_update : O → W → result unit * W;
  kube_delete : string * string → W → result unit * W }.

(** An update of an object that is being deleted removes it once no finalizer
    is left. *)
Definition settle {O} `{Object O} (o : O) (m : objects_of O) : objects_of O :=
  if om_deleted (om o) && bool_decide (om_Finalizers (om o) = [])
  then delete (object_key o) m else <[object_key o := admitted o]> m.

(** A call that fails may have taken effect. *)
Definition took {O} (r : result unit) (before done after : objects_of O) : Prop :=
  match r with Ok _ => after = done | Err _ => after = before ∨ after = done end.

(** What the code relies on: an object that is being deleted is there only
    while it has finalizers; reads are of the current state, in some order; an
    object is created only where there is none and updated only where there is
    one, and nothing else changes; an object that is deleted is gone unless it
    has finalizers. *)
Class KubeLaws (W O : Type) `{Kube W O} := {
  stored_key (w : W) k o : stored w !! k = Some o → object_key o = k;
  stored_live (w : W) k o : stored w !! k = Some o → om_deleted (om o) = true →
    om_Finalizers (om o) ≠ [];
  list_ok opts (w : W) l w' : kube_list opts w = (Ok l, w') →
    l ≡ₚ filter (λ o, matches opts o = true) (map_to_list (stored w)).*2;
  list_stored opts (w : W) : stored (kube_list opts w).2 = stored w;
  get_ok k (w : W) o w' : kube_get k w = (Ok o, w') → stored w !! k = Some o;
  get_not_found k (w : W) e w' : kube_get k w = (Err e, w') →
    errors_as is_not_found e = true → stored w !! k = None;
  get_stored k (w : W) : stored (kube_get k w).2 = stored w;
  create_stored o (w : W) :
    stored (kube_create o w).2 = stored w ∧ is_ok (kube_create o w).1 = false ∨
    stored w !! object_key o = None ∧
    stored (kube_create o w).2 = <[object_key o := admitted o]> (stored w);
  create_exists o (w : W) e w' : kube_create o w = (Err e, w') →
    errors_as is_already_exists e = true → is_Some (stored w !! object_key o);
  update_stored o (w : W) :
    stored (kube_update o w).2 = stored w ∧ is_ok (kube_update o w).1 = false ∨
    is_Some (stored w !! object_key o) ∧ stored (kube_update o w).2 = settle o (stored w);
  delete_other k (w : W) k' : k' ≠ k → stored (kube_delete k w).2 !! k' = stored w !! k';
  delete_ok k (w : W) w' : kube_delete k w = (Ok tt, w') →
    stored w' !! k = None ∨ ∃ o, stored w !! k = Some o ∧ om_Finalizers (om o) ≠ [];
  delete_not_found k (w : W) e w' : kube_delete k w = (Err e, w') →
    errors_as is_not_found e = true → stored w' = stored w ∧ stored w !! k = None }.

(** Calls about objects of one kind leave those of another alone. *)
Class KubeFrame (W : Type) {O O'} `{Object O} `{Object O'} (K : Kube W O) (K' : Kube W O') := {
  list_frame opts (w : W) : stored (O := O') (kube_list (O := O) opts w).2 = stored w;
  read_frame k (w : W) : stored (O := O') (kube_get (O := O) k w).2 = stored w;
  create_frame (o : O) (w : W) : stored (O := O') (kube_create o w).2 = stored w;
  update_frame (o : O) (w : W) : stored (O := O') (kube_update o w).2 = stored w;
  delete_frame k (w : W) : stored (O := O') (kube_delete (O := O) k w).2 = stored w }.

(** ** Creating or updating *)

(** [controllerutil.CreateOrUpdate]: the mutation is applied to the stored
    object, or to the one given when there is none; the object that comes out
    is created, or replaces the stored one when it differs.  The mutation may
    fail and have effects of its own. *)
Class Upsert (W O : Type) := create_or_update : O → (O → eff W O) → eff W O.

(** A mutation that leaves the store alone and keeps the identity of the
    object, as the ones in this code do. *)
Definition mutation {W O} `{Kube W O} (f : O → eff W O) : Prop :=
  ∀ x w r w', f x w = (r, w') → stored w' = stored w ∧
    ∀ y, r = Ok y → object_key y = object_key x ∧ om_deleted (om y) = om_deleted (om x) ∧
                    om_Finalizers (om y) = om_Finalizers (om x).

Class UpsertLaws (W O : Type) `{Kube W O} (U : Upsert W O) := {
  upserted (o : O) (f : O → eff W O) (w : W) r w' :
    mutation f → create_or_update o f w = (r, w') →
    let base := default o (stored w !! object_key o) in
    match r with
    | Ok x =>
        stored w' = <[object_key o := x]> (stored w) ∧
        ∃ w1 w2 y, f base w1 = (Ok y, w2) ∧
          (x = admitted y ∨ x = y ∧ stored w !! object_key o = Some y)
    | Err _ =>
        stored w' = stored w ∨
        ∃ w1 w2 y, f base w1 = (Ok y, w2) ∧ stored w' = <[object_key o := admitted y]> (stored w)
    end }.

(** The mutation apart, creating or updating leaves the other kinds alone. *)
Class UpsertFrame (W : Type) {O O'} `{Object O} `{Object O'} (K : Kube W O) (K' : Kube W O')
    (U : Upsert W O) := {
  upsert_frame (o : O) (f : O → eff W O) (w : W) :
    (∀ x w, stored (O := O') (f x w).2 = stored w) →
    stored (O := O') (create_or_update o f w).2 = stored w }.

(** internal/k8s/meta.go [EnsureCreated]: whether the object was created; one
    that is there already is left as it is. *)
Definition EnsureCreated {W O} `{Kube W O} (o : O) : eff W bool :=
  ecase (kube_create o) (λ r, eret
    match r with
    | Ok _ => Ok true
    | Err e => if errors_as is_already_exists e then Ok false else Err e
    end).

(** * Consequences of the laws *)

Lemma eret_ok {W A} (a b : A) (w w' : W) : eret (Ok a) w = (Ok b, w') → a = b ∧ w = w'.
Proof. by intros [= -> ->]. Qed.

(** A sequence of two calls ends with the error of the first, or as the second. *)
Lemma ebind_inv {W A B} (m : eff W A) (f : A → eff W B) w r w' :
  ebind m f w = (r, w') →
  (∃ e, m w = (Err e, w') ∧ r = Err e) ∨ (∃ a w1, m w = (Ok a, w1) ∧ f a w1 = (r, w')).
Proof. unfold ebind. destruct (m w) as [[a|e] w1]; naive_solver. Qed.

Section laws.
Context {W O} `{KubeLaws W O}.

Lemma list_elem opts (w : W) l w' o :
  kube_list opts w = (Ok l, w') →
  o ∈ l ↔ matches opts o = true ∧ stored w !! object_key o = Some o.
Proof.
  intros Hl. rewrite (list_ok _ _ _ _ Hl), list_elem_of_filter, list_elem_of_fmap. split.
  - intros [Hm ([k o'] & -> & Hk%elem_of_map_to_list)]; simpl in *. split; [done|].
    by rewrite (stored_key _ _ _ Hk).
  - intros [Hm Hk]. split; [done|]. exists (object_key o, o). by rewrite elem_of_map_to_list.
Qed.

Lemma list_NoDup opts (w : W) l w' :
  kube_list opts w = (Ok l, w') → NoDup (object_key <$> l).
Proof.
  intros Hl. rewrite (list_ok _ _ _ _ Hl).
  cut (NoDup (object_key <$> (map_to_list (stored w)).*2)).
  { intros Hn. eapply sublist_NoDup; [exact Hn|]. apply fmap_sublist, sublist_filter. }
  replace (object_key <$> _) with ((map_to_list (stored w)).*1); [apply NoDup_fst_map_to_list|].
  rewrite <-list_fmap_compose. apply list_fmap_ext. intros i [k o] Hi.
  apply list_elem_of_lookup_2, elem_of_map_to_list in Hi. simpl. by rewrite (stored_key _ _ _ Hi).
Qed.

Lemma update_took o (w : W) r w' :
  kube_update o w = (r, w') → took r (stored w) (settle o (stored w)) (stored w').
Proof.
  intros E. pose proof (update_stored o w) as Hu. rewrite E in Hu. simpl in Hu.
  destruct r; simpl; naive_solver.
Qed.

(** Updating an object that stays as deleted, or not, as it was replaces it. *)
Lemma settle_live (w : W) o old :
  stored w !! object_key o = Some old →
  om_deleted (om o) = om_deleted (om old) → om_Finalizers (om o) = om_Finalizers (om old) →
  settle o (stored w) = <[object_key o := admitted o]> (stored w).
Proof.
  intros Hs Hd Hf. unfold settle. rewrite Hd, Hf. destruct (om_deleted (om old)) eqn:E; [|done].
  rewrite bool_decide_eq_false_2; [done|]. by apply (stored_live w _ old Hs).
Qed.

Lemma create_took o (w : W) r w' :
  kube_create o w = (r, w') →
  took r (stored w) (<[object_key o := admitted o]> (stored w)) (stored w').
Proof.
  intros E. pose proof (create_stored o w) as Hu. rewrite E in Hu. simpl in Hu.
  destruct r; simpl; naive_solver.
Qed.
End laws.

(** * An instance: maps with scheduled failures *)

Record kworld (T : Type) := { kw_data : T; kw_faults : list fault }.
Arguments Build_kworld {T} _ _.
Arguments kw_data {T} _.
Arguments kw_faults {T} _.

(** The objects of one kind within the data. *)
Class Part (T O : Type) := {
  pget : T → objects_of O;
  pset : objects_of O → T → T;
  pget_pset m t : pget (pset m t) = m }.
Class Apart (T O O' : Type) `{Part T O} `{Part T O'} :=
  { pget_other m t : pget (O := O') (pset (O := O) m t) = pget t }.

#[export] Instance part_only {O} : Part (objects_of O) O :=
  {| pget := id; pset m _ := m; pget_pset _ _ := eq_refl |}.
#[export] Program Instance part_fst {T T' O} `{Part T O} : Part (T * T') O :=
  {| pget t := pget t.1; pset m t := (pset m t.1, t.2) |}.
Next Obligation. intros. apply pget_pset. Qed.
#[export] Program Instance part_snd {T T' O} `{Part T' O} : Part (T * T') O | 100 :=
  {| pget t := pget t.2; pset m t := (t.1, pset m t.2) |}.
Next Obligation. intros. apply pget_pset. Qed.

Definition kube_fault {T} (w : kworld T) : fault * kworld T :=
  match kw_faults w with
  | [] => (FNone, w)
  | f :: r => (f, {| kw_data := kw_data w; kw_faults := r |})
  end.

Section sim.
Context {T O} `{Object O} `{Part T O}.

Definition part (w : kworld T) : objects_of O := pget (kw_data w).
Definition with_part (m : objects_of O) (w : kworld T) : kworld T :=
  {| kw_data := pset m (kw_data w); kw_faults := kw_faults w |}.

Definition kube_read {A} (value : objects_of O → result A) (w : kworld T) : result A * kworld T :=
  let (f, w') := kube_fault w in
  (match f with FNone => value (part w') | _ => Err sim_error end, w').
Definition kube_write (value : objects_of O → result (objects_of O)) (w : kworld T)
    : result unit * kworld T :=
  let (f, w') := kube_fault w in
  match f with
  | FBefore => (Err sim_error, w')
  | FNone => match value (part w') with
             | Ok m => (Ok tt, with_part m w')
             | Err e => (Err e, w')
             end
  | FAfter => (Err sim_error, match value (part w') with Ok m => with_part m w' | Err _ => w' end)
  end.

(** Only objects stored under their own key, and not gone, are seen. *)
Definition gone (o : O) : bool :=
  om_deleted (om o) && bool_decide (om_Finalizers (om o) = []).
Definition well_keyed (m : objects_of O) : objects_of O :=
  filter (λ ko, object_key ko.2 = ko.1 ∧ gone ko.2 = false) m.

Definition sim_kube : Kube (kworld T) O := {|
  stored w := well_keyed (part w);
  kube_list opts := kube_read (λ m,
    Ok (filter (λ o, matches opts o = true) (map_to_list (well_keyed m)).*2));
  kube_get k := kube_read (λ m, match well_keyed m !! k with
                                | Some o => Ok o | None => Err not_found end);
  kube_create o := kube_write (λ m, match well_keyed m !! object_key o with
                                    | Some _ => Err (EAlreadyExists "already exists")
                                    | None => if gone o then Err (EText "invalid")
                                              else Ok (<[object_key o := admitted o]> m) end);
  kube_update o := kube_write (λ m, match well_keyed m !! object_key o with
                                    | Some _ => Ok (settle o m) | None => Err not_found end);
  kube_delete k := kube_write (λ m, match well_keyed m !! k with
                                    | Some _ => Ok (delete k m)
                                    | None => Err not_found end) |}.
End sim.

#[local] Arguments part : simpl never.

Section sim_laws.
Context {T O} `{Object O} `{Part T O}.
#[local] Existing Instance sim_kube.

Lemma kube_fault_part (w : kworld T) : part (kube_fault w).2 = part w.
Proof. unfold kube_fault. by destruct (kw_faults w). Qed.

Lemma kube_read_stored {A} (v : objects_of O → result A) w r w' :
  kube_read v w = (r, w') → part (O := O) w' = part w ∧ (r = v (part w) ∨ r = Err sim_error).
Proof.
  unfold kube_read. pose proof (kube_fault_part w) as Hp.
  destruct (kube_fault w) as [[] w1]; intros; simplify_eq/=; rewrite Hp; auto.
Qed.

Lemma kube_write_stored (v : objects_of O → result (objects_of O)) w r w' :
  kube_write v w = (r, w') →
  part w' = part w ∧ is_ok r = false ∨ v (part w) = Ok (part w').
Proof.
  unfold kube_write. pose proof (kube_fault_part w) as Hp. intros E.
  destruct (kube_fault w) as [[] w1]; simpl in Hp; rewrite <-Hp; [|naive_solver|];
    destruct (v (part w1)) as [m|e] eqn:Hv; simplify_eq/=; auto; right; f_equal;
    symmetry; apply pget_pset.
Qed.

Lemma well_keyed_insert (m : objects_of O) o :
  gone o = false →
  well_keyed (<[object_key o := admitted o]> m) = <[object_key o := admitted o]> (well_keyed m).
Proof.
  intros Hg. apply map_filter_insert_True. simpl.
  unfold object_key, gone. by rewrite admitted_om.
Qed.

Lemma well_keyed_settle (m : objects_of O) o :
  well_keyed (settle o m) = settle o (well_keyed m).
Proof.
  unfold settle. destruct (om_deleted (om o) && _) eqn:Hg; [apply map_filter_delete|].
  by apply well_keyed_insert.
Qed.

#[export] Instance sim_kube_laws : KubeLaws (kworld T) O.
Proof.
  split; simpl.
  - intros w k o [_ [Hk _]]%map_lookup_filter_Some. done.
  - intros w k o [_ [_ Hg]]%map_lookup_filter_Some. simpl in Hg. unfold gone in Hg. intros Hd.
    rewrite Hd in Hg. simpl in Hg. by case_bool_decide.
  - intros opts w l w' [Hp [Hr|Hr]]%kube_read_stored; by simplify_eq.
  - intros opts w. destruct (kube_read _ w) eqn:E; simpl. by apply kube_read_stored in E as [-> _].
  - intros k w o w' [_ [Hr|Hr]]%kube_read_stored; [|done]. case_match; by simplify_eq.
  - intros k w e w' [_ [Hr|Hr]]%kube_read_stored Hn; [|by simplify_eq]. case_match; by simplify_eq.
  - intros k w. destruct (kube_read _ w) eqn:E; simpl. by apply kube_read_stored in E as [-> _].
  - intros o w. destruct (kube_write _ w) as [r w'] eqn:E; simpl.
    apply kube_write_stored in E as [[-> ?]|E]; [by left|right]. simpl.
    case_match eqn:Hk; [done|]. destruct (gone o) eqn:Hg; [done|]. simplify_eq.
    split; [done|]. rewrite <-E. by apply well_keyed_insert.
  - intros o w e w'. unfold kube_write. pose proof (kube_fault_part w) as Hp.
    destruct (kube_fault w) as [[] w1]; simpl in Hp; [|by intros [= <- <-]..].
    rewrite <-Hp. destruct (well_keyed (part w1) !! object_key o) eqn:Hk; [done|].
    destruct (gone o); by intros [= <- <-].
  - intros o w. destruct (kube_write _ w) as [r w'] eqn:E; simpl.
    apply kube_write_stored in E as [[-> ?]|E]; [by left|right]. simpl.
    case_match eqn:Hk; simplify_eq. split; [done|]. rewrite <-E. apply well_keyed_settle.
  - intros k w k' Hk. destruct (kube_write _ w) as [r w'] eqn:E; simpl.
    apply kube_write_stored in E as [[-> ?]|E]; [done|]. simpl.
    case_match; simplify_eq. rewrite <-E. unfold well_keyed. by rewrite map_filter_delete, lookup_delete_ne.
  - intros k w w' [[_ ?]|E]%kube_write_stored; [done|]. left.
    case_match; simplify_eq. rewrite <-E. unfold well_keyed. by rewrite map_filter_delete, lookup_delete_eq.
  - intros k w e w'. unfold kube_write. pose proof (kube_fault_part w) as Hp.
    destruct (kube_fault w) as [[] w1]; simpl in Hp; [|by intros [= <- <-]..].
    rewrite <-Hp. destruct (well_keyed (part w1) !! k) eqn:Hk; intros [= <- <-]; done.
Qed.

End sim_laws.

Section sim_upserts.
Context {T O} `{EqDecision O} `{Object O} `{Part T O}.
#[local] Existing Instance sim_kube.

(** The instance of [Upsert]. *)
Definition sim_upsert : Upsert (kworld T) O := λ o f,
  ecase (kube_get (object_key o)) (λ r,
    match r with
    | Err e =>
        if errors_as is_not_found e then
          do y := f o in do _ := kube_create y in eret (Ok (admitted y))
        else eret (Err e)
    | Ok old =>
        do y := f old in
        if decide (y = old) then eret (Ok old) else do _ := kube_update y in eret (Ok (admitted y))
    end).

Lemma kube_get_inv k (w : kworld T) r w' :
  kube_get k w = (r, w') →
  stored w' = stored w ∧
  match r with
  | Ok o => stored w !! k = Some o
  | Err e => errors_as is_not_found e = true → stored w !! k = None
  end.
Proof.
  intros E. pose proof (get_stored k w) as Hs. rewrite E in Hs. split; [done|].
  destruct r as [o|e]; [by eapply get_ok|by eapply get_not_found].
Qed.

#[export] Instance sim_upsert_laws : UpsertLaws (kworld T) O sim_upsert.
Proof.
  split. intros o f w r w' Hf E base. unfold create_or_update, sim_upsert, ecase in E.
  destruct (kube_get (object_key o) w) as [r1 w1] eqn:Hg.
  apply kube_get_inv in Hg as [Hs1 Hr1].
  destruct r1 as [old|e].
  - assert (base = old) as -> by (subst base; by rewrite Hr1).
    assert (Hok : object_key old = object_key o) by (by eapply stored_key).
    apply ebind_inv in E as [(e & Hy & ->)|(y & w2 & Hy & E)].
    { left. destruct (Hf _ _ _ _ Hy) as [-> _]. by rewrite Hs1. }
    destruct (Hf _ _ _ _ Hy) as [Hs2 Hid]. destruct (Hid _ eq_refl) as (Hk & Hd & Hfin).
    destruct (decide (y = old)) as [->|Hne].
    { injection E as [= <- <-]. split; [by rewrite insert_id; [congruence|]|]. eauto 10. }
    assert (Hset : settle y (stored w2) = <[object_key o := admitted y]> (stored w)).
    { rewrite (settle_live _ _ old), Hk, Hok; rewrite ?Hk, ?Hok; congruence. }
    apply ebind_inv in E as [(e & E3 & ->)|([] & w3 & E3 & [= <- <-])];
      apply update_took in E3; rewrite Hset in E3; cbn [took] in E3.
    + destruct E3 as [->| ->]; [left; congruence|right; eauto].
    + split; [done|]. eauto 10.
  - destruct (errors_as is_not_found e) eqn:He; [|injection E as [= <- <-]; by left].
    specialize (Hr1 eq_refl). assert (base = o) as -> by (subst base; by rewrite Hr1).
    apply ebind_inv in E as [(e' & Hy & ->)|(y & w2 & Hy & E)].
    { left. destruct (Hf _ _ _ _ Hy) as [-> _]. by rewrite Hs1. }
    destruct (Hf _ _ _ _ Hy) as [Hs2 Hid]. destruct (Hid _ eq_refl) as (Hk & _ & _).
    apply ebind_inv in E as [(e' & E3 & ->)|([] & w3 & E3 & [= <- <-])];
      apply create_took in E3; rewrite Hk, Hs2, Hs1 in E3; cbn [took] in E3.
    + destruct E3 as [->| ->]; [by left|right; eauto].
    + split; [done|]. eauto 10.
Qed.
End sim_upserts.

(** Two kinds kept apart do not disturb each other. *)
Section sim_frames.
Context {T O O'} `{Object O} `{Object O'} `{P : Part T O} `{P' : Part T O'} `{!Apart T O O'}.

Lemma kube_read_apart {A} (v : objects_of O → result A) (w : kworld T) :
  part (O := O') (kube_read v w).2 = part w.
Proof. unfold kube_read, kube_fault, part. by destruct (kw_faults w) as [|[] ?]. Qed.

Lemma kube_write_apart (v : objects_of O → result (objects_of O)) (w : kworld T) :
  part (O := O') (kube_write v w).2 = part w.
Proof.
  unfold kube_write, kube_fault, part, with_part.
  destruct (kw_faults w) as [|[] ?]; simpl; try case_match; simpl; rewrite ?pget_other; done.
Qed.

#[export] Instance sim_kube_frame : KubeFrame (kworld T) (sim_kube (O := O)) (sim_kube (O := O')).
Proof.
  split; intros; simpl; rewrite ?kube_read_apart, ?kube_write_apart; done.
Qed.

#[export] Instance sim_upsert_frame `{!EqDecision O} :
  UpsertFrame (kworld T) (sim_kube (O := O)) (sim_kube (O := O')) sim_upsert.
Proof.
  split. intros o f w Hf. unfold create_or_update, sim_upsert, ecase.
  pose proof (read_frame (K := sim_kube (O := O)) (K' := sim_kube (O := O')) (object_key o) w) as Hg.
  destruct (kube_get (object_key o) w) as [[old|e] w1]; cbn [snd] in Hg; rewrite <-Hg; clear Hg.
  - unfold ebind at 1. specialize (Hf old w1). destruct (f old w1) as [[y|e] w2]; cbn [snd] in Hf; [|done].
    rewrite <-Hf. destruct (decide (y = old)); [done|]. unfold ebind.
    pose proof (update_frame (K := sim_kube (O := O)) (K' := sim_kube (O := O')) y w2) as Hu.
    destruct (kube_update y w2) as [[[]|e] w3]; done.
  - destruct (errors_as is_not_found e); [|done].
    unfold ebind at 1. specialize (Hf o w1). destruct (f o w1) as [[y|e'] w2]; cbn [snd] in Hf; [|done].
    rewrite <-Hf. unfold ebind.
    pose proof (create_frame (K := sim_kube (O := O)) (K' := sim_kube (O := O')) y w2) as Hu.
    destruct (kube_create y w2) as [[[]|e'] w3]; done.
Qed.
End sim_frames.

#[export] Instance apart_fst_snd {A B : Type} :
  @Apart (objects_of A * objects_of B) A B _ _.
Proof. by split. Qed.
#[export] Instance apart_snd_fst {A B : Type} :
  @Apart (objects_of A * objects_of B) B A _ _.
Proof. by split. Qed.
