(* ===== verification/Alerts.v ===== *)
(** internal/controller/alerts_configmap_controller.go: the controller that
    merges PrometheusRules and ConfigMaps of alert and record rules into the
    ConfigMap of Promxy and one ConfigMap per regional cluster.

    A range over a Go map visits it in the order [visit] gives.  A Go map that
    the code changes in place while another map holds it is written back where
    it is held.  The rules that two maps could share are copied by the code
    ([DeepCopy]) or by the client, which hands out copies; a rule of a
    PrometheusRule that is both an alert and a record, which Prometheus does
    not accept, is taken here as two rules with labels of their own.  The
    events the controller records are not modelled. *)
From S2P Require Import Prelude Strings Env World Kube.

Open Scope string_scope.

(** * Data *)

Definition KofAlertRulesClusterNameLabel := "k0rdent.mirantis.com/kof-alert-rules-cluster-name".
Definition KofRecordRulesClusterNameLabel := "k0rdent.mirantis.com/kof-record-rules-cluster-name".
Definition KofRecordVMRulesClusterNameLabel :=
  "k0rdent.mirantis.com/kof-record-vmrules-cluster-name".
Definition DefaultClusterName := "".
Definition ReleaseNameLabel := "app.kubernetes.io/instance".
(** models/labels *)
Definition KofGeneratedLabel := "k0rdent.mirantis.com/kof-generated".

(** The event filter of the controller. *)
Definition rules_event (labels : gmap string string) : bool :=
  bool_decide (is_Some (labels !! KofAlertRulesClusterNameLabel)) ||
  bool_decide (is_Some (labels !! KofRecordRulesClusterNameLabel)) ||
  bool_decide (is_Some (labels !! KofRecordVMRulesClusterNameLabel)).

(** intstr.IntOrString and promv1.Rule; [None] is a nil pointer or map. *)
Record IntOrString := { StrVal : string; IntVal : Z }.
Record Rule := {
  ru_Record : string;
  ru_Alert : string;
  ru_Expr : IntOrString;
  ru_For : option string;
  ru_KeepFiringFor : option string;
  ru_Labels : option (gmap string string);
  ru_Annotations : option (gmap string string) }.

#[export] Instance IntOrString_eq_dec : EqDecision IntOrString.
Proof. solve_decision. Defined.
#[export] Instance Rule_eq_dec : EqDecision Rule.
Proof. solve_decision. Defined.

Record RuleGroup := { rg_Name : string; rg_Rules : list Rule }.
Record PrometheusRule := { pr_meta : ObjectMeta; pr_Groups : list RuleGroup }.
Record ConfigMap := { cm_meta : ObjectMeta; cm_Data : gmap string string }.

#[export] Instance PrometheusRule_object : Object PrometheusRule :=
  {| om := pr_meta; admitted := id; admitted_om _ := eq_refl |}.
#[export] Instance ConfigMap_object : Object ConfigMap :=
  {| om := cm_meta; admitted := id; admitted_om _ := eq_refl |}.

(** AlertRules is never nil; RecordRules may be. *)
Notation AlertRules := (gmap string Rule).
Notation RecordRules := (option (list Rule)).
(** cluster name, group name *)
Notation by_group A := (gmap string A).
Notation by_cluster A := (gmap string (gmap string A)).

Definition cm_label (cm : ConfigMap) (label : string) : string :=
  at_key (om_Labels (cm_meta cm)) label.

Definition set_Alert (name : string) (r : Rule) : Rule :=
  {| ru_Record := ru_Record r; ru_Alert := name; ru_Expr := ru_Expr r; ru_For := ru_For r;
     ru_KeepFiringFor := ru_KeepFiringFor r; ru_Labels := ru_Labels r;
     ru_Annotations := ru_Annotations r |}.
Definition set_KeepFiringFor (d : option string) (r : Rule) : Rule :=
  {| ru_Record := ru_Record r; ru_Alert := ru_Alert r; ru_Expr := ru_Expr r; ru_For := ru_For r;
     ru_KeepFiringFor := d; ru_Labels := ru_Labels r; ru_Annotations := ru_Annotations r |}.
Definition set_Labels (l : option (gmap string string)) (r : Rule) : Rule :=
  {| ru_Record := ru_Record r; ru_Alert := ru_Alert r; ru_Expr := ru_Expr r; ru_For := ru_For r;
     ru_KeepFiringFor := ru_KeepFiringFor r; ru_Labels := l; ru_Annotations := ru_Annotations r |}.

(** * Patching *)

(** [maps.Copy] into a map that is made when it is nil. *)
Definition copy_over (old new : option (gmap string string)) : option (gmap string string) :=
  match new with
  | None => old
  | Some n => Some (n ∪ default ∅ old)
  end.

Definition patchRule (oldRule newRule : Rule) : Rule :=
  {| ru_Record := ru_Record oldRule;
     ru_Alert := ru_Alert oldRule;
     ru_Expr := if negb (bool_decide (StrVal (ru_Expr newRule) = ""))
                   || negb (bool_decide (IntVal (ru_Expr newRule) = 0%Z))
                then ru_Expr newRule else ru_Expr oldRule;
     ru_For := match ru_For newRule with Some d => Some d | None => ru_For oldRule end;
     ru_KeepFiringFor := match ru_KeepFiringFor newRule with
                         | Some d => Some d | None => ru_KeepFiringFor oldRule end;
     ru_Labels := copy_over (ru_Labels oldRule) (ru_Labels newRule);
     ru_Annotations := copy_over (ru_Annotations oldRule) (ru_Annotations newRule) |}.

(** * Lookup in the nested maps *)

Definition group_at {A} (m : by_cluster A) (cluster group : string) : option A :=
  m !! cluster ≫= lookup group.
Definition rule_at (m : by_cluster AlertRules) (cluster group rule : string) : option Rule :=
  group_at m cluster group ≫= lookup rule.
Definition set_group {A} (cluster group : string) (a : A) (m : by_cluster A) : by_cluster A :=
  <[cluster := <[group := a]> (default ∅ (m !! cluster))]> m.
Definition ensure_cluster {A} (cluster : string) (m : by_cluster A) : by_cluster A :=
  match m !! cluster with Some _ => m | None => <[cluster := ∅]> m end.

(** * PrometheusRules *)

Definition merge_prometheus_rule (st : AlertRules * RecordRules) (rule : Rule)
    : AlertRules * RecordRules :=
  let '(alertRules, recordRules) := st in
  let '(rule, alertRules) :=
    if bool_decide (ru_Alert rule = "") then (rule, alertRules)
    else let rule := set_KeepFiringFor None rule in (rule, <[ru_Alert rule := rule]> alertRules) in
  (alertRules,
   if bool_decide (ru_Record rule = "") then recordRules
   else Some (default [] recordRules ++ [rule])%list).

(** A group of rules: the groups of the default cluster are written back when
    they hold a rule. *)
Definition merge_prometheus_group (st : by_cluster AlertRules * by_cluster RecordRules)
    (ruleGroup : RuleGroup) : by_cluster AlertRules * by_cluster RecordRules :=
  let '(alerts, records) := st in
  let groupName := rg_Name ruleGroup in
  let alertRules := default ∅ (group_at alerts DefaultClusterName groupName) in
  let recordRules := default (Some []) (group_at records DefaultClusterName groupName) in
  let '(alertRules, recordRules) :=
    foldl merge_prometheus_rule (alertRules, recordRules) (rg_Rules ruleGroup) in
  (if bool_decide (alertRules = ∅) then alerts
   else set_group DefaultClusterName groupName alertRules alerts,
   if bool_decide (default [] recordRules = []) then records
   else set_group DefaultClusterName groupName recordRules records).

Definition merge_prometheus_items (rules : list PrometheusRule)
    (st : by_cluster AlertRules * by_cluster RecordRules)
    : by_cluster AlertRules * by_cluster RecordRules :=
  foldl (λ st pr, foldl merge_prometheus_group st (pr_Groups pr)) st rules.

(** [getConfigMaps] moves the default ConfigMaps to the beginning. *)
Definition is_default (label : string) (cm : ConfigMap) : bool :=
  bool_decide (cm_label cm label = DefaultClusterName).
Definition default_first (label : string) (configMaps : list ConfigMap) : list ConfigMap :=
  (filter (λ cm, is_default label cm = true) configMaps ++
   filter (λ cm, is_default label cm = false) configMaps)%list.

Section merge.
(** yaml.Unmarshal and yaml.Marshal of sigs.k8s.io/yaml, and the order of a
    range over a map. *)
Context (unmarshal_alerts : string → result AlertRules)
        (unmarshal_records : string → result RecordRules)
        (marshal_spec : RuleGroup → result string)
        (marshal_values : by_group RecordRules → result string)
        (visit : ∀ {A}, gmap string A → list (string * A)).

(** * Alert rules of ConfigMaps *)

Definition merge_alert_rule (clusterName groupName : string)
    (m : by_cluster AlertRules) (entry : string * Rule) : by_cluster AlertRules :=
  let '(ruleName, newRule) := entry in
  let newRule := set_Alert ruleName newRule in
  let set rule := set_group clusterName groupName
    (<[ruleName := rule]> (default ∅ (group_at m clusterName groupName))) m in
  match rule_at m clusterName groupName ruleName with
  | Some oldRule => set (patchRule oldRule newRule)
  | None =>
      if bool_decide (clusterName = DefaultClusterName) then set newRule
      else match rule_at m DefaultClusterName groupName ruleName with
           | Some defaultRule => set (patchRule defaultRule newRule)
           | None => set newRule
           end
  end.

Definition merge_alert_group (clusterName : string) (m : by_cluster AlertRules)
    (entry : string * string) : result (by_cluster AlertRules) :=
  let '(groupName, alertRulesYAML) := entry in
  let m := match group_at m clusterName groupName with
           | Some _ => m
           | None => set_group clusterName groupName ∅ m
           end in
  try newAlertRules := unmarshal_alerts alertRulesYAML in
  Ok (foldl (merge_alert_rule clusterName groupName) m (visit _ newAlertRules)).

(** A fold that stops at the first error. *)
Definition foldl_result {A B} (f : A → B → result A) (a : A) (l : list B) : result A :=
  foldl (λ r b, try a := r in f a b) (Ok a) l.

Definition merge_alert_cm (m : by_cluster AlertRules) (cm : ConfigMap)
    : result (by_cluster AlertRules) :=
  let clusterName := cm_label cm KofAlertRulesClusterNameLabel in
  foldl_result (merge_alert_group clusterName) (ensure_cluster clusterName m)
    (visit _ (cm_Data cm)).

Definition mergeAlertConfigMaps (alertConfigMaps : list ConfigMap) (m : by_cluster AlertRules)
    : result (by_cluster AlertRules) :=
  foldl_result merge_alert_cm m alertConfigMaps.

(** * Record rules of ConfigMaps *)

Definition merge_record_group (clusterName : string) (m : by_cluster RecordRules)
    (entry : string * string) : result (by_cluster RecordRules) :=
  let '(groupName, recordRulesYAML) := entry in
  try recordRules := unmarshal_records recordRulesYAML in
  Ok (set_group clusterName groupName recordRules m).

Definition merge_record_cm (m : by_cluster RecordRules) (cm : ConfigMap)
    : result (by_cluster RecordRules) :=
  let clusterName := cm_label cm KofRecordRulesClusterNameLabel in
  foldl_result (merge_record_group clusterName) (ensure_cluster clusterName m)
    (visit _ (cm_Data cm)).

Definition mergeRecordConfigMaps (recordConfigMaps : list ConfigMap) (m : by_cluster RecordRules)
    : result (by_cluster RecordRules) :=
  foldl_result merge_record_cm m recordConfigMaps.

(** * Files *)

Definition file_name (clusterName groupName : string) : string :=
  let fileName := groupName +:+ ".yaml" in
  if bool_decide (clusterName = DefaultClusterName) then fileName
  else "__" +:+ clusterName +:+ "__" +:+ fileName.

(** The order of [slices.SortFunc] by the name of the alert. *)
Definition alert_le (a b : Rule) : Prop := String.le (ru_Alert a) (ru_Alert b).
#[export] Instance alert_le_dec : RelDecision alert_le.
Proof. intros a b. unfold alert_le. apply _. Defined.

(** The label is set on a map that is shared with the rule of the slice; when
    the rule has no labels, on a map of the copy that the loop throws away. *)
Definition label_rule (groupName : string) (r : Rule) : Rule :=
  set_Labels ((<["alertgroup" := groupName]>) <$> ru_Labels r) r.

Definition group_spec (groupName : string) (rules : AlertRules) : RuleGroup :=
  {| rg_Name := groupName;
     rg_Rules := label_rule groupName <$> merge_sort alert_le (visit _ rules).*2 |}.

Definition add_alert_file (clusterName : string) (files : gmap string string)
    (entry : string * AlertRules) : result (gmap string string) :=
  let '(groupName, rules) := entry in
  let fileName := file_name clusterName groupName in
  try yamlBytes := marshal_spec (group_spec groupName rules) in
  Ok (<[fileName := at_key files fileName +:+ yamlBytes]> files).

Definition getAlertFiles (m : by_cluster AlertRules) : result (gmap string string) :=
  foldl_result (λ files '(clusterName, groupRules),
                  foldl_result (add_alert_file clusterName) files (visit _ groupRules))
    ∅ (visit _ m).

(** * The resulting ConfigMaps *)

Section reconcile.
Context {W} `{Kube W ConfigMap} `{Kube W PrometheusRule}.

Definition getConfigMaps (namespace label : string) : eff W (list ConfigMap) :=
  do items := kube_list (HasLabels [label] ::
                (if bool_decide (namespace = "") then [] else [InNamespace namespace])) in
  eret (Ok (default_first label items)).

Definition mergePrometheusRules (namespace releaseName : string)
    (alerts : by_cluster AlertRules) (records : by_cluster RecordRules)
    : eff W (by_cluster AlertRules * by_cluster RecordRules) :=
  do items := kube_list [InNamespace namespace; MatchingLabels {[ReleaseNameLabel := releaseName]}] in
  eret (Ok (merge_prometheus_items items (alerts, records))).

Definition set_Data (data : gmap string string) (cm : ConfigMap) : ConfigMap :=
  {| cm_meta := cm_meta cm; cm_Data := data |}.

(** [updateConfigMap] with a ConfigMap at hand; [updateConfigMapByName] gets it
    first. *)
Definition updateConfigMap (configMap : ConfigMap) (data : gmap string string) : eff W unit :=
  if bool_decide (cm_Data configMap = data) then eret (Ok tt)
  else if negb (String.eqb (cm_label configMap KofGeneratedLabel) "true") then eret (Ok tt)
  else kube_update (set_Data data configMap).
Definition updateConfigMapByName (namespace name : string) (data : gmap string string)
    : eff W unit :=
  do configMap := kube_get (O := ConfigMap) (namespace, name) in
  updateConfigMap configMap data.

(** Cluster-specific groups of record rules replace the default ones. *)
Definition vmrules_groups (records : by_cluster RecordRules) (clusterName : string)
    : by_group RecordRules :=
  default ∅ (records !! clusterName) ∪ default ∅ (records !! DefaultClusterName).

Definition updateRecordVMRulesConfigMap (records : by_cluster RecordRules)
    (resultConfigMap : ConfigMap) : eff W unit :=
  let clusterName := cm_label resultConfigMap KofRecordVMRulesClusterNameLabel in
  do valuesYAML := eret (marshal_values (vmrules_groups records clusterName)) in
  updateConfigMap resultConfigMap {["values" := valuesYAML]}.

Fixpoint update_vmrules (records : by_cluster RecordRules) (cms : list ConfigMap) : eff W unit :=
  match cms with
  | [] => eret (Ok tt)
  | cm :: r => do _ := updateRecordVMRulesConfigMap records cm in update_vmrules records r
  end.

Definition lookup_env (env : environ) (name : string) : result string :=
  match env !! name with
  | Some v => Ok v
  | None => Err (EText ("required " +:+ name +:+ " env var is not set"))
  end.

Definition updateResultingConfigMaps (env : environ) : eff W unit :=
  do releaseNamespace := eret (lookup_env env "RELEASE_NAMESPACE") in
  do releaseName := eret (lookup_env env "RELEASE_NAME") in
  do alertConfigMaps := getConfigMaps releaseNamespace KofAlertRulesClusterNameLabel in
  do recordConfigMaps := getConfigMaps releaseNamespace KofRecordRulesClusterNameLabel in
  do vmRuleConfigMaps := getConfigMaps "" KofRecordVMRulesClusterNameLabel in
  do maps := mergePrometheusRules releaseNamespace releaseName
               {[DefaultClusterName := ∅]} {[DefaultClusterName := ∅]} in
  do alerts := eret (mergeAlertConfigMaps alertConfigMaps maps.1) in
  do records := eret (mergeRecordConfigMaps recordConfigMaps maps.2) in
  do alertFiles := eret (getAlertFiles alerts) in
  do _ := updateConfigMapByName releaseNamespace (releaseName +:+ "-promxy-rules") alertFiles in
  update_vmrules records vmRuleConfigMaps.

(** Reconcile does not look at the object it is called for. *)
Definition alerts_Reconcile (env : environ) : eff W unit := updateResultingConfigMaps env.
End reconcile.
End merge.
