(* ===== verification/AlertFacts.v ===== *)
(** The alert rules controller: which rules and files come out of the merge,
    which ConfigMaps a reconciliation changes, and to what. *)
From S2P Require Import Prelude Strings Env World Kube Alerts.

Open Scope string_scope.

(** * Folds that stop at an error *)

Section folds.
Context {A B : Type} (f : A → B → result A).

Lemma foldl_result_err e l : foldl (λ r b, try a := r in f a b) (Err e) l = Err e.
Proof. by induction l. Qed.

Lemma foldl_result_cons a b l :
  foldl_result f a (b :: l) = (try a' := f a b in foldl_result f a' l).
Proof. unfold foldl_result. simpl. destruct (f a b); [done|apply foldl_result_err]. Qed.

(** What a relation between the state and the list already read holds of is
    kept to the end. *)
Lemma foldl_result_ind (P : A → list B → Prop) a0 l a :
  P a0 [] → (∀ a b pre a', P a pre → f a b = Ok a' → b ∈ l → P a' (pre ++ [b])%list) →
  foldl_result f a0 l = Ok a → P a l.
Proof.
  intros H0 Hs. cut (∀ pre suf a1, l = (pre ++ suf)%list → P a1 pre →
    foldl_result f a1 suf = Ok a → P a l).
  { intros Hc. by apply (Hc [] l a0). }
  intros pre suf. revert pre. induction suf as [|b suf IH]; intros pre a1 El Hp.
  - rewrite app_nil_r in El. subst. intros [= ->]. done.
  - rewrite foldl_result_cons. intros (a' & Hf & Hr)%rbind_ok.
    apply (IH (pre ++ [b])%list a'); [by rewrite <-app_assoc| |done].
    apply (Hs a1); [done..|]. subst l. apply elem_of_app. right. by left.
Qed.

(** The fold fails exactly when a step does. *)
Lemma foldl_result_ok_steps a l a' b :
  foldl_result f a l = Ok a' → b ∈ l → ∃ a1 a2, f a1 b = Ok a2.
Proof.
  revert a. induction l as [|x l IH]; intros a; [by rewrite elem_of_nil|].
  rewrite foldl_result_cons, elem_of_cons. intros (a1 & Hf & Hr)%rbind_ok [->|Hb]; eauto.
Qed.
End folds.

(** * The nested maps *)

Lemma group_at_set_group {A} c g (a : A) m c' g' :
  group_at (set_group c g a m) c' g' =
  if decide (c' = c ∧ g' = g) then Some a else group_at m c' g'.
Proof.
  unfold group_at, set_group. destruct (decide (c' = c)) as [->|Hc].
  - rewrite lookup_insert_eq. simpl. destruct (decide (g' = g)) as [->|Hg].
    + rewrite lookup_insert_eq, decide_True by done. done.
    + rewrite lookup_insert_ne, decide_False by naive_solver. by destruct (m !! c).
  - rewrite lookup_insert_ne, decide_False by naive_solver. done.
Qed.

Lemma rule_at_set_group c g a m c' g' r' :
  rule_at (set_group c g a m) c' g' r' =
  if decide (c' = c ∧ g' = g) then a !! r' else rule_at m c' g' r'.
Proof. unfold rule_at. rewrite group_at_set_group. by case_decide. Qed.

Lemma group_at_ensure_cluster {A} c (m : by_cluster A) c' g' :
  group_at (ensure_cluster c m) c' g' = group_at m c' g'.
Proof.
  unfold ensure_cluster, group_at. destruct (m !! c) eqn:E; [done|].
  destruct (decide (c' = c)) as [->|]; [|by rewrite lookup_insert_ne].
  rewrite lookup_insert_eq, E. simpl. by rewrite lookup_empty.
Qed.

Lemma rule_at_ensure_cluster c m c' g' r' :
  rule_at (ensure_cluster c m) c' g' r' = rule_at m c' g' r'.
Proof. unfold rule_at. by rewrite group_at_ensure_cluster. Qed.

#[export] Hint Rewrite @group_at_set_group rule_at_set_group @group_at_ensure_cluster
  rule_at_ensure_cluster : kof.

(** * The rules that come out *)

(** What is meant by patching: the name stays; what the new rule says replaces
    what the old one says; labels and annotations are replaced key by key. *)
Definition override {A} (old new : option A) : option A :=
  match new with Some _ => new | None => old end.
Definition override_keys (old new : option (gmap string string)) : option (gmap string string) :=
  match old, new with
  | None, None => None
  | _, _ => Some (merge override (default ∅ old) (default ∅ new))
  end.
Definition patched (old new : Rule) : Rule :=
  {| ru_Record := ru_Record old; ru_Alert := ru_Alert old;
     ru_Expr := if decide (ru_Expr new = {| StrVal := ""; IntVal := 0 |}) then ru_Expr old else ru_Expr new;
     ru_For := override (ru_For old) (ru_For new);
     ru_KeepFiringFor := override (ru_KeepFiringFor old) (ru_KeepFiringFor new);
     ru_Labels := override_keys (ru_Labels old) (ru_Labels new);
     ru_Annotations := override_keys (ru_Annotations old) (ru_Annotations new) |}.
(** A rule under the name of its key, and one that does not keep firing. *)
Definition renamed (name : string) (r : Rule) : Rule :=
  {| ru_Record := ru_Record r; ru_Alert := name; ru_Expr := ru_Expr r; ru_For := ru_For r;
     ru_KeepFiringFor := ru_KeepFiringFor r; ru_Labels := ru_Labels r;
     ru_Annotations := ru_Annotations r |}.
Definition not_kept (r : Rule) : Rule :=
  {| ru_Record := ru_Record r; ru_Alert := ru_Alert r; ru_Expr := ru_Expr r; ru_For := ru_For r;
     ru_KeepFiringFor := None; ru_Labels := ru_Labels r; ru_Annotations := ru_Annotations r |}.

Lemma copy_over_keys old new : copy_over old new = override_keys old new.
Proof.
  destruct old as [o|], new as [n|]; simpl; try done; f_equal; apply map_eq; intros k;
    rewrite lookup_merge, ?lookup_union, ?lookup_empty; unfold override, diag_None;
    try destruct (o !! k); try destruct (n !! k); done.
Qed.
Lemma patchRule_patched old new : patchRule old new = patched old new.
Proof.
  unfold patchRule, patched. rewrite !copy_over_keys. f_equal; [|by destruct (ru_For new)|by destruct (ru_KeepFiringFor new)].
  destruct (ru_Expr new) as [s i]. simpl. repeat case_bool_decide; repeat case_decide; simplify_eq; done.
Qed.
Lemma set_Alert_renamed name r : set_Alert name r = renamed name r.
Proof. done. Qed.
Lemma set_KeepFiringFor_not_kept r : set_KeepFiringFor None r = not_kept r.
Proof. done. Qed.

(** A rule added to what is there: it patches an older one. *)
Definition patch_onto (old : option Rule) (new : Rule) : option Rule :=
  Some (match old with Some o => patched o new | None => new end).
Definition chain (base : option Rule) (patches : list Rule) : option Rule :=
  foldl patch_onto base patches.

(** Patches compose: a rule patched twice is the rule patched by the second
    patch of the first. *)
Lemma copy_over_assoc a b c : copy_over (copy_over a b) c = copy_over a (copy_over b c).
Proof.
  destruct b as [b|], c as [c|]; simpl; try done.
  - by rewrite map_union_assoc.
  - by rewrite map_union_empty.
Qed.
Lemma patchRule_assoc a b c : patchRule (patchRule a b) c = patchRule a (patchRule b c).
Proof.
  unfold patchRule. simpl. rewrite !copy_over_assoc. f_equal; try (by repeat case_match).
Qed.

(** A rule without labels is written without the name of its group. *)
Lemma label_rule_without_labels g r : ru_Labels r = None → ru_Labels (label_rule g r) = None.
Proof. intros Hn. simpl. by rewrite Hn. Qed.

Section merge.
Context (unmarshal_alerts : string → result AlertRules)
        (visit : ∀ {A}, gmap string A → list (string * A)).
Context (visit_perm : ∀ A (m : gmap string A), visit A m ≡ₚ map_to_list m).

Notation merge_rule := (merge_alert_rule).
Notation merge_group := (merge_alert_group unmarshal_alerts visit).
Notation merge_cm := (merge_alert_cm unmarshal_alerts visit).
Notation merge_cms := (mergeAlertConfigMaps unmarshal_alerts visit).

(** What a ConfigMap says about a rule of a cluster. *)
Definition yaml_rule (rule yaml : string) : option Rule :=
  match unmarshal_alerts yaml with
  | Ok rules => renamed rule <$> rules !! rule
  | Err _ => None
  end.
Definition contribution (cluster group rule : string) (cm : ConfigMap) : option Rule :=
  if decide (cm_label cm KofAlertRulesClusterNameLabel = cluster)
  then cm_Data cm !! group ≫= yaml_rule rule else None.

(** The default rule is the one of the PrometheusRules patched by the default
    ConfigMaps; the rule of a cluster is the default one patched by the
    ConfigMaps of the cluster, if they name it. *)
Definition default_rule (base : by_cluster AlertRules) (cms : list ConfigMap) (g r : string)
    : option Rule :=
  chain (rule_at base DefaultClusterName g r) (omap (contribution DefaultClusterName g r) cms).
Definition spec_rule (base : by_cluster AlertRules) (cms : list ConfigMap) (c g r : string)
    : option Rule :=
  if decide (c = DefaultClusterName) then default_rule base cms g r
  else match omap (contribution c g r) cms with
       | [] => None
       | patches => chain (default_rule base cms g r) patches
       end.

(** The effect of one new rule on the maps. *)
Definition base_for (m : by_cluster AlertRules) (c g r : string) : option Rule :=
  match rule_at m c g r with
  | Some old => Some old
  | None => rule_at m DefaultClusterName g r
  end.

Lemma rule_at_merge_rule c g r n m c' g' r' :
  rule_at (merge_rule c g m (r, n)) c' g' r' =
  if decide (c' = c ∧ g' = g ∧ r' = r) then patch_onto (base_for m c g r) (renamed r n)
  else rule_at m c' g' r'.
Proof.
  assert (Hs : ∀ x, rule_at (set_group c g (<[r := x]> (default ∅ (group_at m c g))) m) c' g' r' =
    if decide (c' = c ∧ g' = g ∧ r' = r) then Some x else rule_at m c' g' r').
  { intros x. rewrite rule_at_set_group. case_decide as Hd.
    - destruct Hd as [-> ->]. destruct (decide (r' = r)) as [->|Hr].
      + by rewrite lookup_insert_eq, decide_True.
      + rewrite lookup_insert_ne, decide_False by naive_solver.
        unfold rule_at. destruct (group_at m c g); simpl; [done|]. by rewrite lookup_empty.
    - rewrite decide_False by naive_solver. done. }
  unfold merge_alert_rule, base_for, patch_onto.
  destruct (rule_at m c g r) eqn:E; [rewrite <-patchRule_patched; apply Hs|].
  case_bool_decide as Hc; [subst; rewrite E; apply Hs|].
  destruct (rule_at m DefaultClusterName g r); [rewrite <-patchRule_patched|]; apply Hs.
Qed.

#[local] Arguments merge_alert_rule : simpl never.

(** The rules of one group of one ConfigMap. *)
Lemma rule_at_merge_rules c g l m c' g' r' :
  NoDup l.*1 →
  rule_at (foldl (merge_rule c g) m l) c' g' r' =
  match (if decide (c' = c ∧ g' = g) then (list_to_map l : gmap string Rule) !! r' else None) with
  | Some n => patch_onto (base_for m c g r') (renamed r' n)
  | None => rule_at m c' g' r'
  end.
Proof.
  revert m. induction l as [|[r n] l IH]; intros m Hn; simpl.
  { rewrite lookup_empty. by case_decide. }
  apply NoDup_cons in Hn as [Hr Hn]. rewrite IH by done.
  destruct (decide (c' = c ∧ g' = g)) as [[-> ->]|Hd].
  2:{ rewrite rule_at_merge_rule, decide_False by naive_solver. done. }
  destruct (decide (r' = r)) as [->|Hrr].
  - rewrite lookup_insert_eq.
    rewrite (not_elem_of_list_to_map_1 l r Hr), rule_at_merge_rule, decide_True by done. done.
  - rewrite lookup_insert_ne by done. unfold base_for.
    rewrite !rule_at_merge_rule, !(decide_False (P := _ ∧ _ ∧ _)) by naive_solver. done.
Qed.

Lemma visit_NoDup {A} (m : gmap string A) : NoDup (visit A m).*1.
Proof. rewrite (visit_perm _ m). apply NoDup_fst_map_to_list. Qed.
Lemma visit_map {A} (m : gmap string A) : list_to_map (visit A m) = m.
Proof.
  rewrite <-(list_to_map_to_list m) at 2. apply list_to_map_proper; [apply visit_NoDup|].
  apply visit_perm.
Qed.
Lemma elem_of_visit {A} (m : gmap string A) k a : (k, a) ∈ visit A m ↔ m !! k = Some a.
Proof. rewrite (visit_perm _ m). apply elem_of_map_to_list. Qed.

(** The effect of an optional contribution. *)
Definition contributed (m : by_cluster AlertRules) (c g r : string) (o : option Rule)
    : option Rule :=
  match o with Some n => patch_onto (base_for m c g r) n | None => rule_at m c g r end.

Lemma rule_at_merge_group c m g y m' :
  merge_group c m (g, y) = Ok m' →
  ∀ c' g' r', rule_at m' c' g' r' =
    contributed m c' g' r' (if decide (c' = c ∧ g' = g) then yaml_rule r' y else None).
Proof.
  unfold merge_alert_group. set (m1 := match group_at m c g with Some _ => m | None => _ end).
  assert (Hm : ∀ c' g' r', rule_at m1 c' g' r' = rule_at m c' g' r').
  { intros c' g' r'. unfold m1. destruct (group_at m c g) eqn:E; [done|].
    rewrite rule_at_set_group. case_decide as Hd; [|done]. destruct Hd as [-> ->].
    unfold rule_at. by rewrite E, lookup_empty. }
  intros (rs & Hy & [= <-])%rbind_ok c' g' r'.
  rewrite rule_at_merge_rules by apply visit_NoDup. rewrite visit_map.
  unfold contributed, yaml_rule, base_for. rewrite Hy. case_decide as Hd; [|apply Hm].
  destruct Hd as [-> ->]. destruct (rs !! r'); simpl; rewrite !Hm; done.
Qed.

Lemma rule_at_merge_groups c l m m' :
  NoDup l.*1 → foldl_result (merge_group c) m l = Ok m' →
  ∀ c' g' r', rule_at m' c' g' r' =
    contributed m c' g' r' (if decide (c' = c)
      then (list_to_map l : gmap string string) !! g' ≫= yaml_rule r' else None).
Proof.
  revert m. induction l as [|[g y] l IH]; intros m Hn.
  { intros [= ->] c' g' r'. simpl. rewrite lookup_empty. by case_decide. }
  apply NoDup_cons in Hn as [Hg Hn]. rewrite foldl_result_cons.
  intros (m1 & H1 & H2)%rbind_ok c' g' r'. rewrite (IH _ Hn H2 c' g' r').
  pose proof (rule_at_merge_group _ _ _ _ _ H1) as Hm1. simpl.
  destruct (decide (c' = c)) as [->|Hc].
  2:{ simpl. rewrite Hm1, decide_False by naive_solver. done. }
  destruct (decide (g' = g)) as [->|Hgg].
  - rewrite (not_elem_of_list_to_map_1 l g Hg), lookup_insert_eq. simpl.
    rewrite Hm1, decide_True by done. done.
  - rewrite lookup_insert_ne by done. unfold contributed, base_for.
    rewrite !Hm1, !(decide_False (P := _ ∧ _)) by naive_solver. done.
Qed.

Lemma rule_at_merge_cm m cm m' :
  merge_cm m cm = Ok m' →
  ∀ c g r, rule_at m' c g r = contributed m c g r (contribution c g r cm).
Proof.
  intros Hm c g r. rewrite (rule_at_merge_groups _ _ _ _ (visit_NoDup _) Hm c g r), visit_map.
  unfold contribution, contributed, base_for. rewrite !rule_at_ensure_cluster.
  destruct (decide (c = cm_label cm KofAlertRulesClusterNameLabel)) as [->|Hc];
    [by rewrite decide_True|].
  rewrite (decide_False (P := _ = c)) by congruence. done.
Qed.

Notation is_default_cm := (is_default KofAlertRulesClusterNameLabel).

Lemma contribution_other c g r cm :
  (if is_default_cm cm then c ≠ DefaultClusterName else c = DefaultClusterName) →
  contribution c g r cm = None.
Proof.
  unfold is_default, contribution. case_bool_decide as E; intros Hc; rewrite decide_False; naive_solver.
Qed.

Lemma rule_at_merge_default cms m m' g r :
  merge_cms cms m = Ok m' →
  rule_at m' DefaultClusterName g r = default_rule m cms g r.
Proof.
  unfold mergeAlertConfigMaps, default_rule. revert m. induction cms as [|cm cms IH]; intros m.
  { by intros [= ->]. }
  rewrite foldl_result_cons. intros (m1 & H1 & H2)%rbind_ok. rewrite (IH _ H2).
  rewrite (rule_at_merge_cm _ _ _ H1). simpl. unfold contributed.
  destruct (contribution _ _ _ cm); [|done]. simpl. f_equal. unfold base_for.
  by destruct (rule_at m DefaultClusterName g r).
Qed.

Lemma rule_at_merge_cluster cms m m' c g r :
  c ≠ DefaultClusterName → Forall (λ cm, is_default_cm cm = false) cms →
  merge_cms cms m = Ok m' →
  rule_at m' c g r = match omap (contribution c g r) cms with
                     | [] => rule_at m c g r
                     | patches => chain (base_for m c g r) patches
                     end.
Proof.
  intros Hc. unfold mergeAlertConfigMaps. revert m. induction cms as [|cm cms IH]; intros m Hf.
  { by intros [= ->]. }
  apply Forall_cons in Hf as [Hd Hf]. rewrite foldl_result_cons.
  intros (m1 & H1 & H2)%rbind_ok. rewrite (IH _ Hf H2). unfold base_for.
  rewrite !(rule_at_merge_cm _ _ _ H1), (contribution_other DefaultClusterName _ _ cm) by by rewrite Hd.
  unfold contributed, chain.
  cbn. destruct (contribution c g r cm); cbn; fold (base_for m c g r);
    by destruct (omap (contribution c g r) cms).
Qed.

Lemma rule_at_merge_defaults cms m m' c g r :
  c ≠ DefaultClusterName → Forall (λ cm, is_default_cm cm = true) cms →
  merge_cms cms m = Ok m' → rule_at m' c g r = rule_at m c g r.
Proof.
  intros Hc. unfold mergeAlertConfigMaps. revert m. induction cms as [|cm cms IH]; intros m Hf.
  { by intros [= ->]. }
  apply Forall_cons in Hf as [Hd Hf]. rewrite foldl_result_cons.
  intros (m1 & H1 & H2)%rbind_ok. rewrite (IH _ Hf H2), (rule_at_merge_cm _ _ _ H1).
  rewrite contribution_other; [done|]. by rewrite Hd.
Qed.

Lemma omap_cons {A B} (f : A → option B) x l :
  omap f (x :: l) = (option_list (f x) ++ omap f l)%list.
Proof. cbn. by destruct (f x). Qed.

Lemma omap_none {A B} (f : A → option B) l : (∀ x, x ∈ l → f x = None) → omap f l = [].
Proof.
  induction l as [|x l IH]; [done|]. intros Hf. rewrite omap_cons, Hf by by left.
  apply IH. intros y Hy. apply Hf. by right.
Qed.

(** The stable partition does not change the order within a cluster. *)
Lemma omap_default_first {A} label c (f : ConfigMap → option A) cms :
  (∀ cm, is_Some (f cm) → cm_label cm label = c) →
  omap f (default_first label cms) = omap f cms.
Proof.
  intros Hf. unfold default_first. rewrite omap_app.
  assert (Hn : ∀ b, bool_decide (c = DefaultClusterName) = b →
    omap f (filter (λ cm, is_default label cm = negb b) cms) = [] ∧
    omap f (filter (λ cm, is_default label cm = b) cms) = omap f cms).
  { intros b Hb.
    assert (Hd : ∀ cm, is_default label cm ≠ b → f cm = None).
    { intros cm Hcm. destruct (f cm) eqn:E; [|done]. destruct Hcm.
      unfold is_default. by rewrite (Hf cm) by by rewrite E. }
    split; [apply omap_none; intros x [Hx _]%list_elem_of_filter; apply Hd; by destruct b, (is_default label x)|].
    induction cms as [|cm cms IH]; [done|]. rewrite filter_cons, omap_cons.
    destruct (decide (is_default label cm = b)); [by rewrite omap_cons, IH|]. by rewrite IH, Hd. }
  destruct (bool_decide (c = DefaultClusterName)); destruct (Hn _ eq_refl) as [Hn1 Hn2];
    simpl in *; rewrite Hn1, Hn2; [apply app_nil_r|done].
Qed.

Lemma contribution_label c g r cm :
  is_Some (contribution c g r cm) → cm_label cm KofAlertRulesClusterNameLabel = c.
Proof. unfold contribution. case_decide; [done|by intros []]. Qed.

Lemma foldl_result_app {A B} (f : A → B → result A) a l1 l2 :
  foldl_result f a (l1 ++ l2) = (try a' := foldl_result f a l1 in foldl_result f a' l2).
Proof.
  revert a. induction l1 as [|b l1 IH]; intros a; [done|]. simpl.
  rewrite !foldl_result_cons. destruct (f a b); simpl; [apply IH|done].
Qed.

(** The maps that come out of the merge, rule by rule. *)
Lemma merge_alert_rules base cms m :
  (∀ c g r, c ≠ DefaultClusterName → rule_at base c g r = None) →
  merge_cms (default_first KofAlertRulesClusterNameLabel cms) base = Ok m →
  ∀ c g r, rule_at m c g r = spec_rule base cms c g r.
Proof.
  intros Hb Hm c g r. unfold spec_rule, default_rule.
  rewrite <-!(omap_default_first _ _ _ cms (contribution_label _ g r)). case_decide as Hc.
  { subst. by rewrite (rule_at_merge_default _ _ _ g r Hm). }
  pose proof Hm as Hm'. unfold default_first, mergeAlertConfigMaps in Hm.
  rewrite foldl_result_app in Hm. apply rbind_ok in Hm as (m1 & H1 & H2).
  assert (Hf : ∀ b, Forall (λ cm, is_default_cm cm = b) (filter (λ cm, is_default_cm cm = b) cms)).
  { intros b. apply Forall_forall. by intros ? [? _]%list_elem_of_filter. }
  rewrite (rule_at_merge_cluster _ m1 m c g r Hc (Hf false) H2).
  assert (Hm1 : rule_at m1 c g r = None).
  { rewrite (rule_at_merge_defaults _ base m1 c g r Hc (Hf true) H1). by apply Hb. }
  unfold default_first. rewrite !omap_app.
  rewrite (omap_none (contribution c g r) (filter (λ cm, is_default_cm cm = true) cms)).
  2:{ intros x [Hx _]%list_elem_of_filter. apply contribution_other. by rewrite Hx. }
  rewrite (omap_none (contribution DefaultClusterName g r)
             (filter (λ cm, is_default_cm cm = false) cms)), app_nil_r.
  2:{ intros x [Hx _]%list_elem_of_filter. apply contribution_other. by rewrite Hx. }
  unfold base_for. rewrite Hm1. simpl.
  pose proof (rule_at_merge_default _ base m1 g r H1) as Hd. unfold default_rule in Hd.
  by rewrite Hd.
Qed.

(** * The rules of PrometheusRules *)

(** The last rule of a name, without its [keep_firing_for]. *)
Definition last_alert (r : string) (rules : list Rule) : option Rule :=
  not_kept <$> last (filter (λ x, ru_Alert x = r ∧ r ≠ "") rules).
Definition rules_of (g : string) (groups : list RuleGroup) : list Rule :=
  filter (λ x, rg_Name x = g) groups ≫= rg_Rules.

Definition or_else {A} (o old : option A) : option A :=
  match o with Some a => Some a | None => old end.

Lemma merge_rules_alert rules st r :
  (foldl merge_prometheus_rule st rules).1 !! r = or_else (last_alert r rules) (st.1 !! r).
Proof.
  revert st. induction rules as [|x rules IH] using rev_ind; intros st; [done|].
  rewrite foldl_app. simpl. specialize (IH st).
  destruct (foldl merge_prometheus_rule st rules) as [a rc]. simpl in IH.
  unfold merge_prometheus_rule, last_alert. rewrite filter_app, filter_cons, filter_nil.
  case_bool_decide as Hx; simpl.
  - rewrite decide_False, app_nil_r by naive_solver. done.
  - case_decide as Hd.
    + destruct Hd as [<- _]. by rewrite last_snoc, lookup_insert_eq.
    + rewrite app_nil_r, lookup_insert_ne by naive_solver. done.
Qed.

Lemma rule_at_merge_prometheus groups st c g r :
  (∀ c' g', c' ≠ DefaultClusterName → group_at st.1 c' g' = None) →
  rule_at (foldl merge_prometheus_group st groups).1 c g r =
  if decide (c = DefaultClusterName)
  then or_else (last_alert r (rules_of g groups)) (rule_at st.1 DefaultClusterName g r) else None.
Proof.
  revert st. induction groups as [|x groups IH]; intros [al rc] Hst; simpl.
  { case_decide as Hc; [by subst|]. unfold rule_at. by rewrite Hst. }
  set (st' := merge_prometheus_group (al, rc) x).
  assert (Hrule : ∀ c' g' r', rule_at st'.1 c' g' r' =
    if decide (c' = DefaultClusterName ∧ g' = rg_Name x)
    then or_else (last_alert r' (rg_Rules x)) (rule_at al c' g' r') else rule_at al c' g' r').
  { intros c' g' r'. unfold st', merge_prometheus_group.
    pose proof (merge_rules_alert (rg_Rules x)
      (default ∅ (group_at al DefaultClusterName (rg_Name x)),
       default (Some []) (group_at rc DefaultClusterName (rg_Name x))) r') as Hm.
    destruct (foldl merge_prometheus_rule _ _) as [a' rc']. simpl in *.
    assert (Hold : default ∅ (group_at al DefaultClusterName (rg_Name x)) !! r' =
                   rule_at al DefaultClusterName (rg_Name x) r').
    { unfold rule_at. destruct (group_at al _ _); simpl; [done|]. by rewrite lookup_empty. }
    rewrite Hold in Hm. case_bool_decide as Ha; simpl.
    all: rewrite ?rule_at_set_group;
      destruct (decide (c' = DefaultClusterName ∧ g' = rg_Name x)) as [[-> ->]|]; try done.
    subst a'. rewrite lookup_empty in Hm. by destruct (last_alert r' (rg_Rules x)). }
  rewrite IH.
  2:{ intros c' g' Hc. unfold st', merge_prometheus_group.
      destruct (foldl merge_prometheus_rule _ _) as [a' rc']. simpl.
      case_bool_decide; [by apply Hst|]. rewrite group_at_set_group, decide_False by naive_solver.
      by apply Hst. }
  case_decide as Hc; [|done]. rewrite Hrule. unfold rules_of. rewrite filter_cons.
  destruct (decide (rg_Name x = g)) as [<-|Hg].
  - rewrite !decide_True by done. rewrite bind_cons. unfold last_alert.
    rewrite filter_app, last_app. by destruct (last (filter _ (_ ≫= _))).
  - rewrite !decide_False by naive_solver. done.
Qed.

Definition no_rules {A} : by_cluster A := {[DefaultClusterName := ∅]}.
Definition groups_of (prs : list PrometheusRule) : list RuleGroup := prs ≫= pr_Groups.

Lemma merge_prometheus_items_groups prs st :
  merge_prometheus_items prs st = foldl merge_prometheus_group st (groups_of prs).
Proof.
  unfold merge_prometheus_items, groups_of. revert st.
  induction prs as [|pr prs IH]; intros st; simpl; [done|]. by rewrite IH, foldl_app.
Qed.

Lemma prometheus_base prs records c g r :
  rule_at (merge_prometheus_items prs (no_rules, records)).1 c g r =
  if decide (c = DefaultClusterName) then last_alert r (rules_of g (groups_of prs)) else None.
Proof.
  rewrite merge_prometheus_items_groups, rule_at_merge_prometheus.
  - case_decide; [|done]. unfold no_rules, rule_at, group_at. simpl.
    rewrite lookup_singleton_eq. simpl. rewrite lookup_empty. simpl.
    by destruct (last_alert _ _).
  - intros c' g' Hc. unfold no_rules, group_at. simpl. by rewrite lookup_singleton_ne.
Qed.

(** ** Record rules *)

(** The record rules of a group, in order. *)
Definition as_record (r : Rule) : Rule :=
  if bool_decide (ru_Alert r = "") then r else not_kept r.
Definition records_of (rules : list Rule) : list Rule :=
  as_record <$> filter (λ x, ru_Record x ≠ "") rules.
Definition appended (old : option RecordRules) (l : list Rule) : option RecordRules :=
  match l with [] => old | _ => Some (Some (default [] (default (Some []) old) ++ l)%list) end.

Lemma merge_rule_record st x :
  (merge_prometheus_rule st x).2 =
  if decide (ru_Record x ≠ "") then Some (default [] st.2 ++ [as_record x])%list else st.2.
Proof.
  destruct st as [a rc]. unfold merge_prometheus_rule, as_record.
  destruct (decide (ru_Record x ≠ "")) as [Hr|Hr%dec_stable]; case_bool_decide; cbn;
    case_bool_decide; done.
Qed.

Lemma merge_rules_record rules st :
  (foldl merge_prometheus_rule st rules).2 =
  match records_of rules with [] => st.2 | l => Some (default [] st.2 ++ l)%list end.
Proof.
  induction rules as [|x rules IH] using rev_ind; [done|].
  rewrite foldl_app. simpl. rewrite merge_rule_record, IH.
  unfold records_of. rewrite filter_app, fmap_app, filter_cons, filter_nil.
  case_decide; simpl; [|by rewrite app_nil_r].
  destruct (as_record <$> _); simpl; by rewrite <-?app_assoc.
Qed.

Lemma records_of_app l1 l2 : records_of (l1 ++ l2) = (records_of l1 ++ records_of l2)%list.
Proof. unfold records_of. by rewrite filter_app, fmap_app. Qed.

Lemma appended_app old l1 l2 : appended (appended old l1) l2 = appended old (l1 ++ l2).
Proof.
  destruct l1 as [|x l1]; [done|]. destruct l2 as [|y l2]; simpl; [by rewrite app_nil_r|].
  by rewrite <-app_assoc.
Qed.

Lemma group_at_merge_prometheus groups st c g :
  (∀ g', group_at st.2 DefaultClusterName g' ≠ Some (Some []) ∧
         group_at st.2 DefaultClusterName g' ≠ Some None) →
  group_at (foldl merge_prometheus_group st groups).2 c g =
  if decide (c = DefaultClusterName)
  then appended (group_at st.2 DefaultClusterName g) (records_of (rules_of g groups))
  else group_at st.2 c g.
Proof.
  revert st. induction groups as [|x groups IH]; intros [al rc] Hst; simpl.
  { case_decide as Hc; [by subst|done]. }
  assert (Hg : ∀ c' g', group_at (merge_prometheus_group (al, rc) x).2 c' g' =
    if decide (c' = DefaultClusterName ∧ g' = rg_Name x)
    then appended (group_at rc c' g') (records_of (rg_Rules x)) else group_at rc c' g').
  { intros c' g'. unfold merge_prometheus_group.
    pose proof (merge_rules_record (rg_Rules x)
      (default ∅ (group_at al DefaultClusterName (rg_Name x)),
       default (Some []) (group_at rc DefaultClusterName (rg_Name x)))) as Hm.
    destruct (foldl merge_prometheus_rule _ _) as [a' rc']. simpl in *. subst rc'.
    destruct (Hst (rg_Name x)) as [H1 H2]. simpl in H1, H2.
    destruct (records_of (rg_Rules x)) as [|y l]; simpl.
    - case_bool_decide; rewrite ?group_at_set_group;
        destruct (decide (c' = DefaultClusterName ∧ g' = rg_Name x)) as [[-> ->]|]; try done.
      destruct (group_at rc DefaultClusterName (rg_Name x)) as [[[|z t]|]|] eqn:E; naive_solver.
    - case_bool_decide as He; [by destruct (default [] _)|].
      rewrite group_at_set_group.
      by destruct (decide (c' = DefaultClusterName ∧ g' = rg_Name x)) as [[-> ->]|]. }
  rewrite IH.
  2:{ intros g'. rewrite Hg. specialize (Hst g'). simpl in Hst.
      destruct (decide (DefaultClusterName = DefaultClusterName ∧ g' = rg_Name x)); [|done].
      destruct (records_of (rg_Rules x)) as [|y l]; simpl; [done|].
      split; [|done]. by destruct (default [] _). }
  rewrite !Hg. destruct (decide (c = DefaultClusterName)) as [->|Hc].
  - unfold rules_of. rewrite filter_cons. destruct (decide (rg_Name x = g)) as [<-|Hgx].
    + rewrite decide_True by done. by rewrite bind_cons, records_of_app, appended_app.
    + rewrite decide_False by naive_solver. done.
  - by rewrite decide_False by naive_solver.
Qed.

(** The groups of record rules of a ConfigMap replace what was there. *)
Context (unmarshal_records : string → result RecordRules).
Notation merge_record_cms := (mergeRecordConfigMaps unmarshal_records visit).
Definition record_contribution (c g : string) (cm : ConfigMap) : option RecordRules :=
  if decide (cm_label cm KofRecordRulesClusterNameLabel = c) then
    yaml ← cm_Data cm !! g;
    match unmarshal_records yaml with Ok rules => Some rules | Err _ => None end
  else None.

Lemma record_contribution_label c g cm :
  is_Some (record_contribution c g cm) → cm_label cm KofRecordRulesClusterNameLabel = c.
Proof. unfold record_contribution. case_decide; [done|by intros []]. Qed.

Lemma group_at_merge_record_groups c l m m' :
  NoDup l.*1 → foldl_result (merge_record_group unmarshal_records c) m l = Ok m' →
  ∀ c' g', group_at m' c' g' =
    or_else (if decide (c' = c) then (list_to_map l : gmap string string) !! g' ≫= λ yaml,
               match unmarshal_records yaml with Ok rules => Some rules | Err _ => None end
             else None) (group_at m c' g').
Proof.
  revert m. induction l as [|[g y] l IH]; intros m Hn.
  { intros [= ->] c' g'. simpl. rewrite lookup_empty. by case_decide. }
  apply NoDup_cons in Hn as [Hg Hn]. rewrite foldl_result_cons.
  intros (m1 & (rs & Hy & [= <-])%rbind_ok & H2)%rbind_ok c' g'.
  rewrite (IH _ Hn H2 c' g'), group_at_set_group. simpl.
  destruct (decide (c' = c)) as [->|Hc]; [|by rewrite decide_False by naive_solver].
  destruct (decide (g' = g)) as [->|Hgg].
  - rewrite (not_elem_of_list_to_map_1 l g Hg), lookup_insert_eq. simpl.
    by rewrite Hy, decide_True by done.
  - by rewrite lookup_insert_ne, (decide_False (P := _ ∧ _)) by naive_solver.
Qed.

Lemma group_at_merge_record_cms cms m m' c g :
  merge_record_cms cms m = Ok m' →
  group_at m' c g = or_else (last (omap (record_contribution c g) cms)) (group_at m c g).
Proof.
  unfold mergeRecordConfigMaps. revert m. induction cms as [|cm cms IH]; intros m.
  { by intros [= ->]. }
  rewrite foldl_result_cons. intros (m1 & H1 & H2)%rbind_ok. rewrite (IH _ H2).
  rewrite (group_at_merge_record_groups _ _ _ _ (visit_NoDup _) H1 c g), visit_map.
  rewrite group_at_ensure_cluster, omap_cons, last_app. unfold record_contribution at 3.
  destruct (decide (c = cm_label cm KofRecordRulesClusterNameLabel)) as [->|Hc].
  - rewrite decide_True by done. destruct (last (omap _ cms)); [done|].
    destruct (cm_Data cm !! g) as [y|]; [|done]. simpl. by destruct (unmarshal_records y).
  - rewrite (decide_False (P := _ = c)) by congruence. by destruct (last (omap _ cms)).
Qed.

(** The record rules of a group of a cluster from all sources: the last
    ConfigMap of the cluster that has the group, and for the default cluster
    the PrometheusRules otherwise. *)
Definition record_group (prs : list PrometheusRule) (cms : list ConfigMap) (c g : string)
    : option RecordRules :=
  or_else (last (omap (record_contribution c g) cms))
    (if decide (c = DefaultClusterName)
     then appended None (records_of (rules_of g (groups_of prs))) else None).

Lemma merged_records prs alerts cms m :
  merge_record_cms (default_first KofRecordRulesClusterNameLabel cms)
    (merge_prometheus_items prs (alerts, no_rules)).2 = Ok m →
  ∀ c g, group_at m c g = record_group prs cms c g.
Proof.
  intros Hm c g. rewrite (group_at_merge_record_cms _ _ _ c g Hm).
  rewrite (omap_default_first _ _ _ cms (record_contribution_label c g)).
  assert (Hno : ∀ c' g', group_at (no_rules : by_cluster RecordRules) c' g' = None).
  { intros c' g'. unfold no_rules, group_at. destruct (decide (c' = DefaultClusterName)) as [->|].
    - by rewrite lookup_singleton_eq.
    - by rewrite lookup_singleton_ne. }
  rewrite merge_prometheus_items_groups, group_at_merge_prometheus; simpl.
  - unfold record_group. by rewrite !Hno.
  - intros g'. by rewrite Hno.
Qed.

(** The rule of a cluster from all sources. *)
Definition alert_rule (prs : list PrometheusRule) (cms : list ConfigMap) (c g r : string)
    : option Rule :=
  let dflt := chain (last_alert r (rules_of g (groups_of prs)))
                (omap (contribution DefaultClusterName g r) cms) in
  if decide (c = DefaultClusterName) then dflt
  else match omap (contribution c g r) cms with [] => None | patches => chain dflt patches end.

(** The alert rules that come out of PrometheusRules and ConfigMaps. *)
Lemma merged_rules prs records cms m :
  merge_cms (default_first KofAlertRulesClusterNameLabel cms)
    (merge_prometheus_items prs (no_rules, records)).1 = Ok m →
  ∀ c g r, rule_at m c g r = alert_rule prs cms c g r.
Proof.
  intros Hm c g r.
  rewrite (merge_alert_rules _ _ _ (λ c g r Hc, eq_trans (prometheus_base _ _ c g r)
             (decide_False _ _ Hc)) Hm).
  unfold spec_rule, alert_rule, default_rule.
  pose proof (prometheus_base prs records DefaultClusterName g r) as Hb.
  rewrite decide_True in Hb by done. by rewrite Hb.
Qed.

Lemma chain_Alert base l name :
  (∀ x, base = Some x → ru_Alert x = name) → Forall (λ x, ru_Alert x = name) l →
  ∀ x, chain base l = Some x → ru_Alert x = name.
Proof.
  intros Hb Hl. revert base Hb. induction Hl as [|y l Hy Hl IH]; intros base Hb x; [apply Hb|].
  apply IH. intros z [= <-]. destruct base as [b|]; [|done]. apply (Hb b eq_refl).
Qed.

Lemma last_alert_name r rules x : last_alert r rules = Some x → ru_Alert x = r.
Proof.
  unfold last_alert. intros (y & Hy & ->)%fmap_Some.
  apply last_Some_elem_of, list_elem_of_filter in Hy as [[Hy _] _]. done.
Qed.

Lemma contribution_name c g r cm x : contribution c g r cm = Some x → ru_Alert x = r.
Proof.
  unfold contribution, yaml_rule. case_decide; [|done].
  destruct (cm_Data cm !! g) as [y|]; [|done]. simpl.
  destruct (unmarshal_alerts y) as [rs|]; [|done]. by intros (z & Hz & ->)%fmap_Some.
Qed.

(** A rule is stored under its own name. *)
Lemma alert_rule_name prs cms c g r x : alert_rule prs cms c g r = Some x → ru_Alert x = r.
Proof.
  unfold alert_rule. set (dflt := chain _ _).
  assert (Hd : ∀ y, dflt = Some y → ru_Alert y = r).
  { apply chain_Alert; [intros y; apply last_alert_name|]. apply Forall_forall.
    intros y (cm & _ & Hy)%list_elem_of_omap. by eapply contribution_name. }
  case_decide; [apply Hd|].
  destruct (omap (contribution c g r) cms) as [|p l] eqn:E; [done|]. rewrite <-E.
  apply chain_Alert; [exact Hd|]. apply Forall_forall.
  intros y (cm & _ & Hy)%list_elem_of_omap. by eapply contribution_name.
Qed.

(** ** The groups that have rules *)

(** Merging a rule, a group or a ConfigMap adds the groups it names. *)
Lemma group_merge_rule c g m e c' g' :
  is_Some (group_at (merge_alert_rule c g m e) c' g') ↔
  (c' = c ∧ g' = g) ∨ is_Some (group_at m c' g').
Proof.
  destruct e as [name new].
  assert (Hs : ∀ rules, is_Some (group_at (set_group c g rules m) c' g') ↔
    (c' = c ∧ g' = g) ∨ is_Some (group_at m c' g')).
  { intros rules. rewrite group_at_set_group. case_decide; naive_solver. }
  unfold merge_alert_rule. repeat case_match; apply Hs.
Qed.

Lemma group_merge_group c m e m' c' g' :
  merge_group c m e = Ok m' →
  is_Some (group_at m' c' g') ↔ (c' = c ∧ g' = e.1) ∨ is_Some (group_at m c' g').
Proof.
  destruct e as [g y]. unfold merge_alert_group. set (m1 := match group_at m c g with Some _ => m | None => _ end).
  assert (Hm : is_Some (group_at m1 c' g') ↔ (c' = c ∧ g' = g) ∨ is_Some (group_at m c' g')).
  { unfold m1. destruct (group_at m c g) eqn:E; [|rewrite group_at_set_group; case_decide; naive_solver].
    split; [by right|]. intros [[-> ->]|?]; [by rewrite E|done]. }
  intros (rs & _ & [= <-])%rbind_ok. simpl. rewrite <-Hm. generalize (visit _ rs). intros l.
  assert (H1 : c' = c ∧ g' = g → is_Some (group_at m1 c' g')) by (intros H; apply Hm; by left).
  clear Hm. clearbody m1. revert m1 H1. induction l as [|e l IH]; intros m1 H1; simpl; [done|].
  rewrite IH, group_merge_rule; [naive_solver|]. intros H. rewrite group_merge_rule. by left.
Qed.

Lemma group_merge_cms cms m m' c g :
  merge_cms cms m = Ok m' →
  is_Some (group_at m' c g) ↔
  is_Some (group_at m c g) ∨
  ∃ cm, cm ∈ cms ∧ cm_label cm KofAlertRulesClusterNameLabel = c ∧ is_Some (cm_Data cm !! g).
Proof.
  unfold mergeAlertConfigMaps. revert m. induction cms as [|cm cms IH]; intros m.
  { intros [= ->]. setoid_rewrite elem_of_nil. naive_solver. }
  rewrite foldl_result_cons. intros (m1 & H1 & H2)%rbind_ok. rewrite (IH _ H2).
  assert (Hone : is_Some (group_at m1 c g) ↔ is_Some (group_at m c g) ∨
    (cm_label cm KofAlertRulesClusterNameLabel = c ∧ is_Some (cm_Data cm !! g))).
  { unfold merge_alert_cm in H1. set (c0 := cm_label cm _) in *.
    transitivity (is_Some (group_at (ensure_cluster c0 m) c g) ∨ (c0 = c ∧ ∃ y, (g, y) ∈ visit _ (cm_Data cm))).
    2:{ rewrite group_at_ensure_cluster. unfold is_Some at 3. by setoid_rewrite (elem_of_visit). }
    revert H1. generalize (visit _ (cm_Data cm)) (ensure_cluster c0 m). clear H2 IH. intros l.
    induction l as [|[g1 y1] l IH]; intros m0.
    { intros [= ->]. setoid_rewrite elem_of_nil. naive_solver. }
    rewrite foldl_result_cons. intros (m2 & H1 & H2)%rbind_ok.
    rewrite (IH _ H2), (group_merge_group _ _ _ _ c g H1). setoid_rewrite elem_of_cons. naive_solver. }
  rewrite Hone. setoid_rewrite elem_of_cons. naive_solver.
Qed.

(** The groups of the PrometheusRules hold a rule. *)
Lemma merge_prometheus_nonempty groups st c g :
  (∀ c g, group_at st.1 c g ≠ Some ∅) →
  group_at (foldl merge_prometheus_group st groups).1 c g ≠ Some ∅.
Proof.
  revert st. induction groups as [|x groups IH]; intros [al rc] Hst; simpl; [apply Hst|]. apply IH.
  intros c' g'. unfold merge_prometheus_group. destruct (foldl merge_prometheus_rule _ _) as [a' rc']. simpl.
  case_bool_decide; [apply Hst|]. rewrite group_at_set_group. case_decide; [congruence|apply Hst].
Qed.

(** A group is in the merged maps when it has a rule or a ConfigMap names it. *)
Lemma merged_groups prs records cms m :
  merge_cms (default_first KofAlertRulesClusterNameLabel cms)
    (merge_prometheus_items prs (no_rules, records)).1 = Ok m →
  ∀ c g, is_Some (group_at m c g) ↔
    (∃ r, is_Some (rule_at m c g r)) ∨
    ∃ cm, cm ∈ cms ∧ cm_label cm KofAlertRulesClusterNameLabel = c ∧ is_Some (cm_Data cm !! g).
Proof.
  intros Hm c g.
  assert (Hin : ∀ cm, cm ∈ default_first KofAlertRulesClusterNameLabel cms ↔ cm ∈ cms).
  { intros cm. unfold default_first. rewrite elem_of_app, !list_elem_of_filter.
    destruct (is_default _ cm); naive_solver. }
  pose proof (group_merge_cms _ _ _ c g Hm) as Hg. setoid_rewrite Hin in Hg. split.
  - rewrite Hg. intros [Hb|Hb]; [left|by right].
    rewrite merge_prometheus_items_groups in Hb.
    pose proof (merge_prometheus_nonempty (groups_of prs) (no_rules, records) c g) as Hne.
    pose proof (prometheus_base prs records c g) as Hbase. rewrite merge_prometheus_items_groups in Hbase.
    destruct Hb as [rules Hr]. rewrite Hr in Hne.
    destruct (map_choose rules) as (r & x & Hx).
    { intros ->. apply Hne; [|done]. intros c' g'. unfold no_rules, group_at. simpl.
      destruct (decide (c' = DefaultClusterName)) as [->|]; [|by rewrite lookup_singleton_ne].
      by rewrite lookup_singleton_eq. }
    exists r. specialize (Hbase r). unfold rule_at at 1 in Hbase. rewrite Hr in Hbase. simpl in Hbase.
    rewrite Hx in Hbase. rewrite (merged_rules _ _ _ _ Hm). unfold alert_rule.
    case_decide as Hc; [|done]. rewrite <-Hbase. clear Hx Hbase.
    generalize (omap (contribution DefaultClusterName g r) cms). intros l. revert x. induction l as [|y l IH]; intros x; [by eexists|]. apply IH.
  - intros [(r & x & Hx)|Hc]; [|apply Hg; by right].
    unfold rule_at in Hx. destruct (group_at m c g); [by eexists|done].
Qed.
End merge.
