(* ===== verification/AlertRunFacts.v ===== *)
(** The alert rules controller: the files it makes, and what a reconciliation
    does to the ConfigMaps. *)
From S2P Require Import Prelude Strings Env World Kube Alerts AlertFacts.
From Stdlib Require Import Ascii.

Open Scope string_scope.

(** * Rules in the order of their names *)

Definition in_order (rules : AlertRules) : list Rule :=
  omap (λ name, rules !! name) (sort_strings (map_to_list rules).*1).

Definition keyed (rules : AlertRules) : Prop := map_Forall (λ name r, ru_Alert r = name) rules.

#[local] Instance alert_le_trans : Transitive alert_le.
Proof. intros a b c. unfold alert_le. apply (transitivity (R := String.le)). Qed.
#[local] Instance alert_le_total : Total alert_le.
Proof. intros a b. unfold alert_le. apply (total String.le). Qed.

Lemma sorted_in_order (l : list Rule) rules :
  keyed rules → l ≡ₚ (map_to_list rules).*2 → merge_sort alert_le l = in_order rules.
Proof.
  intros Hk Hp. unfold in_order. set (s := merge_sort alert_le l).
  assert (Hs : s ≡ₚ (map_to_list rules).*2) by (unfold s; by rewrite merge_sort_Permutation).
  assert (Hm : ru_Alert <$> s = sort_strings (map_to_list rules).*1).
  { apply (StronglySorted_unique String.le).
    - apply (StronglySorted_fmap _ alert_le); [done|]. apply (StronglySorted_merge_sort alert_le).
    - apply sort_strings_sorted.
    - rewrite sort_strings_perm, Hs, <-list_fmap_compose. apply reflexive_eq, list_fmap_ext.
      intros i [k x] Hx%list_elem_of_lookup_2. apply elem_of_map_to_list in Hx.
      simpl. apply (Hk k x Hx). }
  rewrite <-Hm.
  assert (Hl : Forall (λ x, rules !! ru_Alert x = Some x) s).
  { rewrite Hs. apply Forall_fmap, Forall_forall. intros [k x] Hx%elem_of_map_to_list.
    simpl. by rewrite (Hk k x Hx). }
  clear -Hl. induction Hl as [|x s Hx Hl IH]; [done|].
  rewrite fmap_cons, omap_cons, Hx. simpl. by rewrite <-IH.
Qed.

(** * Files *)

(** Without underscores in the names of clusters, and with no default group
    that looks like a cluster's, every group has a file of its own. *)
Lemma file_name_inj c g c' g' :
  char_free "_" c = true → char_free "_" c' = true →
  (c = DefaultClusterName → has_prefix "__" g = false) →
  (c' = DefaultClusterName → has_prefix "__" g' = false) →
  file_name c g = file_name c' g' → c = c' ∧ g = g'.
Proof.
  assert (Hyaml : ∀ a b : string, a +:+ ".yaml" = b +:+ ".yaml" → a = b).
  { intros a b He. by apply string_app_inj_len in He as [-> _]. }
  assert (Hpre : ∀ a b : string, "__" +:+ a = b +:+ ".yaml" → has_prefix "__" b = true).
  { intros a [|x [|y b]]; [done|done|]. intros [= <- <- _].
    apply (has_prefix_app "__" b). }
  intros Hc Hc' Hd Hd'. unfold file_name. repeat case_bool_decide; subst.
  - intros He. split; [done|by apply Hyaml].
  - intros He. symmetry in He. apply Hpre in He. by rewrite Hd in He.
  - intros He. apply Hpre in He. by rewrite Hd' in He.
  - intros He. injection He as He. apply (string_app_inj_sep "_") in He as [-> He]; [|done..].
    split; [done|]. injection He as He. by apply Hyaml.
Qed.

Lemma foldl_result_ext {A B} (f g : A → B → result A) a l :
  (∀ a b, f a b = g a b) → foldl_result f a l = foldl_result g a l.
Proof.
  intros Hfg. revert a. induction l as [|b l IH]; intros a; [done|].
  rewrite !foldl_result_cons, Hfg. destruct (g a b); simpl; [apply IH|done].
Qed.

Lemma foldl_result_bind {A B C} (f : B → A → C → result A) (l : B → list C) a bs :
  foldl_result (λ a b, foldl_result (f b) a (l b)) a bs =
  foldl_result (λ a bc, f bc.1 a bc.2) a (bs ≫= λ b, pair b <$> l b).
Proof.
  revert a. induction bs as [|b bs IH]; intros a; [done|].
  rewrite foldl_result_cons, bind_cons, foldl_result_app.
  assert (Hb : ∀ a, foldl_result (λ a bc, f bc.1 a bc.2) a (pair b <$> l b) =
                    foldl_result (f b) a (l b)).
  { induction (l b) as [|c l' IHl]; intros a'; [done|].
    rewrite fmap_cons, !foldl_result_cons. simpl. destruct (f b a' c); simpl; [apply IHl|done]. }
  rewrite Hb. destruct (foldl_result (f b) a (l b)); simpl; [apply IH|done].
Qed.

(** The only element of a list that satisfies a predicate. *)
Lemma filter_unique {A} (P : A → Prop) `{!∀ x, Decision (P x)} x (l : list A) :
  NoDup l → x ∈ l → P x → (∀ y, y ∈ l → P y → y = x) → filter P l = [x].
Proof.
  intros Hn. induction Hn as [|y l Hy Hn IH]; [by intros ?%elem_of_nil|].
  intros Hx Hp Hu. rewrite filter_cons. apply elem_of_cons in Hx as [->|Hx].
  - rewrite decide_True by done. f_equal. destruct (filter P l) as [|z r] eqn:E; [done|].
    assert (Hz : z ∈ filter P l) by (rewrite E; by left).
    apply list_elem_of_filter in Hz as [Hpz Hz]. destruct Hy. by rewrite <-(Hu z) by (done || by right).
  - rewrite decide_False.
    + apply IH; [done..|]. intros z Hz. apply Hu. by right.
    + intros Hpy. apply Hy. by rewrite (Hu y) by (done || by left).
Qed.

Section files.
Context (marshal_spec : RuleGroup → result string)
        (visit : ∀ {A}, gmap string A → list (string * A)).
Context (visit_perm : ∀ A (m : gmap string A), visit A m ≡ₚ map_to_list m).

(** The groups in the order of the two nested loops. *)
Definition entries (m : by_cluster AlertRules)
    : list ((string * by_group AlertRules) * (string * AlertRules)) :=
  visit _ m ≫= λ e, pair e <$> visit _ e.2.
Definition entry_file (e : (string * by_group AlertRules) * (string * AlertRules)) : string :=
  file_name e.1.1 e.2.1.
Definition entry_yaml (e : (string * by_group AlertRules) * (string * AlertRules))
    : result string :=
  marshal_spec (group_spec (@visit) e.2.1 e.2.2).

Lemma elem_of_entries m c gs g rules :
  (c, gs, (g, rules)) ∈ entries m ↔ m !! c = Some gs ∧ gs !! g = Some rules.
Proof.
  unfold entries. rewrite list_elem_of_bind. split.
  - intros ([c' gs'] & (x & [= -> -> <-] & Hx)%list_elem_of_fmap & Hc).
    rewrite (elem_of_visit visit visit_perm) in Hc. simpl in Hx.
    by rewrite (elem_of_visit visit visit_perm) in Hx.
  - intros [Hc Hg]. exists (c, gs). rewrite (elem_of_visit visit visit_perm). split; [|done].
    apply list_elem_of_fmap. exists (g, rules). by rewrite (elem_of_visit visit visit_perm).
Qed.

Lemma NoDup_entries m : NoDup (entries m).
Proof.
  assert (Hv : ∀ A (m : gmap string A), NoDup (visit A m)).
  { intros A m'. rewrite (visit_perm A m'). apply NoDup_map_to_list. }
  apply NoDup_bind; [|intros; by apply NoDup_fmap_2; [intros ?? [=]|]|done].
  intros x1 x2 y _ _ (? & -> & _)%list_elem_of_fmap (? & [=] & _)%list_elem_of_fmap. done.
Qed.

(** The text of the file of the given groups; none without groups. *)
Definition text_of (es : list ((string * by_group AlertRules) * (string * AlertRules)))
    : option string :=
  match es with
  | [] => None
  | _ => Some (foldl (λ t e, t +:+ match entry_yaml e with Ok y => y | Err _ => "" end) "" es)
  end.

Lemma text_of_snoc es e y :
  entry_yaml e = Ok y → text_of (es ++ [e]) = Some (default "" (text_of es) +:+ y).
Proof.
  intros Hy. unfold text_of. destruct es as [|x es]; simpl; [by rewrite Hy|].
  rewrite foldl_app. simpl. by rewrite Hy.
Qed.

Lemma getAlertFiles_text m files :
  getAlertFiles marshal_spec (@visit) m = Ok files →
  (∀ name, files !! name = text_of (filter (λ e, entry_file e = name) (entries m))) ∧
  (∀ e, e ∈ entries m → is_ok (entry_yaml e) = true).
Proof.
  intros Hf. unfold getAlertFiles in Hf.
  assert (Hg : foldl_result (λ f e, add_alert_file marshal_spec (@visit) e.1.1 f e.2) ∅ (entries m)
               = Ok files).
  { rewrite <-Hf. unfold entries.
    rewrite <-(foldl_result_bind (λ b f c, add_alert_file marshal_spec (@visit) b.1 f c)
                (λ e, visit _ e.2)).
    apply foldl_result_ext. by intros ? []. }
  clear Hf. split.
  - revert Hg. apply (foldl_result_ind _ (λ files es, ∀ name,
      files !! name = text_of (filter (λ e, entry_file e = name) es))); [done|].
    intros a [[c gs] [g rules]] pre a' Hp (y & Hy & [= <-])%rbind_ok _ name.
    rewrite filter_app, filter_cons, filter_nil. simpl.
    change (file_name c g) with (entry_file (c, gs, (g, rules))).
    case_decide as Hn.
    + subst name. rewrite (text_of_snoc _ _ y) by done.
      rewrite lookup_insert_eq. unfold at_key. by rewrite Hp.
    + by rewrite app_nil_r, lookup_insert_ne, Hp.
  - intros [[c gs] [g rules]] He.
    destruct (foldl_result_ok_steps _ _ _ _ _ Hg He) as (a1 & a2 & (y & Hy & _)%rbind_ok).
    unfold entry_yaml. simpl in *. by rewrite Hy.
Qed.
End files.

(** What the files hold, whatever the order of the maps. *)
Lemma files_spec marshal_spec (visit : ∀ A, gmap string A → list (string * A)) m files :
  (∀ A (m : gmap string A), visit A m ≡ₚ map_to_list m) →
  getAlertFiles marshal_spec visit m = Ok files →
  (∀ name, is_Some (files !! name) ↔ ∃ c g, is_Some (group_at m c g) ∧ file_name c g = name) ∧
  (∀ c g rules, group_at m c g = Some rules → keyed rules →
    (∀ c' g', is_Some (group_at m c' g') → file_name c' g' = file_name c g → c' = c ∧ g' = g) →
    ∃ y, marshal_spec {| rg_Name := g; rg_Rules := label_rule g <$> in_order rules |} = Ok y ∧
         files !! file_name c g = Some y).
Proof.
  intros Hv Hf. destruct (getAlertFiles_text _ _ _ _ Hf) as [Ht Hok].
  assert (He : ∀ c g rules, group_at m c g = Some rules ↔
                 ∃ gs, (c, gs, (g, rules)) ∈ entries visit m).
  { intros c g rules. setoid_rewrite (elem_of_entries visit Hv). unfold group_at.
    destruct (m !! c); naive_solver. }
  split.
  - intros name. rewrite Ht. split.
    + destruct (filter _ _) as [|[[c gs] [g rules]] es] eqn:E; [by intros []|]. intros _.
      assert (Hin : (c, gs, (g, rules)) ∈ filter (λ e, entry_file e = name) (entries visit m))
        by (rewrite E; by left).
      apply list_elem_of_filter in Hin as [Hn Hin]. exists c, g. split; [|done].
      exists rules. apply He. eauto.
    + intros (c & g & [rules Hg] & Hn). apply He in Hg as [gs Hin].
      destruct (filter _ _) eqn:E; [|done].
      assert (Hin' : (c, gs, (g, rules)) ∈ filter (λ e, entry_file e = name) (entries visit m))
        by by apply list_elem_of_filter.
      rewrite E in Hin'. by apply elem_of_nil in Hin'.
  - intros c g rules Hg Hk Hu. rewrite Ht. pose proof Hg as [gs Hin]%He.
    pose proof (Hok _ Hin) as Hy. unfold entry_yaml in Hy. simpl in Hy.
    rewrite (filter_unique _ (c, gs, (g, rules))); [|by apply NoDup_entries|done|done|].
    2:{ intros [[c' gs'] [g' rules']] Hin' Hn.
        assert (Hg' : group_at m c' g' = Some rules') by (apply He; eauto).
        destruct (Hu c' g') as [-> ->]; [by rewrite Hg'|done|].
        apply (elem_of_entries visit Hv) in Hin as [Hc Hr], Hin' as [Hc' Hr']. by simplify_eq. }
    unfold group_spec in Hy. rewrite (sorted_in_order _ rules Hk) in Hy by by rewrite Hv.
    unfold text_of, entry_yaml, group_spec. simpl.
    rewrite (sorted_in_order _ rules Hk) by by rewrite Hv.
    destruct (marshal_spec _) as [y|e] eqn:E; [|done]. by exists y.
Qed.

(** ** What a file is meant to hold *)

Definition intended_file (c g : string) : string :=
  if decide (c = "") then g +:+ ".yaml" else "__" +:+ c +:+ "__" +:+ g +:+ ".yaml".

(** The group of a cluster in the nested maps. *)
Definition in_group {A} (m : by_cluster A) (c g : string) : option A :=
  match m !! c with Some groups => groups !! g | None => None end.

(** A rule gets the name of its group as a label if it has labels. *)
Definition with_alertgroup (g : string) (r : Rule) : Rule :=
  {| ru_Record := ru_Record r; ru_Alert := ru_Alert r; ru_Expr := ru_Expr r; ru_For := ru_For r;
     ru_KeepFiringFor := ru_KeepFiringFor r;
     ru_Labels := match ru_Labels r with
                  | Some labels => Some (<["alertgroup" := g]> labels) | None => None end;
     ru_Annotations := ru_Annotations r |}.

(** The text of a group: its rules, sorted by their names. *)
Definition group_text (marshal_spec : RuleGroup → result string) (g : string) (rules : AlertRules)
    (y : string) : Prop :=
  ∃ sorted, sorted ≡ₚ (map_to_list rules).*2 ∧
    StronglySorted (λ a b, String.le (ru_Alert a) (ru_Alert b)) sorted ∧
    marshal_spec {| rg_Name := g; rg_Rules := with_alertgroup g <$> sorted |} = Ok y.

(** The text of a file: those of all its groups, one after the other. *)
Definition file_text (marshal_spec : RuleGroup → result string) (m : by_cluster AlertRules)
    (name : string) (text : option string) : Prop :=
  ∃ (groups : list (string * string * AlertRules)) texts,
    NoDup groups ∧
    (∀ c g rules, (c, g, rules) ∈ groups ↔ in_group m c g = Some rules ∧ intended_file c g = name) ∧
    Forall2 (λ x y, group_text marshal_spec x.1.2 x.2 y) groups texts ∧
    text = match texts with [] => None | _ => Some (join "" texts) end.

Lemma file_name_intended c g : file_name c g = intended_file c g.
Proof. unfold file_name, intended_file. case_bool_decide; case_decide; done. Qed.
Lemma foldl_fmap {A B C} (f : A → B → A) (g : C → B) l a :
  foldl f a (g <$> l) = foldl (λ a c, f a (g c)) a l.
Proof. revert a. induction l; intros a'; simpl; auto. Qed.

Lemma join_texts (ys : list string) t : foldl String.append t ys = t +:+ join "" ys.
Proof.
  revert t. induction ys as [|y ys IH]; intros t; simpl; [by rewrite string_app_nil_r|].
  rewrite IH, string_app_assoc. f_equal. destruct ys; simpl; [by rewrite string_app_nil_r|done].
Qed.

Lemma group_text_spec marshal_spec (visit : ∀ A, gmap string A → list (string * A)) g rules y :
  (∀ A (m : gmap string A), visit A m ≡ₚ map_to_list m) →
  marshal_spec (group_spec visit g rules) = Ok y → group_text marshal_spec g rules y.
Proof.
  intros Hv Hy. exists (merge_sort alert_le (visit _ rules).*2).
  split; [by rewrite merge_sort_Permutation, Hv|].
  split; [apply (StronglySorted_merge_sort alert_le)|].
  rewrite <-Hy. unfold group_spec. by do 2 f_equal.
Qed.

Lemma files_text marshal_spec (visit : ∀ A, gmap string A → list (string * A)) m files :
  (∀ A (m : gmap string A), visit A m ≡ₚ map_to_list m) →
  getAlertFiles marshal_spec visit m = Ok files →
  ∀ name, file_text marshal_spec m name (files !! name).
Proof.
  intros Hv Hf name. destruct (getAlertFiles_text _ _ _ _ Hf) as [Ht Hok]. rewrite Ht. clear Ht Hf.
  set (es := filter _ (entries visit m)).
  assert (Hes : ∀ c gs g rules, (c, gs, (g, rules)) ∈ es ↔
    m !! c = Some gs ∧ gs !! g = Some rules ∧ intended_file c g = name).
  { intros c gs g rules. unfold es, entry_file. rewrite list_elem_of_filter, (elem_of_entries visit Hv). simpl.
    rewrite file_name_intended. naive_solver. }
  exists ((λ e, (e.1.1, e.2.1, e.2.2)) <$> es),
    ((λ e, match entry_yaml marshal_spec visit e with Ok y => y | Err _ => "" end) <$> es).
  split; [|split; [|split]].
  - apply NoDup_fmap_2_strong; [|apply NoDup_filter, (NoDup_entries visit Hv)].
    intros [[c gs] [g rules]] [[c' gs'] [g' rules']] (H1 & _)%Hes (H2 & _)%Hes [= -> -> ->]. congruence.
  - intros c g rules. rewrite list_elem_of_fmap. unfold in_group. split.
    + intros ([[c' gs] [g' rules']] & [= -> -> ->] & (Hc & Hg & Hn)%Hes). by rewrite Hc.
    + intros [Hg Hn]. destruct (m !! c) as [gs|] eqn:Hc; [|done]. exists (c, gs, (g, rules)). by rewrite Hes.
  - apply Forall2_fmap_l, Forall2_fmap_r, Forall_Forall2_diag, Forall_forall.
    intros e He. assert (Hin : e ∈ entries visit m) by by apply list_elem_of_filter in He as [_ ?].
    specialize (Hok e Hin). unfold entry_yaml in *. simpl.
    destruct (marshal_spec _) as [y|] eqn:Ey; [|done]. by eapply group_text_spec.
  - unfold text_of. destruct es as [|e es']; [done|]. f_equal.
    rewrite <-(foldl_fmap String.append (λ e, match entry_yaml marshal_spec visit e with
                                               Ok y => y | Err _ => "" end)).
    apply join_texts.
Qed.

(** C31: The file of a name holds, one after the other, the texts of exactly
    the groups whose file it is, and there is no file without a group: a group
    of the default cluster has the file of its name, one of a cluster the file
    of both names.  The text of a group has its rules sorted by their names,
    each with its labels and the group as the label alertgroup; a rule without
    labels is written without that label, although the code sets it, on a copy.
    Two groups can have one file, when a default group has a name like
    "__cluster__group"; their texts are then in the order in which the maps are
    visited. *)
Theorem alert_files marshal_spec (visit : ∀ A, gmap string A → list (string * A)) m files :
  (∀ A (m : gmap string A), visit A m ≡ₚ map_to_list m) →
  getAlertFiles marshal_spec visit m = Ok files →
  ∀ name, file_text marshal_spec m name (files !! name).
Proof. apply files_text. Qed.

(** * A reconciliation *)

Definition generated (cm : ConfigMap) : bool := String.eqb (cm_label cm KofGeneratedLabel) "true".
Definition promxy_key (ns rn : string) : string * string := (ns, rn +:+ "-promxy-rules").
Definition has_vmrules (cm : ConfigMap) : Prop :=
  is_Some (om_Labels (cm_meta cm) !! KofRecordVMRulesClusterNameLabel).

(** Every ConfigMap a reconciliation reads the rules of, or fills for a
    cluster, passes the event filter of the controller. *)
Lemma inputs_watched (cm : ConfigMap) label :
  label ∈ [KofAlertRulesClusterNameLabel; KofRecordRulesClusterNameLabel;
           KofRecordVMRulesClusterNameLabel] →
  is_Some (om_Labels (cm_meta cm) !! label) → rules_event (om_Labels (cm_meta cm)) = true.
Proof.
  intros Hl Hs. unfold rules_event. rewrite !orb_true_iff, !bool_decide_eq_true.
  set_unfold. naive_solver.
Qed.

(** Between two states, at most the data of generated ConfigMaps changed, and
    only of those meant to hold a result. *)
Definition only_results (k0 : string * string) (m m' : objects_of ConfigMap) : Prop :=
  ∀ k, m' !! k = m !! k ∨ ∃ cm data, m !! k = Some cm ∧ generated cm = true ∧
    (k = k0 ∨ has_vmrules cm) ∧ m' !! k = Some (set_Data data cm).

Lemma only_results_refl k0 m : only_results k0 m m.
Proof. intros k. by left. Qed.

Lemma only_results_trans k0 m1 m2 m3 :
  only_results k0 m1 m2 → only_results k0 m2 m3 → only_results k0 m1 m3.
Proof.
  intros H1 H2 k. destruct (H2 k) as [->|(cm & d & Hcm & Hg & Ht & ->)]; [apply H1|].
  right. destruct (H1 k) as [E|(cm1 & d1 & Hcm1 & Hg1 & Ht1 & E)]; rewrite E in Hcm.
  - by exists cm, d.
  - injection Hcm as <-. exists cm1, d. by destruct cm1.
Qed.

Definition in_namespace (ns : string) (cm : ConfigMap) : Prop :=
  ns = "" ∨ om_Namespace (cm_meta cm) = ns.

Section reconcile.
Context (unmarshal_alerts : string → result AlertRules)
        (unmarshal_records : string → result RecordRules)
        (marshal_spec : RuleGroup → result string)
        (marshal_values : by_group RecordRules → result string)
        (visit : ∀ A, gmap string A → list (string * A)).
Context (visit_perm : ∀ A (m : gmap string A), visit A m ≡ₚ map_to_list m).
Context {W : Type} `{HC : !Kube W ConfigMap, HCL : !KubeLaws W ConfigMap}.
Context `{HP : !Kube W PrometheusRule, HPL : !KubeLaws W PrometheusRule}.
Context `{FP : !KubeFrame W HP HC, FC : !KubeFrame W HC HP}.

Notation cms_of := (stored (O := ConfigMap)).
Notation Reconcile :=
  (updateResultingConfigMaps unmarshal_alerts unmarshal_records marshal_spec marshal_values visit).

(** An update of a ConfigMap whose metadata are those of the stored one. *)
Lemma updateConfigMap_spec cm data (w : W) r w' old :
  cms_of w !! object_key cm = Some old → cm_meta old = cm_meta cm →
  updateConfigMap cm data w = (r, w') →
  (cms_of w' = cms_of w ∧ (r = Ok tt → cm_Data cm = data ∨ generated cm = false)) ∨
  (generated cm = true ∧ cms_of w' = <[object_key cm := set_Data data cm]> (cms_of w)).
Proof.
  intros Hs Hm. unfold updateConfigMap, generated. case_bool_decide as Hd.
  { intros [= <- <-]. left. auto. }
  destruct (String.eqb _ _) eqn:Hg; simpl; [|intros [= <- <-]; left; auto].
  intros E. apply update_took in E.
  rewrite (settle_live _ _ old) in E by (done || simpl; by rewrite Hm).
  destruct r as [[]|e]; simpl in E; [by right|].
  destruct E as [E|E]; [left|by right]. split; [done|]. by intros [=].
Qed.

Lemma updateConfigMap_only k0 cm data (w : W) r w' old :
  cms_of w !! object_key cm = Some old → cm_meta old = cm_meta cm →
  object_key cm = k0 ∨ has_vmrules cm →
  updateConfigMap cm data w = (r, w') → only_results k0 (cms_of w) (cms_of w').
Proof.
  intros Hs Hm Ht E. destruct (updateConfigMap_spec _ _ _ _ _ _ Hs Hm E) as [[-> _]|[Hg ->]];
    [apply only_results_refl|].
  intros k. destruct (decide (k = object_key cm)) as [->|Hk]; [right|left; by rewrite lookup_insert_ne].
  rewrite lookup_insert_eq. exists old, data. unfold generated, cm_label, has_vmrules in *.
  rewrite Hm. repeat split; try done.
  unfold set_Data. by rewrite Hm.
Qed.

(** A state in which the ConfigMaps of a list may have new data, but have
    their metadata. *)
Definition same_meta (m : objects_of ConfigMap) (cm : ConfigMap) : Prop :=
  ∃ old, m !! object_key cm = Some old ∧ cm_meta old = cm_meta cm.

Lemma same_meta_only k0 m m' cm : only_results k0 m m' → same_meta m cm → same_meta m' cm.
Proof.
  intros Ho (old & Hs & Hm). destruct (Ho (object_key cm)) as [E|(c & d & Hc & _ & _ & E)].
  - exists old. by rewrite E.
  - rewrite Hs in Hc. injection Hc as <-. by exists (set_Data d old).
Qed.

Lemma update_vmrules_only k0 records l (w : W) r w' :
  Forall (λ cm, same_meta (cms_of w) cm ∧ has_vmrules cm) l →
  update_vmrules marshal_values records l w = (r, w') → only_results k0 (cms_of w) (cms_of w').
Proof.
  revert w. induction l as [|cm l IH]; intros w Hl; simpl.
  { intros [= <- <-]. apply only_results_refl. }
  apply Forall_cons in Hl as [[(old & Hs & Hm) Hv] Hl].
  assert (Hone : ∀ r1 w1, updateRecordVMRulesConfigMap marshal_values records cm w = (r1, w1) →
    only_results k0 (cms_of w) (cms_of w1)).
  { intros r1 w1. unfold updateRecordVMRulesConfigMap.
    intros [(e & [= _ <-] & ->)|(y & w2 & [= _ <-] & E)]%ebind_inv; [apply only_results_refl|].
    eapply updateConfigMap_only; eauto. }
  intros [(e & E & ->)|([] & w1 & E & E2)]%ebind_inv; [by eapply Hone|].
  eapply only_results_trans; [by eapply Hone|]. apply (IH w1); [|done].
  eapply Forall_impl; [exact Hl|]. intros x [Hx Hvx]. split; [|done].
  eapply same_meta_only; [by eapply Hone|done].
Qed.

(** What a reconciliation reads: the PrometheusRules of the release and the
    ConfigMaps with rules, in the order of some list. *)
Definition sources (w : W) (ns rn : string) (prs : list PrometheusRule) (acms rcms : list ConfigMap)
    : Prop :=
  prs ≡ₚ filter (λ o, matches [InNamespace ns; MatchingLabels {[ReleaseNameLabel := rn]}] o = true)
           (map_to_list (stored (O := PrometheusRule) w)).*2 ∧
  (∀ cm, cm ∈ acms ↔ cms_of w !! object_key cm = Some cm ∧
     is_Some (om_Labels (cm_meta cm) !! KofAlertRulesClusterNameLabel) ∧ in_namespace ns cm) ∧
  NoDup (object_key <$> acms) ∧
  (∀ cm, cm ∈ rcms ↔ cms_of w !! object_key cm = Some cm ∧
     is_Some (om_Labels (cm_meta cm) !! KofRecordRulesClusterNameLabel) ∧ in_namespace ns cm) ∧
  NoDup (object_key <$> rcms).

(** The rules and files that are made from them. *)
Definition merged (env : environ) (w : W) (ns rn : string) (records : by_cluster RecordRules)
    (files : gmap string string) : Prop :=
  ∃ prs acms rcms alerts,
    env !! "RELEASE_NAMESPACE" = Some ns ∧ env !! "RELEASE_NAME" = Some rn ∧
    sources w ns rn prs acms rcms ∧
    (∀ c g r, rule_at alerts c g r = alert_rule unmarshal_alerts prs acms c g r) ∧
    (∀ c g, is_Some (group_at alerts c g) ↔
       (∃ r, is_Some (rule_at alerts c g r)) ∨
       ∃ cm, cm ∈ acms ∧ cm_label cm KofAlertRulesClusterNameLabel = c ∧ is_Some (cm_Data cm !! g)) ∧
    (∀ c g, group_at records c g = record_group unmarshal_records prs rcms c g) ∧
    getAlertFiles marshal_spec visit alerts = Ok files ∧
    (∀ cm g y, cm ∈ acms → cm_Data cm !! g = Some y → is_ok (unmarshal_alerts y) = true) ∧
    (∀ cm g y, cm ∈ rcms → cm_Data cm !! g = Some y → is_ok (unmarshal_records y) = true).

(** The result of the reading half of a reconciliation: the ConfigMaps to
    fill, the record rules and the files. *)
Definition plan (env : environ) (w : W) (ns rn : string) (vms : list ConfigMap)
    (records : by_cluster RecordRules) (files : gmap string string) : Prop :=
  merged env w ns rn records files ∧
  (∀ cm, cm ∈ vms ↔ cms_of w !! object_key cm = Some cm ∧ has_vmrules cm) ∧
  NoDup (object_key <$> vms).

Lemma getConfigMaps_spec ns label (w : W) r w' :
  getConfigMaps ns label w = (r, w') →
  cms_of w' = cms_of w ∧ stored (O := PrometheusRule) w' = stored w ∧
  ∀ l, r = Ok l → ∃ items, l = default_first label items ∧ NoDup (object_key <$> items) ∧
    ∀ cm, cm ∈ items ↔ cms_of w !! object_key cm = Some cm ∧
      is_Some (om_Labels (cm_meta cm) !! label) ∧ in_namespace ns cm.
Proof.
  unfold getConfigMaps. set (opts := HasLabels [label] :: _). intros E.
  pose proof (list_stored (O := ConfigMap) opts w) as Hs.
  pose proof (list_frame (K' := HP) opts w) as Hp.
  apply ebind_inv in E as [(e & E & ->)|(items & w1 & E & [= <- <-])]; rewrite E in Hs, Hp;
    (split; [exact Hs|split; [exact Hp|]]); [done|].
  intros l [= <-]. exists items. split; [done|]. split; [by eapply list_NoDup|].
  intros cm. rewrite (list_elem _ _ _ _ cm E). unfold opts, matches, in_namespace. simpl.
  rewrite andb_true_r, andb_true_iff, bool_decide_eq_true.
  case_bool_decide as Hn; simpl; [naive_solver|].
  rewrite andb_true_r, orb_true_iff, !bool_decide_eq_true. naive_solver.
Qed.

Lemma elem_of_default_first label items cm :
  cm ∈ default_first label items ↔ cm ∈ items.
Proof.
  unfold default_first. rewrite elem_of_app, !list_elem_of_filter.
  destruct (is_default label cm); naive_solver.
Qed.

Lemma NoDup_default_first label items :
  NoDup (object_key <$> items) → NoDup (object_key <$> default_first label items).
Proof.
  intros Hn. enough (default_first label items ≡ₚ items) as -> by done.
  unfold default_first. clear. induction items as [|x l IH]; [done|]. rewrite !filter_cons.
  destruct (is_default label x); simpl.
  - by rewrite IH.
  - rewrite <-Permutation_middle. by rewrite IH.
Qed.

(** A merge that succeeds has parsed every group of every ConfigMap. *)
Lemma merge_alerts_parse cms m m' cm g y :
  mergeAlertConfigMaps unmarshal_alerts visit cms m = Ok m' → cm ∈ cms →
  cm_Data cm !! g = Some y → is_ok (unmarshal_alerts y) = true.
Proof.
  intros Hm Hcm Hg. destruct (foldl_result_ok_steps _ _ _ _ _ Hm Hcm) as (m1 & m2 & H12).
  assert (Hin : (g, y) ∈ visit _ (cm_Data cm)) by by apply (elem_of_visit visit visit_perm).
  destruct (foldl_result_ok_steps _ _ _ _ _ H12 Hin) as (m3 & m4 & (rs & -> & _)%rbind_ok). done.
Qed.

Lemma merge_records_parse cms m m' cm g y :
  mergeRecordConfigMaps unmarshal_records visit cms m = Ok m' → cm ∈ cms →
  cm_Data cm !! g = Some y → is_ok (unmarshal_records y) = true.
Proof.
  intros Hm Hcm Hg. destruct (foldl_result_ok_steps _ _ _ _ _ Hm Hcm) as (m1 & m2 & H12).
  assert (Hin : (g, y) ∈ visit _ (cm_Data cm)) by by apply (elem_of_visit visit visit_perm).
  destruct (foldl_result_ok_steps _ _ _ _ _ H12 Hin) as (m3 & m4 & (rs & -> & _)%rbind_ok). done.
Qed.

(** A reconciliation either stops before it writes or has a plan. *)
Lemma reconcile_plan env (w : W) r w' :
  Reconcile env w = (r, w') →
  (cms_of w' = cms_of w ∧ is_ok r = false) ∨
  ∃ ns rn vms records files w1, plan env w ns rn vms records files ∧ cms_of w1 = cms_of w ∧
    (do _ := updateConfigMapByName ns (rn +:+ "-promxy-rules") files in
     update_vmrules marshal_values records vms) w1 = (r, w').
Proof.
  unfold updateResultingConfigMaps.
  intros [(e & [= _ <-] & ->)|(ns & w1 & [= Hns <-] & E)]%ebind_inv; [by left|].
  apply ebind_inv in E as [(e & [= _ <-] & ->)|(rn & w1 & [= Hrn <-] & E)]; [by left|].
  unfold lookup_env in Hns, Hrn.
  destruct (env !! "RELEASE_NAMESPACE") as [?|] eqn:E1; [|done].
  destruct (env !! "RELEASE_NAME") as [?|] eqn:E2; [|done]. simplify_eq.
  apply ebind_inv in E as [(e & Ea & ->)|(al & w1 & Ea & E)];
    apply getConfigMaps_spec in Ea as (Ha1 & Ha2 & Ha); [by left|].
  apply ebind_inv in E as [(e & Er & ->)|(rl & w2 & Er & E)];
    apply getConfigMaps_spec in Er as (Hr1 & Hr2 & Hr); [left; by rewrite Hr1|].
  apply ebind_inv in E as [(e & Ev & ->)|(vl & w3 & Ev & E)];
    apply getConfigMaps_spec in Ev as (Hv1 & Hv2 & Hv); [left; by rewrite Hv1, Hr1|].
  apply ebind_inv in E as [(e & Em & ->)|(maps & w4 & Em & E)];
    unfold mergePrometheusRules in Em; set (opts := [InNamespace ns; _]) in Em;
    pose proof (list_stored (O := PrometheusRule) opts w3) as Hp;
    pose proof (list_frame (K' := HC) opts w3) as Hf;
    apply ebind_inv in Em as [(e' & El & He)|(prs & w5 & El & Em)];
    rewrite El in Hf, Hp; simpl in Hf, Hp; try done; [by left; rewrite Hf, Hv1, Hr1|].
  injection Em as <- <-. clear Hp.
  apply ebind_inv in E as [(e & [= _ <-] & ->)|(alerts & w6 & [= Hal <-] & E)];
    [by left; rewrite Hf, Hv1, Hr1|].
  apply ebind_inv in E as [(e & [= _ <-] & ->)|(records & w6 & [= Hrec <-] & E)];
    [by left; rewrite Hf, Hv1, Hr1|].
  apply ebind_inv in E as [(e & [= _ <-] & ->)|(files & w6 & [= Hfiles <-] & E)];
    [by left; rewrite Hf, Hv1, Hr1|].
  right. destruct (Ha _ eq_refl) as (acms & -> & Hna & Hacms).
  destruct (Hr _ eq_refl) as (rcms & -> & Hnr & Hrcms). rewrite Ha1 in Hrcms.
  destruct (Hv _ eq_refl) as (vcms & -> & Hn & Hvcms). rewrite Hr1, Ha1 in Hvcms.
  exists ns, rn, (default_first KofRecordVMRulesClusterNameLabel vcms), records, files, w5.
  split; [|split; [by rewrite Hf, Hv1, Hr1|exact E]].
  split_and!; [exists prs, acms, rcms, alerts; split_and!; try done|..].
  - unfold sources. split_and!; try done. rewrite (list_ok _ _ _ _ El). by rewrite Hv2, Hr2, Ha2.
  - exact (merged_rules _ _ visit_perm _ _ _ _ Hal).
  - by eapply (merged_groups _ _ visit_perm unmarshal_records).
  - exact (merged_records unmarshal_alerts _ visit_perm _ _ _ _ _ Hrec).
  - intros cm g y Hcm. apply (merge_alerts_parse _ _ _ cm g y Hal). by apply elem_of_default_first.
  - intros cm g y Hcm. apply (merge_records_parse _ _ _ cm g y Hrec). by apply elem_of_default_first.
  - intros cm. rewrite elem_of_default_first, Hvcms. unfold in_namespace, has_vmrules. naive_solver.
  - by apply NoDup_default_first.
Qed.

(** A successful update of a ConfigMap as it is stored. *)
Definition filled (data : gmap string string) (cm : ConfigMap) : ConfigMap :=
  if generated cm then set_Data data cm else cm.

Lemma set_Data_same cm : set_Data (cm_Data cm) cm = cm.
Proof. by destruct cm. Qed.

Lemma updateConfigMap_ok cm data (w : W) w' :
  cms_of w !! object_key cm = Some cm → updateConfigMap cm data w = (Ok tt, w') →
  cms_of w' = <[object_key cm := filled data cm]> (cms_of w).
Proof.
  intros Hs E. unfold filled.
  destruct (updateConfigMap_spec _ _ _ _ _ _ Hs eq_refl E) as [[-> Hd]|[-> ->]]; [|done].
  destruct (Hd eq_refl) as [<-| ->]; [rewrite set_Data_same|]; try case_match;
    symmetry; by apply insert_id.
Qed.

Lemma update_vmrules_ok records l (w : W) w' :
  NoDup (object_key <$> l) → Forall (λ cm, cms_of w !! object_key cm = Some cm) l →
  update_vmrules marshal_values records l w = (Ok tt, w') →
  (∀ cm, cm ∈ l → ∃ y,
     marshal_values (vmrules_groups records (cm_label cm KofRecordVMRulesClusterNameLabel)) = Ok y ∧
     cms_of w' !! object_key cm = Some (filled {["values" := y]} cm)) ∧
  (∀ k, k ∉ object_key <$> l → cms_of w' !! k = cms_of w !! k).
Proof.
  revert w. induction l as [|cm l IH]; intros w Hn Hl; simpl.
  { intros [= <-]. split; [|done]. by intros cm ?%elem_of_nil. }
  apply NoDup_cons in Hn as [Hnk Hn]. apply Forall_cons in Hl as [Hs Hl].
  intros ([] & w1 & Hu & E)%ebind_ok.
  apply ebind_ok in Hu as (y & w2 & [= Hy <-] & Hu). apply updateConfigMap_ok in Hu; [|done].
  assert (Hother : ∀ k, k ≠ object_key cm → cms_of w1 !! k = cms_of w !! k).
  { intros k Hk. by rewrite Hu, lookup_insert_ne. }
  destruct (IH w1) as [IH1 IH2]; [done| |done|].
  { apply Forall_forall. intros x Hx. rewrite Hother; [by eapply Forall_forall in Hl|].
    intros Hk. apply Hnk. rewrite <-Hk. by apply list_elem_of_fmap_2. }
  split.
  - intros x [->|Hx]%elem_of_cons; [|by apply IH1]. exists y. split; [done|].
    by rewrite IH2, Hu, lookup_insert_eq.
  - intros k [Hk Hk']%not_elem_of_cons. by rewrite IH2, Hother.
Qed.

Lemma byName_only ns rn data (w : W) r w' :
  updateConfigMapByName ns (rn +:+ "-promxy-rules") data w = (r, w') →
  only_results (promxy_key ns rn) (cms_of w) (cms_of w').
Proof.
  intros [(e & E & ->)|(cm & w1 & Eg & E)]%ebind_inv.
  - pose proof (get_stored (O := ConfigMap) (promxy_key ns rn) w) as Hg.
    unfold promxy_key in Hg. rewrite E in Hg. simpl in Hg. rewrite Hg. apply only_results_refl.
  - pose proof (get_stored (O := ConfigMap) (promxy_key ns rn) w) as Hg.
    unfold promxy_key in Hg. rewrite Eg in Hg. simpl in Hg. rewrite <-Hg.
    apply get_ok in Eg. pose proof (stored_key _ _ _ Eg) as Hk. rewrite <-Hg, <-Hk in Eg.
    eapply updateConfigMap_only; [exact Eg|done|by left|exact E].
Qed.

(** What a reconciliation may change, whatever calls fail. *)
Lemma reconcile_only env (w : W) ns rn :
  env !! "RELEASE_NAMESPACE" = Some ns → env !! "RELEASE_NAME" = Some rn →
  only_results (promxy_key ns rn) (cms_of w) (cms_of (Reconcile env w).2).
Proof.
  intros Hns Hrn. destruct (Reconcile env w) as [r w'] eqn:E. simpl.
  apply reconcile_plan in E as [[-> _]|(ns' & rn' & vms & records & files & w1 & Hp & Hw1 & E)];
    [apply only_results_refl|].
  destruct Hp as [(prs & acms & rcms & alerts & Hns' & Hrn' & _) [Hvms _]]. simplify_eq.
  rewrite <-Hw1. apply ebind_inv in E as [(e & E & ->)|([] & w2 & E & E2)];
    apply byName_only in E; [done|].
  eapply only_results_trans; [exact E|]. eapply update_vmrules_only; [|exact E2].
  apply Forall_forall. intros cm [Hs Hv]%Hvms. split; [|done].
  eapply same_meta_only; [exact E|]. rewrite Hw1. by exists cm.
Qed.

(** C19: Whatever calls fail, a reconciliation of the rules changes at most
    the data of ConfigMaps that are labelled as generated and that are the one
    of Promxy or hold the rules of a cluster: never another ConfigMap, and
    never their metadata. *)
Theorem rules_change_generated_only env (w : W) ns rn :
  env !! "RELEASE_NAMESPACE" = Some ns → env !! "RELEASE_NAME" = Some rn →
  only_results (promxy_key ns rn) (cms_of w) (cms_of (Reconcile env w).2).
Proof. apply reconcile_only. Qed.

(** When a group of rules of a ConfigMap does not parse, a
    reconciliation fails and changes nothing. *)
Theorem bad_rules_change_nothing env (w : W) ns cm g y :
  env !! "RELEASE_NAMESPACE" = Some ns →
  cms_of w !! object_key cm = Some cm → in_namespace ns cm → cm_Data cm !! g = Some y →
  (is_Some (om_Labels (cm_meta cm) !! KofAlertRulesClusterNameLabel) ∧
     is_ok (unmarshal_alerts y) = false ∨
   is_Some (om_Labels (cm_meta cm) !! KofRecordRulesClusterNameLabel) ∧
     is_ok (unmarshal_records y) = false) →
  is_ok (Reconcile env w).1 = false ∧ cms_of (Reconcile env w).2 = cms_of w.
Proof.
  intros Hns Hs Hin Hg Hbad. destruct (Reconcile env w) as [r w'] eqn:E. simpl.
  apply reconcile_plan in E as [[-> ->]|(ns' & rn & vms & records & files & w1 & Hp & _)]; [done|].
  destruct Hp as [(prs & acms & rcms & alerts & Hns' & _ & (_ & Ha & _ & Hr & _) & _ & _ & _ & _ & Hpa & Hpr) _].
  simplify_eq. exfalso. destruct Hbad as [[Hl Hf]|[Hl Hf]].
  - rewrite (Hpa cm g y) in Hf; [done|by apply Ha|done].
  - rewrite (Hpr cm g y) in Hf; [done|by apply Hr|done].
Qed.

(** What a reconciliation that succeeds leaves. *)
Lemma reconcile_outcome env (w : W) w' ns rn :
  env !! "RELEASE_NAMESPACE" = Some ns → env !! "RELEASE_NAME" = Some rn →
  (∀ cm, cms_of w !! promxy_key ns rn = Some cm → ¬ has_vmrules cm) →
  Reconcile env w = (Ok tt, w') →
  ∃ vms records files, plan env w ns rn vms records files ∧
    is_Some (cms_of w !! promxy_key ns rn) ∧
    ∀ k cm, cms_of w !! k = Some cm →
      (has_vmrules cm → ∃ y,
         marshal_values (vmrules_groups records (cm_label cm KofRecordVMRulesClusterNameLabel)) = Ok y ∧
         cms_of w' !! k = Some (filled {["values" := y]} cm)) ∧
      (¬ has_vmrules cm → cms_of w' !! k =
         Some (if decide (k = promxy_key ns rn) then filled files cm else cm)).
Proof.
  intros Hns Hrn Hno E.
  apply reconcile_plan in E as [[_ ?]|(ns' & rn' & vms & records & files & w1 & Hp & Hw1 & E)]; [done|].
  pose proof Hp as [(prs & acms & rcms & alerts & Hns' & Hrn' & _) [Hvms Hnd]]. simplify_eq.
  exists vms, records, files. split; [done|].
  apply ebind_ok in E as ([] & w2 & Hu & E). apply ebind_ok in Hu as (cm0 & w3 & Eg & Hu).
  pose proof (get_stored (O := ConfigMap) (promxy_key ns rn) w1) as Hg.
  unfold promxy_key in Hg at 1. rewrite Eg in Hg. simpl in Hg. rewrite Hw1 in Hg.
  apply get_ok in Eg. rewrite Hw1 in Eg. fold (promxy_key ns rn) in Eg.
  pose proof (stored_key _ _ _ Eg) as Hk0. split; [by rewrite Eg|].
  apply updateConfigMap_ok in Hu; [|by rewrite Hg, Hk0]. rewrite Hg, Hk0 in Hu.
  assert (Hother : ∀ x, x ∈ vms → object_key x ≠ promxy_key ns rn).
  { intros x [Hs Hv]%Hvms Hk. rewrite Hk in Hs. by apply (Hno x). }
  apply update_vmrules_ok in E as [E1 E2]; [|done|].
  2:{ apply Forall_forall. intros x Hx. rewrite Hu, lookup_insert_ne by (symmetry; by apply Hother).
      by apply Hvms. }
  intros k cm Hk. pose proof (stored_key _ _ _ Hk) as <-. split.
  - intros Hv. apply E1. by apply Hvms.
  - intros Hv. rewrite E2, Hu.
    + destruct (decide (object_key cm = promxy_key ns rn)) as [Hkk|Hkk].
      * rewrite Hkk in Hk |- *. rewrite lookup_insert_eq. congruence.
      * by rewrite lookup_insert_ne.
    + intros (x & Hx & Hin)%list_elem_of_fmap. apply Hvms in Hin as [Hs Hvx].
      rewrite <-Hx in Hs. congruence.
Qed.

(** A ConfigMap whose data is replaced when it is labelled as generated. *)
Definition result_cm (data : gmap string string) (cm : ConfigMap) : ConfigMap :=
  if decide (om_Labels (cm_meta cm) !! "k0rdent.mirantis.com/kof-generated" = Some "true")
  then {| cm_meta := cm_meta cm; cm_Data := data |} else cm.

Lemma filled_result data cm : filled data cm = result_cm data cm.
Proof.
  unfold filled, result_cm, generated, cm_label, at_key. change KofGeneratedLabel with "k0rdent.mirantis.com/kof-generated".
  destruct (om_Labels (cm_meta cm) !! _) as [v|]; simpl; [|done].
  destruct (String.eqb_spec v "true") as [->|Hv]; [done|]. rewrite decide_False; [done|naive_solver].
Qed.

(** C14: A reconciliation that succeeds has merged what the cluster holds and
    leaves every ConfigMap as it was but for those that hold results and are
    labelled as generated.  The rule of a cluster is the default rule patched
    by the ConfigMaps of the cluster that name it, in the order in which they
    are listed, the default rule the last one of the PrometheusRules patched by
    the default ConfigMaps; patching keeps the name and replaces what the new
    rule says, labels and annotations key by key.  The ConfigMap of Promxy gets
    the files of these rules; that of a cluster gets, of every group, the
    record rules of the cluster if it has any, and the default ones otherwise. *)
Theorem rules_reconciled env (w : W) w' ns rn :
  env !! "RELEASE_NAMESPACE" = Some ns → env !! "RELEASE_NAME" = Some rn →
  (∀ cm, cms_of w !! promxy_key ns rn = Some cm → ¬ has_vmrules cm) →
  Reconcile env w = (Ok tt, w') →
  ∃ prs acms rcms (alerts : by_cluster AlertRules) (records : by_cluster RecordRules) files,
    sources w ns rn prs acms rcms ∧
    (∀ c g r, in_group alerts c g ≫= (λ rules : AlertRules, rules !! r) = alert_rule unmarshal_alerts prs acms c g r) ∧
    (∀ c g, in_group records c g = record_group unmarshal_records prs rcms c g) ∧
    (∀ name, file_text marshal_spec alerts name (files !! name)) ∧
    is_Some (cms_of w !! (ns, rn +:+ "-promxy-rules")) ∧
    ∀ k cm, cms_of w !! k = Some cm →
      (has_vmrules cm → ∃ (groups : by_group RecordRules) y,
         (∀ g, groups !! g =
            match in_group records (cm_label cm KofRecordVMRulesClusterNameLabel) g with
            | Some rules => Some rules
            | None => in_group records "" g
            end) ∧
         marshal_values groups = Ok y ∧ cms_of w' !! k = Some (result_cm {["values" := y]} cm)) ∧
      (¬ has_vmrules cm → cms_of w' !! k =
         Some (if decide (k = (ns, rn +:+ "-promxy-rules")) then result_cm files cm else cm)).
Proof.
  intros Hns Hrn Hno E.
  destruct (reconcile_outcome env w w' ns rn Hns Hrn Hno E)
    as (vms & records & files & [(prs & acms & rcms & alerts & _ & _ & Hs & Hal & _ & Hrec & Hf & _) _] & Hp & Hcm).
  exists prs, acms, rcms, alerts, records, files. split; [exact Hs|]. split.
  { intros c g r. rewrite <-Hal. unfold rule_at, group_at, in_group. by destruct (alerts !! c). }
  split.
  { intros c g. rewrite <-Hrec. unfold group_at, in_group. by destruct (records !! c). }
  split; [by apply (files_text _ _ _ _ visit_perm)|]. split; [exact Hp|].
  intros k cm Hk. destruct (Hcm k cm Hk) as [Hv Hn]. split.
  - intros Hvm. destruct (Hv Hvm) as (y & Hy & ->). eexists _, y. split; [|split; [exact Hy|]].
    + intros g. unfold vmrules_groups, in_group. rewrite lookup_union. unfold DefaultClusterName.
      destruct (records !! cm_label cm _) as [m1|], (records !! "") as [m2|]; simpl;
        rewrite ?lookup_empty; repeat (destruct (_ !! g)); done.
    + by rewrite filled_result.
  - intros Hvm. rewrite (Hn Hvm). rewrite filled_result. unfold promxy_key. by repeat case_decide.
Qed.
End reconcile.

(** * Witnesses *)

Definition demo_rule (for_ : option string) : Rule :=
  {| ru_Record := ""; ru_Alert := "HighCPU"; ru_Expr := {| StrVal := "cpu > 0.9"; IntVal := 0 |};
     ru_For := for_; ru_KeepFiringFor := Some "1m"; ru_Labels := Some {["severity" := "high"]};
     ru_Annotations := None |}.
Definition demo_patch : Rule :=
  {| ru_Record := ""; ru_Alert := ""; ru_Expr := {| StrVal := ""; IntVal := 0 |};
     ru_For := Some "10m"; ru_KeepFiringFor := None; ru_Labels := None; ru_Annotations := None |}.
Definition demo_unmarshal (y : string) : result AlertRules :=
  if String.eqb y "HighCPU: for 10m" then Ok {["HighCPU" := demo_patch]} else Err (EText "yaml").
Definition demo_records (y : string) : result RecordRules := Err (EText "yaml").
Definition demo_marshal (g : RuleGroup) : result string :=
  Ok (rg_Name g +:+ ":" +:+ join "," ((λ r, ru_Alert r +:+ " " +:+ default "" (ru_For r)) <$> rg_Rules g)).
Definition demo_values (m : by_group RecordRules) : result string :=
  Ok (join "," (map_to_list m).*1).
Definition demo_visit (A : Type) (m : gmap string A) : list (string * A) := map_to_list m.

Definition demo_cm (name : string) (labels data : gmap string string) : ConfigMap :=
  {| cm_meta := new_meta "kof" name labels; cm_Data := data |}.
Definition demo_generated : gmap string string := {[KofGeneratedLabel := "true"]}.
Definition demo_promxy : ConfigMap := demo_cm "kof-mothership-promxy-rules" demo_generated ∅.
Definition demo_vmrules : ConfigMap :=
  demo_cm "kof-record-vmrules-r1"
    (<[KofRecordVMRulesClusterNameLabel := "r1"]> demo_generated) {["values" := "old"]}.
Definition demo_alerts (text : string) : ConfigMap :=
  demo_cm "alerts-c1" {[KofAlertRulesClusterNameLabel := "c1"]} {["node" := text]}.
Definition demo_prometheus : PrometheusRule :=
  {| pr_meta := new_meta "kof" "rules" {[ReleaseNameLabel := "kof-mothership"]};
     pr_Groups := [{| rg_Name := "node"; rg_Rules := [demo_rule (Some "5m")] |}] |}.

Definition by_key {O} `{Object O} (l : list O) : objects_of O :=
  list_to_map ((λ o, (object_key o, o)) <$> l).
Definition demo_world (text : string) : kworld (objects_of ConfigMap * objects_of PrometheusRule) :=
  {| kw_data := (by_key [demo_promxy; demo_vmrules; demo_alerts text], by_key [demo_prometheus]);
     kw_faults := [] |}.
Definition demo_env : environ :=
  {["RELEASE_NAMESPACE" := "kof"; "RELEASE_NAME" := "kof-mothership"]}.

#[local] Existing Instance sim_kube.
Notation demo_run w :=
  (updateResultingConfigMaps demo_unmarshal demo_records demo_marshal demo_values demo_visit demo_env w).

Lemma demo_visit_perm A (m : gmap string A) : demo_visit A m ≡ₚ map_to_list m.
Proof. done. Qed.

(** The default rule and the one of the cluster, patched, get their files. *)
Example demo_files :
  cm_Data <$> stored (O := ConfigMap) (demo_run (demo_world "HighCPU: for 10m")).2 !!
    promxy_key "kof" "kof-mothership" =
  Some {["node.yaml" := "node:HighCPU 5m"; "__c1__node.yaml" := "node:HighCPU 10m"]}.
Proof. vm_compute. reflexivity. Qed.

Lemma rules_reconciled_witness :
  (demo_run (demo_world "HighCPU: for 10m")).1 = Ok tt ∧
  ∃ files, cm_Data <$> stored (O := ConfigMap) (demo_run (demo_world "HighCPU: for 10m")).2 !!
      ("kof", "kof-mothership-promxy-rules") = Some files ∧
    ∃ alerts, file_text demo_marshal alerts "__c1__node.yaml" (files !! "__c1__node.yaml") ∧
      ∃ prs acms rcms, sources (demo_world "HighCPU: for 10m") "kof" "kof-mothership" prs acms rcms ∧
        in_group alerts "c1" "node" ≫= (λ rules : AlertRules, rules !! "HighCPU") =
          alert_rule demo_unmarshal prs acms "c1" "node" "HighCPU".
Proof.
  split; [vm_compute; reflexivity|].
  destruct (rules_reconciled demo_unmarshal demo_records demo_marshal demo_values demo_visit
    demo_visit_perm demo_env (demo_world "HighCPU: for 10m")
    (demo_run (demo_world "HighCPU: for 10m")).2 "kof" "kof-mothership")
    as (prs & acms & rcms & alerts & records & files & Hs & Hal & _ & Hf & _ & Hcm).
  - reflexivity.
  - reflexivity.
  - intros cm Hcm. vm_compute in Hcm. injection Hcm as <-. intros [v Hv]. vm_compute in Hv. discriminate.
  - vm_compute. reflexivity.
  - exists files. split.
    + destruct (Hcm ("kof", "kof-mothership-promxy-rules") demo_promxy) as [_ Hp];
        [vm_compute; reflexivity|].
      rewrite Hp; [reflexivity|]. intros [v Hv]. vm_compute in Hv. discriminate.
    + exists alerts. split; [apply Hf|]. exists prs, acms, rcms. split; [exact Hs|apply Hal].
Defined.

Lemma bad_rules_change_nothing_witness :
  is_ok (demo_run (demo_world "::")).1 = false ∧
  stored (O := ConfigMap) (demo_run (demo_world "::")).2 = stored (demo_world "::").
Proof.
  apply (bad_rules_change_nothing demo_unmarshal demo_records demo_marshal demo_values demo_visit
    demo_visit_perm demo_env (demo_world "::") "kof" (demo_alerts "::") "node" "::").
  - reflexivity.
  - vm_compute. reflexivity.
  - right. reflexivity.
  - reflexivity.
  - left. split; [vm_compute; eauto|reflexivity].
Defined.

Lemma rules_change_generated_only_witness :
  demo_env !! "RELEASE_NAMESPACE" = Some "kof" ∧
  only_results (promxy_key "kof" "kof-mothership")
    (stored (O := ConfigMap) (demo_world "HighCPU: for 10m"))
    (stored (O := ConfigMap) (demo_run (demo_world "HighCPU: for 10m")).2).
Proof.
  split; [reflexivity|].
  apply (rules_change_generated_only demo_unmarshal demo_records demo_marshal demo_values demo_visit
    demo_visit_perm); reflexivity.
Defined.

(** Two groups with one file. *)
Definition demo_groups : by_cluster AlertRules :=
  {["" := {["__c1__node" := {["HighCPU" := demo_rule (Some "5m")]}]};
    "c1" := {["node" := {["HighCPU" := demo_rule (Some "10m")]}]}]}.

Lemma alert_files_witness :
  file_text demo_marshal demo_groups "__c1__node.yaml"
    (Some "node:HighCPU 10m__c1__node:HighCPU 5m") ∨
  file_text demo_marshal demo_groups "__c1__node.yaml"
    (Some "__c1__node:HighCPU 5mnode:HighCPU 10m").
Proof.
  destruct (getAlertFiles demo_marshal demo_visit demo_groups) as [files|] eqn:E; [|by vm_compute in E].
  pose proof (alert_files demo_marshal demo_visit demo_groups files demo_visit_perm E "__c1__node.yaml") as H.
  vm_compute in E. injection E as <-.
  first [left; exact H | right; exact H].
Defined.
