(* ===== verification/Queue.v ===== *)
(** How the controller manager runs a reconciler: the objects it watches with
    the filter of their events, and the queue of requests.  The queue is that
    of controller-runtime, as documented: a request is queued once; a request
    that fails is queued again; an event about an object, also one that the
    reconciler has caused, queues the name of the object when the object
    passes the filter, which looks at the new object of an update and at the
    last state of a deleted one. *)
From S2P Require Import Prelude Strings Env World Kube.
From stdpp Require Import relations.

Open Scope string_scope.

(** * Events *)

Section events.
Context {O : Type} `{!EqDecision O}.
(** [WithEventFilter(predicate.NewPredicateFuncs(seen))]. *)
Context (seen : O → bool).

Definition noticed (old new : option O) : bool :=
  match old, new with
  | _, Some o => negb (bool_decide (old = new)) && seen o
  | Some o, None => seen o
  | None, None => false
  end.

(** The requests that a change of the objects queues. *)
Definition events (m m' : objects_of O) : gset (string * string) :=
  filter (λ k, noticed (m !! k) (m' !! k) = true) (dom m ∪ dom m').

Lemma elem_of_events m m' k : k ∈ events m m' ↔ noticed (m !! k) (m' !! k) = true.
Proof.
  unfold events. rewrite elem_of_filter, elem_of_union, !elem_of_dom. split; [by intros []|].
  intros Hn. split; [done|]. destruct (m !! k), (m' !! k); naive_solver.
Qed.

Lemma events_same m : events m m = ∅.
Proof.
  apply leibniz_equiv, elem_of_equiv_empty. intros k. rewrite elem_of_events. unfold noticed.
  destruct (m !! k); [|done]. by rewrite bool_decide_eq_true_2.
Qed.

End events.

(** * The loop *)

Section queue.
Context {W O : Type} `{Kube W O} `{!EqDecision O}.
Context (seen : O → bool).
(** One call of Reconcile, with its outcome. *)
Context (run : string * string → W → result unit → W → Prop).

(** The cluster and the requests that wait. *)
Definition loop_state : Type := W * gset (string * string).

Inductive served (r : result unit) : loop_state → loop_state → Prop :=
  | served_request k w q w' :
      k ∈ q → run k w r w' →
      served r (w, q)
        (w', (if is_ok r then q ∖ {[k]} else q) ∪ events seen (stored w) (stored w')).

Definition served_any (s s' : loop_state) : Prop := ∃ r, served r s s'.

(** ** Settling *)

(** A reconciler settles when from any state it is good for one success leads
    to a settled state, and further ones change nothing. *)
Context (good settled : W → Prop).
Context (reaches : ∀ k w w', good w → run k w (Ok tt) w' → good w' ∧ settled w').
Context (rests : ∀ k w w', good w → settled w → run k w (Ok tt) w' → stored w' = stored w).

Lemma settled_ends w q : good w → settled w → sn (served (Ok tt)) (w, q).
Proof.
  remember (size q) as n eqn:Hn. revert w q Hn.
  induction n as [n IH] using lt_wf_ind. intros w q Hn Hg Hs. constructor. intros [w' q'] Hstep.
  inversion Hstep as [k ??? Hk Hrun]; subst. destruct (reaches _ _ _ Hg Hrun) as [Hg' Hs'].
  rewrite (rests _ _ _ Hg Hs Hrun), events_same, union_empty_r_L. simpl.
  apply (IH (size (q ∖ {[k]}))); [|done..].
  apply subset_size. set_solver.
Qed.

(** The queue runs empty: there is no endless sequence of successes. *)
Lemma queue_ends w q : good w → sn (served (Ok tt)) (w, q).
Proof.
  intros Hg. constructor. intros [w' q'] Hstep. inversion Hstep as [k ??? Hk Hrun]; subst.
  destruct (reaches _ _ _ Hg Hrun). by apply settled_ends.
Qed.

Lemma queue_settles w q w' q' : good w → tc (served (Ok tt)) (w, q) (w', q') → settled w'.
Proof.
  intros Hg Ht. remember (w, q) as s eqn:Es. remember (w', q') as s' eqn:Es'.
  revert w q Hg Es. induction Ht as [s s' Hstep|s s1 s' Hstep Ht IH]; intros w q Hg ->;
    inversion Hstep as [k ??? Hk Hrun]; subst; destruct (reaches _ _ _ Hg Hrun).
  - by simplify_eq.
  - by eapply IH.
Qed.
End queue.
