(* ===== verification/RulesLoop.v ===== *)
(** The loop of the alert rules controller: the ConfigMaps it writes pass its
    own event filter, so that every write queues another reconciliation.  When
    no two sources define the same rule the loop settles, whatever the order in
    which maps are visited and lists are returned; a ConfigMap that loses its
    label, and PrometheusRules, are never noticed. *)
From S2P Require Import Prelude Strings Env World Kube Alerts AlertFacts AlertRunFacts Queue.
From stdpp Require Import relations.

Open Scope string_scope.

#[export] Instance ConfigMap_eq_dec : EqDecision ConfigMap.
Proof. solve_decision. Defined.

(** * Lists of which at most one element counts *)

Section unique.
Context {A B : Type}.

Definition at_most_one (P : A → Prop) (l : list A) : Prop :=
  ∀ x y, x ∈ l → y ∈ l → P x → P y → x = y.

Lemma omap_unique (f : A → option B) l :
  NoDup l → at_most_one (λ x, is_Some (f x)) l → (length (omap f l) ≤ 1)%nat.
Proof.
  induction 1 as [|x l Hx Hn IH]; intros Hu; [simpl; lia|]. rewrite omap_cons.
  destruct (f x) as [b|] eqn:E; simpl.
  - rewrite omap_none; [simpl; lia|]. intros y Hy. destruct (f y) eqn:Ey; [|done].
    exfalso. apply Hx. rewrite (Hu x y); [done|by left|by right|by rewrite E|by rewrite Ey].
  - apply IH. intros y z Hy Hz. apply Hu; by right.
Qed.

Lemma omap_perm (f : A → option B) l l' : l ≡ₚ l' → omap f l ≡ₚ omap f l'.
Proof.
  induction 1 as [|x l l' _ IH|x y l|l1 l2 l3 _ IH1 _ IH2]; rewrite ?omap_cons; [done|by rewrite IH| |].
  - destruct (f x), (f y); simpl; try done. apply perm_swap.
  - by rewrite IH1.
Qed.

Lemma omap_order (f : A → option B) l l' :
  l ≡ₚ l' → NoDup l → at_most_one (λ x, is_Some (f x)) l → omap f l = omap f l'.
Proof.
  intros Hp Hn Hu. pose proof (omap_unique f l Hn Hu) as Hlen.
  pose proof (omap_perm f l l' Hp) as Hp'.
  destruct (omap f l) as [|b [|b' r]]; simpl in Hlen; [| |lia].
  - by apply Permutation_nil_l in Hp'.
  - by apply Permutation_singleton_l in Hp'.
Qed.

End unique.

Lemma bind_order {A B} (f : A → list B) l l' :
  l ≡ₚ l' → NoDup l → at_most_one (λ x, f x ≠ []) l → l ≫= f = l' ≫= f.
Proof.
  intros Hp Hn Hu.
  assert (Hb : ∀ l, l ≫= f = concat (omap (λ x, match f x with [] => None | b => Some b end) l)).
  { clear. intros l. induction l as [|x l IH]; [done|]. rewrite bind_cons, omap_cons, IH.
    by destruct (f x). }
  rewrite !Hb. f_equal. apply omap_order; [done..|]. intros x y Hx Hy Hfx Hfy.
  apply Hu; [done..|destruct (f x); [by destruct Hfx|done]|destruct (f y); [by destruct Hfy|done]].
Qed.

(** * Sources that do not compete *)

Section loop.
Context (unmarshal_alerts : string → result AlertRules)
        (unmarshal_records : string → result RecordRules)
        (marshal_spec : RuleGroup → result string)
        (marshal_values : by_group RecordRules → result string).
Context {W : Type} `{HC : !Kube W ConfigMap, HCL : !KubeLaws W ConfigMap}.
Context `{HP : !Kube W PrometheusRule, HPL : !KubeLaws W PrometheusRule}.
Context `{FP : !KubeFrame W HP HC, FC : !KubeFrame W HC HP}.
Context (env : environ) (ns rn : string).
Context (Hns : env !! "RELEASE_NAMESPACE" = Some ns) (Hrn : env !! "RELEASE_NAME" = Some rn).

Notation cms_of := (stored (O := ConfigMap)).
Notation order := (∀ A, gmap string A → list (string * A)).
Notation alert_rule := (alert_rule unmarshal_alerts).
Notation record_group := (record_group unmarshal_records).

Definition has_label (label : string) (cm : ConfigMap) : Prop :=
  is_Some (om_Labels (cm_meta cm) !! label).
Definition rules_cm (label : string) (w : W) (cm : ConfigMap) : Prop :=
  cms_of w !! object_key cm = Some cm ∧ has_label label cm ∧ in_namespace ns cm.
Definition release_rule (w : W) (pr : PrometheusRule) : Prop :=
  stored w !! object_key pr = Some pr ∧
  matches [InNamespace ns; MatchingLabels {[ReleaseNameLabel := rn]}] pr = true.

(** The groups of alert rules that some source names. *)
Definition named_group (w : W) (c g : string) : Prop :=
  (c = DefaultClusterName ∧ ∃ pr, release_rule w pr ∧ g ∈ rg_Name <$> pr_Groups pr) ∨
  ∃ cm, rules_cm KofAlertRulesClusterNameLabel w cm ∧
    cm_label cm KofAlertRulesClusterNameLabel = c ∧ is_Some (cm_Data cm !! g).

(** A group of a cluster is in one ConfigMap only, one of the release in one
    PrometheusRule; groups have files of their own; and what the controller
    writes is not a source. *)
Record one_source (w : W) : Prop := {
  one_alerts cm cm' g :
    rules_cm KofAlertRulesClusterNameLabel w cm → rules_cm KofAlertRulesClusterNameLabel w cm' →
    cm_label cm KofAlertRulesClusterNameLabel = cm_label cm' KofAlertRulesClusterNameLabel →
    is_Some (cm_Data cm !! g) → is_Some (cm_Data cm' !! g) → cm = cm';
  one_records cm cm' g :
    rules_cm KofRecordRulesClusterNameLabel w cm → rules_cm KofRecordRulesClusterNameLabel w cm' →
    cm_label cm KofRecordRulesClusterNameLabel = cm_label cm' KofRecordRulesClusterNameLabel →
    is_Some (cm_Data cm !! g) → is_Some (cm_Data cm' !! g) → cm = cm';
  one_rule pr pr' g :
    release_rule w pr → release_rule w pr' →
    g ∈ rg_Name <$> pr_Groups pr → g ∈ rg_Name <$> pr_Groups pr' → pr = pr';
  one_file c g c' g' :
    named_group w c g → named_group w c' g' → file_name c g = file_name c' g' → c = c' ∧ g = g';
  results_apart k cm :
    cms_of w !! k = Some cm → k = promxy_key ns rn ∨ has_vmrules cm →
    ¬ has_label KofAlertRulesClusterNameLabel cm ∧ ¬ has_label KofRecordRulesClusterNameLabel cm;
  promxy_apart cm : cms_of w !! promxy_key ns rn = Some cm → ¬ has_vmrules cm }.

(** ** What is merged does not depend on the order *)

Section one.
Context (w : W) (Hone : one_source w).

Lemma release_rule_elem prs :
  prs ≡ₚ filter (λ o, matches [InNamespace ns; MatchingLabels {[ReleaseNameLabel := rn]}] o = true)
           (map_to_list (stored (O := PrometheusRule) w)).*2 →
  NoDup prs ∧ ∀ pr, pr ∈ prs ↔ release_rule w pr.
Proof.
  intros Hp. split.
  - rewrite Hp. apply NoDup_filter. apply (NoDup_fmap_1 object_key).
    replace (object_key <$> _) with ((map_to_list (stored (O := PrometheusRule) w)).*1);
      [apply NoDup_fst_map_to_list|].
    rewrite <-list_fmap_compose. apply list_fmap_ext. intros i [k o] Hi.
    apply list_elem_of_lookup_2, elem_of_map_to_list in Hi. simpl. by rewrite (stored_key _ _ _ Hi).
  - intros pr. rewrite Hp, list_elem_of_filter, list_elem_of_fmap. unfold release_rule. split.
    + intros [Hm ([k o] & -> & Hk%elem_of_map_to_list)]. simpl in *. by rewrite (stored_key _ _ _ Hk).
    + intros [Hk Hm]. split; [done|]. exists (object_key pr, pr). by rewrite elem_of_map_to_list.
Qed.

Lemma contribution_data c g r cm :
  is_Some (contribution unmarshal_alerts c g r cm) →
  cm_label cm KofAlertRulesClusterNameLabel = c ∧ is_Some (cm_Data cm !! g).
Proof.
  unfold contribution. case_decide; [|by intros []]. destruct (cm_Data cm !! g); [done|by intros []].
Qed.
Lemma record_contribution_data c g cm :
  is_Some (record_contribution unmarshal_records c g cm) →
  cm_label cm KofRecordRulesClusterNameLabel = c ∧ is_Some (cm_Data cm !! g).
Proof.
  unfold record_contribution. case_decide; [|by intros []].
  destruct (cm_Data cm !! g); [done|by intros []].
Qed.

Lemma rules_of_name g groups : rules_of g groups ≠ [] → g ∈ rg_Name <$> groups.
Proof.
  unfold rules_of. destruct (filter _ groups) as [|x l] eqn:E; [done|]. intros _.
  assert (Hx : x ∈ filter (λ x, rg_Name x = g) groups) by (rewrite E; by left).
  apply list_elem_of_filter in Hx as [<- Hx]. by apply list_elem_of_fmap_2.
Qed.

Lemma rules_of_bind g prs : rules_of g (groups_of prs) = prs ≫= λ pr, rules_of g (pr_Groups pr).
Proof.
  unfold groups_of. induction prs as [|pr prs IH]; [done|]. rewrite !bind_cons, <-IH.
  unfold rules_of. by rewrite filter_app, bind_app.
Qed.

Lemma release_rules_order prs prs' g :
  NoDup prs → (∀ pr, pr ∈ prs ↔ release_rule w pr) → prs ≡ₚ prs' →
  rules_of g (groups_of prs) = rules_of g (groups_of prs').
Proof.
  intros Hn He Hp. rewrite !rules_of_bind. apply bind_order; [done..|].
  intros x y Hx%He Hy%He Hgx%rules_of_name Hgy%rules_of_name. by eapply one_rule.
Qed.

Section two_lists.
Context (prs prs' : list PrometheusRule) (acms acms' rcms rcms' : list ConfigMap).
Context (Hs : sources w ns rn prs acms rcms) (Hs' : sources w ns rn prs' acms' rcms').

Lemma release_rules_same g : rules_of g (groups_of prs) = rules_of g (groups_of prs').
Proof.
  destruct Hs as (Hp & _), Hs' as (Hp' & _). destruct (release_rule_elem _ Hp) as [Hn He].
  apply release_rules_order; [done..|]. by rewrite Hp, Hp'.
Qed.

Lemma alert_rule_same c g r : alert_rule prs acms c g r = alert_rule prs' acms' c g r.
Proof.
  destruct Hs as (_ & Ha & Hna & _), Hs' as (_ & Ha' & Hna' & _).
  assert (Hc : ∀ c, omap (contribution unmarshal_alerts c g r) acms =
                    omap (contribution unmarshal_alerts c g r) acms').
  { intros c0. apply NoDup_fmap_1 in Hna, Hna'. apply omap_order; [|done|].
    - apply NoDup_Permutation; [done..|]. intros cm. by rewrite Ha, Ha'.
    - intros x y Hx%Ha Hy%Ha [Hlx Hgx]%contribution_data [Hly Hgy]%contribution_data.
      apply (one_alerts _ Hone _ _ g); [done..|congruence|done|done]. }
  unfold AlertFacts.alert_rule. by rewrite release_rules_same, !Hc.
Qed.

Lemma record_group_same c g : record_group prs rcms c g = record_group prs' rcms' c g.
Proof.
  destruct Hs as (_ & _ & _ & Ha & Hna), Hs' as (_ & _ & _ & Ha' & Hna').
  unfold AlertFacts.record_group. rewrite release_rules_same. f_equal. f_equal.
  apply NoDup_fmap_1 in Hna, Hna'. apply omap_order; [|done|].
  - apply NoDup_Permutation; [done..|]. intros cm. by rewrite Ha, Ha'.
  - intros x y Hx%Ha Hy%Ha [Hlx Hgx]%record_contribution_data [Hly Hgy]%record_contribution_data.
    apply (one_records _ Hone _ _ g); [done..|congruence|done|done].
Qed.

(** A group with a rule is named by a source. *)
Lemma alert_rule_named c g r : is_Some (alert_rule prs acms c g r) → named_group w c g.
Proof.
  destruct Hs as (Hp & Ha & _). destruct (release_rule_elem _ Hp) as [_ He].
  assert (Hcm : ∀ c, omap (contribution unmarshal_alerts c g r) acms ≠ [] → named_group w c g).
  { intros c0 Hne. destruct (omap _ acms) as [|x l] eqn:E; [done|].
    assert (Hx : x ∈ omap (contribution unmarshal_alerts c0 g r) acms) by (rewrite E; by left).
    apply list_elem_of_omap in Hx as (cm & Hin%Ha & Hx). right. exists cm. split; [done|].
    by apply (contribution_data _ _ r); rewrite Hx. }
  unfold AlertFacts.alert_rule. case_decide as Hc.
  - subst c. destruct (omap _ acms) eqn:E; [|intros _; apply Hcm; by rewrite E].
    simpl. intros [x Hx]. left. split; [done|].
    destruct (rules_of g (groups_of prs)) as [|y l] eqn:Er; [done|].
    assert (Hy : y ∈ prs ≫= λ pr, rules_of g (pr_Groups pr)) by (rewrite <-rules_of_bind, Er; by left).
    apply list_elem_of_bind in Hy as (pr & Hy & Hpr%He). exists pr. split; [done|].
    apply rules_of_name. intros Hn. rewrite Hn in Hy. by apply elem_of_nil in Hy.
  - destruct (omap _ acms) eqn:E; [by intros []|]. intros _. apply Hcm. by rewrite E.
Qed.
End two_lists.

(** The files and the record rules are determined by the sources. *)
Lemma merged_same (visit visit' : order) records records' files files' :
  (∀ A (m : gmap string A), visit A m ≡ₚ map_to_list m) →
  (∀ A (m : gmap string A), visit' A m ≡ₚ map_to_list m) →
  merged unmarshal_alerts unmarshal_records marshal_spec visit env w ns rn records files →
  merged unmarshal_alerts unmarshal_records marshal_spec visit' env w ns rn records' files' →
  files = files' ∧ ∀ c g, group_at records c g = group_at records' c g.
Proof.
  intros Hv Hv' (prs & acms & rcms & alerts & _ & _ & Hs & Hr & Hg & Hrec & Hf & _)
    (prs' & acms' & rcms' & alerts' & _ & _ & Hs' & Hr' & Hg' & Hrec' & Hf' & _). split.
  2:{ intros c g. by rewrite Hrec, Hrec', (record_group_same _ _ _ _ _ _ Hs Hs'). }
  assert (Hrules : ∀ c g r, rule_at alerts c g r = rule_at alerts' c g r).
  { intros c g r. by rewrite Hr, Hr', (alert_rule_same _ _ _ _ _ _ Hs Hs'). }
  assert (Hgroups : ∀ c g, group_at alerts c g = group_at alerts' c g).
  { intros c g. assert (Hi : is_Some (group_at alerts c g) ↔ is_Some (group_at alerts' c g)).
    { rewrite Hg, Hg'. setoid_rewrite Hrules. destruct Hs as (_ & Ha & _), Hs' as (_ & Ha' & _).
      setoid_rewrite Ha. by setoid_rewrite Ha'. }
    specialize (Hrules c g). unfold rule_at in Hrules.
    destruct (group_at alerts c g) as [m|], (group_at alerts' c g) as [m'|]; simpl in *.
    - f_equal. by apply map_eq.
    - by destruct Hi as [[] _].
    - by destruct Hi as [_ []].
    - done. }
  assert (Hnamed : ∀ c g, is_Some (group_at alerts c g) → named_group w c g).
  { intros c g [(r & Hx)|(cm & Hcm & Hl)]%Hg.
    - rewrite Hr in Hx. exact (alert_rule_named _ _ _ Hs _ _ _ Hx).
    - right. exists cm. split; [|done]. by apply Hs in Hcm. }
  destruct (files_spec _ _ _ _ Hv Hf) as [Hd Ht], (files_spec _ _ _ _ Hv' Hf') as [Hd' Ht'].
  apply map_eq. intros name. destruct (decide (is_Some (files !! name))) as [Hin|Hin].
  - apply Hd in Hin as (c & g & [rules Hcg] & <-).
    assert (Hu : ∀ c' g', is_Some (group_at alerts c' g') → file_name c' g' = file_name c g → c' = c ∧ g' = g).
    { intros c' g' Hi. apply (one_file _ Hone); [by apply Hnamed|]. apply Hnamed. by rewrite Hcg. }
    assert (Hk : keyed rules).
    { intros r x Hx. apply (alert_rule_name unmarshal_alerts prs acms c g).
      rewrite <-Hr. unfold rule_at. by rewrite Hcg. }
    destruct (Ht _ _ _ Hcg Hk Hu) as (y & Hy & ->). rewrite Hgroups in Hcg.
    destruct (Ht' _ _ _ Hcg Hk) as (y' & Hy' & ->); [|congruence].
    intros c' g' Hi. apply Hu. by rewrite Hgroups.
  - rewrite (proj2 (eq_None_not_Some (files !! name))) by done. symmetry. apply eq_None_not_Some.
    intros (c & g & Hi & Hn)%Hd'. apply Hin, Hd. exists c, g. by rewrite Hgroups.
Qed.
End one.

(** ** The sources stay as they are *)

(** Two states with the same sources, and the same objects to fill. *)
Definition same_sources (w w' : W) : Prop :=
  only_results (promxy_key ns rn) (cms_of w) (cms_of w') ∧
  stored (O := PrometheusRule) w' = stored w.

Section same.
Context (w w' : W) (Hone : one_source w) (Hsame : same_sources w w').

Lemma same_rules_cm label cm :
  label = KofAlertRulesClusterNameLabel ∨ label = KofRecordRulesClusterNameLabel →
  rules_cm label w' cm ↔ rules_cm label w cm.
Proof.
  intros Hl. unfold rules_cm.
  assert (Hi : has_label label cm →
    cms_of w' !! object_key cm = Some cm ↔ cms_of w !! object_key cm = Some cm).
  { intros Hlab. destruct Hsame as [Ho _].
    destruct (Ho (object_key cm)) as [->|(old & d & Hold & _ & Ht & E)]; [done|].
    assert (Hno : ¬ has_label label old).
    { destruct (results_apart _ Hone _ _ Hold Ht). by destruct Hl as [-> | ->]. }
    rewrite E, Hold. split; intros [= <-]; by destruct Hno. }
  naive_solver.
Qed.

Lemma same_release_rule pr : release_rule w' pr ↔ release_rule w pr.
Proof. unfold release_rule. by destruct Hsame as [_ ->]. Qed.

Lemma same_named c g : named_group w' c g ↔ named_group w c g.
Proof.
  unfold named_group. setoid_rewrite same_release_rule.
  by setoid_rewrite (λ cm, same_rules_cm _ cm (or_introl eq_refl)).
Qed.

Lemma same_one_source : one_source w'.
Proof.
  assert (Hold : ∀ k cm, cms_of w' !! k = Some cm → ∃ old, cms_of w !! k = Some old ∧ cm_meta old = cm_meta cm).
  { intros k cm Hk. destruct Hsame as [Ho _].
    destruct (Ho k) as [E|(old & d & Hold & _ & _ & E)]; rewrite E in Hk; [by exists cm|].
    injection Hk as <-. by exists old. }
  constructor.
  - intros cm cm' g. rewrite !same_rules_cm by by left. by apply one_alerts.
  - intros cm cm' g. rewrite !same_rules_cm by by right. by apply one_records.
  - intros pr pr' g. rewrite !same_release_rule. by apply one_rule.
  - intros c g c' g'. rewrite !same_named. by apply one_file.
  - intros k cm (old & Hold' & Hm)%Hold Ht. unfold has_vmrules, has_label in *. rewrite <-Hm in *.
    by apply (results_apart _ Hone k).
  - intros cm (old & Hold' & Hm)%Hold. unfold has_vmrules. rewrite <-Hm. by apply (promxy_apart _ Hone).
Qed.

Lemma same_sources_iff prs acms rcms : sources w' ns rn prs acms rcms ↔ sources w ns rn prs acms rcms.
Proof.
  unfold sources. destruct Hsame as [_ ->].
  pose proof (λ cm, same_rules_cm _ cm (or_introl eq_refl)) as Ha.
  pose proof (λ cm, same_rules_cm _ cm (or_intror eq_refl)) as Hr.
  unfold rules_cm, has_label in Ha, Hr. setoid_rewrite Ha. by setoid_rewrite Hr.
Qed.

Lemma same_merged visit records files :
  merged unmarshal_alerts unmarshal_records marshal_spec visit env w' ns rn records files ↔
  merged unmarshal_alerts unmarshal_records marshal_spec visit env w ns rn records files.
Proof. unfold merged. by setoid_rewrite same_sources_iff. Qed.
End same.

(** * The loop settles *)

(** One call of Reconcile, with maps visited in some order. *)
Definition rules_run (k : string * string) (w : W) (r : result unit) (w' : W) : Prop :=
  ∃ visit : order, (∀ A (m : gmap string A), visit A m ≡ₚ map_to_list m) ∧
    alerts_Reconcile unmarshal_alerts unmarshal_records marshal_spec marshal_values visit env w = (r, w').
Definition rules_seen (cm : ConfigMap) : bool := rules_event (om_Labels (cm_meta cm)).

(** The ConfigMaps hold the merged rules. *)
Definition published (w : W) : Prop :=
  ∃ (visit : order) records files, (∀ A (m : gmap string A), visit A m ≡ₚ map_to_list m) ∧
    merged unmarshal_alerts unmarshal_records marshal_spec visit env w ns rn records files ∧
    (∀ cm, cms_of w !! promxy_key ns rn = Some cm → filled files cm = cm) ∧
    ∀ k cm, cms_of w !! k = Some cm → has_vmrules cm → ∃ y,
      marshal_values (vmrules_groups records (cm_label cm KofRecordVMRulesClusterNameLabel)) = Ok y ∧
      filled {["values" := y]} cm = cm.

(** ** PrometheusRules are only read *)

Definition leaves {A} (m : eff W A) : Prop := ∀ w, stored (O := PrometheusRule) (m w).2 = stored w.

Lemma leaves_ret {A} (r : result A) : leaves (eret r).
Proof. done. Qed.
Lemma leaves_bind {A B} (m : eff W A) (f : A → eff W B) :
  leaves m → (∀ a, leaves (f a)) → leaves (ebind m f).
Proof.
  intros Hm Hf w. unfold ebind. specialize (Hm w). destruct (m w) as [[a|e] w1]; [|done].
  by rewrite (Hf a w1).
Qed.
Lemma leaves_list opts : leaves (kube_list (O := ConfigMap) opts).
Proof. intros w. apply list_frame. Qed.
Lemma leaves_list_rules opts : leaves (kube_list (O := PrometheusRule) opts).
Proof. intros w. apply list_stored. Qed.
Lemma leaves_get k : leaves (kube_get (O := ConfigMap) k).
Proof. intros w. apply read_frame. Qed.
Lemma leaves_update cm data : leaves (updateConfigMap cm data).
Proof. intros w. unfold updateConfigMap. repeat case_match; try done. apply update_frame. Qed.
#[local] Hint Resolve leaves_ret leaves_bind leaves_list leaves_list_rules leaves_get leaves_update : kof.

Lemma leaves_reconcile visit :
  leaves (alerts_Reconcile unmarshal_alerts unmarshal_records marshal_spec marshal_values visit env).
Proof.
  unfold alerts_Reconcile, updateResultingConfigMaps, getConfigMaps, mergePrometheusRules,
    updateConfigMapByName.
  assert (Hu : ∀ records cms, leaves (update_vmrules marshal_values records cms)).
  { intros records cms. induction cms; simpl; [done|]. unfold updateRecordVMRulesConfigMap. auto with kof. }
  auto 20 with kof.
Qed.

(** ** Every call keeps the sources, a success publishes them *)

Lemma run_same k w r w' : rules_run k w r w' → same_sources w w'.
Proof.
  intros (visit & Hv & E). unfold same_sources. split.
  - pose proof (reconcile_only unmarshal_alerts unmarshal_records marshal_spec marshal_values visit Hv
      env w ns rn Hns Hrn) as Ho. unfold alerts_Reconcile in E. by rewrite E in Ho.
  - pose proof (leaves_reconcile visit w) as Hl. by rewrite E in Hl.
Qed.

Lemma filled_filled data cm : filled data (filled data cm) = filled data cm.
Proof.
  unfold filled. destruct (generated cm) eqn:E; [|by rewrite E].
  change (generated (set_Data data cm)) with (generated cm). by rewrite E.
Qed.
Lemma filled_meta data cm : cm_meta (filled data cm) = cm_meta cm.
Proof. unfold filled. by case_match. Qed.

Lemma run_publishes k w w' :
  one_source w → rules_run k w (Ok tt) w' → one_source w' ∧ published w'.
Proof.
  intros Hone Hrun. pose proof (run_same _ _ _ _ Hrun) as Hsame. split; [by eapply same_one_source|].
  destruct Hrun as (visit & Hv & E).
  destruct (reconcile_outcome unmarshal_alerts unmarshal_records marshal_spec marshal_values visit Hv
    env w w' ns rn Hns Hrn (promxy_apart w Hone) E) as (vms & records & files & [Hm _] & [cm0 Hcm0] & Hout).
  exists visit, records, files. split; [done|]. split; [by apply (same_merged w w')|].
  assert (Hback : ∀ k cm, cms_of w' !! k = Some cm → ∃ old, cms_of w !! k = Some old).
  { intros k0 cm Hk. destruct Hsame as [Ho _].
    destruct (Ho k0) as [E'|(old & d & Hold & _)]; [|by exists old]. rewrite E' in Hk. by exists cm. }
  split.
  - intros cm Hcm. destruct (Hout _ _ Hcm0) as [_ Hp]. rewrite decide_True in Hp by done.
    rewrite Hp in Hcm by by apply (promxy_apart w Hone). injection Hcm as <-. apply filled_filled.
  - intros k0 cm Hcm Hv'. destruct (Hback _ _ Hcm) as [old Hold].
    destruct (Hout _ _ Hold) as [Hvm Hno].
    assert (Hvo : has_vmrules old).
    { destruct Hsame as [Ho _]. unfold has_vmrules in *.
      destruct (Ho k0) as [E'|(o & d & Ho' & _ & _ & E')]; rewrite E' in Hcm; simplify_eq; done. }
    destruct (Hvm Hvo) as (y & Hy & E'). rewrite E' in Hcm. injection Hcm as <-.
    exists y. unfold cm_label in *. rewrite filled_meta. split; [done|]. apply filled_filled.
Qed.

Lemma run_rests k w w' :
  one_source w → published w → rules_run k w (Ok tt) w' → cms_of w' = cms_of w.
Proof.
  intros Hone (visit0 & records0 & files0 & Hv0 & Hm0 & Hp0 & Hr0) Hrun.
  pose proof (run_same _ _ _ _ Hrun) as [Ho _]. destruct Hrun as (visit & Hv & E).
  destruct (reconcile_outcome unmarshal_alerts unmarshal_records marshal_spec marshal_values visit Hv
    env w w' ns rn Hns Hrn (promxy_apart w Hone) E) as (vms & records & files & [Hm _] & _ & Hout).
  destruct (merged_same w Hone _ _ _ _ _ _ Hv0 Hv Hm0 Hm) as [<- Hrec].
  apply map_eq. intros k0. destruct (cms_of w !! k0) as [cm|] eqn:Ek.
  2:{ destruct (Ho k0) as [E'|(o & d & Hk & _)]; congruence. }
  destruct (Hout _ _ Ek) as [Hvm Hno]. destruct (decide (has_vmrules cm)) as [Hd|Hd].
  - destruct (Hvm Hd) as (y & Hy & ->). destruct (Hr0 _ _ Ek Hd) as (y0 & Hy0 & Hf).
    enough (y = y0) as -> by by rewrite Hf.
    enough (vmrules_groups records0 (cm_label cm KofRecordVMRulesClusterNameLabel) =
            vmrules_groups records (cm_label cm KofRecordVMRulesClusterNameLabel)) by congruence.
    unfold vmrules_groups. assert (Hc : ∀ c, default ∅ (records0 !! c) = default ∅ (records !! c)).
    { intros c. apply map_eq. intros g. specialize (Hrec c g). unfold group_at in Hrec.
      destruct (records0 !! c), (records !! c); simpl in *; rewrite ?lookup_empty; done. }
    by rewrite !Hc.
  - rewrite (Hno Hd). case_decide as Hk; [|done]. subst k0. by rewrite (Hp0 _ Ek).
Qed.

Notation loop_step r := (served rules_seen rules_run r).

(** C11: When no two sources define the same group, the loop of the alert rules
    controller settles: whatever calls have failed before, and in whatever
    order lists and maps come, there is no endless sequence of reconciliations
    that succeed, although what they write queues the next one; and from the
    first of them on the ConfigMaps hold the merged rules. *)
Theorem rules_settle w0 q0 w q :
  one_source w0 → rtc (served_any rules_seen rules_run) (w0, q0) (w, q) →
  sn (loop_step (Ok tt)) (w, q) ∧
  ∀ w' q', tc (loop_step (Ok tt)) (w, q) (w', q') → published w'.
Proof.
  intros H0 Hr. assert (Hone : one_source w).
  { remember (w0, q0) as s eqn:Es. remember (w, q) as s' eqn:Es'. revert w0 q0 H0 Es.
    induction Hr as [s|s s1 s' [r Hstep] _ IH]; intros w1 q1 H1 ->; [by simplify_eq|].
    inversion Hstep as [k ??? _ Hrun]; subst.
    eapply (IH eq_refl); [|done]. eapply same_one_source; [done|by eapply run_same]. }
  pose proof (λ k w w' Hw Hrun, run_publishes k w w' Hw Hrun) as Hreach. split.
  - exact (queue_ends rules_seen rules_run one_source published Hreach run_rests w q Hone).
  - intros w' q'. exact (queue_settles rules_seen rules_run one_source published Hreach w q w' q' Hone).
Qed.
End loop.

(** * What the filter misses *)

(** An update that takes the label off a source queues nothing, so its rules
    stay published until another event. *)
Lemma label_removed_unnoticed m k old new :
  m !! k = Some old → rules_event (om_Labels (cm_meta old)) = true →
  rules_event (om_Labels (cm_meta new)) = false →
  events rules_seen m (<[k := new]> m) = ∅.
Proof.
  intros Hk _ Hnew. apply leibniz_equiv, elem_of_equiv_empty. intros k'. rewrite elem_of_events.
  unfold noticed. destruct (decide (k' = k)) as [->|Hne].
  - rewrite lookup_insert_eq. unfold rules_seen. rewrite Hnew, andb_false_r. by destruct (m !! k).
  - rewrite lookup_insert_ne by done. destruct (m !! k') as [o|]; [|done].
    by rewrite bool_decide_eq_true_2.
Qed.

(** * Witness *)

#[local] Existing Instance sim_kube.
Notation demo_run w :=
  (updateResultingConfigMaps demo_unmarshal demo_records demo_marshal demo_values demo_visit demo_env w).

Lemma demo_stored text k cm :
  stored (O := ConfigMap) (demo_world text) !! k = Some cm →
  (k, cm) ∈ (λ o, (object_key o, o)) <$> [demo_promxy; demo_vmrules; demo_alerts text].
Proof.
  intros H. change (by_key [demo_promxy; demo_vmrules; demo_alerts text] !! k = Some cm) in H.
  unfold by_key in H. by apply elem_of_list_to_map_2 in H.
Qed.
Lemma demo_stored_rules text k pr :
  stored (O := PrometheusRule) (demo_world text) !! k = Some pr → pr = demo_prometheus.
Proof.
  intros H. change (by_key [demo_prometheus] !! k = Some pr) in H. unfold by_key in H.
  apply elem_of_list_to_map_2, list_elem_of_singleton in H. by injection H.
Qed.

Lemma demo_source text label cm :
  label = KofAlertRulesClusterNameLabel ∨ label = KofRecordRulesClusterNameLabel →
  rules_cm "kof" label (demo_world text) cm → cm = demo_alerts text.
Proof.
  intros Hl (Hs%demo_stored & [v Hv] & _).
  rewrite !fmap_cons, !elem_of_cons in Hs. destruct Hs as [Hs|[Hs|[Hs|Hs%elem_of_nil]]]; [..|done];
    injection Hs as _ _ ->; destruct Hl as [-> | ->]; vm_compute in Hv; done.
Qed.

Lemma demo_group text c g :
  named_group "kof" "kof-mothership" (demo_world text) c g → g = "node" ∧ (c = "" ∨ c = "c1").
Proof.
  intros [(-> & pr & [->%demo_stored_rules _] & Hg)|(cm & Hcm & <- & Hg)].
  - split; [|by left]. by apply list_elem_of_singleton in Hg.
  - apply demo_source in Hcm as ->; [|by left]. split; [|by right].
    destruct Hg as [y Hy]. simpl in Hy. by apply lookup_singleton_Some in Hy as [<- _].
Qed.

Lemma demo_one_source text : one_source "kof" "kof-mothership" (demo_world text).
Proof.
  constructor.
  - intros cm cm' g H1%demo_source H2%demo_source; [congruence|by left..].
  - intros cm cm' g H1%demo_source H2%demo_source; [congruence|by right..].
  - intros pr pr' g [->%demo_stored_rules _] [->%demo_stored_rules _]. done.
  - intros c g c' g' [-> Hc]%demo_group [-> Hc']%demo_group.
    destruct Hc as [-> | ->], Hc' as [-> | ->]; vm_compute; intros [=]; done.
  - intros k cm Hs%demo_stored Ht. rewrite !fmap_cons, !elem_of_cons in Hs.
    destruct Hs as [Hs|[Hs|[Hs|Hs%elem_of_nil]]]; [..|done]; injection Hs as -> ->.
    1,2: split; intros [v Hv]; vm_compute in Hv; done.
    destruct Ht as [Ht|[v Hv]]; [|by vm_compute in Hv]. by vm_compute in Ht.
  - intros cm Hs. vm_compute in Hs. injection Hs as <-. intros [v Hv]. by vm_compute in Hv.
Qed.

Notation demo_before := (demo_world "HighCPU: for 10m").
Notation demo_after := (demo_run demo_before).2.

(** A reconciliation publishes the rules, and its own write queues another. *)
Lemma rules_settle_witness :
  sn (served rules_seen (rules_run demo_unmarshal demo_records demo_marshal demo_values demo_env) (Ok tt))
     (demo_before, {[("kof", "alerts-c1")]}) ∧
  published demo_unmarshal demo_records demo_marshal demo_values demo_env
    "kof" "kof-mothership" demo_after ∧
  ("kof", "kof-record-vmrules-r1") ∈ events rules_seen (stored demo_before) (stored demo_after).
Proof.
  destruct (rules_settle demo_unmarshal demo_records demo_marshal demo_values demo_env
    "kof" "kof-mothership" eq_refl eq_refl demo_before {[("kof", "alerts-c1")]}
    demo_before {[("kof", "alerts-c1")]})
    as [Hsn Hpub].
  - apply demo_one_source.
  - apply rtc_refl.
  - split; [exact Hsn|]. split.
    + eapply Hpub. apply tc_once. apply (served_request _ _ _ ("kof", "alerts-c1")); [set_solver|].
      exists demo_visit. split; [apply demo_visit_perm|]. vm_compute. reflexivity.
    + apply elem_of_events. vm_compute. reflexivity.
Defined.
