(* ===== verification/StorageConn.v ===== *)
(** internal/controller/vmstorageconnection_controller.go and
    api/v1beta1/vmstorageconnection_types.go: the controller that writes the
    storage nodes of a VTCluster or VLCluster from the VMStorageConnections
    that refer to it. *)
From S2P Require Import Prelude Strings World Kube.
From Stdlib Require Import Ascii.

Open Scope string_scope.

(** * Data *)

Record TLSStorageConfig := { tls_Enabled : bool; tls_InsecureSkipVerify : bool }.
Record SecretRef := { sr_Name : string; sr_PasswordKey : string; sr_UsernameKey : string }.
Record TargetStorageNode := {
  tn_Address : string; tn_Secret : SecretRef; tn_TLSConfig : TLSStorageConfig }.
Record ClusterRef := { cr_Name : string; cr_Namespace : string; cr_Kind : string }.
Record VMStorageConnection := {
  sc_meta : ObjectMeta; sc_ClusterRef : ClusterRef; sc_TargetStorageNode : TargetStorageNode }.

#[export] Instance VMStorageConnection_object : Object VMStorageConnection :=
  {| om := sc_meta; admitted := id; admitted_om _ := eq_refl |}.

(** VTSelect and VLSelect, types of a library: the two fields the controller
    uses ([None] is nil), and the others together as a JSON text. *)
Record Select := {
  se_ExtraArgs : option (gmap string string); se_Secrets : option (list string);
  se_Others : string }.
Definition empty_Select : Select :=
  {| se_ExtraArgs := None; se_Secrets := None; se_Others := "{}" |}.

(** The clusters, with the rest of their specifications as a JSON text. *)
Record VTCluster := { vt_meta : ObjectMeta; vt_Select : option Select; vt_Others : string }.
Record VLCluster := { vl_meta : ObjectMeta; vl_VLSelect : option Select; vl_Others : string }.

#[export] Instance Select_eq_dec : EqDecision Select.
Proof. solve_decision. Defined.

(** * Constants *)

Definition vmStorageConnectionFinalizer := "k0rdent.mirantis.com/vmstorageconnection".
Definition vmSecretMountPath := "/etc/vm/secrets".
Definition storageNodeArg := "storageNode".
Definition storageNodeUsernameFileArg := "storageNode.usernameFile".
Definition storageNodePasswordFileArg := "storageNode.passwordFile".
Definition storageNodeTLSArg := "storageNode.tls".
Definition storageNodeTLSInsecureSkipVerify := "storageNode.tlsInsecureSkipVerify".
Definition storageNodeOwnedArgs : list string :=
  [storageNodeArg; storageNodeUsernameFileArg; storageNodePasswordFileArg; storageNodeTLSArg;
   storageNodeTLSInsecureSkipVerify].
Definition ClusterNameLabelKey := "k0rdent.mirantis.com/cluster-name".
Definition ClusterKindLabelKey := "k0rdent.mirantis.com/cluster-kind".

(** * The interface storageCluster and its adapters *)

Class StorageCluster (O : Type) := {
  clusterKind : string;
  storageExtraArgs : O → option (gmap string string);
  storageSecrets : O → option (list string);
  applyStorageConfig : gmap string string → list string → O → O }.

Definition set_storage (args : gmap string string) (secrets : list string) (s : Select) : Select :=
  {| se_ExtraArgs := Some args; se_Secrets := Some secrets; se_Others := se_Others s |}.
Definition vt_applyStorageConfig (args : gmap string string) (secrets : list string) (a : VTCluster)
    : VTCluster :=
  {| vt_meta := vt_meta a;
     vt_Select := Some (set_storage args secrets (default empty_Select (vt_Select a)));
     vt_Others := vt_Others a |}.
Definition vl_applyStorageConfig (args : gmap string string) (secrets : list string) (a : VLCluster)
    : VLCluster :=
  {| vl_meta := vl_meta a;
     vl_VLSelect := Some (set_storage args secrets (default empty_Select (vl_VLSelect a)));
     vl_Others := vl_Others a |}.

#[export] Instance vtClusterAdapter : StorageCluster VTCluster := {|
  clusterKind := "VTCluster";
  storageExtraArgs a := vt_Select a ≫= se_ExtraArgs;
  storageSecrets a := vt_Select a ≫= se_Secrets;
  applyStorageConfig := vt_applyStorageConfig |}.
#[export] Instance vlClusterAdapter : StorageCluster VLCluster := {|
  clusterKind := "VLCluster";
  storageExtraArgs a := vl_VLSelect a ≫= se_ExtraArgs;
  storageSecrets a := vl_VLSelect a ≫= se_Secrets;
  applyStorageConfig := vl_applyStorageConfig |}.

(** What the API server keeps of a select section is left open. *)
Definition vt_object (keep : option Select → option Select) : Object VTCluster :=
  {| om := vt_meta;
     admitted a := {| vt_meta := vt_meta a; vt_Select := keep (vt_Select a);
                      vt_Others := vt_Others a |};
     admitted_om _ := eq_refl |}.
Definition vl_object (keep : option Select → option Select) : Object VLCluster :=
  {| om := vl_meta;
     admitted a := {| vl_meta := vl_meta a; vl_VLSelect := keep (vl_VLSelect a);
                      vl_Others := vl_Others a |};
     admitted_om _ := eq_refl |}.

(** * Arguments *)

(** [setArg] sets the key when a value is non-empty. *)
Definition setArg (key : string) (values : list string) (args : gmap string string)
    : gmap string string :=
  if existsb (λ v, negb (bool_decide (v = ""))) values
  then <[key := join "," values]> args else args.

Definition secretKeyPath (secretName key : string) : string :=
  if bool_decide (key = "") then ""
  else vmSecretMountPath +:+ "/" +:+ secretName +:+ "/" +:+ key.

Definition add_secret (secrets : list string) (conn : VMStorageConnection) : list string :=
  let name := sr_Name (tn_Secret (sc_TargetStorageNode conn)) in
  if bool_decide (name = "") || bool_decide (name ∈ secrets) then secrets
  else (secrets ++ [name])%list.

(** The value of a connection for each owned argument. *)
Definition address (conn : VMStorageConnection) : string := tn_Address (sc_TargetStorageNode conn).
Definition usernameFile (conn : VMStorageConnection) : string :=
  let s := tn_Secret (sc_TargetStorageNode conn) in secretKeyPath (sr_Name s) (sr_UsernameKey s).
Definition passwordFile (conn : VMStorageConnection) : string :=
  let s := tn_Secret (sc_TargetStorageNode conn) in secretKeyPath (sr_Name s) (sr_PasswordKey s).
Definition tlsEnabled (conn : VMStorageConnection) : string :=
  format_bool (tls_Enabled (tn_TLSConfig (sc_TargetStorageNode conn))).
Definition tlsInsecure (conn : VMStorageConnection) : string :=
  format_bool (tls_InsecureSkipVerify (tn_TLSConfig (sc_TargetStorageNode conn))).

Definition is_live (conn : VMStorageConnection) : bool := negb (om_deleted (sc_meta conn)).

(** The arguments and secrets from the connections listed. *)
Definition node_config (existingArgs : option (gmap string string)) (items : list VMStorageConnection)
    : gmap string string * list string :=
  let args := foldl (λ a k, delete k a) (default ∅ existingArgs) storageNodeOwnedArgs in
  let conns := filter (λ c, is_live c = true) items in
  let secrets := foldl add_secret [] conns in
  (setArg storageNodeTLSInsecureSkipVerify (tlsInsecure <$> conns)
     (setArg storageNodeTLSArg (tlsEnabled <$> conns)
        (setArg storageNodePasswordFileArg (passwordFile <$> conns)
           (setArg storageNodeUsernameFileArg (usernameFile <$> conns)
              (setArg storageNodeArg (address <$> conns) args)))),
   sort_strings secrets).

(** * The controller *)

Section controller.
Context {W : Type} `{!Kube W VMStorageConnection}.

Definition buildStorageNodeConfig (clusterName kind : string)
    (existingArgs : option (gmap string string)) : eff W (gmap string string * list string) :=
  do items := ewrap "failed to list VMStorageConnections"
    (kube_list (O := VMStorageConnection)
       [MatchingLabels {[ClusterNameLabelKey := clusterName; ClusterKindLabelKey := kind]}]) in
  eret (Ok (node_config existingArgs items)).

Definition set_sc_meta (f : ObjectMeta → ObjectMeta) (c : VMStorageConnection) : VMStorageConnection :=
  {| sc_meta := f (sc_meta c); sc_ClusterRef := sc_ClusterRef c;
     sc_TargetStorageNode := sc_TargetStorageNode c |}.

(** controllerutil.ContainsFinalizer, AddFinalizer and RemoveFinalizer. *)
Definition ContainsFinalizer (m : ObjectMeta) (f : string) : bool :=
  bool_decide (f ∈ om_Finalizers m).
Definition set_Finalizers (l : list string) (m : ObjectMeta) : ObjectMeta :=
  {| om_Name := om_Name m; om_Namespace := om_Namespace m; om_UID := om_UID m;
     om_Labels := om_Labels m; om_Annotations := om_Annotations m; om_Finalizers := l;
     om_Owners := om_Owners m; om_deleted := om_deleted m |}.
Definition AddFinalizer (f : string) (m : ObjectMeta) : ObjectMeta :=
  if ContainsFinalizer m f then m else set_Finalizers (om_Finalizers m ++ [f]) m.
Definition RemoveFinalizer (f : string) (m : ObjectMeta) : ObjectMeta :=
  set_Finalizers (filter (λ x, x ≠ f) (om_Finalizers m)) m.
Definition set_om_Labels (l : gmap string string) (m : ObjectMeta) : ObjectMeta :=
  {| om_Name := om_Name m; om_Namespace := om_Namespace m; om_UID := om_UID m;
     om_Labels := l; om_Annotations := om_Annotations m; om_Finalizers := om_Finalizers m;
     om_Owners := om_Owners m; om_deleted := om_deleted m |}.

(** The connection with its finalizer and the labels of its cluster. *)
Definition adopted (conn : VMStorageConnection) : VMStorageConnection :=
  set_sc_meta (λ m, set_om_Labels
    (<[ClusterKindLabelKey := cr_Kind (sc_ClusterRef conn)]>
       (<[ClusterNameLabelKey := cr_Name (sc_ClusterRef conn)]> (om_Labels m)))
    (AddFinalizer vmStorageConnectionFinalizer m)) conn.
Definition released (conn : VMStorageConnection) : VMStorageConnection :=
  set_sc_meta (RemoveFinalizer vmStorageConnectionFinalizer) conn.

Section cluster.
Context {O : Type} `{!Object O, !StorageCluster O, !Kube W O}.

Definition syncCluster (cluster : O) : eff W unit :=
  do config := buildStorageNodeConfig (om_Name (om cluster)) (clusterKind (O := O))
                 (storageExtraArgs cluster) in
  let '(args, secrets) := config in
  if bool_decide (storageExtraArgs cluster = Some args) &&
     bool_decide (storageSecrets cluster = Some secrets)
  then eret (Ok tt)
  else kube_update (applyStorageConfig args secrets cluster).

(** [fetchVTCluster] and [fetchVLCluster]. *)
Definition fetchCluster (name namespace : string) : eff W (option O) :=
  ecase (kube_get (O := O) (namespace, name)) (λ r, eret
    match r with
    | Ok c => Ok (Some c)
    | Err e => if errors_as is_not_found e then Ok None else Err e
    end).

Definition handleClusterDeletion (conn : VMStorageConnection) (cluster : option O) : eff W unit :=
  if negb (ContainsFinalizer (sc_meta conn) vmStorageConnectionFinalizer) then eret (Ok tt)
  else
    do _ := match cluster with
            | Some c => ewrap ("failed to sync " +:+ clusterKind (O := O) +:+ " on deletion")
                          (syncCluster c)
            | None => eret (Ok tt)
            end in
    kube_update (released conn).

Definition cluster_text (conn : VMStorageConnection) (clusterNS : string) : string :=
  cr_Kind (sc_ClusterRef conn) +:+ " " +:+ clusterNS +:+ "/" +:+ cr_Name (sc_ClusterRef conn).

Definition reconcileCluster (conn : VMStorageConnection) (clusterNS : string) : eff W unit :=
  do cluster := ewrap ("failed to get " +:+ cluster_text conn clusterNS)
                  (fetchCluster (cr_Name (sc_ClusterRef conn)) clusterNS) in
  if om_deleted (sc_meta conn) then handleClusterDeletion conn cluster
  else match cluster with
       | None => eret (Err (EText (cluster_text conn clusterNS +:+ " not found")))
       | Some c =>
           do _ := if ContainsFinalizer (sc_meta conn) vmStorageConnectionFinalizer
                   then eret (Ok tt)
                   else ewrap "failed to add finalizer" (kube_update (adopted conn)) in
           syncCluster c
       end.
End cluster.

Context `{!Object VTCluster, !Object VLCluster, !Kube W VTCluster, !Kube W VLCluster}.

Definition cluster_namespace (conn : VMStorageConnection) : string :=
  if bool_decide (cr_Namespace (sc_ClusterRef conn) = "") then om_Namespace (sc_meta conn)
  else cr_Namespace (sc_ClusterRef conn).

Definition conn_Reconcile (req : string * string) : eff W unit :=
  ecase (kube_get (O := VMStorageConnection) req) (λ r,
    match r with
    | Err e => if errors_as is_not_found e then eret (Ok tt)
               else eret (Err (EWrap "failed to get VMStorageConnection" e))
    | Ok conn =>
        if String.eqb (cr_Kind (sc_ClusterRef conn)) "VTCluster"
        then reconcileCluster (O := VTCluster) conn (cluster_namespace conn)
        else if String.eqb (cr_Kind (sc_ClusterRef conn)) "VLCluster"
        then reconcileCluster (O := VLCluster) conn (cluster_namespace conn)
        else eret (Err (EText ("unsupported cluster kind: " +:+ quote (cr_Kind (sc_ClusterRef conn)))))
    end).
End controller.
