(* ===== verification/StorageConnFacts.v ===== *)
(** The storage connection controller: the configuration it computes from the
    connections, and what a reconciliation does to connections and clusters. *)
From S2P Require Import Prelude Strings World Kube StorageConn.
From Stdlib Require Import Ascii.

Open Scope string_scope.

(** * The configuration *)

Definition owned_value (k : string) (c : VMStorageConnection) : string :=
  if String.eqb k storageNodeArg then address c
  else if String.eqb k storageNodeUsernameFileArg then usernameFile c
  else if String.eqb k storageNodePasswordFileArg then passwordFile c
  else if String.eqb k storageNodeTLSArg then tlsEnabled c
  else tlsInsecure c.

Definition live (items : list VMStorageConnection) : list VMStorageConnection :=
  filter (λ c, is_live c = true) items.

Definition some_value (values : list string) : bool :=
  existsb (λ v, negb (bool_decide (v = ""))) values.

Lemma lookup_setArg key values args k :
  setArg key values args !! k =
  if decide (k = key) then if some_value values then Some (join "," values) else args !! k
  else args !! k.
Proof.
  unfold setArg, some_value. destruct (existsb _ values); [|by case_decide].
  case_decide; [subst; apply lookup_insert_eq|by apply lookup_insert_ne].
Qed.

Lemma lookup_deletes (keys : list string) (m : gmap string string) k :
  foldl (λ a k, delete k a) m keys !! k = if decide (k ∈ keys) then None else m !! k.
Proof.
  revert m. induction keys as [|x keys IH]; intros m; simpl; [done|]. rewrite IH.
  destruct (decide (k ∈ keys)).
  - rewrite decide_True by by right. done.
  - destruct (decide (k = x)) as [->|].
    + rewrite decide_True by by left. apply lookup_delete_eq.
    + rewrite decide_False by by rewrite elem_of_cons; naive_solver. by apply lookup_delete_ne.
Qed.

(** The owned arguments are made from the live connections alone, the others
    are kept. *)
Lemma node_config_args existing items k :
  (node_config existing items).1 !! k =
  if decide (k ∈ storageNodeOwnedArgs) then
    if some_value (owned_value k <$> live items)
    then Some (join "," (owned_value k <$> live items)) else None
  else default ∅ existing !! k.
Proof.
  unfold node_config. simpl. fold (live items). rewrite !lookup_setArg.
  change (delete _ (delete _ _)) with
    (foldl (λ a k, delete k a) (default ∅ existing) storageNodeOwnedArgs).
  rewrite lookup_deletes.
  unfold storageNodeOwnedArgs in *. destruct (decide (k ∈ _)) as [Hk|Hk].
  - rewrite !elem_of_cons, elem_of_nil in Hk.
    destruct Hk as [->|[->|[->|[->|[->|[]]]]]]; reflexivity.
  - rewrite !not_elem_of_cons in Hk. destruct Hk as (?&?&?&?&?&_). by rewrite !decide_False.
Qed.

Lemma add_secrets_spec conns acc :
  NoDup acc →
  NoDup (foldl add_secret acc conns) ∧
  ∀ x, x ∈ foldl add_secret acc conns ↔
    x ∈ acc ∨ x ≠ "" ∧ ∃ c, c ∈ conns ∧ sr_Name (tn_Secret (sc_TargetStorageNode c)) = x.
Proof.
  revert acc. induction conns as [|c conns IH]; intros acc Hn; simpl.
  { split; [done|]. intros x. set_solver. }
  set (name := sr_Name (tn_Secret (sc_TargetStorageNode c))).
  assert (Hs : NoDup (add_secret acc c) ∧ ∀ x, x ∈ add_secret acc c ↔ x ∈ acc ∨ x ≠ "" ∧ x = name).
  { unfold add_secret. fold name. destruct (bool_decide (name = "")) eqn:E1; simpl.
    { apply bool_decide_eq_true in E1. split; [done|]. naive_solver congruence. }
    apply bool_decide_eq_false in E1. case_bool_decide as E2; [split; [done|naive_solver]|].
    split; [|intros x; rewrite elem_of_app, list_elem_of_singleton; naive_solver].
    apply NoDup_app. split; [done|]. split; [|apply NoDup_singleton].
    intros x Hx ->%list_elem_of_singleton. done. }
  destruct Hs as [Hn' Hs]. destruct (IH _ Hn') as [Hn2 IH2]. split; [done|].
  intros x. rewrite IH2, Hs. setoid_rewrite elem_of_cons. unfold name. naive_solver.
Qed.

(** Joining values without a comma loses nothing. *)
Lemma split_join_commas (l : list string) :
  l ≠ [] → Forall (λ v, char_free "," v = true) l → split_char "," (join "," l) = l.
Proof.
  intros Hl Hf. assert (Hone : ∀ v r, char_free "," v = true →
    split_char "," (v +:+ r) = match split_char "," r with
                               | x :: t => (v +:+ x) :: t | [] => [v] end).
  { induction v as [|a v IH]; intros r Hv; simpl.
    - destruct (split_char "," r) eqn:E; [by destruct (split_char_nonempty "," r)|done].
    - simpl in Hv. apply andb_true_iff in Hv as [->%negb_true_iff Hv]. rewrite IH by done.
      by destruct (split_char "," r). }
  induction Hf as [|v l Hv Hf IH]; [done|]. destruct l as [|u l].
  - unfold join. simpl. rewrite <-(string_app_nil_r v) at 1. rewrite Hone by done. simpl.
    by rewrite string_app_nil_r.
  - change (join "," (v :: u :: l)) with (v +:+ String "," (join "," (u :: l))).
    rewrite Hone by done.
    change (split_char "," (String "," (join "," (u :: l)))) with
      ("" :: split_char "," (join "," (u :: l))).
    rewrite IH by done. by rewrite string_app_nil_r.
Qed.

(** The configuration of a cluster is a function of its live connections:
    an owned argument has the values of the connections, in their order, when
    one of them is not empty, and is removed otherwise, so that the n-th values
    of the arguments are those of one connection; the other arguments are kept;
    the secrets are those the connections name, each once and in order. *)
Theorem storage_node_config existing items :
  let '(args, secrets) := node_config existing items in
  (∀ k, k ∈ storageNodeOwnedArgs →
     (some_value (owned_value k <$> live items) = false → args !! k = None) ∧
     (some_value (owned_value k <$> live items) = true →
      args !! k = Some (join "," (owned_value k <$> live items)) ∧
      (Forall (λ c, char_free "," (owned_value k c) = true) (live items) →
       split_char "," (at_key args k) = owned_value k <$> live items))) ∧
  (∀ k, k ∉ storageNodeOwnedArgs → args !! k = default ∅ existing !! k) ∧
  StronglySorted String.le secrets ∧ NoDup secrets ∧
  (∀ x, x ∈ secrets ↔ x ≠ "" ∧
     ∃ c, c ∈ live items ∧ sr_Name (tn_Secret (sc_TargetStorageNode c)) = x).
Proof.
  pose proof (node_config_args existing items) as Ha.
  destruct (node_config existing items) as [args secrets] eqn:E. simpl in Ha.
  assert (Hs : secrets = sort_strings (foldl add_secret [] (live items))).
  { unfold node_config in E. by injection E. }
  destruct (add_secrets_spec (live items) [] (NoDup_nil_2)) as [Hn Hin].
  split_and!.
  - intros k Hk. specialize (Ha k). rewrite decide_True in Ha by done.
    split; intros Hv; rewrite Hv in Ha; [done|]. split; [done|]. intros Hf.
    unfold at_key. rewrite Ha. simpl. apply split_join_commas.
    + by destruct (live items).
    + by apply Forall_fmap.
  - intros k Hk. specialize (Ha k). by rewrite decide_False in Ha.
  - subst secrets. apply sort_strings_sorted.
  - subst secrets. by rewrite sort_strings_perm.
  - intros x. subst secrets. rewrite elem_of_sort_strings, Hin. set_solver.
Qed.

(** * What the configuration is to be

    Written without the definitions of the controller: the names of the
    arguments, and what a connection contributes to each of them. *)
Definition secret_file (secret key : string) : string :=
  if String.eqb key "" then "" else "/etc/vm/secrets/" +:+ secret +:+ "/" +:+ key.
Definition flag_text (b : bool) : string := if b then "true" else "false".

Definition node_args : list (string * (TargetStorageNode → string)) :=
  [("storageNode", tn_Address);
   ("storageNode.usernameFile", λ n, secret_file (sr_Name (tn_Secret n)) (sr_UsernameKey (tn_Secret n)));
   ("storageNode.passwordFile", λ n, secret_file (sr_Name (tn_Secret n)) (sr_PasswordKey (tn_Secret n)));
   ("storageNode.tls", λ n, flag_text (tls_Enabled (tn_TLSConfig n)));
   ("storageNode.tlsInsecureSkipVerify", λ n, flag_text (tls_InsecureSkipVerify (tn_TLSConfig n)))].

(** The nodes of the connections that are not being deleted. *)
Definition active_nodes (items : list VMStorageConnection) : list TargetStorageNode :=
  sc_TargetStorageNode <$> filter (λ c, om_deleted (sc_meta c) = false) items.

(** Each argument of the nodes has their values in one order, joined by
    commas, and is absent when none has one; the other arguments stay; the
    secrets are those the nodes name, sorted and once each. *)
Record wanted (nodes : list TargetStorageNode) (before : option (gmap string string))
    (args : gmap string string) (secrets : list string) : Prop := {
  wanted_args k f : (k, f) ∈ node_args →
    args !! k = if decide (Forall (λ n, f n = "") nodes) then None else Some (join "," (f <$> nodes));
  wanted_others k : k ∉ node_args.*1 → args !! k = default ∅ before !! k;
  wanted_sorted : StronglySorted String.le secrets;
  wanted_once : NoDup secrets;
  wanted_secrets x : x ∈ secrets ↔ x ≠ "" ∧ ∃ n, n ∈ nodes ∧ sr_Name (tn_Secret n) = x }.

(** The specification leaves no choice. *)
Lemma wanted_unique nodes before a1 s1 a2 s2 :
  wanted nodes before a1 s1 → wanted nodes before a2 s2 → a1 = a2 ∧ s1 = s2.
Proof.
  intros [A1 O1 S1 N1 M1] [A2 O2 S2 N2 M2]. split.
  - apply map_eq. intros k. destruct (decide (k ∈ node_args.*1)) as [Hk|Hk].
    + apply list_elem_of_fmap in Hk as ([k' f] & -> & Hf). simpl. by rewrite (A1 _ f), (A2 _ f).
    + by rewrite O1, O2.
  - apply (StronglySorted_unique String.le); [done..|].
    apply NoDup_Permutation; [done..|]. intros x. by rewrite M1, M2.
Qed.

Lemma some_value_none {A} (f : A → string) l : some_value (f <$> l) = false ↔ Forall (λ x, f x = "") l.
Proof.
  unfold some_value. induction l as [|x l IH]; simpl; [by split|].
  rewrite orb_false_iff, negb_false_iff, bool_decide_eq_true, Forall_cons, IH. done.
Qed.

Lemma secretKeyPath_file secret key : secretKeyPath secret key = secret_file secret key.
Proof.
  unfold secretKeyPath, secret_file. by destruct (String.eqb_spec key ""); case_bool_decide.
Qed.

Lemma owned_values k f c : (k, f) ∈ node_args → owned_value k c = f (sc_TargetStorageNode c).
Proof.
  unfold node_args. rewrite !elem_of_cons, elem_of_nil.
  intros [[= -> ->]|[[= -> ->]|[[= -> ->]|[[= -> ->]|[[= -> ->]|[]]]]]];
    try reflexivity; apply secretKeyPath_file.
Qed.

Lemma live_active items : active_nodes items = sc_TargetStorageNode <$> live items.
Proof.
  unfold active_nodes, live. f_equal. apply list_filter_iff. intros c.
  unfold is_live. by rewrite negb_true_iff.
Qed.

(** The configuration the controller makes is the wanted one. *)
Lemma node_config_wanted existing items :
  wanted (active_nodes items) existing
    (node_config existing items).1 (node_config existing items).2.
Proof.
  pose proof (storage_node_config existing items) as Hn.
  destruct (node_config existing items) as [args secrets]. destruct Hn as (Ho & Hk & Hs & Hd & Hm).
  rewrite live_active. split; simpl; [| |done|done|].
  - intros k f Hin. destruct (Ho k) as [H0 H1].
    { apply list_elem_of_fmap_2 with (f := fst) in Hin. exact Hin. }
    assert (Hv : owned_value k <$> live items = f <$> (sc_TargetStorageNode <$> live items)).
    { rewrite <-list_fmap_compose. apply list_fmap_ext. intros i c _. by apply owned_values. }
    rewrite Hv in H0, H1.
    destruct (some_value (f <$> (sc_TargetStorageNode <$> live items))) eqn:E.
    + rewrite decide_False; [by destruct (H1 eq_refl)|]. rewrite <-some_value_none. congruence.
    + rewrite decide_True by by apply some_value_none. by apply H0.
  - intros k Hin. by apply Hk.
  - intros x. rewrite Hm. setoid_rewrite list_elem_of_fmap. naive_solver.
Qed.

(** * The adapters *)

(** What is to stay of a cluster when its storage configuration is written. *)
Class StorageRest (O : Type) := storage_rest : O → string * string.
#[export] Instance vt_rest : StorageRest VTCluster := λ a,
  (from_option se_Others "{}" (vt_Select a), vt_Others a).
#[export] Instance vl_rest : StorageRest VLCluster := λ a,
  (from_option se_Others "{}" (vl_VLSelect a), vl_Others a).

Class StorageClusterLaws (O : Type) `{Object O, StorageCluster O, StorageRest O} := {
  apply_rest a s (c : O) : storage_rest (applyStorageConfig a s c) = storage_rest c;
  apply_om a s (c : O) : om (applyStorageConfig a s c) = om c;
  apply_args a s (c : O) : storageExtraArgs (applyStorageConfig a s c) = Some a;
  apply_secrets a s (c : O) : storageSecrets (applyStorageConfig a s c) = Some s }.

#[export] Instance vt_laws keep : @StorageClusterLaws VTCluster (vt_object keep) _ _.
Proof. split; [|done..]. by intros a s [m [x|] o]. Qed.
#[export] Instance vl_laws keep : @StorageClusterLaws VLCluster (vl_object keep) _ _.
Proof. split; [|done..]. by intros a s [m [x|] o]. Qed.

(** * Reconciling *)

Section reconcile.
Context {W : Type} `{HS : !Kube W VMStorageConnection, HSL : !KubeLaws W VMStorageConnection}.
Context {O : Type} `{HO : !Object O, HC : !StorageCluster O, HR : !StorageRest O, HCL : !StorageClusterLaws O}.
Context `{HK : !Kube W O, HKL : !KubeLaws W O}.
Context `{FS : !KubeFrame W HS HK, FC : !KubeFrame W HK HS}.

Notation conns := (stored (O := VMStorageConnection)).
Notation clusters := (stored (O := O)).

(** The connections that carry the labels of a cluster, in any order. *)
Definition listed (name kind : string) (m : objects_of VMStorageConnection)
    (items : list VMStorageConnection) : Prop :=
  items ≡ₚ filter (λ o, om_Labels (sc_meta o) !! "k0rdent.mirantis.com/cluster-name" = Some name ∧
                        om_Labels (sc_meta o) !! "k0rdent.mirantis.com/cluster-kind" = Some kind)
             (map_to_list m).*2.

Lemma matches_labels (ls : gmap string string) (o : VMStorageConnection) :
  matches [MatchingLabels ls] o = true ↔ map_Forall (λ k v, om_Labels (sc_meta o) !! k = Some v) ls.
Proof.
  unfold matches. simpl. rewrite andb_true_r, forallb_forall, map_Forall_to_list, Forall_forall.
  split; intros H [k v] Hin.
  - apply list_elem_of_In, H in Hin. by apply bool_decide_eq_true in Hin.
  - apply bool_decide_eq_true. by apply list_elem_of_In, H in Hin.
Qed.

Lemma matches_cluster name kind (o : VMStorageConnection) :
  matches [MatchingLabels {[ClusterNameLabelKey := name; ClusterKindLabelKey := kind]}] o = true ↔
  om_Labels (sc_meta o) !! "k0rdent.mirantis.com/cluster-name" = Some name ∧
  om_Labels (sc_meta o) !! "k0rdent.mirantis.com/cluster-kind" = Some kind.
Proof.
  rewrite matches_labels, map_Forall_insert by by apply lookup_singleton_ne.
  by rewrite map_Forall_singleton.
Qed.

Lemma listed_matches name kind m items :
  items ≡ₚ filter (λ o : VMStorageConnection, matches
    [MatchingLabels {[ClusterNameLabelKey := name; ClusterKindLabelKey := kind]}] o = true)
    (map_to_list m).*2 → listed name kind m items.
Proof.
  intros H. unfold listed. etrans; [exact H|]. apply reflexive_eq, list_filter_iff.
  intros o. apply matches_cluster.
Qed.

(** What a cluster is to become for the connections listed: one with the wanted
    arguments and secrets stays as it is; another is written with them, as the
    API server keeps it, and the rest of it unchanged. *)
Definition supplied (items : list VMStorageConnection) (c c' : O) : Prop :=
  ∃ args secrets, wanted (active_nodes items) (storageExtraArgs c) args secrets ∧
  if decide (storageExtraArgs c = Some args ∧ storageSecrets c = Some secrets) then c' = c
  else ∃ sent, c' = admitted sent ∧ om sent = om c ∧ storage_rest sent = storage_rest c ∧
         storageExtraArgs sent = Some args ∧ storageSecrets sent = Some secrets.

(** What the controller makes of it. *)
Definition configured (items : list VMStorageConnection) (c : O) : O :=
  let '(args, secrets) := node_config (storageExtraArgs c) items in
  if bool_decide (storageExtraArgs c = Some args) && bool_decide (storageSecrets c = Some secrets)
  then c else admitted (applyStorageConfig args secrets c).

Lemma configured_supplied items c : supplied items c (configured items c).
Proof.
  pose proof (node_config_wanted (storageExtraArgs c) items) as Hw. unfold supplied, configured.
  destruct (node_config _ items) as [args secrets]. exists args, secrets. split; [done|].
  rewrite <-bool_decide_and. case_decide as Hd; [by rewrite bool_decide_true|].
  rewrite bool_decide_false by done. exists (applyStorageConfig args secrets c).
  by rewrite apply_om, apply_rest, apply_args, apply_secrets.
Qed.

Definition one_change {A} (k : string * string) (x : A) (r : result unit) (m m' : objects_of A)
    : Prop := took r m (<[k := x]> m) m'.

Lemma object_key_apply a s (c : O) : object_key (applyStorageConfig a s c) = object_key c.
Proof. unfold object_key. by rewrite apply_om. Qed.

Lemma configured_om items (c : O) : om (configured items c) = om c.
Proof.
  unfold configured. destruct (node_config _ items) as [a s]. case_match; [done|].
  by rewrite admitted_om, apply_om.
Qed.

(** Rewriting a cluster: it becomes what its connections make of it, nothing
    else changes, and without an error it does. *)
Lemma syncCluster_spec (c : O) (w : W) r w' :
  clusters w !! object_key c = Some c → syncCluster c w = (r, w') →
  conns w' = conns w ∧
  (clusters w' = clusters w ∧ is_ok r = false ∨
   ∃ items, listed (om_Name (om c)) (clusterKind (O := O)) (conns w) items ∧
     clusters w' = <[object_key c := configured items c]> (clusters w)).
Proof.
  intros Hs. unfold syncCluster, buildStorageNodeConfig.
  set (opts := [MatchingLabels _]). intros E.
  pose proof (list_stored (O := VMStorageConnection) opts w) as Hls.
  pose proof (list_frame (K' := HK) opts w) as Hlf.
  apply ebind_inv in E as [(e & E & ->)|([args secrets] & w1 & E & E2)].
  - apply ebind_inv in E as [(e' & E & _)|(l & w1 & _ & [=])].
    unfold ewrap in E. destruct (kube_list opts w) as [[l|e''] w1] eqn:El; simplify_eq/=.
    rewrite Hls, Hlf. split; [done|by left].
  - apply ebind_inv in E as [(e' & _ & [=])|(l & w2 & E & [E3 ->]%eret_ok)].
    apply ewrap_ok in E. rewrite E in Hls, Hlf. simpl in Hls, Hlf.
    assert (Hl : listed (om_Name (om c)) (clusterKind (O := O)) (conns w) l)
      by exact (listed_matches _ _ _ _ (list_ok _ _ _ _ E)).
    destruct (bool_decide _ && bool_decide _) eqn:Heq.
    + injection E2 as <- <-. rewrite Hls, Hlf. split; [done|right]. exists l. split; [done|].
      unfold configured. rewrite E3, Heq. symmetry. by apply insert_id.
    + pose proof (update_frame (K' := HS) (applyStorageConfig args secrets c) w1) as Huf.
      rewrite E2 in Huf. simpl in Huf. split; [by rewrite Huf, Hls|].
      assert (Hs2 : clusters w1 !! object_key (applyStorageConfig args secrets c) = Some c).
      { by rewrite Hlf, object_key_apply. }
      apply update_took in E2. rewrite (settle_live _ _ c Hs2) in E2 by by rewrite apply_om.
      rewrite object_key_apply, Hlf in E2.
      assert (Hc : configured l c = admitted (applyStorageConfig args secrets c)).
      { unfold configured. by rewrite E3, Heq. }
      rewrite <-Hc in E2. destruct r as [[]|e]; simpl in E2; [right; by exists l|].
      destruct E2 as [E2|E2]; [by left|right; by exists l].
Qed.

Lemma fetchCluster_spec name ns (w : W) r w' :
  fetchCluster name ns w = (r, w') →
  conns w' = conns w ∧ clusters w' = clusters w ∧
  ∀ o, r = Ok o → clusters w !! (ns, name) = o.
Proof.
  unfold fetchCluster, ecase, eret.
  pose proof (get_stored (O := O) (ns, name) w) as Hg.
  pose proof (read_frame (K' := HS) (ns, name) w) as Hf.
  destruct (kube_get (ns, name) w) as [[c|e] w1] eqn:E; simpl in Hg, Hf; intros [= <- <-];
    (split; [done|split; [done|]]); intros o.
  - intros [= <-]. by eapply get_ok.
  - destruct (errors_as is_not_found e) eqn:Hn; [|done]. intros [= <-]. by eapply get_not_found.
Qed.

Lemma adopted_key conn : object_key (adopted conn) = object_key conn.
Proof. unfold object_key, adopted, AddFinalizer. simpl. by case_match. Qed.

Lemma adopted_deleted conn : om_deleted (sc_meta (adopted conn)) = om_deleted (sc_meta conn).
Proof. unfold adopted, AddFinalizer. simpl. by destruct (ContainsFinalizer _ _). Qed.

Lemma released_key conn : object_key (released conn) = object_key conn.
Proof. done. Qed.

Lemma adopted_matches conn kind :
  cr_Kind (sc_ClusterRef conn) = kind →
  matches [MatchingLabels {[ClusterNameLabelKey := cr_Name (sc_ClusterRef conn);
                            ClusterKindLabelKey := kind]}] (adopted conn) = true.
Proof.
  intros <-. apply matches_cluster. unfold adopted. simpl. split; [|apply lookup_insert_eq].
  rewrite lookup_insert_ne by done. apply lookup_insert_eq.
Qed.

(** A connection with the finalizer and the labels of its cluster, spelled
    out. *)
Definition claimed (conn : VMStorageConnection) : VMStorageConnection :=
  {| sc_meta :=
       {| om_Name := om_Name (sc_meta conn); om_Namespace := om_Namespace (sc_meta conn);
          om_UID := om_UID (sc_meta conn);
          om_Labels :=
            <["k0rdent.mirantis.com/cluster-kind" := cr_Kind (sc_ClusterRef conn)]>
              (<["k0rdent.mirantis.com/cluster-name" := cr_Name (sc_ClusterRef conn)]>
                 (om_Labels (sc_meta conn)));
          om_Annotations := om_Annotations (sc_meta conn);
          om_Finalizers :=
            (om_Finalizers (sc_meta conn) ++ ["k0rdent.mirantis.com/vmstorageconnection"])%list;
          om_Owners := om_Owners (sc_meta conn); om_deleted := om_deleted (sc_meta conn) |};
     sc_ClusterRef := sc_ClusterRef conn; sc_TargetStorageNode := sc_TargetStorageNode conn |}.

Lemma adopted_claimed conn :
  "k0rdent.mirantis.com/vmstorageconnection" ∉ om_Finalizers (sc_meta conn) →
  adopted conn = claimed conn.
Proof.
  intros H. unfold adopted, claimed, AddFinalizer, ContainsFinalizer, set_sc_meta. simpl.
  by rewrite bool_decide_false.
Qed.

(** C15: Reconciling a connection that is not being deleted, without an error,
    leaves its cluster with the storage nodes of the connections, of all
    namespaces, that carry the labels of the cluster and are not being
    deleted: their addresses, files and flags in the five arguments, each in
    the same order, and the secrets they name; the other arguments and the
    rest of the cluster stay.  A connection without the finalizer gets it and
    the labels of its cluster, and is among them; one that has the finalizer
    is not changed, so it counts for the cluster of its labels, which need
    not be the one it refers to.  Nothing else changes. *)
Theorem connection_reconciled conn ns (w : W) w' :
  conns w !! object_key conn = Some conn → om_deleted (sc_meta conn) = false →
  reconcileCluster (O := O) conn ns w = (Ok tt, w') →
  let known := "k0rdent.mirantis.com/vmstorageconnection" ∈ om_Finalizers (sc_meta conn) in
  let name := cr_Name (sc_ClusterRef conn) in
  ∃ c c' items, clusters w !! (ns, name) = Some c ∧
    listed name (clusterKind (O := O)) (conns w') items ∧ supplied items c c' ∧
    clusters w' = <[(ns, name) := c']> (clusters w) ∧
    conns w' = (if decide known then conns w else <[object_key conn := claimed conn]> (conns w)) ∧
    (¬ known → cr_Kind (sc_ClusterRef conn) = clusterKind (O := O) →
     sc_TargetStorageNode conn ∈ active_nodes items).
Proof.
  intros Hs Hd. unfold reconcileCluster. rewrite Hd.
  intros (cl & w1 & Hf & E)%ebind_ok. apply ewrap_ok in Hf.
  apply fetchCluster_spec in Hf as (Hc1 & Hk1 & Hf). specialize (Hf cl eq_refl).
  destruct cl as [c|]; [|by apply (f_equal fst) in E].
  apply ebind_ok in E as ([] & w2 & E1 & E2).
  set (known := _ ∈ om_Finalizers _). set (name := cr_Name (sc_ClusterRef conn)) in *.
  assert (Hw2 : clusters w2 = clusters w ∧
    conns w2 = if decide known then conns w else <[object_key conn := claimed conn]> (conns w)).
  { unfold ContainsFinalizer in E1. destruct (decide known) as [Hkn|Hkn].
    - rewrite bool_decide_true in E1 by exact Hkn. apply eret_ok in E1 as [_ <-]. done.
    - rewrite bool_decide_false in E1 by exact Hkn. rewrite <-adopted_claimed by done.
      apply ewrap_ok in E1. pose proof (update_frame (K' := HK) (adopted conn) w1) as Huf.
      rewrite E1 in Huf. simpl in Huf. split; [by rewrite Huf|].
      pose proof (update_stored (adopted conn) w1) as Hu. rewrite E1 in Hu. simpl in Hu.
      destruct Hu as [[_ ?]|[_ Hu]]; [done|]. rewrite Hu, Hc1. unfold settle.
      change (om (adopted conn)) with (sc_meta (adopted conn)).
      by rewrite adopted_key, adopted_deleted, Hd. }
  destruct Hw2 as [Hk2 Hc2]. pose proof (stored_key _ _ _ Hf) as Hkey.
  apply syncCluster_spec in E2 as (Hc3 & [[_ ?]|(items & Hl & Hk3)]); [done| |by rewrite Hk2, Hkey].
  exists c, (configured items c), items. rewrite Hc3, <-Hkey, <-Hk2.
  assert (Hname : om_Name (om c) = name) by by injection Hkey.
  rewrite Hname in Hl.
  split_and!; [by rewrite Hk2, Hkey|exact Hl|apply configured_supplied|exact Hk3|exact Hc2|].
  intros Hkn Hkind. rewrite decide_False in Hc2 by done.
  unfold active_nodes. apply list_elem_of_fmap. exists (claimed conn). split; [done|].
  apply list_elem_of_filter. split; [exact Hd|]. rewrite Hl.
  rewrite <-adopted_claimed by done. apply list_elem_of_filter.
  split; [by apply matches_cluster, adopted_matches|].
  apply list_elem_of_fmap. exists (object_key conn, adopted conn). split; [done|].
  apply elem_of_map_to_list. by rewrite Hc2, lookup_insert_eq, adopted_claimed.
Qed.

Lemma filter_twice {A} (P Q : A → Prop) (dP : ∀ x, Decision (P x)) (dQ : ∀ x, Decision (Q x))
    (l : list A) :
  (∀ x, x ∈ l → P x → Q x) → filter P (filter Q l) = filter P l.
Proof.
  induction l as [|x l IH]; intros H; [done|]. setoid_rewrite elem_of_cons in H.
  rewrite (filter_cons Q). case_decide as HQ; rewrite (filter_cons P x l), <-IH by naive_solver.
  - by rewrite filter_cons.
  - rewrite decide_False; [done|]. naive_solver.
Qed.

(** A connection that is being deleted adds no node. *)
Lemma active_without conn m name kind items :
  map_Forall (λ k o, object_key o = k) m → m !! object_key conn = Some conn →
  om_deleted (sc_meta conn) = true → listed name kind m items →
  active_nodes (filter (λ o, object_key o ≠ object_key conn) items) = active_nodes items.
Proof.
  intros Hkey Hs Hd Hl. unfold active_nodes. f_equal. apply filter_twice.
  intros o Ho Hlive Heq. rewrite Hl in Ho. apply list_elem_of_filter in Ho as [_ Ho].
  apply list_elem_of_fmap in Ho as ([k o'] & -> & Ho%elem_of_map_to_list). simpl in *.
  rewrite <-(Hkey _ _ Ho), Heq, Hs in Ho. simplify_eq. congruence.
Qed.

(** C20: A connection that is being deleted loses its finalizer only when its
    cluster is gone or has been supplied with the nodes of the connections
    with its labels that are not being deleted, this one not among them;
    whatever fails, until then the connection stays as it is. *)
Theorem connection_deleted conn ns (w : W) r w' :
  conns w !! object_key conn = Some conn → om_deleted (sc_meta conn) = true →
  "k0rdent.mirantis.com/vmstorageconnection" ∈ om_Finalizers (sc_meta conn) →
  reconcileCluster (O := O) conn ns w = (r, w') →
  let name := cr_Name (sc_ClusterRef conn) in
  (conns w' = conns w ∧ is_ok r = false) ∨
  (conns w' = settle (released conn) (conns w) ∧
   (clusters w !! (ns, name) = None ∧ clusters w' = clusters w ∨
    ∃ c c' items, clusters w !! (ns, name) = Some c ∧
      listed name (clusterKind (O := O)) (conns w) items ∧
      supplied (filter (λ o, object_key o ≠ object_key conn) items) c c' ∧
      clusters w' = <[(ns, name) := c']> (clusters w))).
Proof.
  intros Hs Hd Hfin%(bool_decide_eq_true_2 (_ ∈ _)).
  change (ContainsFinalizer (sc_meta conn) vmStorageConnectionFinalizer = true) in Hfin.
  unfold reconcileCluster. rewrite Hd. intros E.
  set (name := cr_Name (sc_ClusterRef conn)) in *.
  apply ebind_inv in E as [(e & E & ->)|(cl & w1 & E & E2)]; unfold ewrap in E;
    destruct (fetchCluster _ ns w) as [rf w0] eqn:Hf; injection E as E <-;
    apply fetchCluster_spec in Hf as (Hc1 & Hk1 & Hf); [by left|].
  destruct rf as [cl'|]; [|done]. injection E as <-. specialize (Hf cl' eq_refl). fold name in Hf.
  unfold handleClusterDeletion in E2. rewrite Hfin in E2. simpl in E2.
  assert (Hrel : ∀ w2, conns w2 = conns w → kube_update (released conn) w2 = (r, w') →
    clusters w' = clusters w2 ∧
    (conns w' = conns w ∧ is_ok r = false ∨ conns w' = settle (released conn) (conns w))).
  { intros w2 Hw2 Hu. pose proof (update_frame (K' := HK) (released conn) w2) as Huf.
    pose proof (update_stored (released conn) w2) as Hus. rewrite Hu in Huf, Hus. simpl in Huf, Hus.
    split; [done|]. rewrite <-Hw2. destruct Hus as [?|[_ ?]]; auto. }
  destruct cl' as [c|].
  - pose proof (stored_key _ _ _ Hf) as Hkey.
    assert (Hname : om_Name (om c) = name) by by injection Hkey.
    apply ebind_inv in E2 as [(e & E2 & ->)|([] & w2 & E1 & E2)].
    + unfold ewrap in E2. destruct (syncCluster c w0) as [rs w3] eqn:Hsync. injection E2 as E2 <-.
      apply syncCluster_spec in Hsync as [Hc3 _]; [|by rewrite Hk1, Hkey].
      left. by rewrite Hc3.
    + apply ewrap_ok in E1. apply syncCluster_spec in E1 as (Hc3 & Hk3); [|by rewrite Hk1, Hkey].
      destruct Hk3 as [[_ ?]|(items & Hl & Hk3)]; [done|]. rewrite Hname, Hc1 in Hl.
      destruct (Hrel w2) as [Hk' Hc']; [by rewrite Hc3|done|].
      destruct Hc' as [Hc'|Hc']; [by left|right]. split; [done|right].
      exists c, (configured items c), items.
      split_and!; [done|done| |by rewrite Hk', Hk3, Hk1, Hkey].
      destruct (configured_supplied items c) as (args & secrets & Hw & Hc2).
      exists args, secrets. split; [|done].
      rewrite (active_without conn (conns w) name (clusterKind (O := O)) items); try done.
      intros k o. apply stored_key.
  - apply ebind_inv in E2 as [(e & [= ] & _)|([] & w2 & [_ <-]%eret_ok & E2)].
    destruct (Hrel w0) as [Hk' Hc']; [done..|].
    destruct Hc' as [Hc'|Hc']; [by left|right]. split; [done|left]. by rewrite Hk'.
Qed.
End reconcile.

(** * Witnesses *)

Definition demo_conn (name : string) (finalizers : list string) (labels : gmap string string)
    (deleted : bool) : VMStorageConnection :=
  {| sc_meta := {| om_Name := name; om_Namespace := "kof"; om_UID := name; om_Labels := labels;
                   om_Annotations := ∅; om_Finalizers := finalizers; om_Owners := [];
                   om_deleted := deleted |};
     sc_ClusterRef := {| cr_Name := "traces"; cr_Namespace := ""; cr_Kind := "VTCluster" |};
     sc_TargetStorageNode :=
       {| tn_Address := name +:+ ":8482";
          tn_Secret := {| sr_Name := "creds-" +:+ name; sr_PasswordKey := "password";
                          sr_UsernameKey := "" |};
          tn_TLSConfig := {| tls_Enabled := true; tls_InsecureSkipVerify := false |} |} |}.
Definition demo_cluster : VTCluster :=
  {| vt_meta := new_meta "kof" "traces" ∅;
     vt_Select := Some {| se_ExtraArgs := Some {["storageNode" := "old"; "search.maxDuration" := "1m"]};
                          se_Secrets := None; se_Others := "{replicaCount: 2}" |};
     vt_Others := "{retentionPeriod: 1}" |}.
Notation demo_finalizers := [vmStorageConnectionFinalizer].
Notation demo_labels name := {[ClusterNameLabelKey := name; ClusterKindLabelKey := "VTCluster"]}.

(** Beside the connection: one that is being deleted, one of another cluster
    and one of the cluster. *)
Definition demo_world (c : VMStorageConnection)
    : kworld (objects_of VMStorageConnection * objects_of VTCluster) :=
  {| kw_data :=
       ({[("kof", "c1") := c;
          ("kof", "c2") := demo_conn "c2" demo_finalizers (demo_labels "traces") true;
          ("kof", "c3") := demo_conn "c3" demo_finalizers (demo_labels "logs") false;
          ("kof", "c4") := demo_conn "c4" demo_finalizers (demo_labels "traces") false]},
        {[("kof", "traces") := demo_cluster]}); kw_faults := [] |}.

#[local] Instance demo_vt : Object VTCluster := vt_object id.
#[local] Existing Instance sim_kube.
Notation demo_run c := (reconcileCluster (O := VTCluster) c "kof" (demo_world c)).
Notation demo_new := (demo_conn "c1" [] ∅ false).
Notation demo_deleted := (demo_conn "c1" demo_finalizers (demo_labels "traces") true).

(** A new connection: its cluster gets its node and that of the other
    connection, in some order. *)
Lemma connection_reconciled_witness :
  ∃ c' items,
    stored (O := VTCluster) (demo_run demo_new).2 = {[("kof", "traces") := c']} ∧
    supplied items demo_cluster c' ∧
    tn_Address <$> active_nodes items ≡ₚ ["c1:8482"; "c4:8482"] ∧
    storageSecrets c' = Some ["creds-c1"; "creds-c4"] ∧
    (storageExtraArgs c' ≫= (.!! "storageNode.tls")) = Some "true,true" ∧
    (storageExtraArgs c' ≫= (.!! "search.maxDuration")) = Some "1m" ∧
    storage_rest c' = ("{replicaCount: 2}", "{retentionPeriod: 1}") ∧
    stored (O := VMStorageConnection) (demo_run demo_new).2 !! ("kof", "c1") = Some (claimed demo_new).
Proof.
  destruct (connection_reconciled (O := VTCluster) demo_new "kof" (demo_world demo_new)
    (demo_run demo_new).2) as (c & c' & items & Hc & Hl & Hs & Hk & Hn & Hin).
  - vm_compute. reflexivity.
  - reflexivity.
  - vm_compute. reflexivity.
  - assert (Hc' : stored (O := VTCluster) (demo_run demo_new).2 !! ("kof", "traces") = Some c').
    { rewrite Hk. apply lookup_insert_eq. }
    assert (E : Some c = Some demo_cluster) by (rewrite <-Hc; vm_compute; reflexivity).
    apply (inj Some) in E. subst c.
    exists c', items. split_and!; [|exact Hs| |(vm_compute in Hc'; injection Hc' as <-; reflexivity)..|].
    + assert (Hw : stored (demo_world demo_new) = {[("kof", "traces") := demo_cluster]})
        by (vm_compute; reflexivity).
      rewrite Hw in Hk. rewrite Hk. apply insert_singleton_eq.
    + unfold listed, active_nodes in *. rewrite Hl. vm_compute. reflexivity.
    + rewrite Hn. vm_compute. reflexivity.
Defined.

(** A connection that is being deleted: it goes, with its node. *)
Lemma connection_deleted_witness :
  stored (O := VMStorageConnection) (demo_run demo_deleted).2 =
    settle (released demo_deleted) (stored (demo_world demo_deleted)) ∧
  ∃ c' items,
    stored (O := VTCluster) (demo_run demo_deleted).2 !! ("kof", "traces") = Some c' ∧
    supplied items demo_cluster c' ∧
    tn_Address <$> active_nodes items = ["c4:8482"] ∧
    (storageExtraArgs c' ≫= (.!! "storageNode")) = Some "c4:8482" ∧
    storageSecrets c' = Some ["creds-c4"].
Proof.
  destruct (connection_deleted (O := VTCluster) demo_deleted "kof" (demo_world demo_deleted)
    (demo_run demo_deleted).1 (demo_run demo_deleted).2) as [H|[H Hcl]].
  - vm_compute. reflexivity.
  - reflexivity.
  - vm_compute. left.
  - vm_compute. reflexivity.
  - destruct H as [_ H]. vm_compute in H. discriminate H.
  - split; [exact H|]. destruct Hcl as [[Hcl _]|(c & c' & items & Hc & Hl & Hs & Hk)].
    { vm_compute in Hcl. discriminate Hcl. }
    assert (E : Some c = Some demo_cluster) by (rewrite <-Hc; vm_compute; reflexivity).
    apply (inj Some) in E. subst c.
    assert (Hc' : stored (O := VTCluster) (demo_run demo_deleted).2 !! ("kof", "traces") = Some c').
    { rewrite Hk. apply lookup_insert_eq. }
    exists c', (filter (λ o, object_key o ≠ object_key demo_deleted) items).
    split_and!; [exact Hc'|exact Hs| |(vm_compute in Hc'; injection Hc' as <-; reflexivity)..].
    assert (Hp : tn_Address <$> active_nodes (filter (λ o, object_key o ≠ object_key demo_deleted) items)
                 ≡ₚ ["c4:8482"]).
    { unfold listed, active_nodes in *. rewrite Hl. vm_compute. reflexivity. }
    by apply Permutation_singleton_r in Hp.
Defined.

(** The labels are written with the finalizer only: a connection that is
    pointed at another cluster later is not among those of its new cluster. *)
Lemma retargeted_connection_ignored :
  let c := demo_conn "c1" demo_finalizers (demo_labels "logs") false in
  (demo_run c).1 = Ok tt ∧
  (stored (O := VTCluster) (demo_run c).2 !! ("kof", "traces") ≫= storageExtraArgs) =
    Some {["storageNode" := "c4:8482"; "storageNode.tls" := "true";
           "storageNode.tlsInsecureSkipVerify" := "false";
           "storageNode.passwordFile" := "/etc/vm/secrets/creds-c4/password";
           "search.maxDuration" := "1m"]}.
Proof. vm_compute. split; reflexivity. Qed.

(** Connections of every namespace count, also those that refer to a cluster of
    the same name in a namespace of their own. *)
Lemma connections_of_other_namespaces (c : VMStorageConnection) opts ns :
  opts = [MatchingLabels {[ClusterNameLabelKey := "traces"; ClusterKindLabelKey := "VTCluster"]}] →
  matches opts c = matches opts (set_sc_meta (λ m,
    {| om_Name := om_Name m; om_Namespace := ns; om_UID := om_UID m; om_Labels := om_Labels m;
       om_Annotations := om_Annotations m; om_Finalizers := om_Finalizers m;
       om_Owners := om_Owners m; om_deleted := om_deleted m |}) c).
Proof. by intros ->. Qed.
