(* ===== verification/Promxy.v ===== *)
(** The controller of PromxyServerGroups: internal/controller/
    promxyservergroup_controller.go, secret.go with its template,
    promxy_reload.go, internal/k8s/post_pod_http.go, container.go and pods.go,
    api/v1beta1/promxyservergroup_types.go, and the reload function of
    cmd/main.go. *)
From S2P Require Import Prelude Strings GoTime Json World Env Kube Server.
From Stdlib Require Import Ascii.

Open Scope string_scope.
Open Scope Z_scope.

(** * time.Duration.String *)

(** [fmtFrac]: the last [prec] digits of [v] as a fraction without trailing
    zeros, nothing when they are zero. *)
Definition frac_text (v : Z) (prec : nat) : string :=
  let f := v mod 10 ^ Z.of_nat prec in
  if f =? 0 then "" else "." +:+ trim_right_char "0" (pad_int prec f).

Definition abs_duration_text (u : Z) : string :=
  if u <? second then
    if u =? 0 then "0s"
    else if u <? 1000 then itoa u +:+ "ns"
    else if u <? 1000000 then itoa (u / 1000) +:+ frac_text u 3 +:+ of_bytes [194; 181]%nat +:+ "s"
    else itoa (u / 1000000) +:+ frac_text u 6 +:+ "ms"
  else
    let secs := u / second in
    let s := itoa (secs mod 60) +:+ frac_text u 9 +:+ "s" in
    if secs <? 60 then s
    else let m := itoa (secs / 60 mod 60) +:+ "m" +:+ s in
         if secs <? 3600 then m else itoa (secs / 3600) +:+ "h" +:+ m.
Definition duration_String (d : Z) : string :=
  if d <? 0 then "-" +:+ abs_duration_text (- d) else abs_duration_text d.

Example duration_String_examples :
  duration_String <$> [0; 5 * second; 90 * second; 3600 * second; 1500000; -1500; 2 ^ 63 - 1] =
  ["0s"; "5s"; "1m30s"; "1h0m0s"; "1.5ms"; "-1.5" +:+ of_bytes [194; 181]%nat +:+ "s";
   "2562047h47m16.854775807s"].
Proof. vm_compute. reflexivity. Qed.

(** * Data *)

Record BasicAuth := { ba_CredentialsSecretName : string; ba_UsernameKey : string; ba_PasswordKey : string }.
Record HTTPClientConfig := {
  hc_DialTimeout : Z; hc_InsecureSkipVerify : bool; hc_BasicAuth : BasicAuth }.
Record PromxyServerGroup := {
  pg_meta : ObjectMeta;
  pg_ClusterName : string;
  pg_Targets : list string;
  pg_PathPrefix : string;
  pg_Scheme : string;
  pg_HttpClient : HTTPClientConfig }.
#[export] Instance PromxyServerGroup_object : Object PromxyServerGroup :=
  {| om := pg_meta; admitted := id; admitted_om _ := eq_refl |}.

(** The API server moves StringData into Data. *)
Record Secret := {
  se_meta : ObjectMeta; se_Data : gmap string string; se_StringData : gmap string string }.
Definition admitted_secret (s : Secret) : Secret :=
  {| se_meta := se_meta s; se_Data := se_StringData s ∪ se_Data s; se_StringData := ∅ |}.
#[export] Instance Secret_object : Object Secret :=
  {| om := se_meta; admitted := admitted_secret; admitted_om _ := eq_refl |}.
#[export] Instance Secret_eq_dec : EqDecision Secret.
Proof. solve_decision. Defined.

Record PromxyConfigServerGroup := {
  cg_Targets : list string;
  cg_PathPrefix : string;
  cg_Scheme : string;
  cg_DialTimeout : string;
  cg_TlsInsecureSkipVerify : bool;
  cg_Username : string;
  cg_Password : string;
  cg_ClusterName : string;
  cg_ClusterNamespace : string;
  cg_BasicAuthEnabled : bool }.
Record PromxyConfig := {
  pc_RemoteWriteUrl : string; pc_ServerGroups : list PromxyConfigServerGroup }.

Definition SecretNameLabel := "k0rdent.mirantis.com/secret-name".
Definition ManagedByLabel := "app.kubernetes.io/managed-by".
Definition ManagedByValue := "kof-operator".

(** * The template *)

Definition nl : string := String (byte 10) "".
(** A line of text, and a line with a quoted value. *)
Definition line (text : string) : string := nl +:+ text.
Definition quoted_line (text value : string) : string := line (text +:+ dquote +:+ value +:+ dquote).

Definition group_text (g : PromxyConfigServerGroup) : string :=
  line "    - static_configs:" +:+
  line "        - targets:" +:+
  join "" (quoted_line "          - " <$> cg_Targets g) +:+
  quoted_line "      path_prefix: " (cg_PathPrefix g) +:+
  quoted_line "      scheme: " (cg_Scheme g) +:+
  line "      http_client:" +:+
  quoted_line "        dial_timeout: " (cg_DialTimeout g) +:+
  (if cg_BasicAuthEnabled g then
     line "        tls_config:" +:+
     line ("          insecure_skip_verify: " +:+ format_bool (cg_TlsInsecureSkipVerify g)) +:+
     line "        basic_auth:" +:+
     quoted_line "          username: " (cg_Username g) +:+
     quoted_line "          password: " (cg_Password g)
   else "") +:+
  line "      labels:" +:+
  quoted_line "        promxyCluster: " (cg_ClusterName g) +:+
  quoted_line "        promxyClusterNamespace: " (cg_ClusterNamespace g) +:+
  line "      ignore_error: true".

(** Executing the template on a configuration cannot fail. *)
Definition RenderMetricsSecretTemplate (config : PromxyConfig) : string :=
  "global:" +:+
  line "  evaluation_interval: 5s" +:+
  line "  external_labels:" +:+
  line "    source: promxy" +:+
  line "rule_files:" +:+
  line "  - /etc/promxy/rules/*.yaml" +:+
  line "alerting:" +:+
  line "  alertmanagers:" +:+
  line "    - scheme: http" +:+
  line "      static_configs:" +:+
  line "        - targets:" +:+
  line "          - vmalertmanager-cluster:9093" +:+
  line "remote_write:" +:+
  quoted_line "  - url: " (pc_RemoteWriteUrl config) +:+
  line "promxy:" +:+
  line "  server_groups:" +:+
  join "" (group_text <$> pc_ServerGroups config) +:+ nl.

(** * Reloading *)

Record ContainerPort := { cp_Name : string; cp_ContainerPort : Z }.
(** [resource.Quantity]: what its MilliValue and its Value are. *)
Record Quantity := { q_MilliValue : Z; q_Value : Z }.
Notation ResourceList := (gmap string Quantity).
Record Container := {
  co_Name : string;
  co_Ports : list ContainerPort;
  co_Env : list (string * string);
  co_Limits : ResourceList }.
Record PodCondition := {
  pd_Type : string; pd_Status : string; pd_Reason : string; pd_Message : string }.
Record Pod := {
  po_meta : ObjectMeta;
  po_Phase : string;
  po_PodIP : string;
  po_NodeName : string;
  po_Containers : list Container;
  po_Conditions : list PodCondition }.
#[export] Instance Pod_object : Object Pod :=
  {| om := po_meta; admitted := id; admitted_om _ := eq_refl |}.

Definition GetContainer (containers : list Container) (name : string) : option Container :=
  head (filter (λ c, co_Name c = name) containers).
Definition GetContainerPort (ports : list ContainerPort) (name : string) : option ContainerPort :=
  head (filter (λ p, cp_Name p = name) ports).
Definition ExtractContainerPort (pod : Pod) (containerName portName : string) : result string :=
  match GetContainer (po_Containers pod) containerName with
  | None => Err (EText ("failed to find container '" +:+ containerName +:+ "'"))
  | Some container =>
      match GetContainerPort (co_Ports container) portName with
      | None => Err (EText ("port " +:+ portName +:+ " not found in container ports"))
      | Some port => Ok (itoa (cp_ContainerPort port))
      end
  end.

(** net.JoinHostPort. *)
Definition JoinHostPort (host port : string) : string :=
  if contains ":" host then "[" +:+ host +:+ "]:" +:+ port else host +:+ ":" +:+ port.

Record post_reply := { pr_code : Z; pr_status : string; pr_body : string }.

Section reload.
Context {W : Type} (http_post : string → W → result post_reply * W).

(** [PostPodHTTP] with an empty body; the URL of a pod parses. *)
Definition PostPodHTTPEmpty (pod : Pod) (containerName portName path : string) : eff W unit :=
  let name := om_Name (po_meta pod) in
  if bool_decide (po_PodIP pod = "") then eret (Err (EText ("pod " +:+ name +:+ " has no IP assigned")))
  else
    do port := eret (wrap_err ("pod " +:+ name) (ExtractContainerPort pod containerName portName)) in
    do res := ewrap ("pod " +:+ name)
                (http_post ("http://" +:+ JoinHostPort (po_PodIP pod) port +:+ path)) in
    if (pr_code res <? 200) || (300 <=? pr_code res) then
      let msg := trim_space (String.substring 0 4096 (pr_body res)) in
      eret (Err (EText ("pod " +:+ name +:+ ": unexpected status " +:+ pr_status res +:+
                        (if bool_decide (msg = "") then "" else ": " +:+ msg))))
    else eret (Ok tt).

Definition promxyReloadPath := "/-/reload".
Definition promxyContainerName := "promxy".
Definition promxyContainerPortName := "http".
Definition PodRunning := "Running".

(** The loop over the pods: how many reloaded, and the errors. *)
Fixpoint reload_pods (pods : list Pod) (reloaded : nat) (errs : list gerror)
    : eff W (nat * list gerror) :=
  match pods with
  | [] => eret (Ok (reloaded, errs))
  | pod :: r =>
      if negb (String.eqb (po_Phase pod) PodRunning) then reload_pods r reloaded errs
      else ecase (PostPodHTTPEmpty pod promxyContainerName promxyContainerPortName promxyReloadPath)
             (λ res, match res with
                     | Ok _ => reload_pods r (S reloaded) errs
                     | Err e => reload_pods r reloaded
                                  (errs ++ [EWrap ("pod " +:+ om_Name (po_meta pod)) e])
                     end)
  end.

(** [errors.Join] as the text of its errors. *)
Definition joined (errs : list gerror) : gerror := EText (join nl (error_text <$> errs)).

Definition reload_result (namespace labelSelector : string) (res : nat * list gerror) : result unit :=
  let '(reloaded, errs) := res in
  match reloaded, errs with
  | O, [] => Err (EText ("no running promxy pods to reload in namespace " +:+ quote namespace +:+
                         " matching " +:+ quote labelSelector))
  | O, _ => Err (EWrap "failed to reload promxy config on all pods" (joined errs))
  | _, [] => Ok tt
  | _, _ => Err (joined errs)
  end.

(** labels.Parse of the API machinery. *)
Context (parse_selector : string → result (gmap string string → bool)) `{!Kube W Pod}.

Definition GetPods (opts : list ListOption) : eff W (list Pod) := kube_list (O := Pod) opts.

Definition ReloadPromxyConfig (namespace labelSelector : string) : eff W unit :=
  do selector := eret (wrap_err ("invalid promxy pod label selector " +:+ quote labelSelector)
                         (parse_selector labelSelector)) in
  do pods := ewrap "listing promxy pods"
               (GetPods [InNamespace namespace; MatchingLabelsSelector selector]) in
  if bool_decide (length pods = 0%nat) then
    eret (Err (EText ("no promxy pods found in namespace " +:+ quote namespace +:+
                      " matching " +:+ quote labelSelector)))
  else
    do res := reload_pods pods 0 [] in
    eret (reload_result namespace labelSelector res).

(** The reload function cmd/main.go hands to the controller. *)
Definition PromxyConfigReload (env : environ) : eff W unit :=
  do releaseNamespace := eret (GetReleaseNamespace env) in
  do labelSelector := eret (GetPromxyPodLabelSelector env) in
  ReloadPromxyConfig releaseNamespace labelSelector.
End reload.

(** * The controller *)

Section controller.
Context {W : Type} `{!Kube W PromxyServerGroup, !Kube W Secret}
  (reload : eff W unit) (RemoteWriteUrl : string)
  (visit : ∀ A, gmap string A → list (string * A)).

(** The groups by the name of their secret, those without one left out. *)
Definition add_group (m : gmap string (list PromxyServerGroup)) (g : PromxyServerGroup)
    : gmap string (list PromxyServerGroup) :=
  match om_Labels (pg_meta g) !! SecretNameLabel with
  | None => m
  | Some name => <[name := (default [] (m !! name) ++ [g])%list]> m
  end.
Definition groups_by_secret (items : list PromxyServerGroup) : gmap string (list PromxyServerGroup) :=
  foldl add_group ∅ items.

Definition config_group (g : PromxyServerGroup) (credentials : gmap string string)
    : PromxyConfigServerGroup :=
  let auth := hc_BasicAuth (pg_HttpClient g) in
  {| cg_Targets := pg_Targets g;
     cg_PathPrefix := pg_PathPrefix g;
     cg_Scheme := pg_Scheme g;
     cg_DialTimeout := duration_String (hc_DialTimeout (pg_HttpClient g));
     cg_TlsInsecureSkipVerify := hc_InsecureSkipVerify (pg_HttpClient g);
     cg_Username := at_key credentials (ba_UsernameKey auth);
     cg_Password := at_key credentials (ba_PasswordKey auth);
     cg_ClusterName := pg_ClusterName g;
     cg_ClusterNamespace := om_Namespace (pg_meta g);
     cg_BasicAuthEnabled := negb (bool_decide (ba_CredentialsSecretName auth = "")) |}.

(** The configuration of one group, its credentials read when it has any. *)
Definition read_group (releaseNamespace : string) (g : PromxyServerGroup)
    : eff W PromxyConfigServerGroup :=
  let name := ba_CredentialsSecretName (hc_BasicAuth (pg_HttpClient g)) in
  if bool_decide (name = "") then eret (Ok (config_group g ∅))
  else do credentials := kube_get (O := Secret) (releaseNamespace, name) in
       eret (Ok (config_group g (se_Data credentials))).

Fixpoint read_groups (releaseNamespace : string) (groups : list PromxyServerGroup)
    : eff W (list PromxyConfigServerGroup) :=
  match groups with
  | [] => eret (Ok [])
  | g :: r => do x := read_group releaseNamespace g in
              do xs := read_groups releaseNamespace r in
              eret (Ok (x :: xs))
  end.

(** The labels of the secret are replaced, not merged. *)
Definition filled_secret (data : string) (s : Secret) : Secret :=
  {| se_meta := {| om_Name := om_Name (se_meta s); om_Namespace := om_Namespace (se_meta s);
                   om_UID := om_UID (se_meta s); om_Labels := {[ManagedByLabel := ManagedByValue]};
                   om_Annotations := om_Annotations (se_meta s);
                   om_Finalizers := om_Finalizers (se_meta s); om_Owners := om_Owners (se_meta s);
                   om_deleted := om_deleted (se_meta s) |};
     se_Data := se_Data s;
     se_StringData := {["config.yaml" := data]} |}.
Definition new_secret (namespace name : string) : Secret :=
  {| se_meta := new_meta namespace name ∅; se_Data := ∅; se_StringData := ∅ |}.

(** One secret: rendered, created or updated, and reloaded. *)
Definition reconcile_secret (releaseNamespace : string) (entry : string * list PromxyServerGroup)
    : eff W unit :=
  let '(name, groups) := entry in
  do configs := read_groups releaseNamespace groups in
  let data := RenderMetricsSecretTemplate
                {| pc_RemoteWriteUrl := RemoteWriteUrl; pc_ServerGroups := configs |} in
  ecase (kube_get (O := Secret) (releaseNamespace, name)) (λ r,
    match r with
    | Err e =>
        if errors_as is_not_found e then
          do _ := kube_create (filled_secret data (new_secret releaseNamespace name)) in reload
        else eret (Err e)
    | Ok secret => do _ := kube_update (filled_secret data secret) in reload
    end).

Fixpoint reconcile_secrets (releaseNamespace : string)
    (entries : list (string * list PromxyServerGroup)) : eff W unit :=
  match entries with
  | [] => eret (Ok tt)
  | x :: r => do _ := reconcile_secret releaseNamespace x in reconcile_secrets releaseNamespace r
  end.

Definition promxy_Reconcile (env : environ) : eff W unit :=
  do releaseNamespace := eret
    (match GetReleaseNamespace env with
     | Ok ns => Ok ns
     | Err e => Err (EText ("failed to get release namespace: " +:+ error_text e))
     end) in
  do items := kube_list (O := PromxyServerGroup) [] in
  reconcile_secrets releaseNamespace (visit _ (groups_by_secret items)).
End controller.
