(* ===== verification/PromxyFacts.v ===== *)
(** The Promxy controller: which secrets a reconciliation writes and with what,
    and how the pods are reloaded. *)
From S2P Require Import Prelude Strings GoTime Json World Env Kube Server Promxy.

Open Scope string_scope.

(** * Grouping *)

Definition secret_of (g : PromxyServerGroup) : option string :=
  om_Labels (pg_meta g) !! SecretNameLabel.

(** The groups of a secret are those with its label, in the order of the list;
    a secret is considered when it has one. *)
Lemma lookup_groups_by_secret items name :
  groups_by_secret items !! name =
  match filter (λ g, secret_of g = Some name) items with [] => None | l => Some l end.
Proof.
  unfold groups_by_secret. induction items as [|g items IH] using rev_ind; [done|].
  rewrite foldl_app, filter_app, filter_cons, filter_nil. simpl. unfold add_group at 1.
  fold (secret_of g). destruct (secret_of g) as [n|] eqn:E.
  - destruct (decide (n = name)) as [->|Hn].
    + rewrite decide_True by done. rewrite lookup_insert_eq, IH.
      by destruct (filter _ items).
    + rewrite decide_False, lookup_insert_ne, app_nil_r by (done || by intros [=]). done.
  - rewrite decide_False by done. by rewrite app_nil_r.
Qed.

(** * The configuration a secret is to hold

    Written as the lines of the file, from the groups and the credentials
    themselves. *)
Definition text_of_lines (ls : list string) : string := foldr (λ l t, l +:+ nl +:+ t) "" ls.
Definition quoted (text value : string) : string := text +:+ dquote +:+ value +:+ dquote.

Section lines.
Context (secret_data : string → string → string).

Definition group_lines (g : PromxyServerGroup) : list string :=
  let http := pg_HttpClient g in
  let secret := ba_CredentialsSecretName (hc_BasicAuth http) in
  (["    - static_configs:"; "        - targets:"] ++
   (quoted "          - " <$> pg_Targets g) ++
   [quoted "      path_prefix: " (pg_PathPrefix g);
    quoted "      scheme: " (pg_Scheme g);
    "      http_client:";
    quoted "        dial_timeout: " (duration_String (hc_DialTimeout http))] ++
   (if decide (secret = "") then [] else
    ["        tls_config:";
     "          insecure_skip_verify: " +:+ (if hc_InsecureSkipVerify http then "true" else "false");
     "        basic_auth:";
     quoted "          username: " (secret_data secret (ba_UsernameKey (hc_BasicAuth http)));
     quoted "          password: " (secret_data secret (ba_PasswordKey (hc_BasicAuth http)))]) ++
   ["      labels:";
    quoted "        promxyCluster: " (pg_ClusterName g);
    quoted "        promxyClusterNamespace: " (om_Namespace (pg_meta g));
    "      ignore_error: true"])%list.

Definition config_lines (url : string) (gs : list PromxyServerGroup) : list string :=
  (["global:"; "  evaluation_interval: 5s"; "  external_labels:"; "    source: promxy";
    "rule_files:"; "  - /etc/promxy/rules/*.yaml";
    "alerting:"; "  alertmanagers:"; "    - scheme: http"; "      static_configs:";
    "        - targets:"; "          - vmalertmanager-cluster:9093";
    "remote_write:"; quoted "  - url: " url;
    "promxy:"; "  server_groups:"] ++ (gs ≫= group_lines))%list.
End lines.

(** The template puts a newline before each line but the first. *)
Definition more_lines (ls : list string) : string := foldr (λ l t, line l +:+ t) "" ls.

Lemma more_lines_app l1 l2 : more_lines (l1 ++ l2) = more_lines l1 +:+ more_lines l2.
Proof.
  induction l1 as [|l l1 IH]; [done|]. cbn [app more_lines foldr] in *. fold more_lines.
  unfold more_lines in *. by rewrite IH, string_app_assoc.
Qed.
Lemma more_lines_text ls : more_lines ls +:+ nl = nl +:+ text_of_lines ls.
Proof.
  unfold more_lines, text_of_lines, line.
  induction ls as [|l ls IH]; [done|]. cbn [foldr]. by rewrite !string_app_assoc, IH.
Qed.

Section reconcile.
Context {W : Type} `{HG : !Kube W PromxyServerGroup, HGL : !KubeLaws W PromxyServerGroup}.
Context `{HS : !Kube W Secret, HSL : !KubeLaws W Secret}.
Context `{FG : !KubeFrame W HG HS}.
Context (reload : eff W unit) (RemoteWriteUrl : string)
        (visit : ∀ A, gmap string A → list (string * A)).
Context (reload_frame : ∀ w, stored (O := Secret) (reload w).2 = stored w).
Context (visit_perm : ∀ A (m : gmap string A), visit A m ≡ₚ map_to_list m).

Notation secrets := (stored (O := Secret)).
Notation Reconcile := (promxy_Reconcile reload RemoteWriteUrl visit).

Definition credentials_name (g : PromxyServerGroup) : string :=
  ba_CredentialsSecretName (hc_BasicAuth (pg_HttpClient g)).

(** The configuration of a group with the secrets as stored. *)
Definition config_from (m : objects_of Secret) (ns : string) (g : PromxyServerGroup)
    : PromxyConfigServerGroup :=
  config_group g (if bool_decide (credentials_name g = "") then ∅
                  else from_option se_Data ∅ (m !! (ns, credentials_name g))).

(** The data of a stored secret, nothing for a key it does not have. *)
Definition stored_data (m : objects_of Secret) (ns secret key : string) : string :=
  default "" (m !! (ns, secret) ≫= λ s, se_Data s !! key).

Lemma concat_lines p ls : join "" (quoted_line p <$> ls) = more_lines (quoted p <$> ls).
Proof.
  unfold join. induction ls as [|l ls IH]; [done|].
  cbn [fmap list_fmap more_lines foldr] in *. fold (more_lines (quoted p <$> ls)). rewrite <-IH.
  destruct ls; [|done]. cbn. by rewrite string_app_nil_r.
Qed.

Lemma concat_groups {A} (f : A → string) (f' : A → list string) l :
  (∀ x, f x = more_lines (f' x)) → join "" (f <$> l) = more_lines (l ≫= f').
Proof.
  intros Hf. unfold join. induction l as [|x l IH]; [done|].
  rewrite bind_cons, more_lines_app, <-IH, <-Hf. cbn [fmap list_fmap].
  destruct l; [|done]. cbn. by rewrite string_app_nil_r.
Qed.

Lemma group_text_lines m ns g :
  group_text (config_from m ns g) = more_lines (group_lines (stored_data m ns) g).
Proof.
  unfold group_text, group_lines, config_from, config_group.
  cbn [cg_Targets cg_PathPrefix cg_Scheme cg_DialTimeout cg_TlsInsecureSkipVerify cg_Username
       cg_Password cg_ClusterName cg_ClusterNamespace cg_BasicAuthEnabled].
  rewrite concat_lines, !more_lines_app. unfold credentials_name.
  case_bool_decide as Hn; [rewrite decide_True by done|rewrite decide_False by done];
    cbn [negb more_lines foldr]; unfold quoted_line, quoted; rewrite !string_app_nil_r.
  - by rewrite !string_app_assoc.
  - unfold stored_data, at_key, format_bool. destruct (m !! (ns, _)); cbn [from_option mbind option_bind];
      rewrite ?lookup_empty; by rewrite !string_app_assoc.
Qed.

Lemma read_group_spec ns g (w : W) r w' :
  read_group ns g w = (r, w') →
  secrets w' = secrets w ∧ ∀ x, r = Ok x → x = config_from (secrets w) ns g ∧
    (credentials_name g ≠ "" → is_Some (secrets w !! (ns, credentials_name g))).
Proof.
  unfold read_group, config_from. fold (credentials_name g). case_bool_decide as Hn.
  { intros [= <- <-]. split; [done|]. by intros x [= <-]. }
  intros E. pose proof (get_stored (O := Secret) (ns, credentials_name g) w) as Hg.
  apply ebind_inv in E as [(e & E & ->)|(s & w1 & E & [= <- <-])]; rewrite E in Hg; (split; [done|]).
  - done.
  - intros x [= <-]. apply get_ok in E. by rewrite E.
Qed.

Lemma read_groups_spec ns gs (w : W) r w' :
  read_groups ns gs w = (r, w') →
  secrets w' = secrets w ∧ ∀ l, r = Ok l → l = config_from (secrets w) ns <$> gs.
Proof.
  revert w r. induction gs as [|g gs IH]; intros w r; simpl.
  { intros [= <- <-]. split; [done|]. by intros l [= <-]. }
  intros E. apply ebind_inv in E as [(e & E & ->)|(x & w1 & E & E2)];
    apply read_group_spec in E as [Hw1 Hx]; [done|].
  destruct (Hx x eq_refl) as [-> _].
  apply ebind_inv in E2 as [(e & E & ->)|(l & w2 & E & [= <- <-])];
    apply IH in E as [Hw2 Hl]; rewrite Hw2, Hw1 in *; (split; [done|]).
  - done.
  - intros l' [= <-]. by rewrite (Hl l eq_refl).
Qed.

(** What a secret becomes: its configuration, and the label of the operator
    instead of its labels. *)
Definition written (data : string) (ns name : string) (old : option Secret) : Secret :=
  admitted_secret (filled_secret data (default (new_secret ns name) old)).

Definition config_text (m : objects_of Secret) (ns : string) (gs : list PromxyServerGroup) : string :=
  RenderMetricsSecretTemplate
    {| pc_RemoteWriteUrl := RemoteWriteUrl; pc_ServerGroups := config_from m ns <$> gs |}.

Lemma config_text_lines m ns gs :
  config_text m ns gs = text_of_lines (config_lines (stored_data m ns) RemoteWriteUrl gs).
Proof.
  unfold config_text.
  unfold RenderMetricsSecretTemplate, config_lines. cbn [pc_RemoteWriteUrl pc_ServerGroups].
  rewrite <-list_fmap_compose.
  rewrite (concat_groups _ (group_lines (stored_data m ns)))
    by (intros g; apply group_text_lines).
  cbn [app text_of_lines foldr]. fold (text_of_lines (gs ≫= group_lines (stored_data m ns))).
  rewrite more_lines_text. unfold quoted_line, quoted, line. by rewrite !string_app_assoc.
Qed.
#[local] Opaque RenderMetricsSecretTemplate.

Lemma reconcile_secret_spec ns name gs (w : W) r w' :
  reconcile_secret reload RemoteWriteUrl ns (name, gs) w = (r, w') →
  (secrets w' = secrets w ∧ is_ok r = false) ∨
  secrets w' = <[(ns, name) := written (config_text (secrets w) ns gs) ns name
                                 (secrets w !! (ns, name))]> (secrets w).
Proof.
  unfold reconcile_secret. intros E.
  apply ebind_inv in E as [(e & E & ->)|(cfg & w1 & E & E2)];
    apply read_groups_spec in E as [Hw1 Hc]; [by left|].
  rewrite (Hc cfg eq_refl) in E2. fold (config_text (secrets w) ns gs) in E2. clear Hc.
  unfold ecase in E2.
  pose proof (get_stored (O := Secret) (ns, name) w1) as Hg.
  destruct (kube_get (ns, name) w1) as [[s|e] w2] eqn:Eg; simpl in Hg.
  - apply get_ok in Eg. pose proof (stored_key _ _ _ Eg) as Hk. rewrite Hw1 in Eg.
    set (s' := filled_secret _ s) in E2.
    assert (Hk' : object_key s' = (ns, name)) by exact Hk.
    assert (Hs2 : secrets w2 !! object_key s' = Some s) by by rewrite Hk', Hg, Hw1.
    assert (Hu : ∀ r1 w3, kube_update s' w2 = (r1, w3) → (secrets w3 = secrets w ∧ is_ok r1 = false) ∨
      secrets w3 = <[(ns, name) := admitted_secret s']> (secrets w)).
    { intros r1 w3 Hu. apply update_took in Hu. rewrite (settle_live _ _ s Hs2) in Hu by done.
      rewrite Hk', Hg, Hw1 in Hu. destruct r1 as [[]|?]; simpl in Hu; [by right|].
      destruct Hu; [by left|by right]. }
    rewrite Eg. apply ebind_inv in E2 as [(e & E & ->)|([] & w3 & E & E2)].
    + destruct (Hu _ _ E) as [[? _]|?]; [by left|by right].
    + destruct (Hu _ _ E) as [[_ ?]|Hw3]; [done|]. right.
      pose proof (reload_frame w3) as Hr. rewrite E2 in Hr. simpl in Hr. by rewrite Hr.
  - destruct (errors_as is_not_found e) eqn:Hn.
    2:{ injection E2 as <- <-. left. by rewrite Hg. }
    pose proof (get_not_found _ _ _ _ Eg Hn) as Habs. rewrite Hw1 in Habs.
    set (s' := filled_secret _ _) in E2.
    assert (Hu : ∀ r1 w3, kube_create s' w2 = (r1, w3) → (secrets w3 = secrets w ∧ is_ok r1 = false) ∨
      secrets w3 = <[(ns, name) := admitted_secret s']> (secrets w)).
    { intros r1 w3 Hu. apply create_took in Hu. rewrite Hg, Hw1 in Hu.
      destruct r1 as [[]|?]; simpl in Hu; [by right|]. destruct Hu; [by left|by right]. }
    rewrite Habs. apply ebind_inv in E2 as [(e' & E & ->)|([] & w3 & E & E2)].
    + destruct (Hu _ _ E) as [[? _]|?]; [by left|by right].
    + destruct (Hu _ _ E) as [[_ ?]|Hw3]; [done|]. right.
      pose proof (reload_frame w3) as Hr. rewrite E2 in Hr. simpl in Hr. by rewrite Hr.
Qed.

(** No group takes its credentials from a secret that is written. *)
Definition credentials_apart (names : list string) (gs : list PromxyServerGroup) : Prop :=
  ∀ g, g ∈ gs → credentials_name g = "" ∨ credentials_name g ∉ names.

Lemma config_text_stable m m' ns names gs :
  credentials_apart names gs →
  (∀ k, k.2 ∉ names → m' !! k = m !! k) → config_text m' ns gs = config_text m ns gs.
Proof.
  intros Ha Hm. unfold config_text. do 2 f_equal. apply list_fmap_ext. intros i g Hg.
  unfold config_from. case_bool_decide as Hn; [done|].
  destruct (Ha g) as [?|?]; [by eapply list_elem_of_lookup_2|done|]. by rewrite Hm.
Qed.

Lemma reconcile_secrets_spec ns entries (w : W) r w' :
  reconcile_secrets reload RemoteWriteUrl ns entries w = (r, w') →
  (∀ k, (k.1 = ns → k.2 ∉ entries.*1) → secrets w' !! k = secrets w !! k) ∧
  (r = Ok tt → NoDup entries.*1 →
   (∀ n gs, (n, gs) ∈ entries → credentials_apart entries.*1 gs) →
   ∀ n gs, (n, gs) ∈ entries →
     secrets w' !! (ns, n) =
       Some (written (config_text (secrets w) ns gs) ns n (secrets w !! (ns, n)))).
Proof.
  revert w. induction entries as [|[n gs] entries IH]; intros w; simpl.
  { intros [= <- <-]. split; [done|]. intros _ _ _ n gs []%elem_of_nil. }
  intros E. assert (Hone : ∀ r1 w1, reconcile_secret reload RemoteWriteUrl ns (n, gs) w = (r1, w1) →
    (∀ k, k ≠ (ns, n) → secrets w1 !! k = secrets w !! k) ∧
    (is_ok r1 = true → secrets w1 !! (ns, n) =
       Some (written (config_text (secrets w) ns gs) ns n (secrets w !! (ns, n))))).
  { intros r1 w1 [[-> Hr]| ->]%reconcile_secret_spec; [by rewrite Hr|].
    split; [intros k Hk; by rewrite lookup_insert_ne|intros _; apply lookup_insert_eq]. }
  apply ebind_inv in E as [(e & E & ->)|([] & w1 & E & E2)]; apply Hone in E as [Hother Hn].
  { split; [|done]. intros k Hk. apply Hother. intros ->. apply Hk; [done|by left]. }
  destruct (IH _ E2) as [Hk Hin]. split.
  { intros k Hnk. rewrite Hk; [|by intros H1 H2; apply (Hnk H1); right]. apply Hother. intros ->. apply Hnk; [done|by left]. }
  intros -> [Hnn Hnd]%NoDup_cons Ha n' gs' [[= -> ->]|Hel]%elem_of_cons.
  - rewrite Hk; [by apply Hn|]. simpl. by intros _.
  - assert (Hne : n' ≠ n).
    { intros ->. apply Hnn. apply list_elem_of_fmap. by exists (n, gs'). }
    assert (Hap : ∀ m g, (m, g) ∈ entries → credentials_apart entries.*1 g).
    { intros m g Hm x Hx. destruct (Ha m g) with x as [?|Hx']; [by right|done|by left|right].
      intros Hx2. apply Hx'. by right. }
    rewrite (Hin eq_refl Hnd Hap n' gs' Hel). rewrite Hother by by intros [=].
    rewrite (config_text_stable (secrets w) (secrets w1) ns (n :: entries.*1)); [done|..].
    + apply (Ha n'). by right.
    + intros k Hkk. apply Hother. intros ->. apply Hkk. by left.
Qed.

(** C24: After a reconciliation without an error a secret that no group names
    is as it was.  When moreover no group takes its credentials from a secret
    that groups name, every secret named by a group holds the configuration
    with all the groups that name it, in the order of the list, line by line:
    the targets, the prefix, the scheme, the timeout and the labels of each,
    and, for a group with a credentials secret only, whether certificates are
    verified, and the user name and the password under the keys the group
    gives.  The other data of the secret are kept, and its only label is that
    of the operator. *)
Theorem promxy_secrets_written env (w : W) w' ns :
  env !! "RELEASE_NAMESPACE" = Some ns → ns ≠ "" →
  Reconcile env w = (Ok tt, w') →
  ∃ items, items ≡ₚ (map_to_list (stored (O := PromxyServerGroup) w)).*2 ∧
    (∀ k, (∀ g, g ∈ items → k ≠ (ns, default "" (secret_of g)) ∨ secret_of g = None) →
       secrets w' !! k = secrets w !! k) ∧
    ((∀ g g', g ∈ items → g' ∈ items → secret_of g' = Some (credentials_name g) →
        credentials_name g = "") →
     ∀ name gs, filter (λ g, secret_of g = Some name) items = gs → gs ≠ [] →
       ∃ s, secrets w' !! (ns, name) = Some s ∧
         se_Data s !! "config.yaml" =
           Some (text_of_lines (config_lines (stored_data (secrets w) ns) RemoteWriteUrl gs)) ∧
         om_Labels (se_meta s) = {["app.kubernetes.io/managed-by" := "kof-operator"]} ∧
         ∀ k, k ≠ "config.yaml" →
           se_Data s !! k = (secrets w !! (ns, name) ≫= λ o, se_Data o !! k)).
Proof.
  intros Hns Hne. unfold promxy_Reconcile. intros E.
  apply ebind_ok in E as (ns' & w1 & [= Hr <-] & E). unfold GetReleaseNamespace in Hr.
  rewrite Hns, decide_False in Hr by done. injection Hr as <-.
  apply ebind_ok in E as (items & w2 & El & E).
  pose proof (list_frame (K' := HS) [] w) as Hf. rewrite El in Hf. simpl in Hf.
  exists items. split.
  { rewrite (list_ok _ _ _ _ El). clear. induction (map_to_list _).*2 as [|x l IH]; [done|].
    rewrite filter_cons, decide_True by done. by rewrite IH. }
  apply reconcile_secrets_spec in E as [Hk Hin]. rewrite Hf in Hk, Hin.
  assert (Hnames : ∀ n, n ∈ (visit _ (groups_by_secret items)).*1 ↔
                        ∃ g, g ∈ items ∧ secret_of g = Some n).
  { intros n. rewrite (visit_perm _ _). rewrite list_elem_of_fmap. split.
    - intros ([n' gs] & -> & Hn%elem_of_map_to_list). simpl in *.
      rewrite lookup_groups_by_secret in Hn.
      destruct (filter _ items) as [|g l] eqn:E; [done|]. exists g.
      assert (Hg : g ∈ filter (λ g, secret_of g = Some n') items) by (rewrite E; by left).
      apply list_elem_of_filter in Hg as [? ?]. done.
    - intros (g & Hg & Hn). destruct (groups_by_secret items !! n) as [gs|] eqn:E.
      + exists (n, gs). by rewrite elem_of_map_to_list.
      + rewrite lookup_groups_by_secret in E. destruct (filter _ items) eqn:E2; [|done].
        assert (Hg' : g ∈ filter (λ g, secret_of g = Some n) items) by by apply list_elem_of_filter.
        rewrite E2 in Hg'. by apply elem_of_nil in Hg'. }
  split.
  - intros k Hg. apply Hk. intros H1 (g & Hgi & Hs)%Hnames.
    destruct (Hg g Hgi) as [Hkn|Hkn]; [|congruence]. apply Hkn. rewrite Hs. simpl.
    destruct k; simpl in *; congruence.
  - intros Ha name gs Hgs Hne'.
    assert (Hentry : (name, gs) ∈ visit _ (groups_by_secret items)).
    { rewrite (visit_perm _ _), elem_of_map_to_list, lookup_groups_by_secret, Hgs. by destruct gs. }
    rewrite (Hin eq_refl) with (n := name) (gs := gs).
    + eexists. split; [done|]. split; [rewrite <-config_text_lines; apply lookup_union_Some_l, lookup_singleton_eq|].
      split; [done|]. intros k Hkc. unfold written, admitted_secret. simpl.
      rewrite lookup_union_r by by apply lookup_singleton_ne.
      by destruct (secrets w !! (ns, name)).
    + rewrite (visit_perm _ _). apply NoDup_fst_map_to_list.
    + intros n gs' Hn g Hg. rewrite (visit_perm _ _), elem_of_map_to_list, lookup_groups_by_secret in Hn.
      assert (Hgf : g ∈ filter (λ g, secret_of g = Some n) items).
      { destruct (filter _ items) in Hn |- *; [done|]. by injection Hn as ->. }
      apply list_elem_of_filter in Hgf as [_ Hgi].
      destruct (decide (credentials_name g = "")) as [?|Hc]; [by left|right].
      intros (g' & Hgi' & Hs)%Hnames. apply Hc. by apply (Ha g g').
    + done.
Qed.
End reconcile.

(** * Reloading the pods *)

Section reload.
Context {W : Type} (http_post : string → W → result post_reply * W).
Context (parse_selector : string → result (gmap string string → bool)) `{HP : !Kube W Pod}.

Notation post pod :=
  (PostPodHTTPEmpty http_post pod promxyContainerName promxyContainerPortName promxyReloadPath).

Definition running (pods : list Pod) : list Pod :=
  filter (λ p, String.eqb (po_Phase p) PodRunning = true) pods.

(** The pods are posted to one after the other, whatever the outcomes. *)
Inductive posts : list Pod → W → list (result unit) → W → Prop :=
  | posts_nil w : posts [] w [] w
  | posts_cons pod pods w o w1 outs w2 :
      post pod w = (o, w1) → posts pods w1 outs w2 → posts (pod :: pods) w (o :: outs) w2.

Definition succeeded (outs : list (result unit)) : nat := length (filter (λ o, is_ok o = true) outs).

Lemma reload_pods_posts pods n errs (w : W) :
  ∃ outs errs' w', posts (running pods) w outs w' ∧
    reload_pods http_post pods n errs w = (Ok ((n + succeeded outs)%nat, (errs ++ errs')%list), w') ∧
    (length errs' + succeeded outs = length outs)%nat.
Proof.
  revert n errs w. induction pods as [|pod pods IH]; intros n errs w; simpl.
  { exists [], [], w. rewrite app_nil_r, Nat.add_0_r. repeat constructor. }
  unfold running. rewrite filter_cons. destruct (String.eqb (po_Phase pod) PodRunning); simpl.
  2:{ apply IH. }
  unfold ecase. destruct (post pod w) as [o w1] eqn:E. destruct o as [[]|e].
  - destruct (IH (S n) errs w1) as (outs & errs' & w' & Hp & -> & Hl).
    exists (Ok tt :: outs), errs', w'. split; [by econstructor|].
    unfold succeeded in *. rewrite filter_cons. simpl. split; [|lia]. do 3 f_equal. lia.
  - destruct (IH n (errs ++ [EWrap ("pod " +:+ om_Name (po_meta pod)) e])%list w1)
      as (outs & errs' & w' & Hp & -> & Hl).
    exists (Err e :: outs), (EWrap ("pod " +:+ om_Name (po_meta pod)) e :: errs'), w'.
    split; [by econstructor|]. unfold succeeded in *. rewrite filter_cons. simpl.
    split; [by rewrite <-app_assoc|lia].
Qed.

End reload.

(** * Findings *)

(** Whether certificates are verified is left out without basic authentication. *)
Lemma tls_needs_basic_auth g b :
  cg_BasicAuthEnabled g = false →
  group_text g = group_text
    {| cg_Targets := cg_Targets g; cg_PathPrefix := cg_PathPrefix g; cg_Scheme := cg_Scheme g;
       cg_DialTimeout := cg_DialTimeout g; cg_TlsInsecureSkipVerify := b;
       cg_Username := cg_Username g; cg_Password := cg_Password g;
       cg_ClusterName := cg_ClusterName g; cg_ClusterNamespace := cg_ClusterNamespace g;
       cg_BasicAuthEnabled := cg_BasicAuthEnabled g |}.
Proof. intros Hb. unfold group_text. simpl. by rewrite Hb. Qed.

(** * Witnesses *)

Definition demo_group : PromxyServerGroup :=
  {| pg_meta := new_meta "kof" "c1-metrics" {[SecretNameLabel := "promxy-config"]};
     pg_ClusterName := "c1"; pg_Targets := ["c1.example:443"]; pg_PathPrefix := "/vm";
     pg_Scheme := "https";
     pg_HttpClient := {| hc_DialTimeout := 5000000000; hc_InsecureSkipVerify := true;
                         hc_BasicAuth := {| ba_CredentialsSecretName := "creds";
                                            ba_UsernameKey := "user"; ba_PasswordKey := "pass" |} |} |}.
Definition demo_credentials : Secret :=
  {| se_meta := new_meta "kof" "creds" ∅; se_Data := {["user" := "u"; "pass" := "p"]};
     se_StringData := ∅ |}.
Definition demo_open_group : PromxyServerGroup :=
  {| pg_meta := new_meta "kof" "c2-metrics" {[SecretNameLabel := "promxy-config"]};
     pg_ClusterName := "c2"; pg_Targets := ["c2.example:443"]; pg_PathPrefix := "/vm";
     pg_Scheme := "https";
     pg_HttpClient := {| hc_DialTimeout := 5000000000; hc_InsecureSkipVerify := true;
                         hc_BasicAuth := {| ba_CredentialsSecretName := "";
                                            ba_UsernameKey := ""; ba_PasswordKey := "" |} |} |}.
Definition demo_world : kworld (objects_of PromxyServerGroup * objects_of Secret) :=
  {| kw_data := ({[("kof", "c1-metrics") := demo_group; ("kof", "c2-metrics") := demo_open_group]}, {[("kof", "creds") := demo_credentials]});
     kw_faults := [] |}.
Definition demo_env : environ := {["RELEASE_NAMESPACE" := "kof"]}.
Definition demo_visit (A : Type) (m : gmap string A) : list (string * A) := map_to_list m.

#[local] Existing Instance sim_kube.
Notation demo_reload := (λ w, (Ok tt, w)).
Notation demo_run := (promxy_Reconcile (W := kworld (objects_of PromxyServerGroup * objects_of Secret))
  demo_reload "http://vminsert:8480" demo_visit demo_env demo_world).

(** A group with credentials and one without, both with the verification of
    certificates switched off; only the first gets the setting. *)
Lemma promxy_secrets_written_witness :
  demo_run.1 = Ok tt ∧
  ∃ s head tail, stored (O := Secret) demo_run.2 !! ("kof", "promxy-config") = Some s ∧
    om_Labels (se_meta s) = {["app.kubernetes.io/managed-by" := "kof-operator"]} ∧
    (tail = [] ∨ head = []) ∧
    se_Data s !! "config.yaml" = Some (text_of_lines (
      ["global:"; "  evaluation_interval: 5s"; "  external_labels:"; "    source: promxy";
       "rule_files:"; "  - /etc/promxy/rules/*.yaml"; "alerting:"; "  alertmanagers:";
       "    - scheme: http"; "      static_configs:"; "        - targets:";
       "          - vmalertmanager-cluster:9093"; "remote_write:";
       quoted "  - url: " "http://vminsert:8480"; "promxy:"; "  server_groups:"] ++ head ++
      ["    - static_configs:"; "        - targets:"; quoted "          - " "c1.example:443";
       quoted "      path_prefix: " "/vm"; quoted "      scheme: " "https"; "      http_client:";
       quoted "        dial_timeout: " "5s"; "        tls_config:";
       "          insecure_skip_verify: true"; "        basic_auth:";
       quoted "          username: " "u"; quoted "          password: " "p"; "      labels:";
       quoted "        promxyCluster: " "c1"; quoted "        promxyClusterNamespace: " "kof";
       "      ignore_error: true"] ++ tail)%list).
Proof.
  split; [vm_compute; reflexivity|].
  destruct (promxy_secrets_written demo_reload "http://vminsert:8480" demo_visit (λ _, eq_refl)
    (λ _ _, Permutation_refl _) demo_env demo_world demo_run.2 "kof")
    as (items & Hi & _ & Hs).
  - reflexivity.
  - discriminate.
  - vm_compute. reflexivity.
  - assert (Hp : items ≡ₚ [demo_group; demo_open_group]) by (rewrite Hi; vm_compute; reflexivity).
    assert (Hall : Forall (λ g, secret_of g = Some "promxy-config") items)
      by (rewrite Hp; repeat constructor).
    assert (Hgs : filter (λ g, secret_of g = Some "promxy-config") items = items).
    { clear -Hall. induction Hall as [|g l Hg _ IH]; [reflexivity|].
      by rewrite filter_cons, decide_True, IH. }
    destruct Hs with (name := "promxy-config") (gs := items) as (s & Hs1 & Hs2 & Hs3 & _).
    + intros g g' Hg Hg'. rewrite Forall_forall in Hall. rewrite (Hall _ Hg'). intros [= Hc].
      clear -Hc Hg Hp. rewrite Hp, !elem_of_cons, elem_of_nil in Hg.
      destruct Hg as [->|[->|[]]]; [discriminate Hc|reflexivity].
    + exact Hgs.
    + intros ->. by apply Permutation_nil_cons in Hp.
    + set (open_lines := group_lines (λ _ _, "") demo_open_group).
      symmetry in Hp. apply Permutation_length_2_inv in Hp as [-> | ->].
      * exists s, [], open_lines. split_and!; [exact Hs1|exact Hs3|by right|].
        rewrite Hs2. vm_compute. reflexivity.
      * exists s, open_lines, []. split_and!; [exact Hs1|exact Hs3|by left|].
        rewrite Hs2. vm_compute. reflexivity.
Defined.

Definition demo_pod (name phase : string) : Pod :=
  {| po_meta := new_meta "kof" name ∅; po_Phase := phase; po_PodIP := "10.0.0.1";
     po_NodeName := "node";
     po_Containers := [{| co_Name := "promxy"; co_Ports := [{| cp_Name := "http"; cp_ContainerPort := 8082 |}];
                          co_Env := []; co_Limits := ∅ |}];
     po_Conditions := [] |}.
Definition demo_pods : kworld (objects_of Pod) :=
  {| kw_data := {[("kof", "p1") := demo_pod "p1" "Running"; ("kof", "p2") := demo_pod "p2" "Pending"]};
     kw_faults := [] |}.
(** Only this URL answers. *)
Definition demo_post (u : string) (w : kworld (objects_of Pod)) : result post_reply * kworld (objects_of Pod) :=
  (if String.eqb u "http://10.0.0.1:8082/-/reload"
   then Ok {| pr_code := 200; pr_status := "200 OK"; pr_body := "" |}
   else Err (EText "connection refused"), w).

