(* ===== verification/Api.v ===== *)
(** The kinds of Kubernetes objects the cluster controllers use, as one
    interface: the types of KCM and of the VictoriaMetrics operator as far as
    the code reads or writes them, internal/models/labels and
    internal/k8s/constants.go, the class [Cluster] of a world with all the
    kinds, its laws, and an instance. *)
From S2P Require Import Prelude Strings World Kube Alerts StorageConn Promxy.

Open Scope string_scope.

(** * internal/models/labels and internal/k8s/constants.go *)

Definition ClusterNameLabel := "k0rdent.mirantis.com/kof-cluster-name".
Definition IstioRoleLabel := "k0rdent.mirantis.com/istio-role".
Definition KofClusterRoleLabel := "k0rdent.mirantis.com/kof-cluster-role".
Definition KofVersionLabel := "k0rdent.mirantis.com/kof-version".
Definition KofKcmRegionLabel := "k0rdent.mirantis.com/kcm-region-cluster".
Definition KofTenantLabel := "k0rdent.mirantis.com/kof-tenant-id".
Definition DefaultTenantID := "PLATFORM".

Definition HasLabel (labelKey : string) (labels : gmap string string) : bool :=
  bool_decide (is_Some (labels !! labelKey)).
Definition HasClusterNameLabel (labels : gmap string string) : bool := HasLabel ClusterNameLabel labels.

Definition DefaultSystemNamespace := "kcm-system".
Definition KofNamespace := "kof".
Definition KofRoleRegional := "regional".
Definition KofRoleChild := "child".

(** * Types *)

Record LabelSelectorRequirement := {
  lr_Key : string; lr_Operator : string; lr_Values : list string }.
Record LabelSelector := {
  ls_MatchLabels : gmap string string; ls_MatchExpressions : list LabelSelectorRequirement }.

(** The VMUser of the VictoriaMetrics operator. *)
Record QueryArg := { qa_Name : string; qa_Values : list string }.
Record TargetRef := {
  tr_Paths : list string; tr_URL : string; tr_DropSrcPathPrefixParts : option Z;
  tr_QueryArgs : list QueryArg }.
Record SecretKeySelector := { sk_Key : string; sk_Name : string }.
Record VMUserSpec := {
  vs_Username : option string; vs_PasswordRef : option SecretKeySelector;
  vs_TargetRefs : list TargetRef }.
Record VMUser := { vu_meta : ObjectMeta; vu_Spec : VMUserSpec }.

(** The MultiClusterService of KCM; it has no namespace. *)
Record ServiceHelmOptions := { ho_InstallTakeOwnership : bool; ho_UpgradeTakeOwnership : bool }.
Record Service := {
  sv_Name : string; sv_Template : string; sv_Namespace : string; sv_Values : string;
  sv_HelmOptions : option ServiceHelmOptions }.
Record TemplateResourceRef := {
  rr_Identifier : string; rr_APIVersion : string; rr_Kind : string; rr_Name : string;
  rr_Namespace : string }.
Record MultiClusterServiceSpec := {
  ms_KeepServicesOnSelectorMismatch : bool;
  ms_ClusterSelector : LabelSelector;
  ms_DependsOn : list string;
  ms_Services : list Service;
  ms_TemplateResourceRefs : list TemplateResourceRef }.
Record MultiClusterService := { mc_meta : ObjectMeta; mc_Spec : MultiClusterServiceSpec }.

(** Other types of KCM.  [cd_Config] is the raw YAML, [None] the nil pointer;
    [cd_Region] is in the status. *)
Record ClusterDeployment := {
  cd_meta : ObjectMeta; cd_Template : string; cd_Credential : string;
  cd_Config : option string; cd_Region : string }.
Record ClusterTemplate := { ct_meta : ObjectMeta; ct_Providers : list string }.
(** The cluster deployment, name and namespace, or the secret with the
    kubeconfig of a region. *)
Record Region := {
  re_meta : ObjectMeta; re_ClusterDeployment : option (string * string);
  re_KubeConfig : option string }.
(** Kind and name of the identity. *)
Record Credential := { cred_meta : ObjectMeta; cred_IdentityRef : option (string * string) }.
Record Namespace := { ns_meta : ObjectMeta }.

(** What the API server, or a webhook, fills in is left open. *)
Class Admission := {
  admit_vmuser : VMUserSpec → VMUserSpec;
  admit_mcs : MultiClusterServiceSpec → MultiClusterServiceSpec;
  admit_cluster : ClusterDeployment → ClusterDeployment;
  admit_cluster_om cd : cd_meta (admit_cluster cd) = cd_meta cd }.

#[export] Instance VMUser_object `{Admission} : Object VMUser :=
  {| om := vu_meta; admitted u := {| vu_meta := vu_meta u; vu_Spec := admit_vmuser (vu_Spec u) |};
     admitted_om _ := eq_refl |}.
#[export] Instance MultiClusterService_object `{Admission} : Object MultiClusterService :=
  {| om := mc_meta; admitted m := {| mc_meta := mc_meta m; mc_Spec := admit_mcs (mc_Spec m) |};
     admitted_om _ := eq_refl |}.
#[export] Instance ClusterDeployment_object `{Admission} : Object ClusterDeployment :=
  {| om := cd_meta; admitted := admit_cluster; admitted_om := admit_cluster_om |}.
#[export] Instance ClusterTemplate_object : Object ClusterTemplate :=
  {| om := ct_meta; admitted := id; admitted_om _ := eq_refl |}.
#[export] Instance Region_object : Object Region :=
  {| om := re_meta; admitted := id; admitted_om _ := eq_refl |}.
#[export] Instance Credential_object : Object Credential :=
  {| om := cred_meta; admitted := id; admitted_om _ := eq_refl |}.
#[export] Instance Namespace_object : Object Namespace :=
  {| om := ns_meta; admitted := id; admitted_om _ := eq_refl |}.

#[export] Instance VMUser_eq_dec : EqDecision VMUser.
Proof. unfold EqDecision, Decision. intros. repeat (decide equality; try apply (decide_rel (=))). Defined.
#[export] Instance LabelSelectorRequirement_eq_dec : EqDecision LabelSelectorRequirement.
Proof. solve_decision. Defined.
#[export] Instance LabelSelector_eq_dec : EqDecision LabelSelector.
Proof. solve_decision. Defined.
#[export] Instance ServiceHelmOptions_eq_dec : EqDecision ServiceHelmOptions.
Proof. solve_decision. Defined.
#[export] Instance Service_eq_dec : EqDecision Service.
Proof. solve_decision. Defined.
#[export] Instance TemplateResourceRef_eq_dec : EqDecision TemplateResourceRef.
Proof. solve_decision. Defined.
#[export] Instance MultiClusterServiceSpec_eq_dec : EqDecision MultiClusterServiceSpec.
Proof. solve_decision. Defined.
#[export] Instance MultiClusterService_eq_dec : EqDecision MultiClusterService.
Proof. solve_decision. Defined.
#[export] Instance ClusterDeployment_eq_dec : EqDecision ClusterDeployment.
Proof. solve_decision. Defined.
#[export] Instance ClusterTemplate_eq_dec : EqDecision ClusterTemplate.
Proof. solve_decision. Defined.
#[export] Instance Region_eq_dec : EqDecision Region.
Proof. solve_decision. Defined.
#[export] Instance Credential_eq_dec : EqDecision Credential.
Proof. solve_decision. Defined.
#[export] Instance Namespace_eq_dec : EqDecision Namespace.
Proof. solve_decision. Defined.
#[export] Instance ConfigMap_eq_dec : EqDecision ConfigMap.
Proof. solve_decision. Defined.
#[export] Instance BasicAuth_eq_dec : EqDecision BasicAuth.
Proof. solve_decision. Defined.
#[export] Instance HTTPClientConfig_eq_dec : EqDecision HTTPClientConfig.
Proof. solve_decision. Defined.
#[export] Instance PromxyServerGroup_eq_dec : EqDecision PromxyServerGroup.
Proof. solve_decision. Defined.
#[export] Instance VMStorageConnection_eq_dec : EqDecision VMStorageConnection.
Proof. unfold EqDecision, Decision. intros. repeat (decide equality; try apply (decide_rel (=))). Defined.

(** * Kinds *)

Inductive kind :=
  | KConfigMap | KSecret | KVMUser | KMultiClusterService | KClusterDeployment | KClusterTemplate
  | KRegion | KCredential | KNamespace | KPromxyServerGroup | KVMStorageConnection.
#[export] Instance kind_eq_dec : EqDecision kind.
Proof. solve_decision. Defined.

Definition object (k : kind) : Type :=
  match k with
  | KConfigMap => ConfigMap
  | KSecret => Secret
  | KVMUser => VMUser
  | KMultiClusterService => MultiClusterService
  | KClusterDeployment => ClusterDeployment
  | KClusterTemplate => ClusterTemplate
  | KRegion => Region
  | KCredential => Credential
  | KNamespace => Namespace
  | KPromxyServerGroup => PromxyServerGroup
  | KVMStorageConnection => VMStorageConnection
  end.
#[export] Instance object_of `{Admission} (k : kind) : Object (object k) :=
  match k with
  | KConfigMap => ConfigMap_object
  | KSecret => Secret_object
  | KVMUser => VMUser_object
  | KMultiClusterService => MultiClusterService_object
  | KClusterDeployment => ClusterDeployment_object
  | KClusterTemplate => ClusterTemplate_object
  | KRegion => Region_object
  | KCredential => Credential_object
  | KNamespace => Namespace_object
  | KPromxyServerGroup => PromxyServerGroup_object
  | KVMStorageConnection => VMStorageConnection_object
  end.
#[export] Instance object_eq_dec (k : kind) : EqDecision (object k).
Proof. destruct k; simpl; apply _. Defined.

(** * The interface *)

Class Cluster (W : Type) `{Admission} := {
  cluster_kube k : Kube W (object k);
  cluster_upsert k : Upsert W (object k) }.

#[export] Instance kube_ConfigMap `{Cluster W} : Kube W ConfigMap := cluster_kube KConfigMap.
#[export] Instance kube_Secret `{Cluster W} : Kube W Secret := cluster_kube KSecret.
#[export] Instance kube_VMUser `{Cluster W} : Kube W VMUser := cluster_kube KVMUser.
#[export] Instance kube_MultiClusterService `{Cluster W} : Kube W MultiClusterService :=
  cluster_kube KMultiClusterService.
#[export] Instance kube_ClusterDeployment `{Cluster W} : Kube W ClusterDeployment :=
  cluster_kube KClusterDeployment.
#[export] Instance kube_ClusterTemplate `{Cluster W} : Kube W ClusterTemplate :=
  cluster_kube KClusterTemplate.
#[export] Instance kube_Region `{Cluster W} : Kube W Region := cluster_kube KRegion.
#[export] Instance kube_Credential `{Cluster W} : Kube W Credential := cluster_kube KCredential.
#[export] Instance kube_Namespace `{Cluster W} : Kube W Namespace := cluster_kube KNamespace.
#[export] Instance kube_PromxyServerGroup `{Cluster W} : Kube W PromxyServerGroup :=
  cluster_kube KPromxyServerGroup.
#[export] Instance kube_VMStorageConnection `{Cluster W} : Kube W VMStorageConnection :=
  cluster_kube KVMStorageConnection.

#[export] Instance upsert_ConfigMap `{Cluster W} : Upsert W ConfigMap := cluster_upsert KConfigMap.
#[export] Instance upsert_Secret `{Cluster W} : Upsert W Secret := cluster_upsert KSecret.
#[export] Instance upsert_VMUser `{Cluster W} : Upsert W VMUser := cluster_upsert KVMUser.
#[export] Instance upsert_MultiClusterService `{Cluster W} : Upsert W MultiClusterService :=
  cluster_upsert KMultiClusterService.
#[export] Instance upsert_PromxyServerGroup `{Cluster W} : Upsert W PromxyServerGroup :=
  cluster_upsert KPromxyServerGroup.
#[export] Instance upsert_VMStorageConnection `{Cluster W} : Upsert W VMStorageConnection :=
  cluster_upsert KVMStorageConnection.

(** The objects of a kind. *)
Definition kept `{Cluster W} (k : kind) (w : W) : objects_of (object k) :=
  stored (Kube := cluster_kube k) w.

Class ClusterLaws (W : Type) `{Cluster W} := {
  cluster_laws k :: @KubeLaws W (object k) _ (cluster_kube k);
  cluster_upsert_laws k : @UpsertLaws W (object k) _ (cluster_kube k) (cluster_upsert k);
  cluster_frames k k' : k ≠ k' → KubeFrame W (cluster_kube k) (cluster_kube k');
  cluster_upsert_frames k k' : k ≠ k' →
    UpsertFrame W (cluster_kube k) (cluster_kube k') (cluster_upsert k) }.

(** * An instance *)

Definition cluster_data : Type := ∀ k, objects_of (object k).
Definition put {k} (m : objects_of (object k)) (t : cluster_data) : cluster_data := λ k',
  match decide (k = k') with
  | left e => eq_rect k (λ k, objects_of (object k)) m k' e
  | right _ => t k'
  end.

#[export] Program Instance part_kind (k : kind) : Part cluster_data (object k) :=
  {| pget t := t k; pset := put |}.
Next Obligation.
  intros k m t. unfold put. destruct (decide (k = k)) as [e|]; [|done].
  rewrite <-Eqdep_dec.eq_rect_eq_dec; [done|]. intros. apply (decide _).
Qed.
Lemma apart_kinds k k' : k ≠ k' → @Apart cluster_data (object k) (object k') _ _.
Proof. intros Hk. split. intros m t. simpl. unfold put. by destruct (decide (k = k')). Qed.

#[export] Instance sim_cluster `{Admission} : Cluster (kworld cluster_data) :=
  {| cluster_kube k := sim_kube; cluster_upsert k := sim_upsert |}.
#[export] Instance sim_cluster_laws `{Admission} : ClusterLaws (kworld cluster_data).
Proof.
  split; intros.
  - apply sim_kube_laws.
  - apply sim_upsert_laws.
  - apply @sim_kube_frame. by apply apart_kinds.
  - apply @sim_upsert_frame. by apply apart_kinds.
Qed.
