(* ===== verification/ApiFacts.v ===== *)
(** What the calls on a world with all kinds of objects do: which objects a
    call may change ([stays]) and what creating or updating leaves. *)
From S2P Require Import Prelude World Kube Api.

Open Scope string_scope.

Create HintDb stays.

Section cluster.
Context {W : Type} `{ClusterLaws W}.
#[local] Existing Instances cluster_kube cluster_upsert cluster_laws cluster_upsert_laws.

(** * What a call may change *)

(** Objects outside [P] are as they were. *)
Definition changes_only (P : kind → string * string → Prop) (w w' : W) : Prop :=
  ∀ k key, ¬ P k key → kept k w' !! key = kept k w !! key.

(** Whatever a call returns, it changes objects in [P] only. *)
Definition stays {A} (P : kind → string * string → Prop) (m : eff W A) : Prop :=
  ∀ w, changes_only P w (m w).2.

(** Calls that change nothing. *)
Notation quiet := (stays (λ _ _, False)).

Lemma changes_only_refl P w : changes_only P w w.
Proof. done. Qed.
Lemma changes_only_trans P w w' w'' :
  changes_only P w w' → changes_only P w' w'' → changes_only P w w''.
Proof. intros Ha Hb k key Hk. by rewrite Hb, Ha. Qed.
Lemma changes_only_quiet w w' k : changes_only (λ _ _, False) w w' → kept k w' = kept k w.
Proof. intros Hq. apply map_eq. intros key. apply (Hq k key). tauto. Qed.

Lemma stays_mono {A} (P Q : kind → string * string → Prop) (m : eff W A) :
  (∀ k key, P k key → Q k key) → stays P m → stays Q m.
Proof. intros HPQ Hm w k key Hk. apply Hm. auto. Qed.
Lemma stays_quiet {A} P (m : eff W A) : quiet m → stays P m.
Proof. by apply stays_mono. Qed.
Lemma stays_ret {A} P (r : result A) : stays P (eret r).
Proof. intros w. apply changes_only_refl. Qed.
Lemma stays_case {A B} P (m : eff W A) (f : result A → eff W B) :
  stays P m → (∀ r, stays P (f r)) → stays P (ecase m f).
Proof.
  intros Hm Hf w. unfold ecase. specialize (Hm w). destruct (m w) as [r w1].
  eapply changes_only_trans; [exact Hm|apply Hf].
Qed.
Lemma stays_bind {A B} P (m : eff W A) (f : A → eff W B) :
  stays P m → (∀ a, stays P (f a)) → stays P (ebind m f).
Proof.
  intros Hm Hf w. unfold ebind. specialize (Hm w). destruct (m w) as [[a|e] w1]; [|exact Hm].
  eapply changes_only_trans; [exact Hm|apply Hf].
Qed.
Lemma stays_bind_post {A B} P (Q : A → Prop) (m : eff W A) (f : A → eff W B) :
  stays P m → (∀ w a w', m w = (Ok a, w') → Q a) → (∀ a, Q a → stays P (f a)) →
  stays P (ebind m f).
Proof.
  intros Hm HQ Hf w. unfold ebind. specialize (Hm w). specialize (HQ w).
  destruct (m w) as [[a|e] w1]; [|exact Hm].
  eapply changes_only_trans; [exact Hm|]. by apply (Hf a (HQ _ _ eq_refl)).
Qed.
Lemma stays_case_post {A B} P (Q : A → Prop) (m : eff W A) (f : result A → eff W B) :
  stays P m → (∀ w a w', m w = (Ok a, w') → Q a) →
  (∀ a, Q a → stays P (f (Ok a))) → (∀ e, stays P (f (Err e))) → stays P (ecase m f).
Proof.
  intros Hm HQ Hf He w. unfold ecase. specialize (Hm w). specialize (HQ w).
  destruct (m w) as [[a|e] w1]; (eapply changes_only_trans; [exact Hm|]).
  - by apply (Hf a (HQ _ _ eq_refl)).
  - apply He.
Qed.
Lemma stays_wrap {A} P msg (m : eff W A) : stays P m → stays P (ewrap msg m).
Proof. intros Hm w. unfold ewrap. specialize (Hm w). by destruct (m w). Qed.

(** A transitive relation that both calls keep, the second one from the world
    the first ends in. *)
Lemma relates_bind {A B} (R : W → W → Prop) (m : eff W A) (f : A → eff W B) w :
  (∀ w1 w2 w3, R w1 w2 → R w2 w3 → R w1 w3) →
  R w (m w).2 → (∀ a w1, m w = (Ok a, w1) → R w1 (f a w1).2) → R w (ebind m f w).2.
Proof.
  intros HR Hm Hf. unfold ebind. destruct (m w) as [[a|e] w1] eqn:E; [|exact Hm].
  eapply HR; [exact Hm|]. by apply Hf.
Qed.
Lemma changes_only_mono P Q w w' :
  (∀ k key, P k key → Q k key) → changes_only P w w' → changes_only Q w w'.
Proof. intros HPQ Hm k key Hk. apply Hm. auto. Qed.

Lemma stays_get P k key : stays P (kube_get (Kube := cluster_kube k) key).
Proof.
  intros w k' key' _. unfold kept. destruct (decide (k = k')) as [<-|Hk].
  - by rewrite get_stored.
  - pose proof (cluster_frames k k' Hk). by rewrite read_frame.
Qed.
Lemma stays_list P k opts : stays P (kube_list (Kube := cluster_kube k) opts).
Proof.
  intros w k' key' _. unfold kept. destruct (decide (k = k')) as [<-|Hk].
  - by rewrite list_stored.
  - pose proof (cluster_frames k k' Hk). by rewrite list_frame.
Qed.
Lemma stays_create P k (o : object k) :
  P k (object_key o) → stays P (kube_create (Kube := cluster_kube k) o).
Proof.
  intros HP w k' key' Hn. unfold kept. destruct (decide (k = k')) as [<-|Hk].
  - destruct (create_stored o w) as [[-> _]|[_ ->]]; [done|].
    rewrite lookup_insert_ne; [done|]. by intros <-.
  - pose proof (cluster_frames k k' Hk). by rewrite create_frame.
Qed.
Lemma stays_update P k (o : object k) :
  P k (object_key o) → stays P (kube_update (Kube := cluster_kube k) o).
Proof.
  intros HP w k' key' Hn. unfold kept. destruct (decide (k = k')) as [<-|Hk].
  - assert (object_key o ≠ key') by (by intros <-).
    destruct (update_stored o w) as [[-> _]|[_ ->]]; [done|]. unfold settle.
    case_match; by rewrite ?lookup_delete_ne, ?lookup_insert_ne.
  - pose proof (cluster_frames k k' Hk). by rewrite update_frame.
Qed.
Lemma stays_delete P k key : P k key → stays P (kube_delete (Kube := cluster_kube k) key).
Proof.
  intros HP w k' key' Hn. unfold kept. destruct (decide (k = k')) as [<-|Hk].
  - rewrite delete_other; [done|]. by intros ->.
  - pose proof (cluster_frames k k' Hk). by rewrite delete_frame.
Qed.

(** * What a read returns *)

Lemma kept_get k key (w : W) o w' :
  kube_get (Kube := cluster_kube k) key w = (Ok o, w') → kept k w !! key = Some o.
Proof. apply get_ok. Qed.
Lemma kept_not_found k key (w : W) e w' :
  kube_get (Kube := cluster_kube k) key w = (Err e, w') →
  errors_as is_not_found e = true → kept k w !! key = None.
Proof. apply get_not_found. Qed.
Lemma kept_list k opts (w : W) l w' o :
  kube_list (Kube := cluster_kube k) opts w = (Ok l, w') →
  o ∈ l ↔ matches opts o = true ∧ kept k w !! object_key o = Some o.
Proof. apply list_elem. Qed.
Lemma kept_key k (w : W) key o : kept k w !! key = Some o → object_key o = key.
Proof. apply stored_key. Qed.

Lemma kept_create k (o : object k) (w w' : W) :
  kube_create (Kube := cluster_kube k) o w = (Ok tt, w') →
  kept k w !! object_key o = None ∧ kept k w' = <[object_key o := admitted o]> (kept k w).
Proof.
  intros E. pose proof (create_stored o w) as Hs. rewrite E in Hs. by destruct Hs as [[_ ?]|?].
Qed.

(** Updating an object that stays as deleted, or not, as it was. *)
Lemma kept_update k (o old : object k) (w : W) r w' :
  kube_update (Kube := cluster_kube k) o w = (r, w') → kept k w !! object_key o = Some old →
  om_deleted (om o) = om_deleted (om old) → om_Finalizers (om o) = om_Finalizers (om old) →
  took r (kept k w) (<[object_key o := admitted o]> (kept k w)) (kept k w').
Proof.
  intros E Ho Hd Hf. apply update_took in E. by rewrite (settle_live _ _ old) in E.
Qed.

(** * Creating or updating *)

(** Mutations that change nothing themselves and keep the identity of the
    object. *)
Definition sets {k} (f : object k → eff W (object k)) : Prop :=
  (∀ x, quiet (f x)) ∧
  ∀ x w y w', f x w = (Ok y, w') →
    object_key y = object_key x ∧ om_deleted (om y) = om_deleted (om x) ∧
    om_Finalizers (om y) = om_Finalizers (om x).

Lemma sets_mutation k (f : object k → eff W (object k)) :
  sets f → mutation (H0 := cluster_kube k) f.
Proof.
  intros [Hq Hk] x w r w' E. split.
  - specialize (Hq x w). rewrite E in Hq. by apply (changes_only_quiet _ _ k) in Hq.
  - intros y ->. by eapply Hk.
Qed.

Lemma upsert_spec k (o : object k) f (w : W) r w' :
  sets f → create_or_update (Upsert := cluster_upsert k) o f w = (r, w') →
  (∀ k', k' ≠ k → kept k' w' = kept k' w) ∧
  let base := default o (kept k w !! object_key o) in
  match r with
  | Ok x =>
      kept k w' = <[object_key o := x]> (kept k w) ∧
      ∃ w1 w2 y, f base w1 = (Ok y, w2) ∧
        (x = admitted y ∨ x = y ∧ kept k w !! object_key o = Some y)
  | Err _ =>
      kept k w' = kept k w ∨
      ∃ w1 w2 y, f base w1 = (Ok y, w2) ∧ kept k w' = <[object_key o := admitted y]> (kept k w)
  end.
Proof.
  intros Hf E. split.
  - intros k' Hk. pose proof (cluster_upsert_frames k k' (not_eq_sym Hk)) as [Hu].
    specialize (Hu o f w). rewrite E in Hu. apply Hu.
    intros x w1. apply (changes_only_quiet _ _ k'), Hf.
  - apply sets_mutation in Hf. exact (upserted o f w r w' Hf E).
Qed.

Lemma stays_upsert P k (o : object k) f :
  sets f → P k (object_key o) → stays P (create_or_update (Upsert := cluster_upsert k) o f).
Proof.
  intros Hf HP w k' key Hn. destruct (create_or_update o f w) as [r w'] eqn:E.
  apply upsert_spec in E as [Hfr Hr]; [|done].
  destruct (decide (k' = k)) as [->|Hk]; [|by rewrite Hfr].
  assert (object_key o ≠ key) by (by intros <-). simpl in *. destruct r as [x|e].
  - destruct Hr as [-> _]. by rewrite lookup_insert_ne.
  - destruct Hr as [->|(? & ? & ? & _ & ->)]; by rewrite ?lookup_insert_ne.
Qed.

(** What an upsert returns has the key it was asked for. *)
Lemma upsert_key k (o : object k) f (w : W) x w' :
  sets f → create_or_update (Upsert := cluster_upsert k) o f w = (Ok x, w') →
  object_key x = object_key o.
Proof.
  intros Hf E. apply upsert_spec in E as (_ & _ & w1 & w2 & y & Ey & Hx); [|done].
  destruct Hf as [_ Hf]. destruct (Hf _ _ _ _ Ey) as [Hk _].
  assert (Hb : object_key (default o (kept k w !! object_key o)) = object_key o).
  { destruct (kept k w !! object_key o) as [old|] eqn:Ho; [|done]. by eapply stored_key. }
  rewrite Hb in Hk. destruct Hx as [->|[-> _]]; [|done].
  unfold object_key in *. by rewrite admitted_om.
Qed.

(** Objects are as the server has admitted them. *)
Definition settled (k : kind) (w : W) : Prop :=
  map_Forall (λ _ (x : object k), admitted x = x) (kept k w).

(** A mutation after which the server would store the object again as it is
    changes nothing, whether it succeeds or not. *)
Lemma upsert_again k (o : object k) f (w : W) r w' x :
  sets f → kept k w !! object_key o = Some x →
  (∀ w1 y w2, f x w1 = (Ok y, w2) → admitted y = x) →
  create_or_update (Upsert := cluster_upsert k) o f w = (r, w') →
  (∀ k', kept k' w' = kept k' w) ∧ ∀ z, r = Ok z → z = x.
Proof.
  intros Hf Hx Hy E. apply upsert_spec in E as [Hfr Hr]; [|done].
  rewrite Hx in Hr. cbn [default from_option] in Hr. unfold id in Hr.
  assert (Hz : ∀ z, r = Ok z → z = x).
  { intros z ->. destruct Hr as (_ & w1 & w2 & y & Ey & [->|[-> [= <-]]]); [|done]. by eapply Hy. }
  assert (Hk : kept k w' = kept k w).
  { destruct r as [z|e].
    - destruct Hr as [-> _]. rewrite (Hz z eq_refl). by apply insert_id.
    - destruct Hr as [->|(w1 & w2 & y & Ey & ->)]; [done|]. rewrite (Hy _ _ _ Ey). by apply insert_id. }
  split; [|done]. intros k'. destruct (decide (k' = k)) as [->|Hne]; [done|by apply Hfr].
Qed.

(** Worlds with the same objects. *)
Definition same (w w' : W) : Prop := ∀ k, kept k w' = kept k w.
Lemma same_trans w w' w'' : same w w' → same w' w'' → same w w''.
Proof. intros Ha Hb k. by rewrite Hb, Ha. Qed.
Lemma same_wrap {A} msg (m : eff W A) w : same w (m w).2 → same w (ewrap msg m w).2.
Proof. unfold ewrap. by destruct (m w). Qed.
Lemma same_upsert k (o : object k) f (w : W) x :
  sets f → kept k w !! object_key o = Some x →
  (∀ w1 y w2, f x w1 = (Ok y, w2) → admitted y = x) →
  same w (create_or_update (Upsert := cluster_upsert k) o f w).2.
Proof.
  intros Hf Hx Hy. destruct (create_or_update o f w) as [r w'] eqn:E.
  by apply (upsert_again _ _ _ _ _ _ x) in E as [Hk _].
Qed.

(** A mutation that sets the object to the same whatever the server has made
    of it leaves one for which [upsert_again] applies. *)
Lemma upsert_refills k (o : object k) (g : object k → object k) (w : W) x w' :
  sets (λ x, eret (Ok (g x))) → (∀ b, g (admitted (g b)) = g b) → settled k w →
  create_or_update (Upsert := cluster_upsert k) o (λ x, eret (Ok (g x))) w = (Ok x, w') →
  admitted (g x) = x ∧ kept k w' !! object_key o = Some x.
Proof.
  intros Hf Hg Hs E. apply upsert_spec in E as (_ & Hk & w1 & w2 & y & Ey & Hx); [|done].
  rewrite Hk, lookup_insert_eq. split; [|done]. apply eret_ok in Ey as [<- _].
  destruct Hx as [->|[-> Ho]]; [by rewrite Hg|].
  set (base := default o (kept k w !! object_key o)) in *.
  assert (Hb : g base = base) by (unfold base at 2; by rewrite Ho).
  rewrite Hb in *. rewrite Hb. by apply (Hs _ _ Ho).
Qed.

Lemma sets_ret k (f : object k → object k) :
  (∀ x, om_Name (om (f x)) = om_Name (om x) ∧ om_Namespace (om (f x)) = om_Namespace (om x) ∧
        om_deleted (om (f x)) = om_deleted (om x) ∧
        om_Finalizers (om (f x)) = om_Finalizers (om x)) →
  sets (λ x, eret (Ok (f x))).
Proof.
  intros Hf. split; [intros x; apply stays_ret|]. intros x w y w' [= <- <-].
  destruct (Hf x) as (Hn & Hns & Hd & Hfin). unfold object_key. by rewrite Hn, Hns.
Qed.

Lemma EnsureCreated_stays P k (o : object k) :
  P k (object_key o) → stays P (EnsureCreated (H0 := cluster_kube k) o).
Proof.
  intros HP. apply stays_case; [by apply stays_create|]. intros r. apply stays_ret.
Qed.

(** After [EnsureCreated] succeeds there is an object, the given one when
    there was none. *)
Lemma EnsureCreated_spec k (o : object k) (w : W) b w' :
  EnsureCreated (H0 := cluster_kube k) o w = (Ok b, w') →
  kept k w' !! object_key o = Some (default (admitted o) (kept k w !! object_key o)).
Proof.
  unfold EnsureCreated, ecase, eret. destruct (kube_create o w) as [r w1] eqn:E.
  pose proof (create_stored o w) as Hs. rewrite E in Hs. cbn [fst snd] in Hs.
  destruct r as [[]|e]; intros Hr.
  - injection Hr as <- <-. destruct Hs as [[_ ?]|[Hn Hs]]; [done|].
    unfold kept. rewrite Hs, lookup_insert_eq, Hn. done.
  - destruct (errors_as is_already_exists e) eqn:He; [|done]. injection Hr as <- <-.
    pose proof (create_exists o w e w1 E He) as [old Hold].
    destruct Hs as [[Hs _]|[Hn _]]; [|congruence]. unfold kept. by rewrite Hs, Hold.
Qed.
End cluster.

Notation quiet := (stays (λ _ _, False)).

#[export] Hint Resolve stays_ret : stays.
#[export] Hint Extern 1 (stays _ (ewrap _ _)) => apply stays_wrap : stays.
