(* ===== verification/VMUser.v ===== *)
(** internal/controller/vmuser/victoriametrics_user.go: the VMUser of a
    cluster with its credentials and their propagation; internal/crypto and
    internal/names.

    A range over a Go map visits it in the order [visit] gives.  The cluster
    named in the recorded events ([ClusterRef]) and the events are left out. *)
From S2P Require Import Prelude Strings Env World Kube Promxy Api.
From Stdlib Require Import Ascii.

Open Scope string_scope.
Open Scope Z_scope.

(** * internal/names *)

Definition FNVName (prefix name : string) : string :=
  prefix +:+ "-" +:+ strip_zeros (hex_fixed 8 (fnv32a name)).
Definition Adler32Checksum (name : string) : string := itoa (adler32 name).
Definition Adler32Name (prefix name : string) : string := prefix +:+ "-" +:+ Adler32Checksum name.

(** * internal/crypto *)

Definition charset := "abcdefghijklmnopqrstuvwxyzABCDEFGHIJKLMNOPQRSTUVWXYZ0123456789".

(** A random byte. *)
Class Random (W : Type) := rand_byte : W → result Z * W.

Section crypto.
Context {W : Type} `{Random W}.

Fixpoint random_chars (n : nat) : eff W string :=
  match n with
  | O => eret (Ok "")
  | S n' =>
      do b := rand_byte in
      do r := random_chars n' in
      eret (Ok (String.substring (Z.to_nat (b mod Z.of_nat (String.length charset))) 1 charset +:+ r))
  end.
Definition GeneratePassword (length : Z) : eff W string :=
  if length <=? 0 then eret (Err (EText "length must be positive"))
  else random_chars (Z.to_nat length).
End crypto.

(** * Options *)

Record MCSConfig := { mo_ClusterSelector : LabelSelector; mo_DependsOn : list string }.
Record ExtraLabel := { el_Key : string; el_Value : string }.
Record VMUserConfig := {
  uc_ExtraLabel : option ExtraLabel; uc_ExtraFilters : gmap string string }.
Record CreateOptions := {
  op_Name : string;
  op_Namespace : string;
  op_OwnerReference : option OwnerReference;
  op_ExtraLabels : gmap string string;
  op_MCSConfig : option MCSConfig;
  op_VMUserConfig : option VMUserConfig }.

Definition UsernameKey := "username".
Definition PasswordKey := "password".
Definition passwordLength : Z := 16.

Definition BuildSecretName (name : string) : string := "kof-vmuser-creds-" +:+ name.
Definition BuildMCSName (name : string) : string := "kof-vmuser-propagation-" +:+ name.
Definition BuildVMUserName (name : string) : string := "kof-vmuser-" +:+ name.

(** * Metadata *)

Definition with_labels (ls : gmap string string) (m : ObjectMeta) : ObjectMeta :=
  {| om_Name := om_Name m; om_Namespace := om_Namespace m; om_UID := om_UID m; om_Labels := ls;
     om_Annotations := om_Annotations m; om_Finalizers := om_Finalizers m; om_Owners := om_Owners m;
     om_deleted := om_deleted m |}.
Definition with_owners (os : list OwnerReference) (m : ObjectMeta) : ObjectMeta :=
  {| om_Name := om_Name m; om_Namespace := om_Namespace m; om_UID := om_UID m;
     om_Labels := om_Labels m; om_Annotations := om_Annotations m;
     om_Finalizers := om_Finalizers m; om_Owners := os; om_deleted := om_deleted m |}.

(** The extra labels win over the own one. *)
Definition getLabels (extraLabels : gmap string string) : gmap string string :=
  extraLabels ∪ {[ManagedByLabel := ManagedByValue]}.
Definition getOwnerReferences (ownerRef : option OwnerReference) : list OwnerReference :=
  match ownerRef with None => [] | Some o => [o] end.

Definition maybeVersionedClusterSelector (env : environ) (base : LabelSelector) : LabelSelector :=
  {| ls_MatchLabels :=
       if AutoUpgradeEnabled env then ls_MatchLabels base
       else let version := GetKofVersion env in
            if bool_decide (version = "") then ls_MatchLabels base
            else <[KofVersionLabel := version]> (ls_MatchLabels base);
     ls_MatchExpressions := ls_MatchExpressions base |}.

(** * Targets *)

Definition formatLabelParam (key value : string) : string := key +:+ "=" +:+ value.
Definition formatFilterParams (key value : string) : string :=
  dquote +:+ key +:+ dquote +:+ ":=" +:+ dquote +:+ value +:+ dquote.
(** The form of a filter in a MetricsQL selector. *)
Definition metric_filter (key value : string) : string :=
  key +:+ "=" +:+ dquote +:+ value +:+ dquote.

Record queryArgs := {
  vlSelectArgs : list QueryArg; vlInsertArgs : list QueryArg;
  vmInsertArgs : list QueryArg; vmSelectArgs : list QueryArg;
  vtSelectArgs : list QueryArg; vtInsertArgs : list QueryArg }.
Definition no_args : queryArgs :=
  {| vlSelectArgs := []; vlInsertArgs := []; vmInsertArgs := []; vmSelectArgs := [];
     vtSelectArgs := []; vtInsertArgs := [] |}.

Definition applyExtraLabel (label : option ExtraLabel) (a : queryArgs) : queryArgs :=
  match label with
  | None => a
  | Some l =>
      let labelParam := formatLabelParam (el_Key l) (el_Value l) in
      {| vlSelectArgs := vlSelectArgs a;
         vlInsertArgs := vlInsertArgs a ++ [{| qa_Name := "extra_fields"; qa_Values := [labelParam] |}];
         vmInsertArgs := vmInsertArgs a ++ [{| qa_Name := "extra_label"; qa_Values := [labelParam] |}];
         vmSelectArgs := vmSelectArgs a;
         vtSelectArgs := vtSelectArgs a;
         vtInsertArgs := vtInsertArgs a ++
           [{| qa_Name := "extra_fields";
               qa_Values := [formatLabelParam ("resource_attr:" +:+ el_Key l) (el_Value l)] |}] |}
  end%list.

Section targets.
Context (env : environ) (visit : gmap string string → list (string * string)).

Definition applyExtraFilters (filters : gmap string string) (a : queryArgs) : queryArgs :=
  if bool_decide (size filters = 0%nat) then a
  else
    let kvs := visit filters in
    let vlValues := sort_strings ((λ kv, formatFilterParams kv.1 kv.2) <$> kvs) in
    let vtValues := sort_strings ((λ kv, formatFilterParams ("resource_attr:" +:+ kv.1) kv.2) <$> kvs) in
    let vmValues := sort_strings ((λ kv, metric_filter kv.1 kv.2) <$> kvs) in
    {| vlSelectArgs := vlSelectArgs a ++ [{| qa_Name := "extra_filters"; qa_Values := vlValues |}];
       vlInsertArgs := vlInsertArgs a;
       vmInsertArgs := vmInsertArgs a;
       vmSelectArgs := vmSelectArgs a ++
         [{| qa_Name := "extra_filters"; qa_Values := ["{" +:+ join "," vmValues +:+ "}"] |}];
       vtSelectArgs := vtSelectArgs a ++ [{| qa_Name := "extra_filters"; qa_Values := vtValues |}];
       vtInsertArgs := vtInsertArgs a |}%list.

Definition buildQueryArgs (cfg : option VMUserConfig) : queryArgs :=
  match cfg with
  | None => no_args
  | Some c => applyExtraFilters (uc_ExtraFilters c) (applyExtraLabel (uc_ExtraLabel c) no_args)
  end.

Definition vlSelectPath := "/vls/.*".
Definition vlInsertPath := "/vli/.*".
Definition vlAuditSelectPath := "/vlas/.*".
Definition vlAuditInsertPath := "/vlai/.*".
Definition vmSelectPath := "/vm/select/.*".
Definition vmInsertPath := "/vm/insert/.*".
Definition vtSelectPath := "/vts/.*".
Definition vtInsertPath := "/vti/.*".

Definition target_ref (t : string * string * list QueryArg) : TargetRef :=
  {| tr_Paths := [t.1.1]; tr_URL := t.1.2; tr_DropSrcPathPrefixParts := Some 1; tr_QueryArgs := t.2 |}.
Definition buildTargetRefs (vmUserConfig : option VMUserConfig) : list TargetRef :=
  let a := buildQueryArgs vmUserConfig in
  target_ref <$>
    [(vlAuditSelectPath, GetVLAuditSelectURL env, vlSelectArgs a);
     (vlAuditInsertPath, GetVLAuditInsertURL env, vlInsertArgs a);
     (vlSelectPath, GetVLSelectURL env, vlSelectArgs a);
     (vlInsertPath, GetVLInsertURL env, vlInsertArgs a);
     (vmSelectPath, GetVMSelectURL env, vmSelectArgs a);
     (vmInsertPath, GetVMInsertURL env, vmInsertArgs a);
     (vtSelectPath, GetVTSelectURL env, vtSelectArgs a);
     (vtInsertPath, GetVTInsertURL env, vtInsertArgs a)].
End targets.

(** * The manager *)

Section manager.
Context {W : Type} `{Cluster W} `{Random W}
  (env : environ) (visit : gmap string string → list (string * string)).

(** The mutation of the credentials: a password is generated only when there
    is none. *)
Definition fill_credentials (opts : CreateOptions) (s : Secret) : eff W Secret :=
  do data := (if bool_decide (at_key (se_Data s) PasswordKey = "")
              then do pass := ewrap "failed to generate password" (GeneratePassword passwordLength) in
                   eret (Ok {[UsernameKey := op_Name opts; PasswordKey := pass]})
              else eret (Ok (se_Data s))) in
  eret (Ok {| se_meta := with_owners (getOwnerReferences (op_OwnerReference opts))
                           (with_labels (getLabels (op_ExtraLabels opts)) (se_meta s));
              se_Data := data;
              se_StringData := se_StringData s |}).
Definition copy_credentials (secret s : Secret) : eff W Secret :=
  eret (Ok {| se_meta := with_labels (om_Labels (se_meta secret)) (se_meta s);
              se_Data := se_Data secret;
              se_StringData := se_StringData s |}).

Definition createSecret (opts : CreateOptions) : eff W unit :=
  let secretName := BuildSecretName (op_Name opts) in
  do secret := ewrap "failed to create or update credentials secret"
                 (create_or_update (new_secret (op_Namespace opts) secretName)
                    (fill_credentials opts)) in
  do _ := ewrap "failed to create or update secret in kof namespace"
            (create_or_update (new_secret KofNamespace (om_Name (se_meta secret)))
               (copy_credentials secret)) in
  eret (Ok tt).

Definition vmuser_spec (opts : CreateOptions) : VMUserSpec :=
  {| vs_Username := Some (op_Name opts);
     vs_PasswordRef := Some {| sk_Key := PasswordKey; sk_Name := BuildSecretName (op_Name opts) |};
     vs_TargetRefs := buildTargetRefs env visit (op_VMUserConfig opts) |}.
Definition fill_vmuser (opts : CreateOptions) (u : VMUser) : eff W VMUser :=
  eret (Ok {| vu_meta := with_labels (getLabels (op_ExtraLabels opts))
                           (with_owners (getOwnerReferences (op_OwnerReference opts)) (vu_meta u));
              vu_Spec := vmuser_spec opts |}).
Definition no_vmuser_spec : VMUserSpec :=
  {| vs_Username := None; vs_PasswordRef := None; vs_TargetRefs := [] |}.

Definition createOrUpdateVMUser (opts : CreateOptions) : eff W unit :=
  do _ := ewrap "failed to create or update VMUser"
            (create_or_update
               {| vu_meta := new_meta (op_Namespace opts) (BuildVMUserName (op_Name opts)) ∅;
                  vu_Spec := no_vmuser_spec |}
               (fill_vmuser opts)) in
  eret (Ok tt).

Definition propagation_values (identifier : string) : string :=
  "propagation:" +:+ nl +:+ "  enabled: true" +:+ nl +:+ "  data: |" +:+ nl +:+
  "{{ removeField " +:+ dquote +:+ identifier +:+ dquote +:+ " " +:+ dquote +:+
  "metadata.ownerReferences" +:+ dquote +:+ " | nindent 14 }}" +:+ nl.
Definition propagation_service (name namespace identifier : string) (helm : option ServiceHelmOptions)
    : Service :=
  {| sv_Name := name; sv_Template := GetPropagationTemplateName env; sv_Namespace := namespace;
     sv_Values := propagation_values identifier; sv_HelmOptions := helm |}.
Definition take_ownership : option ServiceHelmOptions :=
  Some {| ho_InstallTakeOwnership := true; ho_UpgradeTakeOwnership := true |}.

Definition vmuser_mcs_spec (opts : CreateOptions) (cfg : MCSConfig) : MultiClusterServiceSpec :=
  let vmuser := BuildVMUserName (op_Name opts) in
  let secret := BuildSecretName (op_Name opts) in
  let ns := op_Namespace opts in
  {| ms_KeepServicesOnSelectorMismatch := true;
     ms_ClusterSelector := maybeVersionedClusterSelector env (mo_ClusterSelector cfg);
     ms_DependsOn := mo_DependsOn cfg;
     ms_Services := [propagation_service vmuser ns "vmuser" take_ownership;
                     propagation_service secret ns "secret" take_ownership];
     ms_TemplateResourceRefs :=
       [{| rr_Identifier := "vmuser"; rr_APIVersion := "operator.victoriametrics.com/v1beta1";
           rr_Kind := "VMUser"; rr_Name := vmuser; rr_Namespace := ns |};
        {| rr_Identifier := "secret"; rr_APIVersion := "v1"; rr_Kind := "Secret";
           rr_Name := secret; rr_Namespace := ns |}] |}.
Definition no_mcs_spec : MultiClusterServiceSpec :=
  {| ms_KeepServicesOnSelectorMismatch := false;
     ms_ClusterSelector := {| ls_MatchLabels := ∅; ls_MatchExpressions := [] |};
     ms_DependsOn := []; ms_Services := []; ms_TemplateResourceRefs := [] |}.
Definition new_mcs (name : string) : MultiClusterService :=
  {| mc_meta := new_meta "" name ∅; mc_Spec := no_mcs_spec |}.

Definition createOrUpdatePropagationMCS (opts : CreateOptions) (cfg : MCSConfig) : eff W unit :=
  do _ := ewrap "failed to create or update VMUser propagation MultiClusterService"
            (create_or_update (new_mcs (BuildMCSName (op_Name opts))) (λ m, eret (Ok
               {| mc_meta := with_labels (getLabels (op_ExtraLabels opts)) (mc_meta m);
                  mc_Spec := vmuser_mcs_spec opts cfg |}))) in
  eret (Ok tt).

Definition Create (opts : CreateOptions) : eff W unit :=
  let name := op_Name opts in
  if bool_decide (name = "") then eret (Err (EText "name cannot be empty"))
  else
    do _ := ewrap ("failed to create secret for VMUser " +:+ name) (createSecret opts) in
    do _ := ewrap ("failed to create or update VMUser " +:+ name) (createOrUpdateVMUser opts) in
    match op_MCSConfig opts with
    | Some cfg =>
        if RegionlessEnabled env then eret (Ok tt)
        else ewrap ("failed to create propagation MultiClusterService for VMUser " +:+ name)
               (createOrUpdatePropagationMCS opts cfg)
    | None => eret (Ok tt)
    end.

(** * Deleting *)

Definition deleteResource (O : Type) `{Kube W O} (name namespace : string) : eff W unit :=
  ecase (kube_delete (O := O) (namespace, name)) (λ r, eret
    match r with
    | Ok _ => Ok tt
    | Err e => if errors_as is_not_found e then Ok tt else Err e
    end).

(** The client ignores the namespace of a kind that has none. *)
Definition Delete (name namespace : string) : eff W unit :=
  if bool_decide (name = "") then eret (Err (EText "name cannot be empty"))
  else
    let mcs := BuildMCSName name in
    let vmuser := BuildVMUserName name in
    let secret := BuildSecretName name in
    do _ := ewrap ("failed to delete MultiClusterService for VMUser " +:+ mcs)
              (deleteResource MultiClusterService mcs "") in
    do _ := ewrap ("failed to delete VMUser " +:+ vmuser) (deleteResource VMUser vmuser namespace) in
    do _ := ewrap ("failed to delete secret for VMUser " +:+ secret +:+ "/" +:+ namespace)
              (deleteResource Secret secret namespace) in
    ewrap ("failed to delete secret for VMUser " +:+ secret +:+ "/" +:+ KofNamespace)
      (deleteResource Secret secret KofNamespace).
End manager.
