(* ===== verification/VMUserFacts.v ===== *)
(** Facts about the VMUsers of clusters: the targets are confined to the
    tenant, the credentials survive updates, and only the objects of the user
    change. *)
From S2P Require Import Prelude Strings Env World Kube Promxy Api ApiFacts VMUser.

Open Scope string_scope.

(** * Confinement *)

Inductive component := Logs | AuditLogs | Metrics | Traces.

Definition select_path (c : component) : string :=
  match c with
  | Logs => "/vls/.*" | AuditLogs => "/vlas/.*" | Metrics => "/vm/select/.*" | Traces => "/vts/.*"
  end.
Definition insert_path (c : component) : string :=
  match c with
  | Logs => "/vli/.*" | AuditLogs => "/vlai/.*" | Metrics => "/vm/insert/.*" | Traces => "/vti/.*"
  end.

(** The argument restricts a read to the records with the value. *)
Definition restricts (c : component) (k v : string) (a : QueryArg) : Prop :=
  qa_Name a = "extra_filters" ∧
  match c with
  | Logs | AuditLogs => formatFilterParams k v ∈ qa_Values a
  | Traces => formatFilterParams ("resource_attr:" +:+ k) v ∈ qa_Values a
  | Metrics => ∃ l, qa_Values a = ["{" +:+ join "," l +:+ "}"] ∧ metric_filter k v ∈ l
  end.
(** The argument labels what is written. *)
Definition labels_with (c : component) (k v : string) (a : QueryArg) : Prop :=
  match c with
  | Metrics => qa_Name a = "extra_label" ∧ qa_Values a = [formatLabelParam k v]
  | Logs | AuditLogs => qa_Name a = "extra_fields" ∧ qa_Values a = [formatLabelParam k v]
  | Traces => qa_Name a = "extra_fields" ∧
              qa_Values a = [formatLabelParam ("resource_attr:" +:+ k) v]
  end.

(** Reads through the target are restricted by the one argument there is, and
    writes labelled. *)
Definition confined (k v : string) (t : TargetRef) : Prop :=
  (∃ c a, tr_Paths t = [select_path c] ∧ tr_QueryArgs t = [a] ∧ restricts c k v a) ∨
  (∃ c a, tr_Paths t = [insert_path c] ∧ tr_QueryArgs t = [a] ∧ labels_with c k v a).

Lemma buildTargetRefs_confined env visit cfg k v :
  (∀ m, visit m ≡ₚ map_to_list m) →
  uc_ExtraFilters cfg !! k = Some v → uc_ExtraLabel cfg = Some {| el_Key := k; el_Value := v |} →
  Forall (confined k v) (buildTargetRefs env visit (Some cfg)).
Proof.
  intros Hv Hf Hl. unfold buildTargetRefs, buildQueryArgs. rewrite Hl.
  assert (Hin : (k, v) ∈ visit (uc_ExtraFilters cfg)) by (by rewrite Hv, elem_of_map_to_list).
  assert (Hm : ∀ g : string → string → string,
    g k v ∈ sort_strings ((λ kv, g kv.1 kv.2) <$> visit (uc_ExtraFilters cfg))).
  { intros g. rewrite elem_of_sort_strings. apply list_elem_of_fmap. by exists (k, v). }
  unfold applyExtraFilters. rewrite bool_decide_eq_false_2.
  2: { rewrite map_size_empty_iff. intros He. by rewrite He, lookup_empty in Hf. }
  repeat (apply Forall_cons; split); [..|by apply Forall_nil].
  all: [> left; exists AuditLogs | right; exists AuditLogs | left; exists Logs | right; exists Logs
        | left; exists Metrics | right; exists Metrics | left; exists Traces | right; exists Traces].
  all: eexists; (split; [reflexivity|]); (split; [reflexivity|]); (split; [reflexivity|]); simpl;
       try reflexivity; try apply Hm.
  - eexists. split; [reflexivity|]. apply Hm.
  - apply (Hm (λ k v, formatFilterParams ("resource_attr:" +:+ k) v)).
Qed.

(** There is one target for each component and direction. *)
Lemma buildTargetRefs_paths env visit cfg :
  tr_Paths <$> buildTargetRefs env visit cfg =
  [[select_path AuditLogs]; [insert_path AuditLogs]; [select_path Logs]; [insert_path Logs];
   [select_path Metrics]; [insert_path Metrics]; [select_path Traces]; [insert_path Traces]].
Proof. reflexivity. Qed.

(** The targets do not depend on the order in which the filters are visited. *)
Lemma buildTargetRefs_order env visit visit' cfg :
  (∀ m, visit m ≡ₚ visit' m) → buildTargetRefs env visit cfg = buildTargetRefs env visit' cfg.
Proof.
  intros Hv. assert (buildQueryArgs visit cfg = buildQueryArgs visit' cfg) as Ha;
    [|unfold buildTargetRefs; by rewrite Ha].
  destruct cfg as [c|]; [|done].
  unfold buildQueryArgs, applyExtraFilters. case_bool_decide; [done|]. cbv zeta.
  assert (Hs : ∀ g : string * string → string,
    sort_strings (g <$> visit (uc_ExtraFilters c)) = sort_strings (g <$> visit' (uc_ExtraFilters c)))
    by (intros g; apply sort_strings_proper, fmap_Permutation, Hv).
  by rewrite !Hs.
Qed.

(** Different filters have different forms. *)
Example filters_example :
  (λ t, (tr_Paths t, tr_QueryArgs t)) <$>
    buildTargetRefs ∅ map_to_list (Some {| uc_ExtraLabel := Some {| el_Key := "tenant"; el_Value := "a" |};
                                           uc_ExtraFilters := {["tenant" := "a"]} |}) !! 4%nat =
  Some (["/vm/select/.*"],
        [{| qa_Name := "extra_filters"; qa_Values := ["{tenant=" +:+ dquote +:+ "a" +:+ dquote +:+ "}"] |}]).
Proof. reflexivity. Qed.

(** * Passwords *)

Class RandomLaws (W : Type) `{Cluster W} `{Random W} := {
  random_quiet : quiet rand_byte }.

Lemma charset_pick b :
  ∃ a, String.substring (Z.to_nat (b mod Z.of_nat (String.length charset))) 1 charset = String a ""
       ∧ a ∈ String.list_ascii_of_string charset.
Proof.
  assert (Hr : (0 <= b mod Z.of_nat (String.length charset) < Z.of_nat (String.length charset))%Z)
    by (apply Z.mod_pos_bound; simpl; lia).
  assert (Hn : (Z.to_nat (b mod Z.of_nat (String.length charset)) < String.length charset)%nat) by lia.
  revert Hn. generalize (Z.to_nat (b mod Z.of_nat (String.length charset))). clear.
  generalize charset. intros s. induction s as [|a s IH]; simpl; [lia|]. intros [|n] Hn.
  - exists a. split; [by destruct s|]. by left.
  - destruct (IH n) as (c & -> & Hc); [lia|]. exists c. split; [done|]. by right.
Qed.

Section password.
Context {W : Type} `{ClusterLaws W} `{Random W} `{!RandomLaws W}.

Lemma random_chars_quiet n : quiet (random_chars n).
Proof.
  induction n as [|n IH]; [apply stays_ret|]. apply stays_bind; [apply random_quiet|]. intros b.
  apply stays_bind; [done|]. intros r. apply stays_ret.
Qed.

(** A password has the length asked for and characters of the set only. *)
Lemma GeneratePassword_spec n (w : W) p w' :
  GeneratePassword n w = (Ok p, w') →
  Z.of_nat (String.length p) = n ∧ (0 < n)%Z ∧
  ∀ a, a ∈ String.list_ascii_of_string p → a ∈ String.list_ascii_of_string charset.
Proof.
  unfold GeneratePassword. destruct (n <=? 0)%Z eqn:Hn; [done|]. intros E.
  cut (String.length p = Z.to_nat n ∧
       ∀ a, a ∈ String.list_ascii_of_string p → a ∈ String.list_ascii_of_string charset).
  { intros [Hl Hc]. split_and!; [lia..|done]. }
  revert w p w' E. induction (Z.to_nat n) as [|m IH]; intros w p w' E.
  - injection E as <- <-. split; [done|]. intros a Ha. by apply not_elem_of_nil in Ha.
  - apply ebind_ok in E as (b & w1 & _ & E). apply ebind_ok in E as (r & w2 & Hr & E).
    apply eret_ok in E as [<- <-]. apply IH in Hr as [Hl Hc].
    destruct (charset_pick b) as (a & -> & Ha).
    change (String a "" +:+ r) with (String a r). split; [cbn; by rewrite <-Hl|].
    cbn [String.list_ascii_of_string]. intros c [->|Hin]%elem_of_cons; auto.
Qed.

Lemma GeneratePassword_quiet n : quiet (GeneratePassword n).
Proof. unfold GeneratePassword. case_match; [apply stays_ret|apply random_chars_quiet]. Qed.
End password.

(** * Creating *)

(** The objects of a user. *)
Definition vmuser_objects (name namespace : string) (k : kind) (key : string * string) : Prop :=
  match k with
  | KSecret => key = (namespace, BuildSecretName name) ∨ key = (KofNamespace, BuildSecretName name)
  | KVMUser => key = (namespace, BuildVMUserName name)
  | KMultiClusterService => key = ("", BuildMCSName name)
  | _ => False
  end.

(** An API server never hands out the write-only part of a secret. *)
Definition secrets_read_back `{Cluster W} (w : W) : Prop :=
  map_Forall (λ _ s, se_StringData s = ∅) (kept KSecret w : objects_of Secret).

Section manager.
Context {W : Type} `{HC : ClusterLaws W} `{!Random W} `{!RandomLaws W}
  (env : environ) (visit : gmap string string → list (string * string)).

Lemma fill_credentials_sets opts : sets (k := KSecret) (fill_credentials opts).
Proof.
  split.
  - intros x. apply stays_bind; [|intros; apply stays_ret].
    case_bool_decide; [|apply stays_ret]. apply stays_bind; [|intros; apply stays_ret].
    apply stays_wrap, GeneratePassword_quiet.
  - intros x w y w' E. apply ebind_ok in E as (data & w1 & _ & E).
    by apply eret_ok in E as [<- <-].
Qed.

(** A secret is filled with a password that is not empty, the one it had if
    it had any. *)
Lemma fill_credentials_data opts x (w : W) y w' :
  fill_credentials opts x w = (Ok y, w') →
  at_key (se_Data y) PasswordKey ≠ "" ∧
  (at_key (se_Data x) PasswordKey ≠ "" → se_Data y = se_Data x) ∧
  se_StringData y = se_StringData x ∧ om_Labels (se_meta y) = getLabels (op_ExtraLabels opts).
Proof.
  intros E. apply ebind_ok in E as (data & w1 & E1 & E). apply eret_ok in E as [<- <-]. cbn.
  revert E1. case_bool_decide as Hp.
  - intros E1. apply ebind_ok in E1 as (p & w2 & Hpw & E1). apply eret_ok in E1 as [<- <-].
    apply ewrap_ok, GeneratePassword_spec in Hpw as (Hl & _ & _).
    split; [|done]. unfold at_key. rewrite lookup_insert_ne, lookup_singleton_eq by done. simpl.
    intros ->. done.
  - intros E1. apply eret_ok in E1 as [<- <-]. done.
Qed.

Lemma copy_credentials_sets s : sets (k := KSecret) (copy_credentials s).
Proof. by apply (sets_ret KSecret (λ x, _)). Qed.
Lemma fill_vmuser_sets opts : sets (k := KVMUser) (fill_vmuser env visit opts).
Proof. by apply (sets_ret KVMUser (λ x, _)). Qed.

Lemma createSecret_stays P opts :
  P KSecret (op_Namespace opts, BuildSecretName (op_Name opts)) →
  P KSecret (KofNamespace, BuildSecretName (op_Name opts)) → stays P (createSecret opts).
Proof.
  intros HP HPk. unfold createSecret. cbv zeta.
  apply (stays_bind_post _ (λ s : Secret, om_Name (se_meta s) = BuildSecretName (op_Name opts))).
  - by apply stays_wrap, (stays_upsert _ KSecret); [apply fill_credentials_sets|].
  - intros w s w' E. apply ewrap_ok, (upsert_key KSecret) in E; [|apply fill_credentials_sets].
    by injection E.
  - intros s Hs. apply stays_bind; [|intros; apply stays_ret].
    apply stays_wrap, (stays_upsert _ KSecret); [apply copy_credentials_sets|].
    unfold object_key. cbn. by rewrite Hs.
Qed.

(** Whatever calls fail, creating a user changes only its own objects. *)
Lemma Create_stays opts :
  stays (vmuser_objects (op_Name opts) (op_Namespace opts)) (Create env visit opts).
Proof.
  unfold Create. cbv zeta. case_bool_decide; [apply stays_ret|].
  apply stays_bind; [by apply stays_wrap, createSecret_stays; [left|right]|]. intros _. apply stays_bind.
  { apply stays_wrap, stays_bind; [|intros; apply stays_ret].
    apply stays_wrap, (stays_upsert _ KVMUser); [apply fill_vmuser_sets|done]. }
  intros _. destruct (op_MCSConfig opts); [|apply stays_ret]. case_match; [apply stays_ret|].
  apply stays_wrap, stays_bind; [|intros; apply stays_ret].
  apply stays_wrap, (stays_upsert _ KMultiClusterService); [|done].
  by apply (sets_ret KMultiClusterService (λ x, _)).
Qed.

Lemma deleteResource_stays P k name namespace :
  P k (namespace, name) → stays P (@deleteResource W (object k) _ (cluster_kube k) name namespace).
Proof. intros HP. apply stays_case; [by apply stays_delete|]. intros r. apply stays_ret. Qed.

Lemma Delete_stays name namespace : stays (vmuser_objects name namespace) (Delete name namespace).
Proof.
  unfold Delete. cbv zeta. case_bool_decide; [apply stays_ret|].
  repeat (apply stays_bind; [apply stays_wrap|intros _]).
  - by apply (deleteResource_stays _ KMultiClusterService).
  - by apply (deleteResource_stays _ KVMUser).
  - apply (deleteResource_stays _ KSecret). by left.
  - apply stays_wrap, (deleteResource_stays _ KSecret). by right.
Qed.
(** ** What is there after success *)

Lemma secret_kept (y x : Secret) (P : Prop) :
  se_StringData y = ∅ → (x = admitted y ∨ x = y ∧ P) →
  se_Data x = se_Data y ∧ se_StringData x = ∅.
Proof.
  intros Hs [->|[-> _]]; [|done]. cbn. by rewrite Hs, map_empty_union.
Qed.

Lemma base_StringData (w : W) key (s : Secret) :
  secrets_read_back w → se_StringData s = ∅ →
  se_StringData (default s ((kept KSecret w : objects_of Secret) !! key)) = ∅.
Proof.
  intros Hw Hs. destruct ((kept KSecret w : objects_of Secret) !! key) as [o|] eqn:E; [|done].
  by apply (Hw _ _ E).
Qed.

(** Both secrets hold the credentials: the ones there were, when there was a
    password. *)
Definition has_credentials (opts : CreateOptions) (w w' : W) : Prop :=
  ∃ s c : Secret,
    kept KSecret w' !! (op_Namespace opts, BuildSecretName (op_Name opts)) = Some s ∧
    kept KSecret w' !! (KofNamespace, BuildSecretName (op_Name opts)) = Some c ∧
    at_key (se_Data s) PasswordKey ≠ "" ∧ se_Data c = se_Data s ∧
    ∀ old : Secret,
      kept KSecret w !! (op_Namespace opts, BuildSecretName (op_Name opts)) = Some old →
      at_key (se_Data old) PasswordKey ≠ "" → se_Data s = se_Data old.

Lemma createSecret_spec opts (w w' : W) :
  secrets_read_back w → createSecret opts w = (Ok tt, w') →
  has_credentials opts w w'.
Proof.
  intros Hw E. unfold createSecret in E. cbv zeta in E.
  apply ebind_ok in E as (x & w1 & E1 & E). apply ebind_ok in E as (x2 & w2 & E2 & E).
  apply eret_ok in E as [_ <-]. apply ewrap_ok in E1, E2.
  pose proof (upsert_key KSecret _ _ _ _ _ (fill_credentials_sets opts) E1) as Hk1.
  apply (upsert_spec KSecret) in E1 as (_ & Hs1 & wa & wb & y & Ey & Hx);
    [|apply fill_credentials_sets].
  assert (Hn : om_Name (se_meta x) = BuildSecretName (op_Name opts)) by (by injection Hk1).
  rewrite Hn in E2.
  apply (upsert_spec KSecret) in E2 as (_ & Hs2 & wc & wd & y2 & Ey2 & Hx2);
    [|apply copy_credentials_sets].
  apply fill_credentials_data in Ey as (Hp & Hold & Hsd & _).
  change (object_key (new_secret (op_Namespace opts) (BuildSecretName (op_Name opts))))
    with (op_Namespace opts, BuildSecretName (op_Name opts)) in *.
  change (object_key (new_secret KofNamespace (BuildSecretName (op_Name opts))))
    with (KofNamespace, BuildSecretName (op_Name opts)) in *.
  rewrite base_StringData in Hsd by done.
  apply secret_kept in Hx as [Hdx Hsx]; [|done].
  apply eret_ok in Ey2 as [Hy2 _].
  assert (Hd2 : se_Data x2 = se_Data x ∧ se_StringData x2 = ∅).
  { rewrite <-Hy2 in Hx2. apply secret_kept in Hx2; [done|]. cbn [se_StringData].
    rewrite Hs1. destruct (decide ((op_Namespace opts, BuildSecretName (op_Name opts)) =
                                   (KofNamespace, BuildSecretName (op_Name opts)))) as [<-|Hne].
    - by rewrite lookup_insert_eq.
    - rewrite lookup_insert_ne by done. by apply base_StringData. }
  destruct Hd2 as [Hd2 _].
  assert (Hkeep : ∀ old : Secret,
      kept KSecret w !! (op_Namespace opts, BuildSecretName (op_Name opts)) = Some old →
      at_key (se_Data old) PasswordKey ≠ "" → se_Data x = se_Data old).
  { intros old Ho Hpo. rewrite Hdx. cbn [object] in *. rewrite Ho in Hold. by apply Hold. }
  rewrite <-Hdx in Hp.
  destruct (decide ((op_Namespace opts, BuildSecretName (op_Name opts)) =
                    (KofNamespace, BuildSecretName (op_Name opts)))) as [He|Hne].
  - exists x2, x2. rewrite Hs2, He, lookup_insert_eq. rewrite <-He, Hd2. auto.
  - exists x, x2. rewrite Hs2, lookup_insert_eq, lookup_insert_ne, Hs1, lookup_insert_eq by done.
    auto.
Qed.

Definition has_user (opts : CreateOptions) (w : W) : Prop :=
  ∃ u : VMUser,
    kept KVMUser w !! (op_Namespace opts, BuildVMUserName (op_Name opts)) = Some u ∧
    (vu_Spec u = vmuser_spec env visit opts ∨ vu_Spec u = admit_vmuser (vmuser_spec env visit opts)) ∧
    om_Labels (vu_meta u) = getLabels (op_ExtraLabels opts) ∧
    om_Owners (vu_meta u) = getOwnerReferences (op_OwnerReference opts).

Lemma createOrUpdateVMUser_spec opts (w w' : W) :
  createOrUpdateVMUser env visit opts w = (Ok tt, w') →
  has_user opts w' ∧ ∀ k, k ≠ KVMUser → kept k w' = kept k w.
Proof.
  intros E. apply ebind_ok in E as (x & w1 & E1 & E). apply eret_ok in E as [_ <-].
  apply ewrap_ok, (upsert_spec KVMUser) in E1 as (Hf & Hs & wa & wb & y & Ey & Hx);
    [|apply fill_vmuser_sets].
  split; [|done]. exists x. rewrite Hs, lookup_insert_eq. apply eret_ok in Ey as [<- _].
  split; [done|]. destruct Hx as [->|[-> _]]; auto.
Qed.

Definition is_propagated (opts : CreateOptions) (w : W) : Prop :=
  ∀ cfg, op_MCSConfig opts = Some cfg → RegionlessEnabled env = false →
  ∃ m : MultiClusterService,
    kept KMultiClusterService w !! ("", BuildMCSName (op_Name opts)) = Some m ∧
    (mc_Spec m = vmuser_mcs_spec env opts cfg ∨ mc_Spec m = admit_mcs (vmuser_mcs_spec env opts cfg)).

Lemma createOrUpdatePropagationMCS_spec opts cfg (w w' : W) :
  createOrUpdatePropagationMCS env opts cfg w = (Ok tt, w') →
  (∃ m : MultiClusterService,
    kept KMultiClusterService w' !! ("", BuildMCSName (op_Name opts)) = Some m ∧
    (mc_Spec m = vmuser_mcs_spec env opts cfg ∨ mc_Spec m = admit_mcs (vmuser_mcs_spec env opts cfg))) ∧
  ∀ k, k ≠ KMultiClusterService → kept k w' = kept k w.
Proof.
  intros E. apply ebind_ok in E as (x & w1 & E1 & E). apply eret_ok in E as [_ <-].
  apply ewrap_ok, (upsert_spec KMultiClusterService) in E1 as (Hf & Hs & wa & wb & y & Ey & Hx);
    [|by apply (sets_ret KMultiClusterService (λ x, _))].
  split; [|done]. exists x. rewrite Hs, lookup_insert_eq. apply eret_ok in Ey as [<- _].
  split; [done|]. destruct Hx as [->|[-> _]]; auto.
Qed.

Lemma Create_spec opts (w w' : W) :
  secrets_read_back w → Create env visit opts w = (Ok tt, w') →
  has_credentials opts w w' ∧ has_user opts w' ∧ is_propagated opts w'.
Proof.
  intros Hw E. unfold Create in E. cbv zeta in E. revert E. case_bool_decide; [done|]. intros E.
  apply ebind_ok in E as ([] & w1 & E1 & E). apply ebind_ok in E as ([] & w2 & E2 & E).
  apply ewrap_ok, createSecret_spec in E1; [|done].
  apply ewrap_ok, createOrUpdateVMUser_spec in E2 as [Hu Hf2].
  assert (Hcred : has_credentials opts w w2).
  { unfold has_credentials. by rewrite (Hf2 KSecret). }
  unfold is_propagated. destruct (op_MCSConfig opts) as [cfg|].
  2: { apply eret_ok in E as [_ <-]. split_and!; naive_solver. }
  destruct (RegionlessEnabled env).
  { apply eret_ok in E as [_ <-]. split_and!; naive_solver. }
  apply ewrap_ok, createOrUpdatePropagationMCS_spec in E as [Hm Hf3]. split_and!.
  - unfold has_credentials. by rewrite (Hf3 KSecret).
  - unfold has_user. by rewrite (Hf3 KVMUser).
  - by intros cfg' [= <-] _.
Qed.

(** What creating the user promises. *)
Definition created (opts : CreateOptions) (w w' : W) : Prop :=
  has_credentials opts w w' ∧ has_user opts w' ∧ is_propagated opts w'.


(** ** Creating again *)

Lemma settled_read_back (w : W) : settled KSecret w → secrets_read_back w.
Proof. intros Hs key s Hk. by rewrite <-(Hs key s Hk). Qed.

Lemma secret_settled (s : Secret) : se_StringData s = ∅ → @admitted Secret _ s = s.
Proof.
  intros Hs. destruct s as [m d sd]. cbn in Hs. subst.
  cbn. unfold Promxy.admitted_secret. cbn. by rewrite map_empty_union.
Qed.

Lemma fill_credentials_again opts b (w0 : W) y w1 (w2 : W) z w3 :
  fill_credentials opts b w0 = (Ok y, w1) → fill_credentials opts y w2 = (Ok z, w3) → z = y.
Proof.
  intros E E2. destruct (fill_credentials_data _ _ _ _ _ E) as (Hp & _).
  apply ebind_ok in E2 as (data & w4 & Ed & E2). rewrite bool_decide_eq_false_2 in Ed by done.
  apply eret_ok in Ed as [<- _]. apply eret_ok in E2 as [<- _].
  apply ebind_ok in E as (data & w5 & _ & E). by apply eret_ok in E as [<- _].
Qed.

(** The secrets are such that creating them again leaves them. *)
Definition secrets_rest (opts : CreateOptions) (w : W) : Prop :=
  ∃ x c : Secret,
    kept KSecret w !! (op_Namespace opts, BuildSecretName (op_Name opts)) = Some x ∧
    kept KSecret w !! (KofNamespace, BuildSecretName (op_Name opts)) = Some c ∧
    om_Name (se_meta x) = BuildSecretName (op_Name opts) ∧
    (∀ (w1 : W) y w2, fill_credentials opts x w1 = (Ok y, w2) → @admitted Secret _ y = x) ∧
    (∀ (w1 : W) y w2, copy_credentials x c w1 = (Ok y, w2) → @admitted Secret _ y = c).

Lemma createSecret_rests opts (w w' : W) :
  settled KSecret w → createSecret opts w = (Ok tt, w') → secrets_rest opts w'.
Proof.
  intros Hset E. pose proof (settled_read_back _ Hset) as Hw. unfold createSecret in E. cbv zeta in E.
  apply ebind_ok in E as (x & w1 & E1 & E). apply ebind_ok in E as (x2 & w2 & E2 & E).
  apply eret_ok in E as [_ <-]. apply ewrap_ok in E1, E2.
  pose proof (upsert_key KSecret _ _ _ _ _ (fill_credentials_sets opts) E1) as Hk1.
  apply (upsert_spec KSecret) in E1 as (_ & Hs1 & wa & wb & y & Ey & Hx);
    [|apply fill_credentials_sets].
  assert (Hn : om_Name (se_meta x) = BuildSecretName (op_Name opts)) by (by injection Hk1).
  rewrite Hn in E2.
  apply (upsert_spec KSecret) in E2 as (_ & Hs2 & wc & wd & y2 & Ey2 & Hx2);
    [|apply copy_credentials_sets].
  change (object_key (new_secret (op_Namespace opts) (BuildSecretName (op_Name opts))))
    with (op_Namespace opts, BuildSecretName (op_Name opts)) in *.
  change (object_key (new_secret KofNamespace (BuildSecretName (op_Name opts))))
    with (KofNamespace, BuildSecretName (op_Name opts)) in *.
  pose proof (fill_credentials_data _ _ _ _ _ Ey) as (_ & _ & Hsd & _).
  rewrite base_StringData in Hsd by done.
  assert (x = y) as ->.
  { destruct Hx as [->|[-> _]]; [|done]. by apply secret_settled. }
  apply eret_ok in Ey2 as [Hy2 _].
  set (base2 := default _ _) in Hy2.
  assert (Hb2 : se_StringData base2 = ∅).
  { unfold base2. rewrite Hs1. 
    destruct (decide ((op_Namespace opts, BuildSecretName (op_Name opts)) =
                      (KofNamespace, BuildSecretName (op_Name opts)))) as [<-|Hne].
    - by rewrite lookup_insert_eq.
    - rewrite lookup_insert_ne by done. by apply base_StringData. }
  assert (x2 = y2) as ->.
  { destruct Hx2 as [->|[-> _]]; [|done]. apply secret_settled. by rewrite <-Hy2. }
  assert (Hfill : ∀ (w1 : W) z w2, fill_credentials opts y w1 = (Ok z, w2) → @admitted Secret _ z = y).
  { intros w3 z w4 Ez. rewrite (fill_credentials_again _ _ _ _ _ _ _ _ Ey Ez). by apply secret_settled. }
  assert (Hcopy : ∀ (w1 : W) z w2, copy_credentials y y2 w1 = (Ok z, w2) → @admitted Secret _ z = y2).
  { intros w3 z w4 Ez. apply eret_ok in Ez as [<- _]. rewrite secret_settled; rewrite <-Hy2; done. }
  destruct (decide ((op_Namespace opts, BuildSecretName (op_Name opts)) =
                    (KofNamespace, BuildSecretName (op_Name opts)))) as [He|Hne].
  - assert (y2 = y) as ->.
    { rewrite <-Hy2. unfold base2. rewrite Hs1, He, lookup_insert_eq. by destruct y as [[] ? ?]. }
    exists y, y. by rewrite Hs2, He, lookup_insert_eq.
  - exists y, y2. rewrite Hs2, lookup_insert_eq, lookup_insert_ne, Hs1, lookup_insert_eq by done. done.
Qed.

Lemma createSecret_again opts (w : W) : secrets_rest opts w → same w (createSecret opts w).2.
Proof.
  intros (x & c & Hx & Hc & Hn & Hf & Hcopy). unfold createSecret. cbv zeta.
  apply (relates_bind same); [apply same_trans|..].
  { by apply same_wrap, (same_upsert KSecret _ _ _ x); [apply fill_credentials_sets|..]. }
  intros z w1 E1. apply ewrap_ok in E1.
  apply (upsert_again KSecret _ _ _ _ _ x (fill_credentials_sets opts)) in E1 as [Hk1 Hz]; [|done..].
  rewrite (Hz z eq_refl), Hn. apply (relates_bind same); [apply same_trans|..|done].
  apply same_wrap, (same_upsert KSecret _ _ _ c); [apply copy_credentials_sets| |done].
  rewrite Hk1. exact Hc.
Qed.

(** The VMUser and the propagation are such that creating them again leaves
    them. *)
Definition user_rests (opts : CreateOptions) (w : W) : Prop :=
  ∃ u : VMUser,
    kept KVMUser w !! (op_Namespace opts, BuildVMUserName (op_Name opts)) = Some u ∧
    ∀ (w1 : W) y w2, fill_vmuser env visit opts u w1 = (Ok y, w2) → @admitted VMUser _ y = u.
Definition fill_mcs (opts : CreateOptions) (cfg : MCSConfig) (m : MultiClusterService) : eff W MultiClusterService :=
  eret (Ok {| mc_meta := with_labels (getLabels (op_ExtraLabels opts)) (mc_meta m);
              mc_Spec := vmuser_mcs_spec env opts cfg |}).
Definition mcs_rests (opts : CreateOptions) (cfg : MCSConfig) (w : W) : Prop :=
  ∃ m : MultiClusterService,
    kept KMultiClusterService w !! ("", BuildMCSName (op_Name opts)) = Some m ∧
    ∀ (w1 : W) y w2, fill_mcs opts cfg m w1 = (Ok y, w2) → @admitted MultiClusterService _ y = m.

Lemma createOrUpdateVMUser_rests opts (w w' : W) :
  settled KVMUser w → createOrUpdateVMUser env visit opts w = (Ok tt, w') → user_rests opts w'.
Proof.
  intros Hs E. apply ebind_ok in E as (x & w1 & E1 & E). apply eret_ok in E as [_ <-].
  apply ewrap_ok, (upsert_refills KVMUser) in E1 as [Hx Hk]; [|apply fill_vmuser_sets|done..].
  exists x. split; [exact Hk|]. intros w2 y w3 Ey. apply eret_ok in Ey as [<- _]. exact Hx.
Qed.
Lemma createOrUpdateVMUser_again opts (w : W) :
  user_rests opts w → same w (createOrUpdateVMUser env visit opts w).2.
Proof.
  intros (u & Hu & Hf). unfold createOrUpdateVMUser.
  apply (relates_bind same); [apply same_trans|..|done].
  by apply same_wrap, (same_upsert KVMUser _ _ _ u); [apply fill_vmuser_sets|..].
Qed.
Lemma createOrUpdatePropagationMCS_rests opts cfg (w w' : W) :
  settled KMultiClusterService w → createOrUpdatePropagationMCS env opts cfg w = (Ok tt, w') → mcs_rests opts cfg w'.
Proof.
  intros Hs E. apply ebind_ok in E as (x & w1 & E1 & E). apply eret_ok in E as [_ <-].
  apply ewrap_ok, (upsert_refills KMultiClusterService) in E1 as [Hx Hk];
    [|by apply (sets_ret KMultiClusterService (λ x, _))|done..].
  exists x. split; [exact Hk|]. intros w2 y w3 Ey. apply eret_ok in Ey as [<- _]. exact Hx.
Qed.
Lemma createOrUpdatePropagationMCS_again opts cfg (w : W) :
  mcs_rests opts cfg w → same w (createOrUpdatePropagationMCS env opts cfg w).2.
Proof.
  intros (m & Hm & Hf). unfold createOrUpdatePropagationMCS.
  apply (relates_bind same); [apply same_trans|..|done].
  apply same_wrap, (same_upsert KMultiClusterService _ _ _ m); [|done..].
  by apply (sets_ret KMultiClusterService (λ x, _)).
Qed.

Lemma createSecret_frame opts (w : W) r w' :
  createSecret opts w = (r, w') → ∀ k, k ≠ KSecret → kept k w' = kept k w.
Proof.
  intros E k Hk. apply map_eq. intros key.
  pose proof (createSecret_stays (λ k _, k = KSecret) opts eq_refl eq_refl w) as Hs.
  rewrite E in Hs. by apply Hs.
Qed.

Lemma secrets_rest_kept opts (w w' : W) :
  kept KSecret w' = kept KSecret w → secrets_rest opts w → secrets_rest opts w'.
Proof. intros Hk. unfold secrets_rest. by rewrite Hk. Qed.
Lemma user_rests_kept opts (w w' : W) :
  kept KVMUser w' = kept KVMUser w → user_rests opts w → user_rests opts w'.
Proof. intros Hk. unfold user_rests. by rewrite Hk. Qed.
Lemma mcs_rests_kept opts cfg (w w' : W) :
  kept KMultiClusterService w' = kept KMultiClusterService w → mcs_rests opts cfg w →
  mcs_rests opts cfg w'.
Proof. intros Hk. unfold mcs_rests. by rewrite Hk. Qed.

(** A successful creation leaves a world in which all three rest. *)
Lemma Create_rests opts (w w' : W) :
  (∀ k, settled k w) → Create env visit opts w = (Ok tt, w') →
  secrets_rest opts w' ∧ user_rests opts w' ∧
  ∀ cfg, op_MCSConfig opts = Some cfg → RegionlessEnabled env = false → mcs_rests opts cfg w'.
Proof.
  intros Hset E. unfold Create in E. cbv zeta in E. revert E. case_bool_decide; [done|]. intros E.
  apply ebind_ok in E as ([] & w1 & E1 & E). apply ebind_ok in E as ([] & w2 & E2 & E).
  apply ewrap_ok in E1, E2. pose proof (createSecret_rests _ _ _ (Hset KSecret) E1) as Hr1.
  pose proof (createSecret_frame _ _ _ _ E1) as Hf1.
  assert (Hset2 : settled KVMUser w1) by (unfold settled; rewrite Hf1 by done; apply Hset).
  pose proof (createOrUpdateVMUser_rests _ _ _ Hset2 E2) as Hr2.
  apply createOrUpdateVMUser_spec in E2 as [_ Hf2].
  apply (secrets_rest_kept _ _ w2) in Hr1; [|by apply Hf2].
  destruct (op_MCSConfig opts) as [cfg|].
  2: { apply eret_ok in E as [_ <-]. by split_and!. }
  destruct (RegionlessEnabled env).
  { apply eret_ok in E as [_ <-]. by split_and!. }
  apply ewrap_ok in E. 
  assert (Hset3 : settled KMultiClusterService w2).
  { unfold settled. rewrite Hf2, Hf1 by done. apply Hset. }
  pose proof (createOrUpdatePropagationMCS_rests _ _ _ _ Hset3 E) as Hr3.
  apply createOrUpdatePropagationMCS_spec in E as [_ Hf3]. split_and!.
  - by eapply secrets_rest_kept; [apply Hf3|].
  - by eapply user_rests_kept; [apply Hf3|].
  - by intros cfg' [= <-] _.
Qed.

(** C22: Creating a user is idempotent: once it has succeeded, creating it
    again, whatever calls fail then, leaves every object as it is; in
    particular the password stays. *)
Theorem vmuser_create_again opts (w w' : W) :
  (∀ k, settled k w) → Create env visit opts w = (Ok tt, w') →
  same w' (Create env visit opts w').2.
Proof.
  intros Hset E. apply Create_rests in E as (Hs & Hu & Hm); [|done].
  unfold Create. cbv zeta. case_bool_decide; [done|].
  apply (relates_bind same); [apply same_trans|by apply same_wrap, createSecret_again|].
  intros [] w1 E1. apply ewrap_ok in E1. pose proof (createSecret_again _ _ Hs) as Hk1.
  rewrite E1 in Hk1. cbn [snd] in Hk1. apply (user_rests_kept _ _ w1) in Hu; [|apply Hk1].
  apply (relates_bind same); [apply same_trans|by apply same_wrap, createOrUpdateVMUser_again|].
  intros [] w2 E2. apply ewrap_ok in E2. pose proof (createOrUpdateVMUser_again _ _ Hu) as Hk2.
  rewrite E2 in Hk2. cbn [snd] in Hk2.
  destruct (op_MCSConfig opts) as [cfg|]; [|done]. destruct (RegionlessEnabled env) eqn:Hr; [done|].
  apply same_wrap, createOrUpdatePropagationMCS_again, (mcs_rests_kept _ _ w'); [|auto].
  by rewrite Hk2, Hk1.
Qed.

End manager.
