(* ===== verification/Region.v ===== *)
(** internal/k8s: cluster deployments, their kubeconfig secrets and the KCM
    regions they are in (cluster_deployment.go, cluster_template.go, region.go,
    secrets.go, meta.go, constants.go). *)
From S2P Require Import Prelude Strings World Kube Server Promxy Api.

Open Scope string_scope.

(** * Errors *)

(** [fmt.Errorf("msg: %v", err)]: the cause is only text. *)
Definition flat_err {A} (msg : string) (r : result A) : result A :=
  match r with Ok a => Ok a | Err e => Err (EText (msg +:+ ": " +:+ error_text e)) end.
Definition ewrapv {W A} (msg : string) (m : eff W A) : eff W A :=
  λ w, let (r, w') := m w in (flat_err msg r, w').

(** A nil dereference panics; the controller runtime recovers it as an error. *)
Definition nil_dereference : gerror :=
  EText "panic: runtime error: invalid memory address or nil pointer dereference [recovered]".

(** * meta.go *)

Definition IsAdopted (cd : ClusterDeployment) : bool := has_prefix "adopted-" (cd_Template cd).

(** The owner is of a registered type, so its kind is found in the scheme. *)
Definition GetOwnerReference {O} `{Object O} (apiVersion kind : string) (owner : O) : OwnerReference :=
  {| or_APIVersion := apiVersion; or_Kind := kind; or_Name := om_Name (om owner);
     or_UID := om_UID (om owner) |}.

Definition true_text := "true".

Section k8s.
Context {W : Type} `{Cluster W}
  (** clientcmd.Load: the current context of a kubeconfig. *)
  (load_kubeconfig : string → result string).

(** * cluster_deployment.go and cluster_template.go *)

Definition GetClusterDeployments (opts : list ListOption) : eff W (list ClusterDeployment) :=
  kube_list (O := ClusterDeployment) opts.
Definition GetKofClusterDeployments : eff W (list ClusterDeployment) :=
  GetClusterDeployments [HasLabels [KofClusterRoleLabel]].
Definition GetClusterDeployment (name namespace : string) : eff W ClusterDeployment :=
  kube_get (O := ClusterDeployment) (namespace, name).
Definition GetKofChildClusterDeployments : eff W (list ClusterDeployment) :=
  GetClusterDeployments [MatchingLabels {[KofClusterRoleLabel := KofRoleChild]}].
Definition GetIstioClusterDeployments : eff W (list ClusterDeployment) :=
  GetClusterDeployments [MatchingLabels {[IstioRoleLabel := "member"]}].
Definition GetClusterTemplate (name namespace : string) : eff W ClusterTemplate :=
  kube_get (O := ClusterTemplate) (namespace, name).

(** * secrets.go *)

Definition GetSecret (name namespace : string) : eff W Secret :=
  kube_get (O := Secret) (namespace, name).
Definition GetCloudClusterSecretName (cd : ClusterDeployment) : string :=
  om_Name (cd_meta cd) +:+ "-kubeconfig".
Definition GetAdoptedClusterSecretName (cd : ClusterDeployment) : eff W string :=
  do cred := ewrapv "failed to get credential"
               (kube_get (O := Credential) (om_Namespace (cd_meta cd), cd_Credential cd)) in
  match cred_IdentityRef cred with
  | None => eret (Err nil_dereference)
  | Some (kind, name) =>
      if String.eqb kind "Secret" then eret (Ok name)
      else eret (Err (EText ("unsupported Credential IdentityRef kind " +:+ kind +:+
                             " for adopted cluster")))
  end.
Definition GetKubeconfigSecretName (cd : ClusterDeployment) : eff W string :=
  if IsAdopted cd then GetAdoptedClusterSecretName cd
  else eret (Ok (GetCloudClusterSecretName cd)).
Definition GetKubeconfigFromSecret (secretName namespace : string) : eff W string :=
  do secret := ewrapv ("failed to get secret " +:+ secretName +:+ " in namespace " +:+ namespace)
                 (GetSecret secretName namespace) in
  eret (load_kubeconfig (at_key (se_Data secret) "value")).

(** * region.go *)

Definition CreatedInKCMRegion (cd : ClusterDeployment) : bool :=
  negb (bool_decide (cd_Region cd = "")).

Definition GetKcmRegionClusters : eff W (list ClusterDeployment) :=
  GetClusterDeployments
    [MatchingLabels {[KofClusterRoleLabel := KofRoleRegional; KofKcmRegionLabel := true_text]}].

Definition IsClusterKcmRegion (clusterName namespace : string) : eff W bool :=
  do clusters := ewrapv "failed to get KCM region clusters" GetKcmRegionClusters in
  eret (Ok (existsb (λ c, bool_decide (om_Name (cd_meta c) = clusterName ∧
                                       om_Namespace (cd_meta c) = namespace)) clusters)).

(** A region has no namespace. *)
Definition GetRegion (regionName : string) : eff W Region := kube_get (O := Region) ("", regionName).
Definition GetRegions : eff W (list Region) := kube_list (O := Region) [].
Definition GetCredentials : eff W (list Credential) := kube_list (O := Credential) [].

Definition IsClusterInSameKcmRegion (childName childNamespace regionalName regionalNamespace : string)
    : eff W bool :=
  do regional := ewrapv ("failed to get regional cluster deployment " +:+ regionalNamespace +:+ "/" +:+
                         regionalName)
                   (GetClusterDeployment regionalName regionalNamespace) in
  do child := ewrapv ("failed to get child cluster deployment " +:+ childNamespace +:+ "/" +:+
                      childName)
                (GetClusterDeployment childName childNamespace) in
  if bool_decide (cd_Credential child = cd_Credential regional) then eret (Ok true)
  else
    do region := ewrapv ("failed to get region " +:+ cd_Region child) (GetRegion (cd_Region child)) in
    if bool_decide (re_ClusterDeployment region = Some (regionalName, regionalNamespace))
    then eret (Ok true)
    else match re_KubeConfig region with
         | None => eret (Ok false)
         | Some kubeConfig =>
             do name := ewrapv "failed to get secret name" (GetKubeconfigSecretName regional) in
             eret (Ok (bool_decide (kubeConfig = name)))
         end.

(** The region's own cluster, by its name only, and those with its status. *)
Definition in_region (regionClusterName regionName : string) (cluster : ClusterDeployment) : bool :=
  bool_decide (om_Name (cd_meta cluster) = regionClusterName) ||
  bool_decide (cd_Region cluster = regionName).
Definition GetClusterDeploymentsInSameKcmRegion (cd : ClusterDeployment)
    : eff W (list ClusterDeployment) :=
  if bool_decide (cd_Region cd = "") then
    eret (Err (EText ("cluster deployment is not in KCM region: " +:+ om_Namespace (cd_meta cd) +:+
                      "/" +:+ om_Name (cd_meta cd))))
  else
    do clusters := ewrapv "failed to list cluster deployments" (GetClusterDeployments []) in
    do region := ewrapv ("failed to get region " +:+ cd_Region cd) (GetRegion (cd_Region cd)) in
    let named := match re_ClusterDeployment region with Some (name, _) => name | None => "" end in
    do regionClusterName :=
      (match re_KubeConfig region with
       | Some secret =>
           if bool_decide (secret = "") then eret (Ok named)
           else ewrapv ("failed to get kubeconfig for region " +:+ om_Name (re_meta region))
                  (GetKubeconfigFromSecret secret (om_Namespace (re_meta region)))
       | None => eret (Ok named)
       end) in
    eret (Ok (filter (λ c, in_region regionClusterName (cd_Region cd) c = true) clusters)).

Record CachedClusterData := {
  cache_Regions : option (list Region); cache_Clusters : option (list ClusterDeployment) }.

Definition region_of (cd : ClusterDeployment) (secretName : string) (r : Region) : bool :=
  bool_decide (re_ClusterDeployment r = Some (om_Name (cd_meta cd), om_Namespace (cd_meta cd))) ||
  bool_decide (re_KubeConfig r = Some secretName).
Definition GetRegionByClusterDeployment (cd : ClusterDeployment) (cache : CachedClusterData)
    : eff W (option Region) :=
  do regions := (match cache_Regions cache with
                 | Some l => eret (Ok l)
                 | None => ewrapv "failed to list regions" GetRegions
                 end) in
  do secretName := ewrapv ("failed to get secret name for cluster deployment " +:+
                           om_Namespace (cd_meta cd) +:+ "/" +:+ om_Name (cd_meta cd))
                     (GetKubeconfigSecretName cd) in
  eret (Ok (head (filter (λ r, region_of cd secretName r = true) regions))).

Definition GetKcmRegionChildClusters (regionCluster : ClusterDeployment) (cache : CachedClusterData)
    : eff W (list ClusterDeployment) :=
  do region := ewrap ("failed to get region by cluster deployment " +:+
                      om_Namespace (cd_meta regionCluster) +:+ "/" +:+ om_Name (cd_meta regionCluster))
                 (GetRegionByClusterDeployment regionCluster cache) in
  match region with
  | None => eret (Err (EText ("region for cluster " +:+ om_Name (cd_meta regionCluster) +:+ " not found")))
  | Some region =>
      do clusters := (match cache_Clusters cache with
                      | Some l => eret (Ok l)
                      | None => ewrap "failed to get kof child cluster deployments"
                                  GetKofChildClusterDeployments
                      end) in
      eret (Ok (filter (λ c, cd_Region c = om_Name (re_meta region)) clusters))
  end.
End k8s.
