(* ===== verification/ConfigData.v ===== *)
(** The data regional and child clusters share through ConfigMaps:
    internal/controller/clusterdeployment_config.go,
    clusterdeployment_kof_cluster_role.go, configmap_cluster_data.go and
    cloud/cloud_name.go. *)
From S2P Require Import Prelude Strings Env World Kube Alerts Api Region.
From Stdlib Require Import Ascii.

Open Scope string_scope.

(** * clusterdeployment_config.go *)

Record ClusterDeploymentConfig := {
  dc_ClusterAnnotations : gmap string string;
  dc_Region : string;
  dc_Location : string;
  dc_IdentityRegion : string;
  dc_VSphereDatacenter : string }.

(** * cloud_name.go *)

Definition AWS := "aws".
Definition Azure := "azure".
Definition Docker := "docker".
Definition GCP := "gcp".
Definition OpenStack := "openstack".
Definition VSphere := "vsphere".
Definition Remote := "k0sproject-k0smotron".
Definition Adopted := "internal".
Definition IsValidName (cloud : string) : bool :=
  bool_decide (cloud ∈ [AWS; Azure; Docker; GCP; OpenStack; VSphere; Remote; Adopted]).

(** * clusterdeployment_kof_cluster_role.go *)

Definition KofRegionalClusterNameLabel := "k0rdent.mirantis.com/kof-regional-cluster-name".
Definition KofRegionalClusterNamespaceLabel := "k0rdent.mirantis.com/kof-regional-cluster-namespace".
Definition KofRegionlessLabel := "k0rdent.mirantis.com/kof-regionless".

Definition KofRegionalDomainAnnotation := "k0rdent.mirantis.com/kof-regional-domain".
Definition KofRegionalHTTPClientConfigAnnotation := "k0rdent.mirantis.com/kof-http-config".
Definition WriteMetricsAnnotation := "k0rdent.mirantis.com/kof-write-metrics-endpoint".
Definition ReadMetricsAnnotation := "k0rdent.mirantis.com/kof-read-metrics-endpoint".
Definition WriteLogsAnnotation := "k0rdent.mirantis.com/kof-write-logs-endpoint".
Definition ReadLogsAnnotation := "k0rdent.mirantis.com/kof-read-logs-endpoint".
Definition WriteAuditLogsAnnotation := "k0rdent.mirantis.com/kof-write-audit-logs-endpoint".
Definition ReadAuditLogsAnnotation := "k0rdent.mirantis.com/kof-read-audit-logs-endpoint".
Definition WriteTracesAnnotation := "k0rdent.mirantis.com/kof-write-traces-endpoint".
Definition ReadTracesAnnotation := "k0rdent.mirantis.com/kof-read-traces-endpoint".

Definition defaultEndpoints : gmap string string := list_to_map
  [(WriteMetricsAnnotation, "https://vmauth.%s/vm/insert/0/prometheus/api/v1/write");
   (ReadMetricsAnnotation, "https://vmauth.%s/vm/select/0/prometheus");
   (WriteLogsAnnotation, "https://vmauth.%s/vli/insert/opentelemetry/v1/logs");
   (ReadLogsAnnotation, "https://vmauth.%s/vls");
   (WriteAuditLogsAnnotation, "https://vmauth.%s/vlai/insert/opentelemetry/v1/logs");
   (ReadAuditLogsAnnotation, "https://vmauth.%s/vlas");
   (WriteTracesAnnotation, "https://vmauth.%s/vti/insert/opentelemetry/v1/traces");
   (ReadTracesAnnotation, "https://vmauth.%s/vts")].
Definition istioEndpoints : gmap string string := list_to_map
  [(ReadLogsAnnotation, "http://%s-vmauth:8427/vls");
   (ReadAuditLogsAnnotation, "http://%s-vmauth:8427/vlas");
   (ReadMetricsAnnotation, "http://%s-vmauth:8427/vm/select/0/prometheus");
   (ReadTracesAnnotation, "http://%s-vmauth:8427/vts")].
Definition regionlessEndpoints : gmap string string := list_to_map
  [(ReadLogsAnnotation, "http://vmauth-cluster:8427/vls");
   (ReadAuditLogsAnnotation, "http://vmauth-cluster:8427/vlas");
   (ReadMetricsAnnotation, "http://vmauth-cluster:8427/vm/select/0/prometheus");
   (ReadTracesAnnotation, "http://vmauth-cluster:8427/vts")].

Definition RegionalClusterNameKey := "regional_cluster_name".
Definition RegionalClusterNamespaceKey := "regional_cluster_namespace".
Definition RegionalClusterCloudKey := "regional_cluster_cloud".
Definition RegionalIstioRoleKey := "istio_role".
Definition RegionalKofHTTPConfigKey := "kof_http_config".
Definition ReadMetricsKey := "read_metrics_endpoint".
Definition ReadLogsKey := "read_logs_endpoint".
Definition ReadTracesKey := "read_traces_endpoint".
Definition WriteMetricsKey := "write_metrics_endpoint".
Definition WriteLogsKey := "write_logs_endpoint".
Definition ReadAuditLogsKey := "read_audit_logs_endpoint".
Definition WriteAuditLogsKey := "write_audit_logs_endpoint".
Definition WriteTracesKey := "write_traces_endpoint".
Definition AwsRegionKey := "aws_region".
Definition AzureLocationKey := "azure_location".
Definition OpenstackRegionKey := "openstack_region".
Definition VSphereDatacenterKey := "vsphere_datacenter".

(** [fmt.Sprintf] of one string; the formats have no verb but one [%s], and
    the format of a key that is absent is empty. *)
Fixpoint sprintf_s (format x : string) : string :=
  match format with
  | EmptyString => "%!(EXTRA string=" +:+ x +:+ ")"
  | String "%" (String "s" r) => x +:+ r
  | String a r => String a (sprintf_s r x)
  end.

Definition getDerivedEndpoint (endpointAnnotation clusterName domain : string) (isIstio : bool) : string :=
  if isIstio then sprintf_s (at_key istioEndpoints endpointAnnotation) clusterName
  else sprintf_s (at_key defaultEndpoints endpointAnnotation) domain.

Definition getEndpoint (endpointAnnotation : string) (cd : ClusterDeployment)
    (config : ClusterDeploymentConfig) : result string :=
  let isIstio := HasLabel IstioRoleLabel (om_Labels (cd_meta cd)) in
  let annotations := dc_ClusterAnnotations config in
  match annotations !! endpointAnnotation with
  | Some endpoint => Ok endpoint
  | None =>
      if negb isIstio && negb (HasLabel KofRegionalDomainAnnotation annotations) then
        Err (EText "neither endpoint nor regional domain is set")
      else Ok (getDerivedEndpoint endpointAnnotation (om_Name (cd_meta cd))
                 (at_key annotations KofRegionalDomainAnnotation) isIstio)
  end.

Definition locationIsTheSame (cloudName : string) (c1 c2 : ClusterDeploymentConfig) : bool :=
  if String.eqb cloudName Adopted then false
  else if String.eqb cloudName AWS then String.eqb (dc_Region c1) (dc_Region c2)
  else if String.eqb cloudName Azure then String.eqb (dc_Location c1) (dc_Location c2)
  else if String.eqb cloudName Docker then true
  else if String.eqb cloudName OpenStack then
    String.eqb (dc_IdentityRegion c1) (dc_IdentityRegion c2)
  else if String.eqb cloudName Remote then false
  else if String.eqb cloudName VSphere then
    String.eqb (dc_VSphereDatacenter c1) (dc_VSphereDatacenter c2)
  else false.

(** The cloud named by a provider "infrastructure-<cloud>". *)
Definition provider_cloud (provider : string) : option string :=
  match cut_char "-" provider with
  | Some (prefix, cloudName) =>
      if String.eqb prefix "infrastructure" && IsValidName cloudName then Some cloudName else None
  | None => None
  end.

Section cloud.
Context {W : Type} `{Cluster W}
  (** yaml.Unmarshal into a ClusterDeploymentConfig. *)
  (yaml_config : string → result ClusterDeploymentConfig).

Definition ReadClusterDeploymentConfig (configYaml : string) : result ClusterDeploymentConfig :=
  yaml_config configYaml.
(** [ReadClusterDeploymentConfig(cd.Spec.Config.Raw)]. *)
Definition read_config (cd : ClusterDeployment) : result ClusterDeploymentConfig :=
  match cd_Config cd with
  | Some raw => ReadClusterDeploymentConfig raw
  | None => Err nil_dereference
  end.

Definition getCloud (cd : ClusterDeployment) : eff W string :=
  do clusterTemplate := ewrap "failed to get cluster template"
    (GetClusterTemplate (cd_Template cd) (om_Namespace (cd_meta cd))) in
  eret (match head (omap provider_cloud (ct_Providers clusterTemplate)) with
        | Some cloudName => Ok cloudName
        | None => Err (EUnknownCloud (cd_Template cd))
        end).

(** * configmap_cluster_data.go *)

Record ConfigData := {
  da_RegionalClusterName : string;
  da_RegionalClusterNamespace : string;
  da_RegionalClusterCloud : string;
  da_IstioRole : string;
  da_RegionalHTTPClientConfig : string;
  da_ReadMetricsEndpoint : string;
  da_ReadLogsEndpoint : string;
  da_ReadAuditLogsEndpoint : string;
  da_ReadTracesEndpoint : string;
  da_WriteMetricsEndpoint : string;
  da_WriteLogsEndpoint : string;
  da_WriteAuditLogsEndpoint : string;
  da_WriteTracesEndpoint : string;
  da_AWSRegion : string;
  da_AzureLocation : string;
  da_OpenstackRegion : string;
  da_VSphereDatacenter : string }.

(** The write endpoints are left out for an Istio cluster. *)
Definition config_data (cd : ClusterDeployment) (config : ClusterDeploymentConfig) (cloud : string)
    : result ConfigData :=
  try rm := getEndpoint ReadMetricsAnnotation cd config in
  try rl := getEndpoint ReadLogsAnnotation cd config in
  try ra := getEndpoint ReadAuditLogsAnnotation cd config in
  try rt := getEndpoint ReadTracesAnnotation cd config in
  let data role wm wl wa wt :=
    {| da_RegionalClusterName := om_Name (cd_meta cd);
       da_RegionalClusterNamespace := om_Namespace (cd_meta cd);
       da_RegionalClusterCloud := cloud;
       da_IstioRole := role;
       da_RegionalHTTPClientConfig :=
         at_key (om_Annotations (cd_meta cd)) KofRegionalHTTPClientConfigAnnotation;
       da_ReadMetricsEndpoint := rm; da_ReadLogsEndpoint := rl;
       da_ReadAuditLogsEndpoint := ra; da_ReadTracesEndpoint := rt;
       da_WriteMetricsEndpoint := wm; da_WriteLogsEndpoint := wl;
       da_WriteAuditLogsEndpoint := wa; da_WriteTracesEndpoint := wt;
       da_AWSRegion := dc_Region config;
       da_AzureLocation := dc_Location config;
       da_OpenstackRegion := dc_IdentityRegion config;
       da_VSphereDatacenter := dc_VSphereDatacenter config |} in
  match om_Labels (cd_meta cd) !! IstioRoleLabel with
  | Some role => Ok (data role "" "" "" "")
  | None =>
      try wm := getEndpoint WriteMetricsAnnotation cd config in
      try wl := getEndpoint WriteLogsAnnotation cd config in
      try wa := getEndpoint WriteAuditLogsAnnotation cd config in
      try wt := getEndpoint WriteTracesAnnotation cd config in
      Ok (data "" wm wl wa wt)
  end.
Definition NewConfigDataFromClusterDeployment (cd : ClusterDeployment) : eff W ConfigData :=
  do config := eret (flat_err "failed to read cluster deployment config" (read_config cd)) in
  do childCloud := ewrapv "failed to get child cluster cloud" (getCloud cd) in
  eret (config_data cd config childCloud).
End cloud.

Definition NewRegionlessConfigData (env : environ) (isIstio : bool)
    (managementClusterName managementClusterNamespace : string) : ConfigData :=
  let derived a := getDerivedEndpoint a managementClusterName (GetRegionlessDomain env) isIstio in
  let written a := if isIstio then "" else derived a in
  {| da_RegionalClusterName := managementClusterName;
     da_RegionalClusterNamespace := managementClusterNamespace;
     da_RegionalClusterCloud := "";
     da_IstioRole := if isIstio then "member" else "";
     da_RegionalHTTPClientConfig := "";
     da_ReadMetricsEndpoint := derived ReadMetricsAnnotation;
     da_ReadLogsEndpoint := derived ReadLogsAnnotation;
     da_ReadAuditLogsEndpoint := derived ReadAuditLogsAnnotation;
     da_ReadTracesEndpoint := derived ReadTracesAnnotation;
     da_WriteMetricsEndpoint := written WriteMetricsAnnotation;
     da_WriteLogsEndpoint := written WriteLogsAnnotation;
     da_WriteAuditLogsEndpoint := written WriteAuditLogsAnnotation;
     da_WriteTracesEndpoint := written WriteTracesAnnotation;
     da_AWSRegion := ""; da_AzureLocation := ""; da_OpenstackRegion := "";
     da_VSphereDatacenter := "" |}.

(** The data of a ConfigMap; a key that is absent reads as empty. *)
Definition data_of_map (m : gmap string string) : ConfigData :=
  {| da_RegionalClusterName := at_key m RegionalClusterNameKey;
     da_RegionalClusterNamespace := at_key m RegionalClusterNamespaceKey;
     da_RegionalClusterCloud := at_key m RegionalClusterCloudKey;
     da_IstioRole := at_key m RegionalIstioRoleKey;
     da_RegionalHTTPClientConfig := at_key m RegionalKofHTTPConfigKey;
     da_ReadMetricsEndpoint := at_key m ReadMetricsKey;
     da_ReadLogsEndpoint := at_key m ReadLogsKey;
     da_ReadAuditLogsEndpoint := at_key m ReadAuditLogsKey;
     da_ReadTracesEndpoint := at_key m ReadTracesKey;
     da_WriteMetricsEndpoint := at_key m WriteMetricsKey;
     da_WriteLogsEndpoint := at_key m WriteLogsKey;
     da_WriteAuditLogsEndpoint := at_key m WriteAuditLogsKey;
     da_WriteTracesEndpoint := at_key m WriteTracesKey;
     da_AWSRegion := at_key m AwsRegionKey;
     da_AzureLocation := at_key m AzureLocationKey;
     da_OpenstackRegion := at_key m OpenstackRegionKey;
     da_VSphereDatacenter := at_key m VSphereDatacenterKey |}.
Definition NewConfigDataFromConfigMap (cm : ConfigMap) : ConfigData := data_of_map (cm_Data cm).

Definition ToClusterDeploymentConfig (c : ConfigData) : ClusterDeploymentConfig :=
  {| dc_ClusterAnnotations := ∅;
     dc_Region := da_AWSRegion c;
     dc_Location := da_AzureLocation c;
     dc_IdentityRegion := da_OpenstackRegion c;
     dc_VSphereDatacenter := da_VSphereDatacenter c |}.

Definition data_pairs (c : ConfigData) : list (string * string) :=
  [(RegionalClusterNameKey, da_RegionalClusterName c);
   (RegionalClusterNamespaceKey, da_RegionalClusterNamespace c);
   (RegionalClusterCloudKey, da_RegionalClusterCloud c);
   (RegionalIstioRoleKey, da_IstioRole c);
   (RegionalKofHTTPConfigKey, da_RegionalHTTPClientConfig c);
   (ReadMetricsKey, da_ReadMetricsEndpoint c);
   (ReadLogsKey, da_ReadLogsEndpoint c);
   (ReadAuditLogsKey, da_ReadAuditLogsEndpoint c);
   (ReadTracesKey, da_ReadTracesEndpoint c);
   (WriteMetricsKey, da_WriteMetricsEndpoint c);
   (WriteLogsKey, da_WriteLogsEndpoint c);
   (WriteAuditLogsKey, da_WriteAuditLogsEndpoint c);
   (WriteTracesKey, da_WriteTracesEndpoint c);
   (AwsRegionKey, da_AWSRegion c);
   (AzureLocationKey, da_AzureLocation c);
   (OpenstackRegionKey, da_OpenstackRegion c);
   (VSphereDatacenterKey, da_VSphereDatacenter c)].
Definition ToMap (c : ConfigData) : gmap string string := list_to_map (data_pairs c).
