(* ===== verification/Url.v ===== *)
(** url.Parse of net/url, as far as the controllers use its result: scheme,
    host and path, and the parts of the host.  A host with a bracket is parsed
    by the parameter [bracketed]. *)
From S2P Require Import Prelude Strings Server.
From Stdlib Require Import Ascii.

Open Scope string_scope.

Record URL := { u_Scheme : string; u_Host : string; u_Path : string }.

(** A control byte, which no URL may have. *)
Fixpoint has_ctl (s : string) : bool :=
  match s with
  | EmptyString => false
  | String a r => (nat_of_ascii a <? 32)%nat || (nat_of_ascii a =? 127)%nat || has_ctl r
  end.

(** The text before the first [sep]. *)
Definition before (sep : ascii) (s : string) : string :=
  match cut_char sep s with Some (b, _) => b | None => s end.

Definition is_letter (a : ascii) : bool :=
  let n := nat_of_ascii a in
  ((65 <=? n) && (n <=? 90) || (97 <=? n) && (n <=? 122))%nat.
Definition is_digit (a : ascii) : bool :=
  let n := nat_of_ascii a in ((48 <=? n) && (n <=? 57))%nat.
Definition to_lower (a : ascii) : ascii :=
  let n := nat_of_ascii a in if ((65 <=? n) && (n <=? 90))%nat then ascii_of_nat (n + 32) else a.
Fixpoint string_map (f : ascii → ascii) (s : string) : string :=
  match s with EmptyString => "" | String a r => String (f a) (string_map f r) end.
Fixpoint string_forall (p : ascii → bool) (s : string) : bool :=
  match s with EmptyString => true | String a r => p a && string_forall p r end.

(** [getScheme]: the scheme, empty when there is none, and what follows;
    [None] when the URL starts with a colon.  [whole] is the text from its
    start, [acc] the scheme so far. *)
Fixpoint scheme_from (whole acc s : string) : option (string * string) :=
  match s with
  | EmptyString => Some ("", whole)
  | String a r =>
      if is_letter a then scheme_from whole (acc +:+ String a "") r
      else if is_digit a || bool_decide (a ∈ ["+"; "-"; "."]%char) then
        if String.eqb acc "" then Some ("", whole) else scheme_from whole (acc +:+ String a "") r
      else if Ascii.eqb a ":" then if String.eqb acc "" then None else Some (acc, r)
      else Some ("", whole)
  end.
Definition getScheme (s : string) : option (string * string) := scheme_from s "" s.

(** [unescape] of a path, a fragment or user information. *)
Fixpoint path_unescape (s : string) : option string :=
  match s with
  | EmptyString => Some ""
  | String "%" (String a (String b r)) =>
      match hex_val a, hex_val b, path_unescape r with
      | Some x, Some y, Some t => Some (String (ascii_of_nat (x * 16 + y)) t)
      | _, _, _ => None
      end
  | String "%" _ => None
  | String a r => match path_unescape r with Some t => Some (String a t) | None => None end
  end.

(** [unescape] of a host: only bytes beyond ASCII, and the percent sign, may
    be escaped, and ASCII bytes must be ones a host may have. *)
Fixpoint host_unescape (s : string) : option string :=
  match s with
  | EmptyString => Some ""
  | String "%" (String a (String b r)) =>
      match hex_val a, hex_val b, host_unescape r with
      | Some x, Some y, Some t =>
          if (x <? 8)%nat && negb ((x * 16 + y =? 37)%nat) then None
          else Some (String (ascii_of_nat (x * 16 + y)) t)
      | _, _, _ => None
      end
  | String "%" _ => None
  | String a r =>
      if (nat_of_ascii a <? 128)%nat && negb (host_byte a) then None
      else match host_unescape r with Some t => Some (String a t) | None => None end
  end.

Definition userinfo_byte (a : ascii) : bool :=
  is_letter a || is_digit a ||
  bool_decide (a ∈ String.list_ascii_of_string "-._:~!$&'()*+,;=%@").

Section parse.
Context (bracketed : string → option string).

(** [parseHost]: after the first colon there are only digits. *)
Definition parseHost (host : string) : option string :=
  if contains "[" host then bracketed host
  else match cut_char ":" host with
       | Some (_, port) => if string_forall is_digit port then host_unescape host else None
       | None => host_unescape host
       end.

(** The text after the last [sep], and the text before it if there is one. *)
Definition rcut_char (sep : ascii) (s : string) : option string * string :=
  match cut_char sep (String.rev s) with
  | Some (a, b) => (Some (String.rev b), String.rev a)
  | None => (None, s)
  end.
Definition parseAuthority (authority : string) : option string :=
  let (user, host) := rcut_char "@" authority in
  match parseHost host, user with
  | Some h, None => Some h
  | Some h, Some u =>
      if string_forall userinfo_byte u && bool_decide (is_Some (path_unescape u)) then Some h else None
  | None, _ => None
  end.

(** [parse], for the text before the fragment. *)
Definition parse_url (raw : string) : option URL :=
  if has_ctl raw then None
  else if String.eqb raw "*" then Some {| u_Scheme := ""; u_Host := ""; u_Path := "*" |}
  else
    match getScheme raw with
    | None => None
    | Some (scheme0, rest0) =>
        let scheme := string_map to_lower scheme0 in
        let rest := before "?" rest0 in
        if negb (has_prefix "/" rest) then
          if negb (String.eqb scheme "") then Some {| u_Scheme := scheme; u_Host := ""; u_Path := "" |}
          else if contains ":" (before "/" rest) then None
          else match path_unescape rest with
               | Some p => Some {| u_Scheme := scheme; u_Host := ""; u_Path := p |}
               | None => None
               end
        else if (negb (String.eqb scheme "") || negb (has_prefix "///" rest)) && has_prefix "//" rest
        then
          let authority0 := string_drop 2 rest in
          let authority := before "/" authority0 in
          match parseAuthority authority,
                path_unescape (string_drop (String.length authority) authority0) with
          | Some host, Some p => Some {| u_Scheme := scheme; u_Host := host; u_Path := p |}
          | _, _ => None
          end
        else match path_unescape rest with
             | Some p => Some {| u_Scheme := scheme; u_Host := ""; u_Path := p |}
             | None => None
             end
    end.

(** [url.Parse]. *)
Definition url_Parse (raw : string) : option URL :=
  match cut_char "#" raw with
  | None => parse_url raw
  | Some (u, frag) =>
      match parse_url u, path_unescape frag with Some url, Some _ => Some url | _, _ => None end
  end.
End parse.

(** [splitHostPort]: the host without brackets, and the port. *)
Definition strip_brackets (h : string) : string :=
  match h with
  | String "[" r =>
      match String.rev r with String "]" b => String.rev b | _ => h end
  | _ => h
  end.
Definition splitHostPort (hostPort : string) : string * string :=
  match rcut_char ":" hostPort with
  | (Some h, port) => if string_forall is_digit port then (strip_brackets h, port)
                      else (strip_brackets hostPort, "")
  | (None, _) => (strip_brackets hostPort, "")
  end.
Definition Hostname (u : URL) : string := (splitHostPort (u_Host u)).1.
Definition Port (u : URL) : string := (splitHostPort (u_Host u)).2.

Example parse_examples :
  let p := url_Parse (λ h, Some h) in
  (p "https://vmauth.example.com/vm/select/0/prometheus" =
     Some {| u_Scheme := "https"; u_Host := "vmauth.example.com"; u_Path := "/vm/select/0/prometheus" |}) ∧
  (p "HTTP://u:p@h:8427?q=1#f" = Some {| u_Scheme := "http"; u_Host := "h:8427"; u_Path := "" |}) ∧
  p "http://h:80x/" = None ∧ p ":foo" = None ∧ p "h:80" = Some {| u_Scheme := "h"; u_Host := ""; u_Path := "" |} ∧
  p "http://a b/" = None ∧ p "http://a/%zz" = None ∧
  Hostname {| u_Scheme := ""; u_Host := "[::1]:443"; u_Path := "" |} = "::1" ∧
  Port {| u_Scheme := ""; u_Host := "[::1]:443"; u_Path := "" |} = "443".
Proof. vm_compute. repeat split. Qed.
