(* ===== verification/Child.v ===== *)
(** internal/controller/clusterdeployment_kof_cluster_child_role.go: a child
    cluster finds its regional cluster, keeps the data of the regional
    ConfigMap in its own ConfigMap and has a VMUser; and the construction of
    RegionalClusterConfigMap of configmap_cluster_regional.go, which it uses.

    Recorded events and log lines are left out. *)
From S2P Require Import Prelude Strings Env World Kube Server Alerts Promxy Api VMUser Region ConfigData.

Open Scope string_scope.

(** * Names *)

Definition GetConfigMapName (clusterName : string) : string := "kof-cluster-config-" +:+ clusterName.
Definition GetRegionalClusterConfigMapName (clusterName : string) : string := "kof-" +:+ clusterName.
Definition GetChildConfigMapPropagationName (clusterName : string) : string :=
  FNVName "kof-child-config-propagation" clusterName.
Definition GetVMUserName (cmName cmNamespace : string) : string :=
  Adler32Checksum (cmName +:+ "/" +:+ cmNamespace).

(** * Regional ConfigMaps *)

Definition isRegionlessConfigMap (cm : ConfigMap) : bool :=
  bool_decide (at_key (om_Labels (cm_meta cm)) KofRegionlessLabel = "true").

Record RegionalClusterConfigMap := {
  rc_clusterName : string;
  rc_clusterNamespace : string;
  rc_releaseNamespace : string;
  rc_configMap : ConfigMap;
  rc_ownerReference : OwnerReference;
  rc_configData : ConfigData;
  rc_isKcmRegionCluster : bool }.

Section child.
Context {W : Type} `{Cluster W} `{Random W}
  (env : environ) (visit : gmap string string → list (string * string))
  (load_kubeconfig : string → result string)
  (yaml_config : string → result ClusterDeploymentConfig).

Definition NewRegionalClusterConfigMap (cm : ConfigMap) : eff W RegionalClusterConfigMap :=
  let data := NewConfigDataFromConfigMap cm in
  let clusterName := da_RegionalClusterName data in
  let clusterNamespace := da_RegionalClusterNamespace data in
  do releaseNamespace := eret (flat_err "failed to get release namespace" (GetReleaseNamespace env)) in
  do isKcmRegionCluster :=
    (if isRegionlessConfigMap cm then eret (Ok false)
     else ewrapv "failed to determine if cluster is KCM region cluster"
            (IsClusterKcmRegion clusterName clusterNamespace)) in
  eret (Ok {| rc_clusterName := clusterName;
              rc_clusterNamespace := clusterNamespace;
              rc_releaseNamespace := releaseNamespace;
              rc_configMap := cm;
              rc_ownerReference := GetOwnerReference "v1" "ConfigMap" cm;
              rc_configData := data;
              rc_isKcmRegionCluster := isKcmRegionCluster |}).

(** * The role *)

Record ChildClusterRole := {
  ch_clusterDeployment : ClusterDeployment;
  ch_clusterDeploymentConfig : ClusterDeploymentConfig }.
Definition ch_clusterName (c : ChildClusterRole) : string := om_Name (cd_meta (ch_clusterDeployment c)).
Definition ch_clusterNamespace (c : ChildClusterRole) : string :=
  om_Namespace (cd_meta (ch_clusterDeployment c)).
Definition ch_isClusterInRegion (c : ChildClusterRole) : bool :=
  CreatedInKCMRegion (ch_clusterDeployment c).
Definition ch_ownerReference (c : ChildClusterRole) : OwnerReference :=
  GetOwnerReference "k0rdent.mirantis.com/v1beta1" "ClusterDeployment" (ch_clusterDeployment c).
Definition ch_labels (c : ChildClusterRole) : gmap string string :=
  om_Labels (cd_meta (ch_clusterDeployment c)).

Definition NewChildClusterRole (cd : ClusterDeployment) : result ChildClusterRole :=
  try cdConfig := flat_err "failed to read cluster deployment config" (read_config yaml_config cd) in
  Ok {| ch_clusterDeployment := cd; ch_clusterDeploymentConfig := cdConfig |}.

(** [None] is the nil of a ConfigMap that is not found. *)
Definition get_configmap (name namespace : string) : eff W (option ConfigMap) :=
  ecase (kube_get (O := ConfigMap) (namespace, name)) (λ r, eret
    match r with
    | Ok cm => Ok (Some cm)
    | Err e => if errors_as is_not_found e then Ok None else Err e
    end).
Definition GetConfigMap (c : ChildClusterRole) : eff W (option ConfigMap) :=
  get_configmap (GetConfigMapName (ch_clusterName c)) (ch_clusterNamespace c).

Definition isPreviouslyUsedRegionalCluster (childConfigMap : option ConfigMap) (regional : ConfigData)
    : bool :=
  match childConfigMap with
  | None => false
  | Some cm =>
      let namespace := at_key (cm_Data cm) RegionalClusterNamespaceKey in
      bool_decide (at_key (cm_Data cm) RegionalClusterNameKey = da_RegionalClusterName regional) &&
      (bool_decide (namespace = "") || bool_decide (namespace = da_RegionalClusterNamespace regional))
  end.

(** ** Discovery by label *)

Definition check_same_region (c : ChildClusterRole) (name namespace : string) : eff W unit :=
  if ch_isClusterInRegion c then
    do isSameRegion := ewrapv "failed to determine if clusters are in the same KCM region"
      (IsClusterInSameKcmRegion (ch_clusterName c) (ch_clusterNamespace c) name namespace) in
    if isSameRegion : bool then eret (Ok tt)
    else eret (Err (EText "child cluster and regional cluster are not in the same KCM region"))
  else eret (Ok tt).

Definition DiscoverRegionalClusterCmByLabel (c : ChildClusterRole) (regionalClusterName : string)
    : eff W ConfigMap :=
  do regionalClusterNamespace :=
    (if CrossNamespaceEnabled env then
       match ch_labels c !! KofRegionalClusterNamespaceLabel with
       | Some namespace => eret (Ok namespace)
       | None => eret (Err (EText (dquote +:+ KofRegionalClusterNamespaceLabel +:+ dquote +:+
                                   " label is required")))
       end
     else eret (Ok (ch_clusterNamespace c))) in
  do _ := check_same_region c regionalClusterName regionalClusterNamespace in
  kube_get (O := ConfigMap)
    (regionalClusterNamespace, GetRegionalClusterConfigMapName regionalClusterName).

(** ** Discovery by location *)

(** Where the ConfigMaps are looked for. *)
Definition location_options (c : ChildClusterRole) : list ListOption :=
  MatchingLabels {[KofClusterRoleLabel := KofRoleRegional]} ::
  (if RegionlessEnabled env then [InNamespace DefaultSystemNamespace]
   else if CrossNamespaceEnabled env then [] else [InNamespace (ch_clusterNamespace c)]).

(** The regional cluster fits the child. *)
Definition is_candidate (c : ChildClusterRole) (childCloud : string) (inRegion : list ClusterDeployment)
    (regional : ConfigData) : bool :=
  (negb (ch_isClusterInRegion c) ||
   existsb (λ cd, bool_decide (om_Name (cd_meta cd) = da_RegionalClusterName regional)) inRegion) &&
  bool_decide (childCloud = da_RegionalClusterCloud regional) &&
  locationIsTheSame childCloud (ch_clusterDeploymentConfig c) (ToClusterDeploymentConfig regional).

(** The loop: the ConfigMap it returns, or the candidates it has collected. *)
Fixpoint location_loop (fits : ConfigData → bool) (configMap : option ConfigMap)
    (items candidates : list ConfigMap) : ConfigMap + list ConfigMap :=
  match items with
  | [] => inr candidates
  | cm :: r =>
      let data := NewConfigDataFromConfigMap cm in
      if fits data then
        if isPreviouslyUsedRegionalCluster configMap data then inl cm
        else location_loop fits configMap r (candidates ++ [cm])%list
      else location_loop fits configMap r candidates
  end.

Definition choose_by_location (configMap : option ConfigMap) (r : ConfigMap + list ConfigMap)
    : result ConfigMap :=
  match r, configMap with
  | inl cm, _ => Ok cm
  | inr _, Some _ => Err (EText "previously used regional cluster is not discovered in the same location")
  | inr (cm :: _), None => Ok cm
  | inr [], None => Err (EText "regional cluster ConfigMap with matching location is not found")
  end.

Definition DiscoverRegionalClusterConfigMapByLocation (c : ChildClusterRole) : eff W ConfigMap :=
  do items := kube_list (O := ConfigMap) (location_options c) in
  if RegionlessEnabled env then
    eret (match head (filter (λ cm, isRegionlessConfigMap cm = true) items) with
          | Some cm => Ok cm
          | None => Err (EText "regionless is enabled but no regionless ConfigMap was found")
          end)
  else
    ecase (getCloud (ch_clusterDeployment c)) (λ r,
      match r with
      | Err e =>
          eret (Err (EText ((if is_unknown_cloud e
                             then "cannot discover regional cluster by location: "
                             else "failed to get child cluster cloud: ") +:+ error_text e)))
      | Ok childCloud =>
          do configMap := ewrapv "failed to get ConfigMap" (GetConfigMap c) in
          do inRegion :=
            (if ch_isClusterInRegion c then
               ewrapv "failed to get cluster deployments in the same kcm region"
                 (GetClusterDeploymentsInSameKcmRegion load_kubeconfig (ch_clusterDeployment c))
             else eret (Ok [])) in
          eret (choose_by_location configMap
                  (location_loop (is_candidate c childCloud inRegion) configMap items []))
      end).

Definition GetRegionalConfigMap (c : ChildClusterRole) : eff W RegionalClusterConfigMap :=
  do cm := (match ch_labels c !! KofRegionalClusterNameLabel with
            | Some name => DiscoverRegionalClusterCmByLabel c name
            | None => DiscoverRegionalClusterConfigMapByLocation c
            end) in
  NewRegionalClusterConfigMap cm.

(** ** The ConfigMap of the child *)

Definition with_data (data : gmap string string) (cm : ConfigMap) : ConfigMap :=
  {| cm_meta := cm_meta cm; cm_Data := data |}.
Definition UpdateConfigMap (configMap : ConfigMap) (newConfigData : gmap string string) : eff W unit :=
  if decide (cm_Data configMap = newConfigData) then eret (Ok tt)
  else kube_update (with_data newConfigData configMap).

Definition child_configmap (c : ChildClusterRole) (data : gmap string string) : ConfigMap :=
  {| cm_meta := with_owners [ch_ownerReference c]
       (new_meta (ch_clusterNamespace c) (GetConfigMapName (ch_clusterName c))
          {[ManagedByLabel := ManagedByValue; KofClusterRoleLabel := KofRoleChild]});
     cm_Data := data |}.
Definition CreateConfigMap (c : ChildClusterRole) (configData : gmap string string) : eff W unit :=
  do _ := EnsureCreated (child_configmap c configData) in eret (Ok tt).

(** The propagation of an object into the clusters of KCM regions, which the
    child and the regional cluster share. *)
Definition region_mcs_spec (serviceName identifier kindName name namespace : string)
    : MultiClusterServiceSpec :=
  {| ms_KeepServicesOnSelectorMismatch := false;
     ms_ClusterSelector :=
       {| ls_MatchLabels := {[KofKcmRegionLabel := "true"]}; ls_MatchExpressions := [] |};
     ms_DependsOn := [];
     ms_Services := [propagation_service env serviceName KofNamespace identifier None];
     ms_TemplateResourceRefs :=
       [{| rr_Identifier := identifier; rr_APIVersion := "v1"; rr_Kind := kindName; rr_Name := name;
           rr_Namespace := namespace |}] |}.
Definition region_mcs_labels (clusterName clusterNamespace : string) (ls : gmap string string)
    : gmap string string :=
  <["cluster-namespace" := clusterNamespace]>
    (<["cluster-name" := clusterName]> (<[ManagedByLabel := ManagedByValue]> ls)).
Definition upsert_region_mcs (mcsName clusterName clusterNamespace : string)
    (spec : MultiClusterServiceSpec) : eff W MultiClusterService :=
  create_or_update (new_mcs mcsName) (λ m, eret (Ok
    {| mc_meta := with_labels (region_mcs_labels clusterName clusterNamespace (om_Labels (mc_meta m)))
                    (mc_meta m);
       mc_Spec := spec |})).

Definition CreateConfigMapPropagation (c : ChildClusterRole) : eff W unit :=
  let name := ch_clusterName c in
  let namespace := ch_clusterNamespace c in
  if ch_isClusterInRegion c then
    do _ := ewrapv "failed to create or update child ConfigMap propagation"
      (upsert_region_mcs (GetChildConfigMapPropagationName name) name namespace
         (region_mcs_spec (FNVName "kof-child-config" (namespace +:+ "/" +:+ name)) "childConfig"
            "ConfigMap" (GetConfigMapName name) namespace)) in
    eret (Ok tt)
  else eret (Ok tt).

Definition CreateOrUpdateConfigMap (c : ChildClusterRole) (newConfigData : gmap string string)
    : eff W unit :=
  do configMap := ewrapv "failed to get ConfigMap" (GetConfigMap c) in
  do _ := (match configMap with
           | None => ewrapv "failed to create ConfigMap" (CreateConfigMap c newConfigData)
           | Some cm => ewrapv "failed to update ConfigMap" (UpdateConfigMap cm newConfigData)
           end) in
  ewrapv "failed to create ConfigMap propagation" (CreateConfigMapPropagation c).

(** ** The user of the child *)

Definition IsIstioRole (c : ChildClusterRole) : bool := HasLabel IstioRoleLabel (ch_labels c).
Definition GetRegionalMCSName (c : ChildClusterRole) : string :=
  if IsIstioRole c then GetIstioRegionalMCSName env else Env.GetRegionalMCSName env.

Definition tenant_of (c : ChildClusterRole) : string :=
  default DefaultTenantID (ch_labels c !! KofTenantLabel).
Definition child_user_options (c : ChildClusterRole) (regionalClusterName : string) : CreateOptions :=
  {| op_Name := GetVMUserName (GetConfigMapName (ch_clusterName c)) (ch_clusterNamespace c);
     op_Namespace := ch_clusterNamespace c;
     op_OwnerReference := Some (ch_ownerReference c);
     op_ExtraLabels := {[ClusterNameLabel := ch_clusterName c; KofTenantLabel := tenant_of c]};
     op_MCSConfig := Some
       {| mo_ClusterSelector := {| ls_MatchLabels := {[ClusterNameLabel := regionalClusterName]};
                                   ls_MatchExpressions := [] |};
          mo_DependsOn := [GetRegionalMCSName c] |};
     op_VMUserConfig := Some
       {| uc_ExtraLabel := Some {| el_Key := "tenant"; el_Value := tenant_of c |};
          uc_ExtraFilters := {["tenant" := tenant_of c]} |} |}.
Definition CreateVMUserCredentials (c : ChildClusterRole) (regionalClusterName : string) : eff W unit :=
  Create env visit (child_user_options c regionalClusterName).

Definition child_Reconcile (c : ChildClusterRole) : eff W unit :=
  do regional := ewrapv "failed to get regional cluster" (GetRegionalConfigMap c) in
  do _ := ewrapv "failed to create or update config map"
            (CreateOrUpdateConfigMap c (cm_Data (rc_configMap regional))) in
  ewrapv "failed to create VM user credentials"
    (CreateVMUserCredentials c (rc_clusterName regional)).
End child.
