(* ===== verification/Demo.v ===== *)
(** A small cluster on which the theorems about the cluster controllers are
    tried: a regional cluster, a child in the same namespace and location, and
    one in another namespace. *)
From S2P Require Import Prelude Strings Env World Kube Alerts Promxy Api ApiFacts VMUser.
From S2P Require Import VMUserFacts Region ConfigData Child.

Open Scope string_scope.

#[export] Instance demo_admission : Admission :=
  {| admit_vmuser := id; admit_mcs := id; admit_cluster := id; admit_cluster_om _ := eq_refl |}.
#[export] Instance demo_random : Random (kworld cluster_data) := λ w, (Ok 7%Z, w).
#[export] Instance demo_random_laws : RandomLaws (kworld cluster_data).
Proof. by split. Qed.

Definition demo_env : environ := {["RELEASE_NAMESPACE" := "kof"]}.
Definition demo_visit (m : gmap string string) : list (string * string) := map_to_list m.
Definition demo_kubeconfig (text : string) : result string := Ok text.
(** The text is the region. *)
Definition demo_yaml (text : string) : result ClusterDeploymentConfig :=
  Ok {| dc_ClusterAnnotations := {[KofRegionalDomainAnnotation := "example.com"]};
        dc_Region := text; dc_Location := ""; dc_IdentityRegion := ""; dc_VSphereDatacenter := "" |}.

Definition demo_cluster (namespace name role : string) : ClusterDeployment :=
  {| cd_meta := new_meta namespace name
       {[KofClusterRoleLabel := role; ClusterNameLabel := name; KofTenantLabel := "acme"]};
     cd_Template := "aws-standalone"; cd_Credential := "aws"; cd_Config := Some "us-east-1";
     cd_Region := "" |}.
Definition demo_template (namespace : string) : ClusterTemplate :=
  {| ct_meta := new_meta namespace "aws-standalone" ∅;
     ct_Providers := ["control-plane"; "infrastructure-aws"] |}.
Definition demo_regional_data : gmap string string :=
  {[RegionalClusterNameKey := "reg"; RegionalClusterNamespaceKey := "kcm";
    RegionalClusterCloudKey := "aws"; AwsRegionKey := "us-east-1"]}.
Definition demo_regional_cm : ConfigMap :=
  {| cm_meta := new_meta "kcm" "kof-reg" {[KofClusterRoleLabel := KofRoleRegional]};
     cm_Data := demo_regional_data |}.
(** The ConfigMap of the child of another team, whose regional cluster is in
    its own namespace. *)
Definition demo_other_cm : ConfigMap :=
  {| cm_meta := new_meta "team" "kof-cluster-config-other" ∅;
     cm_Data := {[RegionalClusterNameKey := "reg"; RegionalClusterNamespaceKey := "team"]} |}.

Definition keyed {O} `{Object O} (l : list O) : objects_of O :=
  list_to_map ((λ o, (object_key o, o)) <$> l).
Definition demo_data : cluster_data := λ k,
  match k with
  | KConfigMap => keyed [demo_regional_cm; demo_other_cm]
  | KClusterDeployment =>
      keyed [demo_cluster "kcm" "reg" KofRoleRegional; demo_cluster "kcm" "ch" KofRoleChild;
             demo_cluster "team" "other" KofRoleChild]
  | KClusterTemplate => keyed [demo_template "kcm"; demo_template "team"]
  | _ => ∅
  end.
Definition demo_world : kworld cluster_data := {| kw_data := demo_data; kw_faults := [] |}.

Definition demo_child : ChildClusterRole :=
  {| ch_clusterDeployment := demo_cluster "kcm" "ch" KofRoleChild;
     ch_clusterDeploymentConfig :=
       {| dc_ClusterAnnotations := ∅; dc_Region := "us-east-1"; dc_Location := "";
          dc_IdentityRegion := ""; dc_VSphereDatacenter := "" |} |}.

(** An equation with a known result and whatever world it ends in. *)
Lemma ends_in {W A} (m : eff W A) w r : (m w).1 = r → m w = (r, (m w).2).
Proof. intros <-. apply surjective_pairing. Qed.

Lemma demo_secrets : secrets_read_back demo_world.
Proof. intros k s Hk. change (well_keyed ∅ !! k = Some s) in Hk. 
  apply map_lookup_filter_Some in Hk as [Hk _]. by rewrite lookup_empty in Hk.
Qed.

(** The server admits the objects of the example as they are. *)
Lemma demo_settled k : settled k demo_world.
Proof.
  destruct k; try (intros key x _; reflexivity); intros key x Hk;
    change (well_keyed ∅ !! key = Some x) in Hk;
    apply map_lookup_filter_Some in Hk as [Hk _]; by rewrite lookup_empty in Hk.
Qed.

(** * A user is created *)

Definition demo_options : CreateOptions := child_user_options demo_env demo_child "reg".
Definition demo_created : kworld cluster_data := (Create demo_env demo_visit demo_options demo_world).2.


(** Creating the user of the example again changes nothing. *)
Lemma vmuser_create_again_witness :
  same demo_created (Create demo_env demo_visit demo_options demo_created).2.
Proof.
  apply (vmuser_create_again demo_env demo_visit demo_options demo_world demo_created).
  - apply demo_settled.
  - apply ends_in. vm_compute. reflexivity.
Defined.
