(* ===== verification/ChildFacts.v ===== *)
(** Facts about child clusters: reading changes nothing, the discovery of the
    regional cluster by location finds one that fits, and a reconciliation
    leaves the data and a user confined to the tenant. *)
From S2P Require Import Prelude Strings Env World Kube Server Alerts Promxy Api ApiFacts.
From S2P Require Import VMUser VMUserFacts Region ConfigData Child Demo.

Open Scope string_scope.

Lemma ewrapv_ok {W A} msg (m : eff W A) w a w' : ewrapv msg m w = (Ok a, w') ↔ m w = (Ok a, w').
Proof. unfold ewrapv. destruct (m w) as [[b|e] w1]; naive_solver. Qed.
Lemma flat_err_ok {A} msg (r : result A) a : flat_err msg r = Ok a ↔ r = Ok a.
Proof. destruct r; naive_solver. Qed.

Lemma eret_inv {W A} (r r' : result A) (w w' : W) : eret r w = (r', w') → r = r' ∧ w = w'.
Proof. by intros [= -> ->]. Qed.

Section stays.
Context {W : Type} `{ClusterLaws W}.
Lemma stays_wrapv {A} P msg (m : eff W A) : stays P m → stays P (ewrapv msg m).
Proof. intros Hm w. unfold ewrapv. specialize (Hm w). by destruct (m w). Qed.
End stays.

(** Follow the structure of a call down to the calls of the API. *)
Ltac stays_step :=
  first
    [ solve [auto 2 with stays nocore] | apply stays_ret | apply stays_wrap | apply stays_wrapv
    | apply stays_bind; [|intros ?] | apply stays_case; [|intros ?]
    | match goal with
      | |- stays _ (match ?x with _ => _ end) => destruct x
      | |- stays _ (let _ := _ in _) => cbv zeta
      end
    | apply (stays_get _ KConfigMap) | apply (stays_get _ KClusterDeployment)
    | apply (stays_get _ KClusterTemplate) | apply (stays_get _ KRegion)
    | apply (stays_get _ KSecret) | apply (stays_get _ KCredential)
    | apply (stays_list _ KConfigMap) | apply (stays_list _ KClusterDeployment) ].
Ltac stays_tac := repeat stays_step.

(** * Reading changes nothing *)

Section quiet.
Context {W : Type} `{HC : ClusterLaws W}
  (env : environ) (load_kubeconfig : string → result string).

Lemma getCloud_quiet cd : quiet (getCloud cd).
Proof. unfold getCloud, GetClusterTemplate. stays_tac. Qed.
#[local] Hint Resolve getCloud_quiet : stays.
Lemma get_configmap_quiet name namespace : quiet (get_configmap name namespace).
Proof. unfold get_configmap. stays_tac. Qed.
#[local] Hint Resolve get_configmap_quiet : stays.
Lemma GetConfigMap_quiet c : quiet (GetConfigMap c).
Proof. apply get_configmap_quiet. Qed.
#[local] Hint Resolve GetConfigMap_quiet : stays.
Lemma GetKubeconfigSecretName_quiet cd : quiet (GetKubeconfigSecretName cd).
Proof. unfold GetKubeconfigSecretName, GetAdoptedClusterSecretName. stays_tac. Qed.
#[local] Hint Resolve GetKubeconfigSecretName_quiet : stays.
Lemma IsClusterInSameKcmRegion_quiet a b c d : quiet (IsClusterInSameKcmRegion a b c d).
Proof.
  unfold IsClusterInSameKcmRegion, GetClusterDeployment, GetRegion. stays_tac.
Qed.
#[local] Hint Resolve IsClusterInSameKcmRegion_quiet : stays.
Lemma GetClusterDeploymentsInSameKcmRegion_quiet cd :
  quiet (GetClusterDeploymentsInSameKcmRegion load_kubeconfig cd).
Proof.
  unfold GetClusterDeploymentsInSameKcmRegion, GetClusterDeployments, GetRegion,
    GetKubeconfigFromSecret, GetSecret. stays_tac.
Qed.
#[local] Hint Resolve GetClusterDeploymentsInSameKcmRegion_quiet : stays.
Lemma IsClusterKcmRegion_quiet a b : quiet (IsClusterKcmRegion a b).
Proof. unfold IsClusterKcmRegion, GetKcmRegionClusters, GetClusterDeployments. stays_tac. Qed.
#[local] Hint Resolve IsClusterKcmRegion_quiet : stays.
Lemma NewRegionalClusterConfigMap_quiet cm : quiet (NewRegionalClusterConfigMap env cm).
Proof. unfold NewRegionalClusterConfigMap. stays_tac. Qed.
#[local] Hint Resolve NewRegionalClusterConfigMap_quiet : stays.
Lemma ByLabel_quiet c name : quiet (DiscoverRegionalClusterCmByLabel env c name).
Proof.
  unfold DiscoverRegionalClusterCmByLabel, check_same_region. stays_tac.
Qed.
#[local] Hint Resolve ByLabel_quiet : stays.
Lemma ByLocation_quiet c :
  quiet (DiscoverRegionalClusterConfigMapByLocation env load_kubeconfig c).
Proof.
  unfold DiscoverRegionalClusterConfigMapByLocation. stays_tac.
Qed.
#[local] Hint Resolve ByLocation_quiet : stays.
Lemma GetRegionalConfigMap_quiet c : quiet (GetRegionalConfigMap env load_kubeconfig c).
Proof.
  unfold GetRegionalConfigMap. stays_tac.
Qed.
#[local] Hint Resolve GetRegionalConfigMap_quiet : stays.

(** A quiet call ends in a world with the same objects. *)
Lemma quiet_kept {A} (m : eff W A) w r w' k : quiet m → m w = (r, w') → kept k w' = kept k w.
Proof. intros Hm E. specialize (Hm w). rewrite E in Hm. by apply changes_only_quiet. Qed.
End quiet.

#[export] Hint Resolve getCloud_quiet get_configmap_quiet IsClusterInSameKcmRegion_quiet
  GetKubeconfigSecretName_quiet IsClusterKcmRegion_quiet GetClusterDeploymentsInSameKcmRegion_quiet GetConfigMap_quiet GetRegionalConfigMap_quiet
  ByLabel_quiet ByLocation_quiet NewRegionalClusterConfigMap_quiet : stays.

(** * Discovery by location *)

Lemma matches_cons {O} `{Object O} o opts (x : O) :
  matches (o :: opts) x = option_matches (om x) o && matches opts x.
Proof. done. Qed.

Lemma matching_label (m : ObjectMeta) l v :
  option_matches m (MatchingLabels {[l := v]}) = true → om_Labels m !! l = Some v.
Proof.
  unfold option_matches. rewrite map_to_list_singleton. simpl. rewrite andb_true_r.
  by intros ?%bool_decide_eq_true_1.
Qed.

(** The loop returns a ConfigMap that fits: the one used before, or the first
    when there is none to compare with. *)
Lemma location_loop_old fits old items candidates cm :
  location_loop fits old items candidates = inl cm →
  cm ∈ items ∧ fits (NewConfigDataFromConfigMap cm) = true ∧
  isPreviouslyUsedRegionalCluster old (NewConfigDataFromConfigMap cm) = true.
Proof.
  revert candidates. induction items as [|x r IH]; intros candidates; simpl; [done|].
  destruct (fits (NewConfigDataFromConfigMap x)) eqn:Hf.
  - destruct (isPreviouslyUsedRegionalCluster old (NewConfigDataFromConfigMap x)) eqn:Hp.
    + intros; simplify_eq. split; [by left|done].
    + intros Hl. apply IH in Hl as (Hin & Hr). split; [by right|done].
  - intros Hl. apply IH in Hl as (Hin & Hr). split; [by right|done].
Qed.
Lemma location_loop_new fits items candidates :
  location_loop fits None items candidates =
  inr (candidates ++ filter (λ cm, fits (NewConfigDataFromConfigMap cm) = true) items)%list.
Proof.
  revert candidates. induction items as [|x r IH]; intros candidates; simpl.
  { by rewrite filter_nil, app_nil_r. }
  rewrite filter_cons. destruct (fits (NewConfigDataFromConfigMap x)) eqn:Hf.
  - rewrite decide_True, IH by done. by rewrite <-app_assoc.
  - rewrite decide_False, IH by done. done.
Qed.
Lemma choose_by_location_spec fits old items cm :
  choose_by_location old (location_loop fits old items []) = Ok cm →
  cm ∈ items ∧ fits (NewConfigDataFromConfigMap cm) = true ∧
  (is_Some old → isPreviouslyUsedRegionalCluster old (NewConfigDataFromConfigMap cm) = true).
Proof.
  destruct (location_loop fits old items []) as [x|l] eqn:E; simpl.
  - intros [= <-]. apply location_loop_old in E as (Hi & Hf & Hp). auto.
  - destruct old as [o|]; [by destruct l|]. rewrite location_loop_new in E. injection E as <-.
    destruct (filter _ items) as [|x r] eqn:Hl; simpl; [done|]. intros [= <-].
    assert (Hx : x ∈ filter (λ cm, fits (NewConfigDataFromConfigMap cm) = true) items)
      by (rewrite Hl; by left).
    apply list_elem_of_filter in Hx as [? ?]. split_and!; [done..|by intros []].
Qed.

Section discovery.
Context {W : Type} `{HC : ClusterLaws W}
  (env : environ) (load_kubeconfig : string → result string).

Definition has_cloud (w : W) (cd : ClusterDeployment) (cloud : string) : Prop :=
  ∃ t : ClusterTemplate,
    kept KClusterTemplate w !! (om_Namespace (cd_meta cd), cd_Template cd) = Some t ∧
    head (omap provider_cloud (ct_Providers t)) = Some cloud.

(** The two clusters of a cloud are in one place, spelled out: the clouds
    "internal", "k0sproject-k0smotron" and "gcp" have none. *)
Definition same_place (cloud : string) (config : ClusterDeploymentConfig) (d : ConfigData) : Prop :=
  cloud = "aws" ∧ dc_Region config = da_AWSRegion d ∨
  cloud = "azure" ∧ dc_Location config = da_AzureLocation d ∨
  cloud = "openstack" ∧ dc_IdentityRegion config = da_OpenstackRegion d ∨
  cloud = "vsphere" ∧ dc_VSphereDatacenter config = da_VSphereDatacenter d ∨
  cloud = "docker".

Lemma locationIsTheSame_sym cloud c1 c2 :
  locationIsTheSame cloud c1 c2 = locationIsTheSame cloud c2 c1.
Proof. unfold locationIsTheSame. repeat case_match; auto using String.eqb_sym. Qed.

Lemma locationIsTheSame_place cloud config d :
  locationIsTheSame cloud config (ToClusterDeploymentConfig d) = true → same_place cloud config d.
Proof.
  unfold locationIsTheSame, same_place. cbn [dc_Region dc_Location dc_IdentityRegion
    dc_VSphereDatacenter ToClusterDeploymentConfig].
  repeat match goal with |- context [if String.eqb cloud ?x then _ else _] =>
    destruct (String.eqb_spec cloud x) as [->|] end; intros Hp; try done;
    try apply String.eqb_eq in Hp; auto 10.
Qed.

(** The cluster of a KCM region, as the code knows it, by its name: that of the
    current context of the kubeconfig, or that of the cluster deployment. *)
Definition region_cluster (w : W) (region name : string) : Prop :=
  ∃ r : Region, kept KRegion w !! ("", region) = Some r ∧
  let named := from_option fst "" (re_ClusterDeployment r) in
  match re_KubeConfig r with
  | Some secret =>
      if decide (secret = "") then name = named
      else ∃ s : Secret, kept KSecret w !! ("", secret) = Some s ∧
             load_kubeconfig (default "" (se_Data s !! "value")) = Ok name
  | None => name = named
  end.

(** [x] is in the region of [child], or it has the name of the cluster of the
    region. *)
Definition region_member (w : W) (child x : ClusterDeployment) : Prop :=
  kept KClusterDeployment w !! (om_Namespace (cd_meta x), om_Name (cd_meta x)) = Some x ∧
  (cd_Region x = cd_Region child ∨ region_cluster w (cd_Region child) (om_Name (cd_meta x))).

Lemma region_member_kept (w w' : W) child x :
  (∀ k, kept k w = kept k w') → region_member w child x → region_member w' child x.
Proof.
  intros Hk [Hx Hr]. split; [by rewrite <-Hk|]. destruct Hr as [Hr|(r & Hr & Hn)]; [by left|right].
  exists r. split; [by rewrite <-Hk|]. cbv zeta in *. destruct (re_KubeConfig r); [|done].
  case_decide; [done|]. destruct Hn as (sec & Hs & Hn). exists sec. split; [by rewrite <-Hk|done].
Qed.

(** The cloud and the place of the child and, for a child in a KCM region, a
    cluster of that name in the region. *)
Definition fits_child (w : W) (c : ChildClusterRole) (regional : ConfigData) : Prop :=
  has_cloud w (ch_clusterDeployment c) (da_RegionalClusterCloud regional) ∧
  same_place (da_RegionalClusterCloud regional) (ch_clusterDeploymentConfig c) regional ∧
  (cd_Region (ch_clusterDeployment c) ≠ "" →
   ∃ x, region_member w (ch_clusterDeployment c) x ∧
        om_Name (cd_meta x) = da_RegionalClusterName regional).

Lemma getCloud_spec cd (w : W) cloud w' : getCloud cd w = (Ok cloud, w') → has_cloud w cd cloud.
Proof.
  intros E. apply ebind_ok in E as (t & w1 & Et & E). apply ewrap_ok in Et.
  exists t. split; [by apply (kept_get KClusterTemplate) in Et|].
  destruct (head (omap provider_cloud (ct_Providers t))); [|done].
  by apply eret_ok in E as [-> _].
Qed.

Lemma get_configmap_spec name namespace (w : W) o w' :
  get_configmap name namespace w = (Ok o, w') → o = kept KConfigMap w !! (namespace, name).
Proof.
  unfold get_configmap, ecase, eret. destruct (kube_get (namespace, name) w) as [[cm|e] w1] eqn:E.
  - intros [= <- <-]. symmetry. by apply (kept_get KConfigMap) in E.
  - destruct (errors_as is_not_found e) eqn:He; [|done]. intros [= <- <-]. symmetry.
    by apply (kept_not_found KConfigMap) in E.
Qed.

Lemma same_region_spec cd (w : W) l w' x :
  GetClusterDeploymentsInSameKcmRegion load_kubeconfig cd w = (Ok l, w') → x ∈ l →
  region_member w cd x.
Proof.
  unfold GetClusterDeploymentsInSameKcmRegion. case_bool_decide; [done|]. intros E Hx.
  apply ebind_ok in E as (clusters & w1 & Ec & E). apply ebind_ok in E as (region & w2 & Er & E).
  cbv zeta in E. apply ebind_ok in E as (name & w3 & En & E). apply eret_ok in E as [<- _].
  apply ewrapv_ok in Ec, Er. unfold GetClusterDeployments in Ec.
  pose proof (kept_list KClusterDeployment _ _ _ _ x Ec) as Hl.
  pose proof (λ k, quiet_kept _ _ _ _ k (stays_list _ KClusterDeployment _) Ec) as Hq.
  pose proof (λ k, quiet_kept _ _ _ _ k (stays_get _ KRegion _) Er) as Hq2.
  apply (kept_get KRegion) in Er. unfold kept in Hq. pose proof (Hq KRegion) as HqR.
  apply list_elem_of_filter in Hx as [Hin Hx]. apply Hl in Hx as [_ Hx]. split; [exact Hx|].
  unfold in_region in Hin. apply orb_true_iff in Hin as [Hin|Hin]; apply bool_decide_eq_true_1 in Hin;
    [right|by left].
  rewrite Hin. exists region. assert (Hk : kept KRegion w !! ("", cd_Region cd) = Some region).
  { unfold kept. by rewrite <-HqR. }
  split; [exact Hk|]. cbv zeta.
  assert (Hn : match re_ClusterDeployment region with Some (n, _) => n | None => "" end =
               from_option fst "" (re_ClusterDeployment region))
    by by destruct (re_ClusterDeployment region) as [[]|].
  rewrite Hn in En. destruct (re_KubeConfig region) as [secret|]; [|by apply eret_ok in En as [<- _]].
  case_bool_decide as Hs; [rewrite decide_True by done; by apply eret_ok in En as [<- _]|].
  rewrite decide_False by done. apply ewrapv_ok in En.
  apply ebind_ok in En as (s & w4 & Es & En). apply ewrapv_ok, (kept_get KSecret) in Es.
  exists s. split; [|by apply eret_inv in En as [<- _]].
  apply (kept_key KRegion) in Hk. injection Hk as Hns _.
  change (om_Namespace (om region)) with (om_Namespace (re_meta region)) in Hns.
  rewrite Hns in Es. unfold kept in *. by rewrite <-Hq, <-Hq2.
Qed.

Lemma location_options_spec c (cm : ConfigMap) :
  matches (location_options env c) cm = true →
  om_Labels (cm_meta cm) !! "k0rdent.mirantis.com/kof-cluster-role" = Some "regional" ∧
  (RegionlessEnabled env = true → om_Namespace (cm_meta cm) = "kcm-system") ∧
  (RegionlessEnabled env = false → CrossNamespaceEnabled env = false → ch_clusterNamespace c ≠ "" →
   om_Namespace (cm_meta cm) = ch_clusterNamespace c).
Proof.
  unfold location_options. rewrite matches_cons. intros [Hl Hm]%andb_true_iff.
  apply matching_label in Hl. split; [done|]. revert Hm.
  destruct (RegionlessEnabled env), (CrossNamespaceEnabled env); try done;
    rewrite matches_cons; unfold option_matches; intros [Hm _]%andb_true_iff;
    apply orb_true_iff in Hm as [Hm|Hm]; apply bool_decide_eq_true_1 in Hm; split; naive_solver.
Qed.

Lemma isRegionless_label (cm : ConfigMap) :
  isRegionlessConfigMap cm = true →
  om_Labels (cm_meta cm) !! "k0rdent.mirantis.com/kof-regionless" = Some "true".
Proof.
  unfold isRegionlessConfigMap, at_key. intros E%bool_decide_eq_true_1. unfold KofRegionlessLabel in E.
  by destruct (om_Labels (cm_meta cm) !! _) eqn:Hl; simpl in E; [subst|].
Qed.

(** What is discovered by location is stored. *)
Lemma by_location_kept c (w : W) cm w' :
  DiscoverRegionalClusterConfigMapByLocation env load_kubeconfig c w = (Ok cm, w') →
  kept KConfigMap w !! (om_Namespace (cm_meta cm), om_Name (cm_meta cm)) = Some cm.
Proof.
  intros E. unfold DiscoverRegionalClusterConfigMapByLocation in E.
  apply ebind_ok in E as (items & w1 & El & E).
  pose proof (λ x, kept_list KConfigMap _ _ _ _ x El) as Hl.
  cut (cm ∈ items); [by intros [_ ?]%Hl|]. destruct (RegionlessEnabled env).
  - destruct (filter _ items) as [|x r] eqn:Hf; [done|]. apply eret_ok in E as [-> _].
    assert (Hx : cm ∈ filter (λ cm, isRegionlessConfigMap cm = true) items) by (rewrite Hf; by left).
    by apply list_elem_of_filter in Hx as [_ ?].
  - unfold ecase in E. destruct (getCloud (ch_clusterDeployment c) w1) as [[cloud|e] w2]; [|done].
    apply ebind_ok in E as (own & w3 & _ & E). apply ebind_ok in E as (inRegion & w4 & _ & E).
    destruct (choose_by_location own _) as [x|e] eqn:Hch; [|done]. apply eret_ok in E as [-> _].
    by apply choose_by_location_spec in Hch as (? & _).
Qed.

(** C13: A regional ConfigMap that is discovered by location is stored and has
    the role.  With regionless mode it is a regionless one of the system
    namespace, and nothing is compared.  Otherwise it is in the namespace of
    the child, unless clusters may be used across namespaces; its cloud is
    that of the template of the child, and region, location or datacenter
    are those of the child; for a child in a KCM region a stored cluster of
    the name it has, in any namespace, is in the region or has the name of
    the cluster of the region; and a child that has a ConfigMap stays with
    the regional cluster it names. *)
Theorem child_discovery c (w : W) cm w' :
  DiscoverRegionalClusterConfigMapByLocation env load_kubeconfig c w = (Ok cm, w') →
  kept KConfigMap w !! (om_Namespace (cm_meta cm), om_Name (cm_meta cm)) = Some cm ∧
  om_Labels (cm_meta cm) !! "k0rdent.mirantis.com/kof-cluster-role" = Some "regional" ∧
  if RegionlessEnabled env then
    om_Namespace (cm_meta cm) = "kcm-system" ∧
    om_Labels (cm_meta cm) !! "k0rdent.mirantis.com/kof-regionless" = Some "true"
  else
    let regional := NewConfigDataFromConfigMap cm in
    (CrossNamespaceEnabled env = false → ch_clusterNamespace c ≠ "" →
     om_Namespace (cm_meta cm) = ch_clusterNamespace c) ∧
    fits_child w c regional ∧
    ∀ own : ConfigMap,
      kept KConfigMap w !! (ch_clusterNamespace c, "kof-cluster-config-" +:+ ch_clusterName c) = Some own →
      default "" (cm_Data own !! "regional_cluster_name") = da_RegionalClusterName regional ∧
      default "" (cm_Data own !! "regional_cluster_namespace") ∈ [""; da_RegionalClusterNamespace regional].
Proof.
  intros E. unfold DiscoverRegionalClusterConfigMapByLocation in E.
  apply ebind_ok in E as (items & w1 & El & E).
  pose proof (λ x, kept_list KConfigMap _ _ _ _ x El) as Hl.
  pose proof (λ k, quiet_kept _ _ _ _ k (stays_list _ KConfigMap _) El) as Hq1.
  pose proof (location_options_spec c) as Hopt.
  destruct (RegionlessEnabled env) eqn:Hr.
  - destruct (filter _ items) as [|x r] eqn:Hf; [done|]. apply eret_ok in E as [-> _].
    assert (Hx : cm ∈ filter (λ cm, isRegionlessConfigMap cm = true) items) by (rewrite Hf; by left).
    apply list_elem_of_filter in Hx as [Hreg Hx]. apply Hl in Hx as [Hm Hs].
    apply Hopt in Hm as (Hlab & Hns & _). apply isRegionless_label in Hreg. auto.
  - unfold ecase in E. destruct (getCloud (ch_clusterDeployment c) w1) as [[cloud|e] w2] eqn:Ec; [|done].
    pose proof (λ k, quiet_kept _ _ _ _ k (getCloud_quiet _) Ec) as Hq2.
    apply getCloud_spec in Ec.
    apply ebind_ok in E as (own & w3 & Eo & E). apply ebind_ok in E as (inRegion & w4 & Ei & E).
    apply ewrapv_ok in Eo. pose proof (λ k, quiet_kept _ _ _ _ k (GetConfigMap_quiet _) Eo) as Hq3.
    apply get_configmap_spec in Eo. rewrite Hq2, Hq1 in Eo.
    destruct (choose_by_location own _) as [x|e] eqn:Hch; [|done]. apply eret_ok in E as [-> _].
    apply choose_by_location_spec in Hch as (Hin & Hfit & Hprev).
    apply Hl in Hin as [Hm Hs]. apply Hopt in Hm as (Hlab & _ & Hns).
    split; [exact Hs|]. split; [done|]. cbv zeta. split; [by apply Hns|]. split.
    + unfold is_candidate in Hfit. apply andb_true_iff in Hfit as [Hfit Hloc].
      apply andb_true_iff in Hfit as [Hreg Hcl]. apply bool_decide_eq_true_1 in Hcl.
      unfold fits_child. rewrite <-Hcl. split_and!.
      * unfold has_cloud in *. by rewrite Hq1 in Ec.
      * by apply locationIsTheSame_place.
      * intros Hne. unfold ch_isClusterInRegion, CreatedInKCMRegion in Hreg, Ei.
        rewrite bool_decide_eq_false_2 in Hreg, Ei by done. simpl in Hreg, Ei.
        apply existsb_exists in Hreg as (x & Hx%list_elem_of_In & Hname%bool_decide_eq_true_1).
        apply ewrapv_ok in Ei. exists x. split; [|done].
        apply (same_region_spec _ _ _ _ x) in Ei; [|done].
        eapply region_member_kept; [|exact Ei]. intros k. by rewrite Hq3, Hq2, Hq1.
    + intros o Ho. fold (GetConfigMapName (ch_clusterName c)) in Ho. rewrite Ho in Eo.
      change (at_key (cm_Data o) RegionalClusterNameKey = da_RegionalClusterName (NewConfigDataFromConfigMap cm) ∧
        at_key (cm_Data o) RegionalClusterNamespaceKey
          ∈ [""; da_RegionalClusterNamespace (NewConfigDataFromConfigMap cm)]). rewrite Eo in Hprev. specialize (Hprev ltac:(eauto)).
      unfold isPreviouslyUsedRegionalCluster in Hprev.
      apply andb_true_iff in Hprev as [Hn Hp]. apply bool_decide_eq_true_1 in Hn. split; [done|].
      apply orb_true_iff in Hp as [Hp|Hp]; apply bool_decide_eq_true_1 in Hp; rewrite Hp;
        [by apply elem_of_cons; left|by apply elem_of_cons; right; apply elem_of_cons; left].
Qed.
End discovery.

(** * Reconciliation *)

(** The objects of a child cluster: its ConfigMap, the propagation of that,
    and the objects of its user. *)
Definition child_user (c : ChildClusterRole) : string :=
  GetVMUserName (GetConfigMapName (ch_clusterName c)) (ch_clusterNamespace c).
Definition child_objects (c : ChildClusterRole) (k : kind) (key : string * string) : Prop :=
  k = KConfigMap ∧ key = (ch_clusterNamespace c, GetConfigMapName (ch_clusterName c)) ∨
  k = KMultiClusterService ∧ key = ("", GetChildConfigMapPropagationName (ch_clusterName c)) ∨
  vmuser_objects (child_user c) (ch_clusterNamespace c) k key.

Section reconcile.
Context {W : Type} `{HC : ClusterLaws W} `{!Random W} `{!RandomLaws W}
  (env : environ) (visit : gmap string string → list (string * string))
  (load_kubeconfig : string → result string).

(** What is stored under a key has that key. *)
Lemma kept_cm_key (w : W) ns name (cm : ConfigMap) :
  kept KConfigMap w !! (ns, name) = Some cm → om_Namespace (cm_meta cm) = ns ∧ om_Name (cm_meta cm) = name.
Proof. intros Hk. apply (kept_key KConfigMap) in Hk. by injection Hk. Qed.

Lemma upsert_region_mcs_stays P mcsName a b spec :
  P KMultiClusterService ("", mcsName) → stays P (upsert_region_mcs mcsName a b spec).
Proof.
  intros HP. apply (stays_upsert _ KMultiClusterService); [|done].
  by apply (sets_ret KMultiClusterService (λ x, _)).
Qed.

Lemma CreateConfigMapPropagation_stays c :
  stays (λ k key, k = KMultiClusterService ∧ key = ("", GetChildConfigMapPropagationName (ch_clusterName c)))
    (CreateConfigMapPropagation env c).
Proof.
  unfold CreateConfigMapPropagation. cbv zeta. case_match; [|apply stays_ret].
  apply stays_bind; [|intros; apply stays_ret]. by apply stays_wrapv, upsert_region_mcs_stays.
Qed.

Lemma UpdateConfigMap_stays P (cm : ConfigMap) data :
  P KConfigMap (om_Namespace (cm_meta cm), om_Name (cm_meta cm)) → stays P (UpdateConfigMap cm data).
Proof.
  intros HP. unfold UpdateConfigMap. destruct (decide (cm_Data cm = data)); [apply stays_ret|].
  by apply (stays_update _ KConfigMap).
Qed.

Lemma UpdateConfigMap_spec (cm : ConfigMap) data (w : W) w' key :
  kept KConfigMap w !! key = Some cm → UpdateConfigMap cm data w = (Ok tt, w') →
  ∃ x : ConfigMap, kept KConfigMap w' !! key = Some x ∧ cm_Data x = data ∧ cm_meta x = cm_meta cm.
Proof.
  intros Hk. unfold UpdateConfigMap. destruct (decide (cm_Data cm = data)) as [Hd|Hd].
  - intros [_ <-]%eret_ok. eauto.
  - intros E. pose proof (kept_key KConfigMap _ _ _ Hk) as Hkey. subst key.
    apply (kept_update KConfigMap _ cm) in E; [|done..]. cbn [took] in E.
    exists (with_data data cm). rewrite E. split; [apply lookup_insert_eq|done].
Qed.

Lemma CreateConfigMap_spec c data (w w' : W) :
  kept KConfigMap w !! (ch_clusterNamespace c, GetConfigMapName (ch_clusterName c)) = None →
  CreateConfigMap c data w = (Ok tt, w') →
  kept KConfigMap w' !! (ch_clusterNamespace c, GetConfigMapName (ch_clusterName c)) =
    Some (child_configmap c data).
Proof.
  intros Hk E. apply ebind_ok in E as (b & w1 & E & [_ <-]%eret_ok).
  apply (EnsureCreated_spec KConfigMap) in E.
  change (object_key (child_configmap c data))
    with (ch_clusterNamespace c, GetConfigMapName (ch_clusterName c)) in E.
  cbn [object] in *. rewrite Hk in E. exact E.
Qed.

Lemma CreateOrUpdateConfigMap_stays c data :
  stays (λ k key, k = KConfigMap ∧ key = (ch_clusterNamespace c, GetConfigMapName (ch_clusterName c)) ∨
                  k = KMultiClusterService ∧
                  key = ("", GetChildConfigMapPropagationName (ch_clusterName c)))
    (CreateOrUpdateConfigMap env c data).
Proof.
  unfold CreateOrUpdateConfigMap.
  apply (stays_bind_post _ (λ o, ∀ cm : ConfigMap, o = Some cm →
    (om_Namespace (cm_meta cm), om_Name (cm_meta cm)) =
    (ch_clusterNamespace c, GetConfigMapName (ch_clusterName c)))).
  - apply stays_wrapv, stays_quiet, GetConfigMap_quiet.
  - intros w o w' E cm ->. apply ewrapv_ok, get_configmap_spec in E. symmetry in E.
    by apply kept_cm_key in E as [-> ->].
  - intros o Ho. apply stays_bind; [|intros _; apply stays_wrapv].
    + destruct o as [cm|]; apply stays_wrapv.
      * apply UpdateConfigMap_stays. left. split; [done|]. by apply Ho.
      * apply stays_bind; [|intros; apply stays_ret].
        apply (EnsureCreated_stays _ KConfigMap). by left.
    + eapply stays_mono; [|apply CreateConfigMapPropagation_stays]. intros k key ?. by right.
Qed.

Lemma CreateOrUpdateConfigMap_spec c data (w w' : W) :
  CreateOrUpdateConfigMap env c data w = (Ok tt, w') →
  ∃ x : ConfigMap,
    kept KConfigMap w' !! (ch_clusterNamespace c, GetConfigMapName (ch_clusterName c)) = Some x ∧
    cm_Data x = data.
Proof.
  intros E. apply ebind_ok in E as (o & w1 & E1 & E). apply ebind_ok in E as ([] & w2 & E2 & E).
  apply ewrapv_ok in E1, E. pose proof (quiet_kept _ _ _ _ KConfigMap (GetConfigMap_quiet _) E1) as Hq.
  apply get_configmap_spec in E1. rewrite <-Hq in E1.
  assert (Hx : ∃ x : ConfigMap,
    kept KConfigMap w2 !! (ch_clusterNamespace c, GetConfigMapName (ch_clusterName c)) = Some x ∧
    cm_Data x = data).
  { destruct o as [cm|]; apply ewrapv_ok in E2.
    - eapply UpdateConfigMap_spec in E2 as (x & ? & ? & _); [|by symmetry]. eauto.
    - apply CreateConfigMap_spec in E2; [|by symmetry]. eauto. }
  destruct Hx as (x & Hx & Hd). exists x. split; [|done]. rewrite <-Hx.
  pose proof (CreateConfigMapPropagation_stays c w2) as Hp. rewrite E in Hp. apply (Hp KConfigMap). by intros [? _].
Qed.

(** Whatever calls fail, reconciling a child cluster changes only its
    ConfigMap, the propagation of that, and the objects of its user. *)
Theorem child_changes_own c (w : W) k key :
  ¬ child_objects c k key →
  kept k (child_Reconcile env visit load_kubeconfig c w).2 !! key = kept k w !! key.
Proof.
  cut (stays (child_objects c) (child_Reconcile env visit load_kubeconfig c)); [intros Hs; apply Hs|].
  unfold child_Reconcile. apply stays_bind.
  { apply stays_wrapv, stays_quiet, GetRegionalConfigMap_quiet. }
  intros regional. apply stays_bind.
  - apply stays_wrapv. eapply stays_mono; [|apply CreateOrUpdateConfigMap_stays].
    unfold child_objects. tauto.
  - intros _. apply stays_wrapv. eapply stays_mono; [|apply Create_stays].
    intros k' key' Hk. right. right. exact Hk.
Qed.

(** The ConfigMap of the regional cluster: the one its labels name, in the
    namespace of the child or the one its label names, or the one discovered. *)
Definition is_regional_of (c : ChildClusterRole) (w : W) (cm : ConfigMap) : Prop :=
  kept KConfigMap w !! (om_Namespace (cm_meta cm), om_Name (cm_meta cm)) = Some cm ∧
  match ch_labels c !! KofRegionalClusterNameLabel with
  | Some name =>
      om_Name (cm_meta cm) = GetRegionalClusterConfigMapName name ∧
      if CrossNamespaceEnabled env
      then ch_labels c !! KofRegionalClusterNamespaceLabel = Some (om_Namespace (cm_meta cm))
      else om_Namespace (cm_meta cm) = ch_clusterNamespace c
  | None => ∃ w1, DiscoverRegionalClusterConfigMapByLocation env load_kubeconfig c w = (Ok cm, w1)
  end.

Lemma ByLabel_spec c name (w : W) cm w' :
  DiscoverRegionalClusterCmByLabel env c name w = (Ok cm, w') →
  kept KConfigMap w !! (om_Namespace (cm_meta cm), om_Name (cm_meta cm)) = Some cm ∧
  om_Name (cm_meta cm) = GetRegionalClusterConfigMapName name ∧
  if CrossNamespaceEnabled env
  then ch_labels c !! KofRegionalClusterNamespaceLabel = Some (om_Namespace (cm_meta cm))
  else om_Namespace (cm_meta cm) = ch_clusterNamespace c.
Proof.
  intros E. apply ebind_ok in E as (ns & w1 & En & E). apply ebind_ok in E as ([] & w2 & Es & E).
  assert (Hq2 : kept KConfigMap w2 = kept KConfigMap w1).
  { refine (quiet_kept _ _ _ _ KConfigMap _ Es). unfold check_same_region. stays_tac. }
  apply (kept_get KConfigMap) in E. rewrite Hq2 in E.
  destruct (kept_cm_key _ _ _ _ E) as [Hns Hn]. rewrite Hns, Hn.
  destruct (CrossNamespaceEnabled env).
  - destruct (ch_labels c !! KofRegionalClusterNamespaceLabel); [|done].
    by apply eret_ok in En as [-> ->].
  - by apply eret_ok in En as [-> ->].
Qed.

Lemma GetRegionalConfigMap_spec c (w : W) x w' :
  GetRegionalConfigMap env load_kubeconfig c w = (Ok x, w') → is_regional_of c w (rc_configMap x).
Proof.
  intros E. apply ebind_ok in E as (cm & w1 & Ec & E).
  assert (rc_configMap x = cm) as ->.
  { apply ebind_ok in E as (ns & w2 & _ & E). apply ebind_ok in E as (b & w3 & _ & E).
    by apply eret_ok in E as [<- _]. }
  unfold is_regional_of. destruct (ch_labels c !! KofRegionalClusterNameLabel).
  - by apply ByLabel_spec in Ec.
  - split; [|eauto]. by apply by_location_kept in Ec.
Qed.

End reconcile.

(** * A child is reconciled *)

Lemma child_discovery_witness :
  om_Namespace (cm_meta demo_regional_cm) = "kcm" ∧
  fits_child demo_kubeconfig demo_world demo_child (NewConfigDataFromConfigMap demo_regional_cm).
Proof.
  destruct (child_discovery demo_env demo_kubeconfig demo_child demo_world demo_regional_cm
              (DiscoverRegionalClusterConfigMapByLocation demo_env demo_kubeconfig demo_child demo_world).2)
    as (_ & _ & Hns & Hfits & _).
  - apply ends_in. vm_compute. reflexivity.
  - split; [apply Hns; [reflexivity|discriminate]|exact Hfits].
Defined.


(** The regional ConfigMap is as it was. *)
Lemma child_changes_own_witness :
  kept KConfigMap (child_Reconcile demo_env demo_visit demo_kubeconfig demo_child demo_world).2
    !! ("kcm", "kof-reg") = kept KConfigMap demo_world !! ("kcm", "kof-reg").
Proof.
  apply (child_changes_own demo_env demo_visit demo_kubeconfig demo_child demo_world).
  intros [[_ Hk]|[[Hk _]|[]]]; discriminate Hk.
Defined.
