(* ===== verification/Regional.v ===== *)
(** The controllers of clusters: internal/controller/configmap_cluster_regional.go,
    regional_cluster_configmap_controller.go,
    clusterdeployment_kof_cluster_regional_role.go, clusterdeployment_controller.go
    and regionless_configmap_bootstrap.go.

    Recorded events and log lines are left out.  The package variable
    [isIstio] is a parameter, as are the environment and the libraries for
    YAML, kubeconfigs, durations in JSON and bracketed hosts. *)
From S2P Require Import Prelude Strings GoTime Env Json World Vlogs Kube Server Acl Jaeger.
From S2P Require Import Alerts StorageConn Promxy Api VMUser Region ConfigData Url Child.

Open Scope string_scope.

(** * Names *)

Definition GetVmRulesMcsPropagationName (cmName : string) : string :=
  FNVName "kof-vm-rules-propagation" cmName.
Definition GetTracesStorageConnectionName (cmName cmNamespace : string) : string :=
  FNVName "kof-traces-storage-connection" (cmName +:+ "/" +:+ cmNamespace).
Definition GetLogsStorageConnectionName (cmName cmNamespace : string) : string :=
  FNVName "kof-logs-storage-connection" (cmName +:+ "/" +:+ cmNamespace).
Definition GetAuditLogsStorageConnectionName (cmName cmNamespace : string) : string :=
  FNVName "kof-audit-logs-storage-connection" (cmName +:+ "/" +:+ cmNamespace).
Definition GetPromxyServerGroupName (cmName cmNamespace : string) : string :=
  FNVName "promxy-server-group" (cmName +:+ "/" +:+ cmNamespace).
Definition GetVMUserAdminName (cmName cmNamespace : string) : string :=
  Adler32Name "admin" (cmName +:+ "/" +:+ cmNamespace).
Definition vmRulesConfigMapNamePrefix := "kof-record-vmrules-".

(** * The HTTP client configuration of a regional cluster *)

Definition basic_auth_member (a : BasicAuth) (kv : string * json) : option BasicAuth :=
  let (k, j) := kv in
  if equal_fold k "credentials_secret_name" then
    (λ s, {| ba_CredentialsSecretName := s; ba_UsernameKey := ba_UsernameKey a;
             ba_PasswordKey := ba_PasswordKey a |}) <$> string_field j (ba_CredentialsSecretName a)
  else if equal_fold k "username_key" then
    (λ s, {| ba_CredentialsSecretName := ba_CredentialsSecretName a; ba_UsernameKey := s;
             ba_PasswordKey := ba_PasswordKey a |}) <$> string_field j (ba_UsernameKey a)
  else if equal_fold k "password_key" then
    (λ s, {| ba_CredentialsSecretName := ba_CredentialsSecretName a;
             ba_UsernameKey := ba_UsernameKey a; ba_PasswordKey := s |}) <$>
      string_field j (ba_PasswordKey a)
  else Some a.
Definition tls_member (verify : bool) (kv : string * json) : option bool :=
  let (k, j) := kv in
  if equal_fold k "insecure_skip_verify" then
    match j with JBool b => Some b | JNull => Some verify | _ => None end
  else Some verify.

Section regional.
Context {W : Type} `{Cluster W} `{Random W}
  (env : environ) (visit : gmap string string → list (string * string))
  (isIstio : bool)
  (load_kubeconfig : string → result string)
  (yaml_config : string → result ClusterDeploymentConfig)
  (** metav1.Duration.UnmarshalJSON. *)
  (json_duration : json → option Z)
  (bracketed : string → option string).

Definition http_member (h : HTTPClientConfig) (kv : string * json) : option HTTPClientConfig :=
  let (k, j) := kv in
  if equal_fold k "dial_timeout" then
    (λ d, {| hc_DialTimeout := d; hc_InsecureSkipVerify := hc_InsecureSkipVerify h;
             hc_BasicAuth := hc_BasicAuth h |}) <$> json_duration j
  else if equal_fold k "tls_config" then
    (λ b, {| hc_DialTimeout := hc_DialTimeout h; hc_InsecureSkipVerify := b;
             hc_BasicAuth := hc_BasicAuth h |}) <$>
      decode_struct tls_member (hc_InsecureSkipVerify h) j
  else if equal_fold k "basic_auth" then
    (λ a, {| hc_DialTimeout := hc_DialTimeout h; hc_InsecureSkipVerify := hc_InsecureSkipVerify h;
             hc_BasicAuth := a |}) <$> decode_struct basic_auth_member (hc_BasicAuth h) j
  else Some h.
Definition defaultDialTimeout : Z := (5 * second)%Z.
Definition default_http : HTTPClientConfig :=
  {| hc_DialTimeout := defaultDialTimeout; hc_InsecureSkipVerify := false;
     hc_BasicAuth := {| ba_CredentialsSecretName := ""; ba_UsernameKey := ""; ba_PasswordKey := "" |} |}.

Definition GetHttpClientConfig (c : RegionalClusterConfigMap) : result (option HTTPClientConfig) :=
  let text := da_RegionalHTTPClientConfig (rc_configData c) in
  if bool_decide (text = "") then Ok None
  else match unmarshal text ≫= decode_struct http_member default_http with
       | Some h => Ok (Some h)
       | None => Err (EText "invalid JSON")
       end.

(** * Endpoints *)

Definition GetReadEndpoint (c : RegionalClusterConfigMap) (endpointAnnotation externalEndpoint : string)
    : string :=
  if negb (isRegionlessConfigMap (rc_configMap c)) then externalEndpoint
  else if isIstio then sprintf_s (at_key istioEndpoints endpointAnnotation) (rc_clusterName c)
  else at_key regionlessEndpoints endpointAnnotation.

Definition parse_endpoint (endpoint : string) : result URL :=
  match url_Parse bracketed endpoint with
  | Some u => Ok u
  | None => Err (EText ("parse " +:+ quote endpoint))
  end.
Definition parsePort (u : URL) : result string :=
  let port := Port u in
  if negb (bool_decide (port = "")) then Ok port
  else if String.eqb (u_Scheme u) "http" then Ok "80"
  else if String.eqb (u_Scheme u) "https" then Ok "443"
  else Err (EText ("unknown scheme: " +:+ u_Scheme u)).

Record MetricsData := { md_Endpoint : string; md_Target : string; md_Port : string; md_URL : URL }.
Definition GetMetricsData (c : RegionalClusterConfigMap) : result MetricsData :=
  let endpoint := GetReadEndpoint c ReadMetricsAnnotation (da_ReadMetricsEndpoint (rc_configData c)) in
  try u := parse_endpoint endpoint in
  try port := parsePort u in
  Ok {| md_Endpoint := endpoint; md_Target := Hostname u +:+ ":" +:+ port; md_Port := port;
        md_URL := u |}.

Definition skip_verify (c : RegionalClusterConfigMap) (h : option HTTPClientConfig) : bool :=
  match h with
  | Some h => negb (isRegionlessConfigMap (rc_configMap c)) && hc_InsecureSkipVerify h
  | None => false
  end.
Definition cm_name (c : RegionalClusterConfigMap) : string := om_Name (cm_meta (rc_configMap c)).
Definition cm_namespace (c : RegionalClusterConfigMap) : string := om_Namespace (cm_meta (rc_configMap c)).
Definition admin_secret (c : RegionalClusterConfigMap) : string :=
  BuildSecretName (GetVMUserAdminName (cm_name c) (cm_namespace c)).

(** * What a regional cluster has *)

Definition IsIstioCluster (c : RegionalClusterConfigMap) : bool :=
  negb (bool_decide (da_IstioRole (rc_configData c) = "")).
Definition regional_mcs_name (c : RegionalClusterConfigMap) : string :=
  if IsIstioCluster c then GetIstioRegionalMCSName env else Env.GetRegionalMCSName env.

Definition admin_options (c : RegionalClusterConfigMap) : CreateOptions :=
  {| op_Name := GetVMUserAdminName (cm_name c) (cm_namespace c);
     op_Namespace := rc_clusterNamespace c;
     op_OwnerReference := Some (rc_ownerReference c);
     op_ExtraLabels := {[ClusterNameLabel := rc_clusterName c]};
     op_MCSConfig := Some
       {| mo_ClusterSelector := {| ls_MatchLabels := {[ClusterNameLabel := rc_clusterName c]};
                                   ls_MatchExpressions := [] |};
          mo_DependsOn := [regional_mcs_name c] |};
     op_VMUserConfig := None |}.
Definition CreateVMUser (c : RegionalClusterConfigMap) : eff W unit := Create env visit (admin_options c).

Definition vm_rules_configmap (c : RegionalClusterConfigMap) : ConfigMap :=
  {| cm_meta := with_owners [rc_ownerReference c]
       (new_meta (rc_clusterNamespace c) (vmRulesConfigMapNamePrefix +:+ rc_clusterName c)
          {[KofRecordVMRulesClusterNameLabel := rc_clusterName c;
            ManagedByLabel := ManagedByValue; KofGeneratedLabel := "true"]});
     cm_Data := ∅ |}.
Definition CreateVmRulesConfigMap (c : RegionalClusterConfigMap) : eff W unit :=
  do _ := ewrapv "failed to create VMRulesConfigMap" (EnsureCreated (vm_rules_configmap c)) in
  eret (Ok tt).

Definition CreateOrUpdateMcsForVmRulesPropagation (c : RegionalClusterConfigMap) : eff W unit :=
  let name := rc_clusterName c in
  let namespace := rc_clusterNamespace c in
  if rc_isKcmRegionCluster c then
    do _ := ewrapv "failed to create or update VMRules propagation"
      (upsert_region_mcs (GetVmRulesMcsPropagationName (cm_name c)) name namespace
         (region_mcs_spec env (FNVName "kof-vm-rules" (namespace +:+ "/" +:+ name)) "vmRules"
            "ConfigMap" (vmRulesConfigMapNamePrefix +:+ name) namespace)) in
    eret (Ok tt)
  else eret (Ok tt).

Definition server_group (c : RegionalClusterConfigMap) (metrics : MetricsData)
    (h : option HTTPClientConfig) (g : PromxyServerGroup) : PromxyServerGroup :=
  {| pg_meta := with_labels {[ManagedByLabel := ManagedByValue;
                              SecretNameLabel := "kof-mothership-promxy-config"]}
                  (with_owners [rc_ownerReference c] (pg_meta g));
     pg_ClusterName := rc_clusterName c;
     pg_Targets := [md_Target metrics];
     pg_PathPrefix := u_Path (md_URL metrics);
     pg_Scheme := u_Scheme (md_URL metrics);
     pg_HttpClient :=
       {| hc_DialTimeout :=
            match h with
            | Some h => if bool_decide (hc_DialTimeout h = 0%Z) then defaultDialTimeout
                        else hc_DialTimeout h
            | None => defaultDialTimeout
            end;
          hc_InsecureSkipVerify := skip_verify c h;
          hc_BasicAuth :=
            {| ba_CredentialsSecretName :=
                 match h with
                 | Some h => let name := ba_CredentialsSecretName (hc_BasicAuth h) in
                             if bool_decide (name = "") then admin_secret c else name
                 | None => admin_secret c
                 end;
               ba_UsernameKey := UsernameKey; ba_PasswordKey := PasswordKey |} |} |}.
Definition new_server_group (namespace name : string) : PromxyServerGroup :=
  {| pg_meta := new_meta namespace name ∅; pg_ClusterName := ""; pg_Targets := [];
     pg_PathPrefix := ""; pg_Scheme := "";
     pg_HttpClient := {| hc_DialTimeout := 0; hc_InsecureSkipVerify := false;
       hc_BasicAuth := {| ba_CredentialsSecretName := ""; ba_UsernameKey := "";
                          ba_PasswordKey := "" |} |} |}.
Definition CreateOrUpdatePromxyServerGroup (c : RegionalClusterConfigMap) : eff W unit :=
  do metrics := eret (flat_err "failed to get metrics data" (GetMetricsData c)) in
  do h := eret (flat_err "failed to get http client config" (GetHttpClientConfig c)) in
  do _ := ewrapv "failed to create or update PromxyServerGroup"
    (create_or_update
       (new_server_group (rc_clusterNamespace c) (GetPromxyServerGroupName (cm_name c) (cm_namespace c)))
       (λ g, eret (Ok (server_group c metrics h g)))) in
  eret (Ok tt).

(** ** Storage connections *)

Definition storage_connection (c : RegionalClusterConfigMap) (kindName clusterName : string) (u : URL)
    (h : option HTTPClientConfig) (conn : VMStorageConnection) : VMStorageConnection :=
  {| sc_meta := with_labels
       (<[ManagedByLabel := ManagedByValue]> (<[ClusterNameLabel := rc_clusterName c]>
          (<[KofGeneratedLabel := "true"]> (om_Labels (sc_meta conn)))))
       (with_owners [rc_ownerReference c] (sc_meta conn));
     sc_ClusterRef := {| cr_Name := clusterName; cr_Namespace := rc_releaseNamespace c;
                         cr_Kind := kindName |};
     sc_TargetStorageNode :=
       {| tn_Address := u_Host u +:+ u_Path u;
          tn_Secret := {| sr_Name := admin_secret c; sr_PasswordKey := PasswordKey;
                          sr_UsernameKey := UsernameKey |};
          tn_TLSConfig := {| tls_Enabled := String.eqb (u_Scheme u) "https";
                             tls_InsecureSkipVerify := skip_verify c h |} |} |}.
Definition new_connection (namespace name : string) : VMStorageConnection :=
  {| sc_meta := new_meta namespace name ∅;
     sc_ClusterRef := {| cr_Name := ""; cr_Namespace := ""; cr_Kind := "" |};
     sc_TargetStorageNode :=
       {| tn_Address := ""; tn_Secret := {| sr_Name := ""; sr_PasswordKey := ""; sr_UsernameKey := "" |};
          tn_TLSConfig := {| tls_Enabled := false; tls_InsecureSkipVerify := false |} |} |}.

(** The three storage connections differ in the endpoint, the name and the
    cluster; none is made when the cluster has no name. *)
Definition upsert_connection (c : RegionalClusterConfigMap) (what endpoint name kindName clusterName : string)
    : eff W unit :=
  do h := eret (flat_err "failed to get http client config" (GetHttpClientConfig c)) in
  do u := eret (flat_err ("failed to parse " +:+ what +:+ " endpoint") (parse_endpoint endpoint)) in
  if bool_decide (clusterName = "") then eret (Ok tt)
  else do _ := create_or_update (new_connection (rc_clusterNamespace c) name)
                 (λ conn, eret (Ok (storage_connection c kindName clusterName u h conn))) in
       eret (Ok tt).
Definition CreateOrUpdateLogsStorageConnection (c : RegionalClusterConfigMap) : eff W unit :=
  upsert_connection c "logs"
    (GetReadEndpoint c ReadLogsAnnotation (da_ReadLogsEndpoint (rc_configData c)))
    (GetLogsStorageConnectionName (cm_name c) (cm_namespace c)) "VLCluster" (GetVLClusterName env).
Definition CreateOrUpdateTracesStorageConnection (c : RegionalClusterConfigMap) : eff W unit :=
  upsert_connection c "traces"
    (GetReadEndpoint c ReadTracesAnnotation (da_ReadTracesEndpoint (rc_configData c)))
    (GetTracesStorageConnectionName (cm_name c) (cm_namespace c)) "VTCluster" (GetVTClusterName env).
Definition CreateOrUpdateAuditLogsStorageConnection (c : RegionalClusterConfigMap) : eff W unit :=
  upsert_connection c "audit logs"
    (GetReadEndpoint c ReadAuditLogsAnnotation (da_ReadAuditLogsEndpoint (rc_configData c)))
    (GetAuditLogsStorageConnectionName (cm_name c) (cm_namespace c)) "VLCluster" (GetVLClusterName env).

(** ** The ConfigMaps of the children *)

Fixpoint new_roles (l : list ClusterDeployment) : result (list ChildClusterRole) :=
  match l with
  | [] => Ok []
  | cd :: r => try x := flat_err "failed to create child cluster" (NewChildClusterRole yaml_config cd) in
               try xs := new_roles r in
               Ok (x :: xs)
  end.

(** Labelled with the name and the namespace of the regional cluster. *)
Definition labelled_child (c : RegionalClusterConfigMap) (cd : ClusterDeployment) : bool :=
  let ls := om_Labels (cd_meta cd) in
  bool_decide (at_key ls KofRegionalClusterNameLabel = rc_clusterName c) &&
  bool_decide (at_key ls KofRegionalClusterNamespaceLabel = rc_clusterNamespace c).

(** Not labelled with the name of another regional cluster. *)
Definition may_be_child (c : RegionalClusterConfigMap) (cd : ClusterDeployment) : bool :=
  let name := at_key (om_Labels (cd_meta cd)) KofRegionalClusterNameLabel in
  bool_decide (name = "") || bool_decide (name = rc_clusterName c).

(** The loop over the children in a known cloud. *)
Fixpoint located_children (c : RegionalClusterConfigMap) (l : list ClusterDeployment)
    : eff W (list ChildClusterRole) :=
  match l with
  | [] => eret (Ok [])
  | cd :: r =>
      ecase (getCloud cd) (λ cloud,
        match cloud with
        | Err _ => located_children c r
        | Ok childCloud =>
            if negb (bool_decide (da_RegionalClusterCloud (rc_configData c) = childCloud))
            then located_children c r
            else match cd_Config cd with
                 | None => eret (Err nil_dereference)
                 | Some raw =>
                     match ReadClusterDeploymentConfig yaml_config raw with
                     | Err _ => located_children c r
                     | Ok config =>
                         if locationIsTheSame (da_RegionalClusterCloud (rc_configData c))
                              (ToClusterDeploymentConfig (rc_configData c)) config && may_be_child c cd
                         then
                           do x := eret (flat_err "failed to create child cluster"
                                           (NewChildClusterRole yaml_config cd)) in
                           do xs := located_children c r in
                           eret (Ok (x :: xs))
                         else located_children c r
                     end
                 end
        end)
  end.

Definition GetChildClusters (c : RegionalClusterConfigMap) : eff W (list ChildClusterRole) :=
  do children := ewrapv "failed to get ClusterDeployments list"
    (GetClusterDeployments [MatchingLabels {[KofClusterRoleLabel := "child"]}]) in
  if isRegionlessConfigMap (rc_configMap c) then eret (new_roles children)
  else if bool_decide (da_RegionalClusterCloud (rc_configData c) = "") then
    eret (new_roles (filter (λ cd, labelled_child c cd = true) children))
  else located_children c children.

Fixpoint update_children (data : gmap string string) (l : list ChildClusterRole) : eff W unit :=
  match l with
  | [] => eret (Ok tt)
  | child :: r =>
      do configMap := ewrapv "failed to get config map" (GetConfigMap child) in
      do _ := (match configMap with
               | None => eret (Ok tt)
               | Some cm => ewrapv "failed to update config map" (UpdateConfigMap cm data)
               end) in
      update_children data r
  end.
Definition UpdateChildConfigMap (c : RegionalClusterConfigMap) : eff W unit :=
  do children := ewrapv "failed to get child clusters" (GetChildClusters c) in
  update_children (cm_Data (rc_configMap c)) children.

Definition regional_Reconcile (c : RegionalClusterConfigMap) : eff W unit :=
  do _ := ewrapv "failed to create vm rules ConfigMap" (CreateVmRulesConfigMap c) in
  do _ := ewrapv "failed to create or update MCS for VM rules propagation"
            (CreateOrUpdateMcsForVmRulesPropagation c) in
  do _ := ewrapv "failed to update child's ConfigMap" (UpdateChildConfigMap c) in
  do _ := ewrapv "failed to create VMUser" (CreateVMUser c) in
  do _ := ewrapv "failed to create or update Promxy ServerGroup" (CreateOrUpdatePromxyServerGroup c) in
  do _ := ewrapv "failed to create or update TracesStorageConnection"
            (CreateOrUpdateTracesStorageConnection c) in
  do _ := ewrapv "failed to create or update LogsStorageConnection"
            (CreateOrUpdateLogsStorageConnection c) in
  ewrapv "failed to create or update AuditLogsStorageConnection"
    (CreateOrUpdateAuditLogsStorageConnection c).

(** * RegionalClusterConfigMapReconciler *)

Definition regional_event (labels : gmap string string) : bool :=
  bool_decide (at_key labels KofClusterRoleLabel = KofRoleRegional).

(** A MultiClusterService is deleted unless it is not there. *)
Definition delete_mcs (name : string) : eff W unit := deleteResource MultiClusterService name "".
Definition CleanupVmRulesMcsPropagation (cmName : string) : eff W unit :=
  delete_mcs (GetVmRulesMcsPropagationName cmName).
Definition ResourceCleanup (cmName namespace : string) : eff W unit :=
  do _ := ewrapv "failed to delete VMUser resources"
            (Delete (GetVMUserAdminName cmName namespace) namespace) in
  ewrapv "failed to cleanup VM rules MCS propagation" (CleanupVmRulesMcsPropagation cmName).

Definition configmap_Reconcile (name namespace : string) : eff W unit :=
  ecase (kube_get (O := ConfigMap) (namespace, name)) (λ r,
    match r with
    | Err e => if errors_as is_not_found e then ResourceCleanup name namespace
               else eret (flat_err "failed to get config map" (Err e))
    | Ok cm =>
        do c := ewrapv "failed to create cluster config map" (NewRegionalClusterConfigMap env cm) in
        ewrapv "failed to reconcile cluster config map" (regional_Reconcile c)
    end).

(** * RegionalClusterRole *)

Definition regional_configmap (cd : ClusterDeployment) (data : ConfigData) : ConfigMap :=
  {| cm_meta := with_owners
       [GetOwnerReference "k0rdent.mirantis.com/v1beta1" "ClusterDeployment" cd]
       (new_meta (om_Namespace (cd_meta cd)) (GetRegionalClusterConfigMapName (om_Name (cd_meta cd)))
          {[ManagedByLabel := ManagedByValue; KofGeneratedLabel := "true";
            KofClusterRoleLabel := KofRoleRegional]});
     cm_Data := ToMap data |}.
Definition CreateOrUpdateRegionalConfigMap (cd : ClusterDeployment) : eff W unit :=
  do configData := ewrapv "failed to create config data"
                     (NewConfigDataFromClusterDeployment yaml_config cd) in
  do cm := ewrapv "failed to get ConfigMap"
             (get_configmap (GetRegionalClusterConfigMapName (om_Name (cd_meta cd)))
                (om_Namespace (cd_meta cd))) in
  match cm with
  | None => ewrapv "failed to create ConfigMap" (kube_create (regional_configmap cd configData))
  | Some cm => ewrapv "failed to update ConfigMap" (UpdateConfigMap cm (ToMap configData))
  end.
Definition regional_role_Reconcile (cd : ClusterDeployment) : eff W unit :=
  ewrapv "failed to create or update regional cluster ConfigMap" (CreateOrUpdateRegionalConfigMap cd).

(** * ClusterDeploymentReconciler *)

Definition ReconcileKofClusterRole (cd : ClusterDeployment) : eff W unit :=
  let role := at_key (om_Labels (cd_meta cd)) KofClusterRoleLabel in
  if String.eqb role KofRoleChild then
    do c := eret (NewChildClusterRole yaml_config cd) in
    child_Reconcile env visit load_kubeconfig c
  else if String.eqb role KofRoleRegional then regional_role_Reconcile cd
  else eret (Ok tt).

Definition named_cluster (cd : ClusterDeployment) : ClusterDeployment :=
  {| cd_meta := with_labels (<[ClusterNameLabel := om_Name (cd_meta cd)]> (om_Labels (cd_meta cd)))
                  (cd_meta cd);
     cd_Template := cd_Template cd; cd_Credential := cd_Credential cd; cd_Config := cd_Config cd;
     cd_Region := cd_Region cd |}.
Definition addClusterNameLabel (cd : ClusterDeployment) : eff W unit :=
  ewrapv ("failed to add cluster name label to ClusterDeployment " +:+ om_Namespace (cd_meta cd) +:+
          "/" +:+ om_Name (cd_meta cd))
    (kube_update (named_cluster cd)).
Definition CleanupChildConfigMapMcsPropagation (clusterName : string) : eff W unit :=
  ewrapv "failed to delete child config map propagation MultiClusterService"
    (delete_mcs (GetChildConfigMapPropagationName clusterName)).

Definition clusterdeployment_Reconcile (name namespace : string) : eff W unit :=
  ecase (kube_get (O := ClusterDeployment) (namespace, name)) (λ r,
    match r with
    | Err e => if errors_as is_not_found e then CleanupChildConfigMapMcsPropagation name
               else eret (Err e)
    | Ok cd => if negb (HasClusterNameLabel (om_Labels (cd_meta cd))) then addClusterNameLabel cd
               else ReconcileKofClusterRole cd
    end).

(** * regionless_configmap_bootstrap.go *)

Definition CreateOrUpdateRegionlessConfigMap (managementClusterName : string) : eff W unit :=
  if negb (RegionlessEnabled env) then eret (Ok tt)
  else
    let data := NewRegionlessConfigData env isIstio managementClusterName DefaultSystemNamespace in
    do _ := ewrapv "failed to create or update regionless regional ConfigMap"
      (create_or_update
         {| cm_meta := new_meta DefaultSystemNamespace
                         (GetRegionalClusterConfigMapName managementClusterName) ∅;
            cm_Data := ∅ |}
         (λ cm, eret (Ok
            {| cm_meta := with_labels
                 (<[KofRegionlessLabel := "true"]> (<[KofClusterRoleLabel := KofRoleRegional]>
                    (<[KofGeneratedLabel := "true"]> (<[ManagedByLabel := ManagedByValue]>
                       (om_Labels (cm_meta cm))))))
                 (cm_meta cm);
               cm_Data := ToMap data |}))) in
    eret (Ok tt).

(** [InitIsIstio]: the value of the package variable. *)
Definition InitIsIstio : eff W bool :=
  do namespace := ewrap "failed to determine Istio status because namespace is unavailable"
                    (kube_get (O := Namespace) ("", KofNamespace)) in
  eret (Ok (bool_decide (at_key (om_Labels (ns_meta namespace)) "istio-injection" = "enabled"))).
End regional.
