(* ===== verification/RegionalFacts.v ===== *)
(** Facts about regional clusters: the ConfigMap they publish reads back as
    their data, and a reconciliation of that ConfigMap changes, among the
    ConfigMaps, those of the children that belong to it. *)
From S2P Require Import Prelude Strings Env Json World Vlogs Kube Server Acl Jaeger Alerts.
From S2P Require Import StorageConn Promxy Api ApiFacts VMUser VMUserFacts Region ConfigData.
From S2P Require Import Url Child Demo ChildFacts Regional.

Open Scope string_scope.

Ltac in_list :=
  first [apply elem_of_cons; left; reflexivity | apply elem_of_cons; right; in_list].

(** * The data of a regional cluster *)

(** A ConfigMap reads back as the data it was made from. *)
Lemma data_roundtrip d : data_of_map (ToMap d) = d.
Proof. by destruct d. Qed.

(** The endpoints are those of the annotations, or derived from the domain or,
    for an Istio cluster, from the name. *)
Lemma getEndpoint_spec a cd config e :
  getEndpoint a cd config = Ok e →
  match dc_ClusterAnnotations config !! a with
  | Some x => e = x
  | None =>
      if HasLabel IstioRoleLabel (om_Labels (cd_meta cd))
      then e = sprintf_s (at_key istioEndpoints a) (om_Name (cd_meta cd))
      else ∃ domain, dc_ClusterAnnotations config !! KofRegionalDomainAnnotation = Some domain ∧
                     e = sprintf_s (at_key defaultEndpoints a) domain
  end.
Proof.
  unfold getEndpoint. destruct (dc_ClusterAnnotations config !! a); [by intros [= <-]|].
  unfold getDerivedEndpoint. destruct (HasLabel IstioRoleLabel _); simpl; [by intros [= <-]|].
  unfold HasLabel, at_key.
  destruct (dc_ClusterAnnotations config !! KofRegionalDomainAnnotation) as [d|]; simpl; [|done].
  intros [= <-]. eauto.
Qed.

(** What the data of a cluster deployment says. *)
Definition describes (cd : ClusterDeployment) (config : ClusterDeploymentConfig) (cloud : string)
    (d : ConfigData) : Prop :=
  da_RegionalClusterName d = om_Name (cd_meta cd) ∧
  da_RegionalClusterNamespace d = om_Namespace (cd_meta cd) ∧
  da_RegionalClusterCloud d = cloud ∧
  da_IstioRole d = at_key (om_Labels (cd_meta cd)) IstioRoleLabel ∧
  da_RegionalHTTPClientConfig d =
    at_key (om_Annotations (cd_meta cd)) KofRegionalHTTPClientConfigAnnotation ∧
  getEndpoint ReadMetricsAnnotation cd config = Ok (da_ReadMetricsEndpoint d) ∧
  getEndpoint ReadLogsAnnotation cd config = Ok (da_ReadLogsEndpoint d) ∧
  getEndpoint ReadAuditLogsAnnotation cd config = Ok (da_ReadAuditLogsEndpoint d) ∧
  getEndpoint ReadTracesAnnotation cd config = Ok (da_ReadTracesEndpoint d) ∧
  (om_Labels (cd_meta cd) !! IstioRoleLabel = None →
   getEndpoint WriteMetricsAnnotation cd config = Ok (da_WriteMetricsEndpoint d) ∧
   getEndpoint WriteLogsAnnotation cd config = Ok (da_WriteLogsEndpoint d) ∧
   getEndpoint WriteAuditLogsAnnotation cd config = Ok (da_WriteAuditLogsEndpoint d) ∧
   getEndpoint WriteTracesAnnotation cd config = Ok (da_WriteTracesEndpoint d)) ∧
  ToClusterDeploymentConfig d =
    {| dc_ClusterAnnotations := ∅; dc_Region := dc_Region config; dc_Location := dc_Location config;
       dc_IdentityRegion := dc_IdentityRegion config;
       dc_VSphereDatacenter := dc_VSphereDatacenter config |}.

Lemma config_data_spec cd config cloud d :
  config_data cd config cloud = Ok d → describes cd config cloud d.
Proof.
  unfold config_data. intros E.
  apply rbind_ok in E as (rm & Hrm & E). apply rbind_ok in E as (rl & Hrl & E).
  apply rbind_ok in E as (ra & Hra & E). apply rbind_ok in E as (rt & Hrt & E).
  cbv zeta in E. destruct (om_Labels (cd_meta cd) !! IstioRoleLabel) as [role|] eqn:Hi.
  - injection E as <-. unfold describes, at_key. rewrite Hi. by split_and!.
  - apply rbind_ok in E as (wm & Hwm & E). apply rbind_ok in E as (wl & Hwl & E).
    apply rbind_ok in E as (wa & Hwa & E). apply rbind_ok in E as (wt & Hwt & E).
    injection E as <-. unfold describes, at_key. rewrite Hi. by split_and!.
Qed.

Section published.
Context {W : Type} `{HC : ClusterLaws W}
  (yaml_config : string → result ClusterDeploymentConfig).

End published.

(** * The children of a regional cluster *)

Section children.
Context {W : Type} `{HC : ClusterLaws W} `{!Random W} `{!RandomLaws W}
  (env : environ) (visit : gmap string string → list (string * string)) (isIstio : bool)
  (load_kubeconfig : string → result string)
  (yaml_config : string → result ClusterDeploymentConfig)
  (json_duration : json → option Z) (bracketed : string → option string).

(** A child, of any namespace, that belongs to the regional cluster of the
    ConfigMap: any child for a regionless one; when the cloud is not known, one
    labelled with the name and the namespace of the cluster; otherwise one of
    the same cloud and place which is not labelled with another name. *)
Definition child_of (c : RegionalClusterConfigMap) (w : W) (cd : ClusterDeployment) : Prop :=
  kept KClusterDeployment w !! (om_Namespace (cd_meta cd), om_Name (cd_meta cd)) = Some cd ∧
  let label l := default "" (om_Labels (cd_meta cd) !! l) in
  let cloud := da_RegionalClusterCloud (rc_configData c) in
  label "k0rdent.mirantis.com/kof-cluster-role" = "child" ∧
  (om_Labels (cm_meta (rc_configMap c)) !! "k0rdent.mirantis.com/kof-regionless" = Some "true" ∨
   cloud = "" ∧ label "k0rdent.mirantis.com/kof-regional-cluster-name" = rc_clusterName c ∧
     label "k0rdent.mirantis.com/kof-regional-cluster-namespace" = rc_clusterNamespace c ∨
   has_cloud w cd cloud ∧
     label "k0rdent.mirantis.com/kof-regional-cluster-name" ∈ [""; rc_clusterName c] ∧
     ∃ config, read_config yaml_config cd = Ok config ∧
               same_place cloud config (rc_configData c)).

Lemma new_roles_spec l xs x :
  new_roles yaml_config l = Ok xs → x ∈ xs → ch_clusterDeployment x ∈ l.
Proof.
  revert xs. induction l as [|cd r IH]; intros xs; simpl.
  - intros [= <-] Hx. by apply not_elem_of_nil in Hx.
  - intros E. apply rbind_ok in E as (y & Hy%flat_err_ok & E). apply rbind_ok in E as (ys & Hys & E).
    injection E as <-. apply rbind_ok in Hy as (config & _ & [= <-]).
    intros [->|Hx]%elem_of_cons; [by left|right]. by eapply IH.
Qed.

Lemma located_children_quiet c l : quiet (located_children yaml_config c l).
Proof. induction l as [|cd r IH]; simpl; stays_tac; apply IH. Qed.

Lemma located_children_spec c l (w : W) xs w' x :
  located_children yaml_config c l w = (Ok xs, w') → x ∈ xs →
  let cd := ch_clusterDeployment x in
  cd ∈ l ∧ has_cloud w cd (da_RegionalClusterCloud (rc_configData c)) ∧ may_be_child c cd = true ∧
  ∃ config, read_config yaml_config cd = Ok config ∧
    locationIsTheSame (da_RegionalClusterCloud (rc_configData c))
      (ToClusterDeploymentConfig (rc_configData c)) config = true.
Proof.
  revert w xs. induction l as [|cd r IH]; intros w xs; simpl.
  { intros [= <- <-] Hx. by apply not_elem_of_nil in Hx. }
  unfold ecase. destruct (getCloud cd w) as [cloud w1] eqn:Ec.
  pose proof (quiet_kept _ _ _ _ KClusterTemplate (getCloud_quiet _) Ec) as Hq.
  assert (Hrest : ∀ ys, located_children yaml_config c r w1 = (Ok ys, w') → x ∈ ys →
    let cd' := ch_clusterDeployment x in
    cd' ∈ cd :: r ∧ has_cloud w cd' (da_RegionalClusterCloud (rc_configData c)) ∧
    may_be_child c cd' = true ∧
    ∃ config, read_config yaml_config cd' = Ok config ∧
      locationIsTheSame (da_RegionalClusterCloud (rc_configData c))
        (ToClusterDeploymentConfig (rc_configData c)) config = true).
  { intros ys Hys Hx. apply (IH _ _ Hys) in Hx as (Hin & Hcl & Hr). simpl. split; [by right|].
    split; [|done]. unfold has_cloud in *. by rewrite <-Hq. }
  destruct cloud as [cloud|e]; [|by apply Hrest]. apply getCloud_spec in Ec.
  destruct (bool_decide _) eqn:Hb; simpl; [|by apply Hrest]. apply bool_decide_eq_true_1 in Hb.
  destruct (cd_Config cd) as [raw|] eqn:Hcfg; [|done].
  destruct (ReadClusterDeploymentConfig yaml_config raw) as [config|e] eqn:Hread; [|by apply Hrest].
  destruct (locationIsTheSame _ _ _ && _) eqn:Hloc; [|by apply Hrest].
  apply andb_true_iff in Hloc as [Hloc Hmay].
  intros E Hx. apply ebind_ok in E as (y & w2 & Hy & E). apply ebind_ok in E as (ys & w3 & Hys & E).
  apply eret_ok in E as [<- <-]. apply eret_inv in Hy as [Hy%flat_err_ok <-].
  apply rbind_ok in Hy as (config' & _ & [= <-]).
  apply elem_of_cons in Hx as [->|Hx]; [|by apply (Hrest ys)]. simpl. rewrite Hb.
  split; [by left|]. split; [done|]. split; [done|]. exists config. split; [|by rewrite <-Hb].
  unfold read_config. by rewrite Hcfg.
Qed.

Lemma GetChildClusters_quiet c : quiet (GetChildClusters yaml_config c).
Proof.
  unfold GetChildClusters, GetClusterDeployments. stays_tac. apply located_children_quiet.
Qed.

Lemma GetChildClusters_spec c (w : W) l w' x :
  GetChildClusters yaml_config c w = (Ok l, w') → x ∈ l → child_of c w (ch_clusterDeployment x).
Proof.
  intros E Hx. apply ebind_ok in E as (cds & w1 & Ec & E). apply ewrapv_ok in Ec.
  unfold GetClusterDeployments in Ec.
  pose proof (λ cd, kept_list KClusterDeployment _ _ _ _ cd Ec) as Hl.
  pose proof (quiet_kept _ _ _ _ KClusterTemplate (stays_list _ KClusterDeployment _) Ec) as Hq.
  assert (Hin : ∀ cd, cd ∈ cds →
    kept KClusterDeployment w !! (om_Namespace (cd_meta cd), om_Name (cd_meta cd)) = Some cd ∧
    om_Labels (cd_meta cd) !! KofClusterRoleLabel = Some "child").
  { intros cd [Hm Hs]%Hl. split; [exact Hs|]. rewrite matches_cons in Hm.
    apply andb_true_iff in Hm as [Hm _]. by apply matching_label in Hm. }
  assert (Hrole : ∀ cd, om_Labels (cd_meta cd) !! KofClusterRoleLabel = Some "child" →
    default "" (om_Labels (cd_meta cd) !! "k0rdent.mirantis.com/kof-cluster-role") = "child").
  { intros cd Hcd. unfold KofClusterRoleLabel in Hcd. by rewrite Hcd. }
  unfold child_of. cbv zeta. destruct (isRegionlessConfigMap (rc_configMap c)) eqn:Hrl.
  - apply isRegionless_label in Hrl. apply eret_inv in E as [E _]. apply (new_roles_spec _ _ _ E) in Hx. apply Hin in Hx as []. auto.
  - case_bool_decide as Hc.
    + apply eret_inv in E as [E _]. apply (new_roles_spec _ _ _ E) in Hx.
      apply list_elem_of_filter in Hx as [Hlab Hx]. apply Hin in Hx as [].
      apply andb_true_iff in Hlab as [Hl1 Hl2]. apply bool_decide_eq_true_1 in Hl1, Hl2. auto 10.
    + apply (located_children_spec _ _ _ _ _ _ E) in Hx as (Hx & Hcl & Hm & Hcfg).
      apply Hin in Hx as []. unfold has_cloud in *. rewrite Hq in Hcl.
      destruct Hcfg as (config & Hread & Hloc). rewrite locationIsTheSame_sym in Hloc.
      apply locationIsTheSame_place in Hloc. apply orb_true_iff in Hm as [Hm|Hm];
        apply bool_decide_eq_true_1 in Hm; unfold at_key, KofRegionalClusterNameLabel in Hm;
        rewrite Hm; split_and!; auto; right; right; split_and!; eauto; in_list.
Qed.

(** ** Updating their ConfigMaps *)

(** Every ConfigMap is as it was or has the data. *)
Definition sets_data (data : gmap string string) (w w' : W) : Prop :=
  ∀ key, kept KConfigMap w' !! key = kept KConfigMap w !! key ∨
         ∃ x : ConfigMap, kept KConfigMap w' !! key = Some x ∧ cm_Data x = data.

Lemma sets_data_refl data w w' : kept KConfigMap w' = kept KConfigMap w → sets_data data w w'.
Proof. intros Hk key. left. by rewrite Hk. Qed.
Lemma sets_data_trans data w w' w'' :
  sets_data data w w' → sets_data data w' w'' → sets_data data w w''.
Proof.
  intros Ha Hb key. destruct (Hb key) as [Hk|Hk]; [|by right].
  destruct (Ha key) as [Hj|(x & Hx & Hd)]; [left|right]; [by etransitivity|].
  exists x. split; [|done]. by etransitivity.
Qed.

Definition child_configmaps (l : list ChildClusterRole) (k : kind) (key : string * string) : Prop :=
  k = KConfigMap ∧ ∃ x, x ∈ l ∧ key = (ch_clusterNamespace x, GetConfigMapName (ch_clusterName x)).

Lemma UpdateConfigMap_sets (cm : ConfigMap) data (w : W) key :
  kept KConfigMap w !! key = Some cm → sets_data data w (UpdateConfigMap cm data w).2.
Proof.
  intros Hk. unfold UpdateConfigMap. destruct (decide (cm_Data cm = data)); [by apply sets_data_refl|].
  pose proof (kept_key KConfigMap _ _ _ Hk) as Hkey. subst key.
  destruct (kube_update (with_data data cm) w) as [r w'] eqn:E. cbn [snd].
  apply (kept_update KConfigMap _ cm) in E; [|done..].
  assert (Hs : kept KConfigMap w' = kept KConfigMap w ∨
    kept KConfigMap w' = <[object_key cm := with_data data cm]> (kept KConfigMap w)).
  { destruct r; cbn [took] in E; [by right|exact E]. }
  destruct Hs as [Hs|Hs]; [by apply sets_data_refl|]. intros key. rewrite Hs.
  destruct (decide (key = object_key cm)) as [->|Hne].
  - right. exists (with_data data cm). by rewrite lookup_insert_eq.
  - left. by rewrite lookup_insert_ne.
Qed.

Lemma update_children_spec data l (w : W) :
  changes_only (child_configmaps l) w (update_children data l w).2 ∧
  sets_data data w (update_children data l w).2.
Proof.
  revert w. induction l as [|x r IH]; intros w; simpl.
  { split; [apply changes_only_refl|by apply sets_data_refl]. }
  unfold ebind at 1 3. destruct (ewrapv _ (GetConfigMap x) w) as [[o|e] w1] eqn:Eo.
  all: pose proof (λ k, quiet_kept _ _ _ _ k (stays_wrapv _ _ _ (GetConfigMap_quiet x)) Eo) as Hq.
  2: { split; [intros k key _; by rewrite Hq|by apply sets_data_refl]. }
  apply ewrapv_ok, get_configmap_spec in Eo. rewrite <-(Hq KConfigMap) in Eo.
  set (m := match o with Some cm => _ | None => _ end).
  assert (Hm : changes_only (child_configmaps (x :: r)) w1 (m w1).2 ∧ sets_data data w1 (m w1).2).
  { subst m. destruct o as [cm|].
    2: { split; [apply changes_only_refl|by apply sets_data_refl]. }
    symmetry in Eo. destruct (kept_cm_key _ _ _ _ Eo) as [Hns Hn]. split.
    - apply stays_wrapv, UpdateConfigMap_stays. split; [done|]. exists x. split; [by left|].
      by rewrite Hns, Hn.
    - unfold ewrapv. pose proof (UpdateConfigMap_sets _ data _ _ Eo) as Hs.
      by destruct (UpdateConfigMap cm data w1). }
  assert (Hq1 : changes_only (child_configmaps (x :: r)) w w1) by (intros k key _; by rewrite Hq).
  assert (Hs1 : sets_data data w w1) by (by apply sets_data_refl).
  unfold ebind. destruct (m w1) as [[[]|e] w2]; cbn [snd] in Hm; destruct Hm as [Hc Hs].
  - destruct (IH w2) as [Hc2 Hs2]. split.
    + eapply changes_only_trans; [exact Hq1|]. eapply changes_only_trans; [exact Hc|].
      eapply changes_only_mono; [|exact Hc2]. intros k key (-> & y & Hy & ->). split; [done|].
      exists y. split; [by right|done].
    + by eapply sets_data_trans, sets_data_trans.
  - split; [by eapply changes_only_trans|by eapply sets_data_trans].
Qed.

(** ** The whole reconciliation *)

Definition children_objects (c : RegionalClusterConfigMap) (w : W) (k : kind) (key : string * string) : Prop :=
  k = KConfigMap ∧ ∃ cd, child_of c w cd ∧
    key = (om_Namespace (cd_meta cd), GetConfigMapName (om_Name (cd_meta cd))).
Definition regional_objects (c : RegionalClusterConfigMap) (k : kind) (key : string * string) : Prop :=
  let name := cm_name c in
  let namespace := cm_namespace c in
  vmuser_objects (GetVMUserAdminName name namespace) (rc_clusterNamespace c) k key ∨
  k = KConfigMap ∧ key = (rc_clusterNamespace c, vmRulesConfigMapNamePrefix +:+ rc_clusterName c) ∨
  k = KMultiClusterService ∧ key = ("", GetVmRulesMcsPropagationName name) ∨
  k = KPromxyServerGroup ∧ key = (rc_clusterNamespace c, GetPromxyServerGroupName name namespace) ∨
  k = KVMStorageConnection ∧
    key ∈ (λ n, (rc_clusterNamespace c, n)) <$>
            [GetTracesStorageConnectionName name namespace; GetLogsStorageConnectionName name namespace;
             GetAuditLogsStorageConnectionName name namespace].

Lemma UpdateChildConfigMap_spec c (w : W) :
  changes_only (children_objects c w) w (UpdateChildConfigMap yaml_config c w).2 ∧
  sets_data (cm_Data (rc_configMap c)) w (UpdateChildConfigMap yaml_config c w).2.
Proof.
  unfold UpdateChildConfigMap, ebind.
  destruct (ewrapv _ (GetChildClusters yaml_config c) w) as [[l|e] w1] eqn:E.
  all: pose proof (λ k, quiet_kept _ _ _ _ k (stays_wrapv _ _ _ (GetChildClusters_quiet c)) E) as Hq.
  2: { split; [intros k key _; by rewrite Hq|by apply sets_data_refl]. }
  apply ewrapv_ok in E. destruct (update_children_spec (cm_Data (rc_configMap c)) l w1) as [Hc Hs].
  split.
  - intros k key Hk. rewrite <-Hq. apply Hc. intros (-> & x & Hx & ->). apply Hk.
    split; [done|]. exists (ch_clusterDeployment x). split; [|done].
    by eapply GetChildClusters_spec.
  - by eapply sets_data_trans; [apply sets_data_refl, Hq|].
Qed.

(** After the ConfigMap of the rules and its propagation, the children; then
    what is left. *)
Definition regional_rest (c : RegionalClusterConfigMap) : eff W unit :=
  do _ := ewrapv "failed to create VMUser" (CreateVMUser env visit c) in
  do _ := ewrapv "failed to create or update Promxy ServerGroup"
            (CreateOrUpdatePromxyServerGroup isIstio json_duration bracketed c) in
  do _ := ewrapv "failed to create or update TracesStorageConnection"
            (CreateOrUpdateTracesStorageConnection env isIstio json_duration bracketed c) in
  do _ := ewrapv "failed to create or update LogsStorageConnection"
            (CreateOrUpdateLogsStorageConnection env isIstio json_duration bracketed c) in
  ewrapv "failed to create or update AuditLogsStorageConnection"
    (CreateOrUpdateAuditLogsStorageConnection env isIstio json_duration bracketed c).

Lemma upsert_connection_stays c what endpoint name kindName clusterName P :
  P KVMStorageConnection (rc_clusterNamespace c, name) →
  stays P (upsert_connection json_duration bracketed c what endpoint name kindName clusterName).
Proof.
  intros HP. unfold upsert_connection. stays_tac.
  apply (stays_upsert _ KVMStorageConnection); [|done].
  by apply (sets_ret KVMStorageConnection (λ x, _)).
Qed.

(** What is left changes no ConfigMap. *)
Definition rest_objects (c : RegionalClusterConfigMap) (k : kind) (key : string * string) : Prop :=
  regional_objects c k key ∧ k ≠ KConfigMap.

Lemma regional_rest_stays c : stays (rest_objects c) (regional_rest c).
Proof.
  unfold regional_rest, rest_objects, regional_objects.
  repeat (apply stays_bind; [apply stays_wrapv|intros _]).
  - eapply stays_mono; [|apply Create_stays]. intros k key Hk. split; [by left|].
    intros ->. exact Hk.
  - unfold CreateOrUpdatePromxyServerGroup. stays_tac.
    apply (stays_upsert _ KPromxyServerGroup); [by apply (sets_ret KPromxyServerGroup (λ x, _))|].
    split; [|done]. do 3 right. by left.
  - apply upsert_connection_stays. split; [|done]. do 4 right. split; [done|].
    in_list.
  - apply upsert_connection_stays. split; [|done]. do 4 right. split; [done|].
    in_list.
  - apply stays_wrapv, upsert_connection_stays. split; [|done]. do 4 right. split; [done|].
    in_list.
Qed.

Lemma child_of_kept c (w w1 : W) cd :
  kept KClusterDeployment w1 = kept KClusterDeployment w →
  kept KClusterTemplate w1 = kept KClusterTemplate w → child_of c w1 cd → child_of c w cd.
Proof. intros Hc Ht. unfold child_of, has_cloud. by rewrite Hc, Ht. Qed.

Definition vm_rules_key (c : RegionalClusterConfigMap) : string * string :=
  (rc_clusterNamespace c, vmRulesConfigMapNamePrefix +:+ rc_clusterName c).

(** From a world with the cluster deployments and templates of [w0]: objects
    of the regional cluster and its children change, and the ConfigMaps other
    than the one of the rules only to the data. *)
Definition regional_step (c : RegionalClusterConfigMap) (w0 w w' : W) : Prop :=
  changes_only (λ k key, regional_objects c k key ∨ children_objects c w0 k key) w w' ∧
  ∀ key, key ≠ vm_rules_key c →
    kept KConfigMap w' !! key = kept KConfigMap w !! key ∨
    ∃ x : ConfigMap, kept KConfigMap w' !! key = Some x ∧ cm_Data x = cm_Data (rc_configMap c).

Lemma regional_step_trans c w0 w1 w2 w3 :
  regional_step c w0 w1 w2 → regional_step c w0 w2 w3 → regional_step c w0 w1 w3.
Proof.
  intros [Ha Hb] [Ha' Hb']. split; [by eapply changes_only_trans|]. intros key Hk.
  destruct (Hb' key Hk) as [Hs|Hs]; [|by right].
  destruct (Hb key Hk) as [Hj|(x & Hx & Hd)]; [left|right]; [by etransitivity|].
  exists x. split; [|done]. by etransitivity.
Qed.

Lemma regional_step_stays {A} c w0 w (m : eff W A) :
  stays (λ k key, regional_objects c k key ∧ (k = KConfigMap → key = vm_rules_key c)) m →
  regional_step c w0 w (m w).2.
Proof.
  intros Hm. split.
  - eapply changes_only_mono; [|apply Hm]. intros k key [? _]. by left.
  - intros key Hk. left. apply (Hm w KConfigMap). intros [_ Hv]. by apply Hk, Hv.
Qed.

Lemma before_children_stays c :
  stays (λ k key, k = KConfigMap ∧ key = vm_rules_key c) (CreateVmRulesConfigMap c) ∧
  stays (λ k key, k = KMultiClusterService ∧ key = ("", GetVmRulesMcsPropagationName (cm_name c)))
    (CreateOrUpdateMcsForVmRulesPropagation env c).
Proof.
  split.
  - unfold CreateVmRulesConfigMap. apply stays_bind; [|intros; apply stays_ret].
    by apply stays_wrapv, (EnsureCreated_stays _ KConfigMap).
  - unfold CreateOrUpdateMcsForVmRulesPropagation. cbv zeta. case_match; [|apply stays_ret].
    apply stays_bind; [|intros; apply stays_ret]. by apply stays_wrapv, upsert_region_mcs_stays.
Qed.

(** Calls that change no cluster deployment and no template keep the children. *)
Lemma stays_children {A} P (m : eff W A) w r w1 c cd :
  stays P m → (∀ key, ¬ P KClusterDeployment key) → (∀ key, ¬ P KClusterTemplate key) →
  m w = (r, w1) → child_of c w1 cd → child_of c w cd.
Proof.
  intros Hm Hc Ht E. specialize (Hm w). rewrite E in Hm. cbn [snd] in Hm.
  apply child_of_kept; apply map_eq; intros key; apply Hm; auto.
Qed.

(** C12: Whatever calls fail, reconciling a regional ConfigMap changes only the
    objects of the regional cluster and the ConfigMaps of its children, and
    those only to the data of the regional ConfigMap.  Children are those of
    every namespace that are not labelled with the name of another regional
    cluster and whose cloud and place are those of the cluster, those with its
    labels when its cloud is not known, and all when it is regionless; the
    ConfigMap they have may name a regional cluster of another namespace. *)
Theorem regional_changes c (w : W) :
  regional_step c w w
    (regional_Reconcile env visit isIstio yaml_config json_duration bracketed c w).2.
Proof.
  destruct (before_children_stays c) as [Hr Hm].
  unfold regional_Reconcile. fold (regional_rest c).
  apply (relates_bind (regional_step c w)); [apply regional_step_trans|..].
  { apply regional_step_stays, stays_wrapv. eapply stays_mono; [|exact Hr].
    intros k key [-> ->]. unfold regional_objects. auto. }
  intros [] w1 E1. apply ewrapv_ok in E1.
  apply (relates_bind (regional_step c w)); [apply regional_step_trans|..].
  { apply regional_step_stays, stays_wrapv. eapply stays_mono; [|exact Hm].
    intros k key [-> ->]. unfold regional_objects. split; [auto|done]. }
  intros [] w2 E2. apply ewrapv_ok in E2.
  apply (relates_bind (regional_step c w)); [apply regional_step_trans|..].
  - destruct (UpdateChildConfigMap_spec c w2) as [Hc Hs]. unfold ewrapv.
    destruct (UpdateChildConfigMap yaml_config c w2) as [r w3]. cbn [snd] in *. split.
    + eapply changes_only_mono; [|exact Hc]. intros k key (-> & cd & Hcd & ->). right.
      split; [done|]. exists cd. split; [|done].
      eapply (stays_children _ _ _ _ _ _ _ Hr); [by intros ? [? _]..|exact E1|].
      eapply (stays_children _ _ _ _ _ _ _ Hm); [by intros ? [? _]..|exact E2|exact Hcd].
    + intros key _. apply Hs.
  - intros _ w3 _. apply regional_step_stays. eapply stays_mono; [|apply regional_rest_stays].
    intros k key [? ?]. done.
Qed.
End children.

(** * Examples *)


Definition demo_regional : RegionalClusterConfigMap :=
  {| rc_clusterName := "reg"; rc_clusterNamespace := "kcm"; rc_releaseNamespace := "kof";
     rc_configMap := demo_regional_cm;
     rc_ownerReference := GetOwnerReference "v1" "ConfigMap" demo_regional_cm;
     rc_configData := NewConfigDataFromConfigMap demo_regional_cm;
     rc_isKcmRegionCluster := false |}.

Notation demo_reconciled :=
  (regional_Reconcile demo_env demo_visit false demo_yaml (λ _, None) (λ h, Some h)
     demo_regional demo_world).2.

(** In the example the cluster has two children, one of them in the namespace
    of another team; its ConfigMap gets the data, a ConfigMap of no child stays
    as it was, and so does every cluster deployment. *)
Lemma regional_changes_witness :
  child_of demo_yaml demo_regional demo_world (demo_cluster "team" "other" KofRoleChild) ∧
  cm_Data <$> (kept KConfigMap demo_reconciled : objects_of ConfigMap)
    !! ("team", "kof-cluster-config-other") = Some demo_regional_data ∧
  kept KConfigMap demo_reconciled !! ("kcm", "kof-reg") = Some demo_regional_cm ∧
  kept KClusterDeployment demo_reconciled = kept KClusterDeployment demo_world.
Proof.
  destruct (regional_changes demo_env demo_visit false demo_yaml (λ _, None) (λ h, Some h)
              demo_regional demo_world) as [Hc Hd].
  split_and!.
  - split; [vm_compute; reflexivity|]. split; [vm_compute; reflexivity|]. right. right. split_and!.
    + exists (demo_template "team"). split; vm_compute; reflexivity.
    + vm_compute. left.
    + eexists. split; [vm_compute; reflexivity|]. left. split; vm_compute; reflexivity.
  - vm_compute. reflexivity.
  - rewrite (Hc KConfigMap); [vm_compute; reflexivity|]. unfold regional_objects, vmuser_objects.
    intros [[Hu|[[_ Hk]|[[Hk _]|[[Hk _]|[Hk _]]]]]|[_ (cd & Hcd & Hk)]];
      [exact Hu|discriminate Hk..|]. injection Hk as _ Hk. discriminate Hk.
  - apply map_eq. intros key. apply (Hc KClusterDeployment). unfold regional_objects, vmuser_objects.
    intros [[Hu|[[Hk _]|[[Hk _]|[[Hk _]|[Hk _]]]]]|[Hk _]]; [exact Hu|discriminate Hk..].
Defined.

(** The child of another namespace, whose ConfigMap names a regional cluster of
    its own, gets the data of the regional cluster of this namespace, although
    clusters are not to be used across namespaces. *)
Lemma other_namespace_overwritten :
  CrossNamespaceEnabled demo_env = false ∧
  kept KConfigMap demo_world !! ("team", "kof-cluster-config-other") = Some demo_other_cm ∧
  cm_Data <$> (kept KConfigMap (UpdateChildConfigMap demo_yaml demo_regional demo_world).2
                 : objects_of ConfigMap) !! ("team", "kof-cluster-config-other") =
    Some demo_regional_data.
Proof. split_and!; vm_compute; reflexivity. Qed.

(** Children of one name in two namespaces have one MultiClusterService. *)
Definition in_region (cd : ClusterDeployment) : ChildClusterRole :=
  {| ch_clusterDeployment :=
       {| cd_meta := cd_meta cd; cd_Template := cd_Template cd; cd_Credential := cd_Credential cd;
          cd_Config := cd_Config cd; cd_Region := "eu" |};
     ch_clusterDeploymentConfig := ch_clusterDeploymentConfig demo_child |}.
Lemma propagation_shared :
  let run ns := CreateConfigMapPropagation demo_env (in_region (demo_cluster ns "ch" KofRoleChild)) in
  let w := (run "b" (run "a" demo_world).2).2 in
  (λ m : MultiClusterService, rr_Namespace <$> ms_TemplateResourceRefs (mc_Spec m)) <$>
    (kept KMultiClusterService w : objects_of MultiClusterService)
      !! ("", GetChildConfigMapPropagationName "ch") = Some ["b"].
Proof. vm_compute. reflexivity. Qed.

(** Two children of one namespace have the same user. *)
Lemma user_name_collision :
  GetVMUserName (GetConfigMapName "bcb") "kcm" = GetVMUserName (GetConfigMapName "cac") "kcm".
Proof. vm_compute. reflexivity. Qed.

(** The target of an IPv6 endpoint has no brackets. *)
Lemma ipv6_target :
  md_Target <$> match GetMetricsData false (λ h, Some h)
    {| rc_clusterName := "reg"; rc_clusterNamespace := "kcm"; rc_releaseNamespace := "kof";
       rc_configMap := demo_regional_cm; rc_ownerReference := rc_ownerReference demo_regional;
       rc_configData := data_of_map {[ReadMetricsKey := "https://[fd00::1]/vm"]};
       rc_isKcmRegionCluster := false |} with Ok m => Some m | Err _ => None end
  = Some "fd00::1:443".
Proof. vm_compute. reflexivity. Qed.

(** A region given by a kubeconfig: its secret is looked up in no namespace. *)
Lemma kubeconfig_region_fails {W} `{HC : ClusterLaws W} load_kubeconfig cd (w : W) l w' (region : Region) secret :
  (∀ name, kept KSecret w !! ("", name) = None) →
  kept KRegion w !! ("", cd_Region cd) = Some region →
  re_KubeConfig region = Some secret → secret ≠ "" →
  GetClusterDeploymentsInSameKcmRegion load_kubeconfig cd w ≠ (Ok l, w').
Proof.
  intros Hsec Hreg Hk Hne E. unfold GetClusterDeploymentsInSameKcmRegion in E.
  revert E. case_bool_decide; [done|]. intros E.
  apply ebind_ok in E as (cds & w1 & E1 & E). apply ebind_ok in E as (r & w2 & E2 & E).
  apply ewrapv_ok in E1, E2. unfold GetClusterDeployments, GetRegion in *.
  pose proof (λ k, quiet_kept _ _ _ _ k (stays_list _ KClusterDeployment _) E1) as Hq1.
  pose proof (λ k, quiet_kept _ _ _ _ k (stays_get _ KRegion _) E2) as Hq2.
  apply (kept_get KRegion) in E2. rewrite Hq1 in E2.
  assert (r = region) as -> by (cbn [object] in *; congruence).
  assert (Hns : om_Namespace (re_meta region) = "").
  { apply (kept_key KRegion) in Hreg. by injection Hreg. }
  cbv zeta in E. apply ebind_ok in E as (name & w3 & E3 & _). rewrite Hk in E3.
  rewrite bool_decide_eq_false_2 in E3 by done. apply ewrapv_ok in E3.
  apply ebind_ok in E3 as (s & w4 & E3 & _). apply ewrapv_ok in E3. unfold GetSecret in E3.
  apply (kept_get KSecret) in E3. rewrite Hns, Hq2, Hq1 in E3. by rewrite Hsec in E3.
Qed.
