(* ===== verification/Liveness.v ===== *)
(** When calls stop failing: a child cluster whose regional cluster can be
    found is reconciled by the next attempt.

    [calm] worlds are those from which no call fails any more; [succeeds] is
    total correctness from such a world. *)
From S2P Require Import Prelude Strings Env World Kube Server Alerts Promxy Api ApiFacts VMUser VMUserFacts.
From S2P Require Import Region ConfigData Child ChildFacts Demo.

Open Scope string_scope.

(** * Calm worlds *)

(** Reads answer what is there, creating and updating take effect, and random
    bytes come. *)
Class CalmLaws (W : Type) `{Cluster W} `{Random W} (calm : W → Prop) := {
  calm_list k opts (w : W) : calm w →
    ∃ l w', kube_list (Kube := cluster_kube k) opts w = (Ok l, w') ∧ calm w';
  calm_get k key (w : W) : calm w →
    ∃ r w', kube_get (Kube := cluster_kube k) key w = (r, w') ∧ calm w' ∧
      match kept k w !! key with
      | Some o => r = Ok o
      | None => ∃ e, r = Err e ∧ errors_as is_not_found e = true
      end;
  calm_create k (o : object k) (w : W) : calm w → om_deleted (om o) = false →
    kept k w !! object_key o = None →
    ∃ w', kube_create (Kube := cluster_kube k) o w = (Ok tt, w') ∧ calm w';
  calm_update k (o : object k) (w : W) : calm w → is_Some (kept k w !! object_key o) →
    ∃ w', kube_update (Kube := cluster_kube k) o w = (Ok tt, w') ∧ calm w';
  calm_upsert k (o : object k) f (w : W) : calm w → om_deleted (om o) = false → sets f →
    (∀ x w1, calm w1 → ∃ y w2, f x w1 = (Ok y, w2) ∧ calm w2) →
    ∃ x w', create_or_update (Upsert := cluster_upsert k) o f w = (Ok x, w') ∧ calm w';
  calm_rand (w : W) : calm w → ∃ b w', rand_byte w = (Ok b, w') ∧ calm w' }.

Section calm.
Context {W : Type} `{HC : ClusterLaws W} `{!Random W} `{!RandomLaws W}
  (calm : W → Prop) `{!CalmLaws W calm}.

(** The call returns, in a calm world, with what is said. *)
Definition succeeds {A} (m : eff W A) (w : W) (Q : A → W → Prop) : Prop :=
  ∃ a w', m w = (Ok a, w') ∧ calm w' ∧ Q a w'.

Lemma succeeds_ret {A} (a : A) (w : W) (Q : A → W → Prop) :
  calm w → Q a w → succeeds (eret (Ok a)) w Q.
Proof. intros. by exists a, w. Qed.
Lemma succeeds_bind {A B} (m : eff W A) (f : A → eff W B) w (P : A → W → Prop) (Q : B → W → Prop) :
  succeeds m w P → (∀ a w1, calm w1 → P a w1 → succeeds (f a) w1 Q) → succeeds (ebind m f) w Q.
Proof. intros (a & w1 & E & Hc & HP) Hf. unfold succeeds, ebind. rewrite E. by apply Hf. Qed.
Lemma succeeds_wrap {A} msg (m : eff W A) w Q : succeeds m w Q → succeeds (ewrap msg m) w Q.
Proof. intros (a & w1 & E & HQ). exists a, w1. unfold ewrap. by rewrite E. Qed.
Lemma succeeds_wrapv {A} msg (m : eff W A) w Q : succeeds m w Q → succeeds (ewrapv msg m) w Q.
Proof. intros (a & w1 & E & HQ). exists a, w1. unfold ewrapv. by rewrite E. Qed.
Lemma succeeds_mono {A} (m : eff W A) w (P Q : A → W → Prop) :
  succeeds m w P → (∀ a w1, P a w1 → Q a w1) → succeeds m w Q.
Proof. intros (a & w1 & E & Hc & HP) HQ. exists a, w1. auto. Qed.

(** Calls that are only asked to succeed. *)
Notation works m w := (succeeds m w (λ _ _, True)) (only parsing).

Lemma works_list k opts (w : W) : calm w → works (kube_list (Kube := cluster_kube k) opts) w.
Proof. intros (l & w' & E & Hc)%(calm_list k opts). by exists l, w'. Qed.
Lemma works_upsert k (o : object k) f (w : W) :
  calm w → om_deleted (om o) = false → sets f → (∀ x w1, calm w1 → works (f x) w1) →
  works (create_or_update (Upsert := cluster_upsert k) o f) w.
Proof.
  intros Hc Hd Hs Hf. destruct (calm_upsert k o f w) as (x & w' & E & Hc'); [done..| |by exists x, w'].
  intros x w1 Hw1. destruct (Hf x w1 Hw1) as (y & w2 & ? & ? & _). eauto.
Qed.

(** ** Users *)

Context (env : environ) (visit : gmap string string → list (string * string)).

Lemma works_password n (w : W) : (0 < n)%Z → calm w → works (GeneratePassword n) w.
Proof.
  intros Hn. unfold GeneratePassword. rewrite (proj2 (Z.leb_gt _ _) Hn).
  revert w. induction (Z.to_nat n) as [|m IH]; intros w Hc; [by apply succeeds_ret|].
  apply (succeeds_bind _ _ _ (λ _ _, True)).
  { destruct (calm_rand w Hc) as (b & w1 & E & Hc1). by exists b, w1. }
  intros b w1 Hc1 _. apply (succeeds_bind _ _ _ (λ _ _, True)); [by apply IH|]. intros r w2 Hc2 _.
  by apply succeeds_ret.
Qed.

Lemma works_fill_credentials opts x (w : W) : calm w → works (fill_credentials opts x) w.
Proof.
  intros Hc. apply (succeeds_bind _ _ _ (λ _ _, True)); [|intros; by apply succeeds_ret].
  case_bool_decide; [|by apply succeeds_ret].
  apply (succeeds_bind _ _ _ (λ _ _, True)); [|intros; by apply succeeds_ret].
  by apply succeeds_wrap, works_password.
Qed.

(** Creating a user with a name succeeds, in every state of its objects. *)
Lemma works_Create opts (w : W) : op_Name opts ≠ "" → calm w → works (Create env visit opts) w.
Proof.
  intros Hn Hc. unfold Create. rewrite bool_decide_eq_false_2 by done. cbv zeta.
  apply (succeeds_bind _ _ _ (λ _ _, True)).
  { apply succeeds_wrap. unfold createSecret. cbv zeta. apply (succeeds_bind _ _ _ (λ _ _, True)).
    - apply succeeds_wrap, (works_upsert KSecret); [done|done|apply fill_credentials_sets|].
      intros; by apply works_fill_credentials.
    - intros s w1 Hc1 _. apply (succeeds_bind _ _ _ (λ _ _, True)); [|intros; by apply succeeds_ret].
      apply succeeds_wrap, (works_upsert KSecret); [done|done|apply copy_credentials_sets|].
      intros; by apply succeeds_ret. }
  intros _ w1 Hc1 _. apply (succeeds_bind _ _ _ (λ _ _, True)).
  { apply succeeds_wrap, (succeeds_bind _ _ _ (λ _ _, True)); [|intros; by apply succeeds_ret].
    apply succeeds_wrap, (works_upsert KVMUser); [done|done|apply fill_vmuser_sets|].
    intros; by apply succeeds_ret. }
  intros _ w2 Hc2 _. destruct (op_MCSConfig opts) as [cfg|]; [|by apply succeeds_ret].
  destruct (RegionlessEnabled env); [by apply succeeds_ret|].
  apply succeeds_wrap, (succeeds_bind _ _ _ (λ _ _, True)); [|intros; by apply succeeds_ret].
  apply succeeds_wrap, (works_upsert KMultiClusterService); [done|done| |intros; by apply succeeds_ret].
  by apply (sets_ret KMultiClusterService (λ x, _)).
Qed.

(** ** Child clusters *)

Context (load_kubeconfig : string → result string).
Notation child_Reconcile := (child_Reconcile env visit load_kubeconfig).

Lemma calm_configmap key (w : W) :
  calm w →
  ∃ r w', kube_get (O := ConfigMap) key w = (r, w') ∧ calm w' ∧
    kept KConfigMap w' !! key = kept KConfigMap w !! key ∧
    match (kept KConfigMap w !! key : option ConfigMap) with
    | Some o => r = Ok o
    | None => ∃ e, r = Err e ∧ errors_as is_not_found e = true
    end.
Proof.
  intros Hc. destruct (calm_get KConfigMap key w Hc) as (r & w1 & E & Hc1 & Hr).
  exists r, w1. split; [exact E|]. split; [done|]. split; [|exact Hr].
  pose proof (stays_get (λ _ _, False) KConfigMap key w KConfigMap key (λ x, x)) as Hq.
  by rewrite E in Hq.
Qed.

(** A call that finds its object changes nothing. *)
Lemma works_get_stored k key x (w : W) :
  calm w → kept k w !! key = Some x →
  succeeds (kube_get (Kube := cluster_kube k) key) w
    (λ y w1, y = x ∧ ∀ k', kept k' w1 = kept k' w).
Proof.
  intros Hc Hk. destruct (calm_get k key w Hc) as (r & w1 & E & Hc1 & Hr). rewrite Hk in Hr. subst r.
  exists x, w1. split_and!; [done..|]. intros k'.
  exact (quiet_kept _ _ _ _ k' (stays_get _ k key) E).
Qed.

(** The regional cluster is one the child may have: any for a child outside
    the KCM regions; for one inside, both cluster deployments are there and
    they have one credential, or the region of the child is that cluster. *)
Definition same_region (c : ChildClusterRole) (w : W) (name namespace : string) : Prop :=
  cd_Region (ch_clusterDeployment c) = "" ∨
  ∃ regional child : ClusterDeployment,
    kept KClusterDeployment w !! (namespace, name) = Some regional ∧
    kept KClusterDeployment w !! (ch_clusterNamespace c, ch_clusterName c) = Some child ∧
    (cd_Credential child = cd_Credential regional ∨
     ∃ region : Region, kept KRegion w !! ("", cd_Region child) = Some region ∧
       re_ClusterDeployment region = Some (name, namespace)).

(** The ConfigMap a child is labelled with. *)
Definition labelled_regional (c : ChildClusterRole) (w : W) (cm : ConfigMap) : Prop :=
  ∃ name namespace,
    ch_labels c !! "k0rdent.mirantis.com/kof-regional-cluster-name" = Some name ∧
    (if CrossNamespaceEnabled env
     then ch_labels c !! "k0rdent.mirantis.com/kof-regional-cluster-namespace" = Some namespace
     else namespace = ch_clusterNamespace c) ∧
    same_region c w name namespace ∧
    kept KConfigMap w !! (namespace, "kof-" +:+ name) = Some cm.

Lemma works_same_region c name ns (w : W) :
  calm w → same_region c w name ns →
  succeeds (check_same_region c name ns) w (λ _ w1, ∀ k, kept k w1 = kept k w).
Proof.
  intros Hc Hs. unfold check_same_region, ch_isClusterInRegion, CreatedInKCMRegion.
  case_bool_decide as Hr; [by apply succeeds_ret|]. cbn [negb].
  destruct Hs as [?|(rcd & ccd & Hrcd & Hccd & Hs)]; [done|].
  apply (succeeds_bind _ _ _ (λ b w1, b = true ∧ ∀ k, kept k w1 = kept k w)).
  2: { intros b w1 Hc1 [-> Hk]. by apply succeeds_ret. }
  apply succeeds_wrapv. unfold IsClusterInSameKcmRegion, GetClusterDeployment, GetRegion.
  eapply succeeds_bind; [by apply succeeds_wrapv, (works_get_stored KClusterDeployment _ rcd)|].
  intros r1 w1 Hc1 [-> Hk1]. eapply succeeds_bind.
  { apply succeeds_wrapv, (works_get_stored KClusterDeployment _ ccd); [done|].
    by rewrite (Hk1 KClusterDeployment). }
  intros r2 w2 Hc2 [-> Hk2]. assert (Hk : ∀ k, kept k w2 = kept k w) by (intros k; by rewrite Hk2).
  case_bool_decide as Hcr; [by apply succeeds_ret|]. destruct Hs as [?|(region & Hreg & Hcd)]; [done|].
  eapply succeeds_bind.
  { apply succeeds_wrapv, (works_get_stored KRegion _ region); [done|]. by rewrite (Hk KRegion). }
  intros r3 w3 Hc3 [-> Hk3]. rewrite Hcd, bool_decide_true by done. apply succeeds_ret; [done|].
  split; [done|]. intros k. by rewrite Hk3.
Qed.

Lemma works_regional c cm (w : W) :
  calm w → is_ok (GetReleaseNamespace env) = true → labelled_regional c w cm →
  succeeds (GetRegionalConfigMap env load_kubeconfig c) w
    (λ rc _, rc_configMap rc = cm).
Proof.
  intros Hc Hns (name & ns & Hl & Hn & Hs & Hk). unfold GetRegionalConfigMap, KofRegionalClusterNameLabel.
  rewrite Hl. apply (succeeds_bind _ _ _ (λ x _, x = cm)).
  - unfold DiscoverRegionalClusterCmByLabel.
    apply (succeeds_bind _ _ _ (λ x w1, x = ns ∧ w1 = w)).
    { unfold KofRegionalClusterNamespaceLabel.
      destruct (CrossNamespaceEnabled env); [rewrite Hn|rewrite Hn]; by apply succeeds_ret. }
    intros ? ? _ [-> ->]. eapply succeeds_bind; [by apply works_same_region|].
    intros u w1 Hc1 Hk1. eapply succeeds_mono.
    + apply (works_get_stored KConfigMap (ns, GetRegionalClusterConfigMapName name) cm); [done|].
      by rewrite (Hk1 KConfigMap).
    + by intros x w2 [-> _].
  - intros x w1 Hc1 ->. unfold NewRegionalClusterConfigMap. cbv zeta.
    apply (succeeds_bind _ _ _ (λ _ _, True)).
    { destruct (GetReleaseNamespace env); [by apply succeeds_ret|done]. }
    intros rns w2 Hc2 _. apply (succeeds_bind _ _ _ (λ _ _, True)).
    { destruct (isRegionlessConfigMap cm); [by apply succeeds_ret|]. apply succeeds_wrapv.
      unfold IsClusterKcmRegion. apply (succeeds_bind _ _ _ (λ _ _, True)); [|intros; by apply succeeds_ret].
      by apply succeeds_wrapv, (works_list KClusterDeployment). }
    intros b w3 Hc3 _. by apply succeeds_ret.
Qed.

Lemma works_propagation c (w : W) : calm w → works (CreateConfigMapPropagation env c) w.
Proof.
  intros Hc. unfold CreateConfigMapPropagation. cbv zeta. case_match; [|by apply succeeds_ret].
  apply (succeeds_bind _ _ _ (λ _ _, True)); [|intros; by apply succeeds_ret].
  apply succeeds_wrapv, (works_upsert KMultiClusterService); [done|done| |intros; by apply succeeds_ret].
  by apply (sets_ret KMultiClusterService (λ x, _)).
Qed.

(** The ConfigMap of the child is created, or brought up to date. *)
Lemma works_child_configmap c data (w : W) :
  calm w → works (CreateOrUpdateConfigMap env c data) w.
Proof.
  intros Hc. unfold CreateOrUpdateConfigMap.
  set (key := (ch_clusterNamespace c, GetConfigMapName (ch_clusterName c))).
  apply (succeeds_bind _ _ _ (λ r w1,
    match r with
    | Some cm => kept KConfigMap w1 !! key = Some cm
    | None => kept KConfigMap w1 !! key = None
    end)).
  { apply succeeds_wrapv. unfold GetConfigMap, get_configmap, succeeds, ecase. fold key.
    destruct (calm_configmap key w Hc) as (r & w1 & -> & Hc1 & Hk & Hr1).
    cbn [object object_of] in *.
    match type of Hk with _ = ?x => destruct x as [cm|] end.
    - subst r. by exists (Some cm), w1.
    - destruct Hr1 as (e & -> & He). exists None, w1. by rewrite He. }
  intros r w1 Hc1 Hk. apply (succeeds_bind _ _ _ (λ _ _, True)).
  - destruct r as [cm|]; apply succeeds_wrapv.
    + unfold UpdateConfigMap. destruct (decide _); [by apply succeeds_ret|].
      destruct (calm_update KConfigMap (with_data data cm) w1) as (w2 & E & Hc2); [done| |by exists tt, w2].
      assert (Hkey : object_key (with_data data cm) = key) by exact (kept_key KConfigMap _ _ _ Hk).
      exists cm. exact (eq_trans (f_equal (λ k, kept KConfigMap w1 !! k) Hkey) Hk).
    + unfold CreateConfigMap. apply (succeeds_bind _ _ _ (λ _ _, True)); [|intros; by apply succeeds_ret].
      destruct (calm_create KConfigMap (child_configmap c data) w1) as (w2 & E & Hc2); [done..|].
      exists true, w2. unfold EnsureCreated, ecase, kube_ConfigMap. cbn [object object_of] in *. by rewrite E.
  - intros _ w2 Hc2 _. by apply succeeds_wrapv, works_propagation.
Qed.

Lemma itoa_nonempty n : itoa n ≠ "".
Proof.
  destruct n as [|p|p]; [done| |done]. intros He.
  pose proof (digits_val_itoa (Z.pos p)) as Hd. rewrite He in Hd. by discriminate Hd.
Qed.

(** C10: From the moment no call fails any more, reconciling a child cluster
    succeeds, whatever earlier attempts have left, when the namespace of the
    release is set, the child is labelled with a regional cluster whose
    ConfigMap is there, and, for a child in a KCM region, the two cluster
    deployments are there with one credential or the region of the child is
    that cluster. *)
Theorem child_settles c cm (w : W) :
  calm w → is_ok (GetReleaseNamespace env) = true → labelled_regional c w cm →
  ∃ w', child_Reconcile c w = (Ok tt, w') ∧ calm w'.
Proof.
  intros Hc Hns Hl. cut (works (child_Reconcile c) w).
  { intros ([] & w' & E & Hc' & _). eauto. }
  apply (succeeds_bind _ _ _ (λ rc _, rc_configMap rc = cm)).
  { by apply succeeds_wrapv, works_regional. }
  intros rc w1 Hc1 _. apply (succeeds_bind _ _ _ (λ _ _, True)).
  { by apply succeeds_wrapv, works_child_configmap. }
  intros _ w2 Hc2 _. apply succeeds_wrapv, works_Create; [apply itoa_nonempty|done].
Qed.
End calm.

(** * The instance without faults *)

Section sim.
Context {T O} `{EqDecision O} `{Object O} `{Part T O}.
#[local] Existing Instance sim_kube.

Lemma no_fault (w : kworld T) : kw_faults w = [] → kube_fault w = (FNone, w).
Proof. intros Hw. unfold kube_fault. by rewrite Hw. Qed.
Lemma calm_read {A} (v : objects_of O → result A) (w : kworld T) :
  kw_faults w = [] → kube_read v w = (v (part w), w).
Proof. intros Hw. unfold kube_read. by rewrite no_fault. Qed.
Lemma calm_write (v : objects_of O → result (objects_of O)) (w : kworld T) m :
  kw_faults w = [] → v (part w) = Ok m → ∃ w', kube_write v w = (Ok tt, w') ∧ kw_faults w' = [].
Proof. intros Hw Hm. unfold kube_write. rewrite no_fault, Hm by done. eauto. Qed.

Lemma sim_create_calm (o : O) (w : kworld T) :
  kw_faults w = [] → om_deleted (om o) = false → stored w !! object_key o = None →
  ∃ w', kube_create o w = (Ok tt, w') ∧ kw_faults w' = [].
Proof.
  intros Hw Hd Hk. simpl in *. eapply calm_write; [done|]. simpl. rewrite Hk. unfold gone. by rewrite Hd.
Qed.
Lemma sim_update_calm (o : O) (w : kworld T) :
  kw_faults w = [] → is_Some (stored w !! object_key o) →
  ∃ w', kube_update o w = (Ok tt, w') ∧ kw_faults w' = [].
Proof. intros Hw [x Hk]. simpl in *. eapply calm_write; [done|]. simpl. by rewrite Hk. Qed.

Lemma sim_upsert_calm (o : O) f (w : kworld T) :
  kw_faults w = [] → om_deleted (om o) = false → mutation f →
  (∀ x w1, kw_faults w1 = [] → ∃ y w2, f x w1 = (Ok y, w2) ∧ kw_faults w2 = []) →
  ∃ x w', create_or_update (Upsert := sim_upsert) o f w = (Ok x, w') ∧ kw_faults w' = [].
Proof.
  intros Hw Hd Hm Hf. unfold create_or_update, sim_upsert, ecase.
  assert (Hg : kube_get (object_key o) w =
    (match stored w !! object_key o with Some x => Ok x | None => Err not_found end, w)) by exact (calm_read _ w Hw).
  rewrite Hg. destruct (stored w !! object_key o) as [old|] eqn:Hk.
  - destruct (Hf old w Hw) as (y & w2 & E & Hw2). destruct (Hm _ _ _ _ E) as [Hs Hy].
    destruct (Hy _ eq_refl) as (Hky & _). unfold ebind at 1. rewrite E.
    destruct (decide (y = old)); [by exists old, w2|].
    destruct (sim_update_calm y w2) as (w3 & E3 & Hw3); [done| |].
    { exists old. by rewrite Hs, Hky, (stored_key _ _ _ Hk). }
    exists (admitted y), w3. unfold ebind. by rewrite E3.
  - change (errors_as is_not_found not_found) with true. cbv iota.
    destruct (Hf o w Hw) as (y & w2 & E & Hw2). destruct (Hm _ _ _ _ E) as [Hs Hy].
    destruct (Hy _ eq_refl) as (Hky & Hdy & _). unfold ebind at 1. rewrite E.
    destruct (sim_create_calm y w2) as (w3 & E3 & Hw3); [done|by rewrite Hdy|by rewrite Hs, Hky|].
    exists (admitted y), w3. unfold ebind. by rewrite E3.
Qed.
End sim.

Definition sim_calm (w : kworld cluster_data) : Prop := kw_faults w = [].
#[export] Instance sim_calm_laws : CalmLaws (kworld cluster_data) sim_calm.
Proof.
  split.
  - intros k opts w Hc. eexists _, w. split; [exact (calm_read _ w Hc)|done].
  - intros k key w Hc. eexists _, w. split; [exact (calm_read _ w Hc)|]. split; [done|].
    unfold kept. simpl. destruct (well_keyed _ !! key); [done|]. by eexists.
  - intros k o w. apply sim_create_calm.
  - intros k o w. apply sim_update_calm.
  - intros k o f w Hc Hd Hs. apply sim_upsert_calm; [done|done|exact (sets_mutation k f Hs)].
  - intros w Hc. by exists 7%Z, w.
Qed.

(** * The example *)

(** The child of the example with a label. *)
Definition demo_labelled : ChildClusterRole :=
  {| ch_clusterDeployment :=
       {| cd_meta := new_meta "kcm" "ch" {[KofClusterRoleLabel := KofRoleChild;
                                           KofRegionalClusterNameLabel := "reg"]};
          cd_Template := "aws-standalone"; cd_Credential := "aws"; cd_Config := Some "us-east-1";
          cd_Region := "" |};
     ch_clusterDeploymentConfig := ch_clusterDeploymentConfig demo_child |}.

(** Whatever the first attempt has left, the second one succeeds. *)
Definition demo_attempt : kworld cluster_data :=
  (child_Reconcile demo_env demo_visit demo_kubeconfig demo_labelled
     {| kw_data := demo_data; kw_faults := [FNone; FNone; FNone; FNone; FAfter] |}).2.
Lemma child_settles_witness :
  (child_Reconcile demo_env demo_visit demo_kubeconfig demo_labelled
     {| kw_data := demo_data; kw_faults := [FNone; FNone; FNone; FNone; FAfter] |}).1 ≠ Ok tt ∧
  ∃ w', child_Reconcile demo_env demo_visit demo_kubeconfig demo_labelled demo_attempt = (Ok tt, w').
Proof.
  split; [intros E; vm_compute in E; discriminate E|].
  destruct (child_settles sim_calm demo_env demo_visit demo_kubeconfig demo_labelled demo_regional_cm
              demo_attempt) as (w' & E & _).
  - vm_compute. reflexivity.
  - vm_compute. reflexivity.
  - exists "reg", "kcm". split_and!; [vm_compute; reflexivity..|left; reflexivity|].
    vm_compute. reflexivity.
  - exists w'. exact E.
Defined.
