(* ===== verification/Interleave.v ===== *)
(** Goroutines that send to one channel, or store in what they share: a list
    each, and what happens is an [interleaving] of the lists.  When the steps of
    different goroutines commute, the outcome is that of running them one after
    the other. *)
From S2P Require Import Prelude.

(** The messages of all lists, those of each in its order. *)
Inductive interleaving {A : Type} : list (list A) → list A → Prop :=
  | il_done ls : Forall (λ l, l = []) ls → interleaving ls []
  | il_send ls i x l r :
      ls !! i = Some (x :: l) → interleaving (<[i := l]> ls) r → interleaving ls (x :: r).

(** * Facts *)

Section interleaving.
Context {A B : Type}.

Lemma filter_id (P : A → Prop) `{∀ x, Decision (P x)} (l : list A) :
  (∀ x, x ∈ l → P x) → filter P l = l.
Proof.
  induction l as [|x l IH]; intros Hl; [done|]. rewrite filter_cons, decide_True by (apply Hl; by left).
  f_equal. apply IH. intros y Hy. apply Hl. by right.
Qed.

(** Elements of two lists of the sender commute. *)
Definition commuting (f : B → A → B) (ls : list (list A)) : Prop :=
  ∀ i j l l' x y, i ≠ j → ls !! i = Some l → ls !! j = Some l' → x ∈ l → y ∈ l' →
    ∀ b, f (f b x) y = f (f b y) x.

Lemma commuting_insert f (ls : list (list A)) i x l :
  ls !! i = Some (x :: l) → commuting f ls → commuting f (<[i := l]> ls).
Proof.
  intros Hi Hc j k lj lk y z Hjk Hj Hk Hy Hz.
  assert (Hlt : (i < length ls)%nat) by (by eapply lookup_lt_Some).
  assert (Hin : ∀ n ln u, <[i := l]> ls !! n = Some ln → u ∈ ln →
                ∃ ln', ls !! n = Some ln' ∧ u ∈ ln').
  { intros n ln u Hn Hu. destruct (decide (i = n)) as [<-|Hne].
    - rewrite list_lookup_insert_eq in Hn by done. injection Hn as <-. exists (x :: l).
      split; [done|by right].
    - rewrite list_lookup_insert_ne in Hn by done. eauto. }
  destruct (Hin _ _ _ Hj Hy) as (lj' & Hj' & Hy'), (Hin _ _ _ Hk Hz) as (lk' & Hk' & Hz').
  by eapply Hc; [exact Hjk|..].
Qed.

(** A step that commutes with all of a list can come before it. *)
Lemma foldl_front (f : B → A → B) (l : list A) x b :
  (∀ y, y ∈ l → ∀ b, f (f b x) y = f (f b y) x) → foldl f (f b x) l = f (foldl f b l) x.
Proof.
  revert b. induction l as [|y l IH]; intros b Hc; simpl; [done|].
  rewrite Hc by (by left). apply IH. intros z Hz. apply Hc. by right.
Qed.

Lemma foldl_concat_front (f : B → A → B) (ls : list (list A)) i x l b :
  ls !! i = Some (x :: l) → commuting f ls →
  foldl f b (concat ls) = foldl f (f b x) (concat (<[i := l]> ls)).
Proof.
  intros Hi Hc. rewrite <-(take_drop_middle _ _ _ Hi) at 1. rewrite insert_take_drop by (by eapply lookup_lt_Some).
  rewrite !concat_app, !foldl_app. simpl. rewrite !foldl_app. f_equal. f_equal. symmetry.
  apply foldl_front. intros y Hy b'. apply list_elem_of_In, in_concat in Hy as (l' & Hl' & Hy).
  apply list_elem_of_In, list_elem_of_lookup in Hl' as (j & Hj).
  assert (Hji : (j < i)%nat).
  { apply lookup_lt_Some in Hj. rewrite length_take in Hj. lia. }
  rewrite lookup_take_lt in Hj by done. apply list_elem_of_In in Hy.
  apply (Hc i j (x :: l) l' x y); [lia|done|done|by left|done].
Qed.

Lemma interleaving_foldl (f : B → A → B) ls r b :
  interleaving ls r → commuting f ls → foldl f b r = foldl f b (concat ls).
Proof.
  intros Hi. revert b. induction Hi as [ls Hnil|ls i x l r Hx Hr IH]; intros b Hc.
  - assert (concat ls = []) as ->; [|done]. induction Hnil as [|l ls -> _ IH]; [done|].
    apply IH. intros i j l l' x y Hij Hli Hlj. apply (Hc (S i) (S j) l l'); [lia|done|done].
  - simpl. rewrite IH by (by eapply commuting_insert). symmetry. by apply foldl_concat_front.
Qed.

(** The last list may come first. *)
Lemma interleaving_last_first (ls : list (list A)) l r :
  interleaving ls r → interleaving (ls ++ [l]) (l ++ r).
Proof.
  intros Hi. induction l as [|x l IH]; simpl.
  - induction Hi as [ls Hnil|ls i x l r Hx _ IH]; [by constructor; apply Forall_app; auto|].
    apply (il_send _ i x l); [by apply lookup_app_l_Some|].
    by rewrite insert_app_l by (by eapply lookup_lt_Some).
  - apply (il_send _ (length ls) x l).
    + by rewrite lookup_app_r, Nat.sub_diag by done.
    + by rewrite <-(Nat.add_0_r (length ls)), insert_app_r.
Qed.
Lemma interleaving_reverse (ls : list (list A)) : interleaving ls (concat (reverse ls)).
Proof.
  induction ls as [|l ls IH] using rev_ind; [by constructor|].
  rewrite reverse_app. simpl. by apply interleaving_last_first.
Qed.

Lemma interleaving_elem (ls : list (list A)) r x :
  interleaving ls r → x ∈ r → ∃ l, l ∈ ls ∧ x ∈ l.
Proof.
  intros Hi. induction Hi as [ls Hnil|ls i y l r Hy Hr IH]; intros Hx; [by apply not_elem_of_nil in Hx|].
  apply elem_of_cons in Hx as [->|Hx].
  - exists (y :: l). split; [by eapply list_elem_of_lookup_2|by left].
  - destruct (IH Hx) as (l' & Hl' & Hxl). apply list_elem_of_lookup in Hl' as (j & Hj).
    destruct (decide (i = j)) as [<-|Hne].
    + rewrite list_lookup_insert_eq in Hj by (by eapply lookup_lt_Some). injection Hj as <-.
      exists (y :: l). split; [by eapply list_elem_of_lookup_2|by right].
    + rewrite list_lookup_insert_ne in Hj by done. exists l'.
      split; [by eapply list_elem_of_lookup_2|done].
Qed.

(** What satisfies a predicate only one list satisfies comes in the order of
    that list. *)
Lemma interleaving_all (ls : list (list A)) r l x :
  interleaving ls r → l ∈ ls → x ∈ l → x ∈ r.
Proof.
  intros Hi. revert l. induction Hi as [ls Hnil|ls i y l0 r Hy Hr IH]; intros l Hl Hx.
  - rewrite Forall_forall in Hnil. rewrite (Hnil _ Hl) in Hx. by apply not_elem_of_nil in Hx.
  - apply list_elem_of_lookup in Hl as (j & Hj). assert (Hlt : (i < length ls)%nat) by (by eapply lookup_lt_Some).
    destruct (decide (i = j)) as [<-|Hne].
    + rewrite Hy in Hj. injection Hj as <-. apply elem_of_cons in Hx as [->|Hx]; [by left|right].
      apply (IH l0); [|done]. apply list_elem_of_lookup. exists i. by apply list_lookup_insert_eq.
    + right. apply (IH l); [|done]. apply list_elem_of_lookup. exists j. by rewrite list_lookup_insert_ne.
Qed.

Lemma interleaving_filter (P : A → Prop) `{∀ x, Decision (P x)} ls r i l :
  interleaving ls r → ls !! i = Some l →
  (∀ j l', j ≠ i → ls !! j = Some l' → ∀ x, x ∈ l' → ¬ P x) → filter P r = filter P l.
Proof.
  intros Hi. revert l. induction Hi as [ls Hnil|ls j x lj r Hx Hr IH]; intros l Hl Ho.
  - assert (l = []) as ->; [|done]. by eapply (Forall_lookup_1 _ _ _ _ Hnil Hl).
  - assert (Hlt : (j < length ls)%nat) by (by eapply lookup_lt_Some).
    destruct (decide (j = i)) as [->|Hne].
    + assert (l = x :: lj) as -> by congruence. rewrite !filter_cons.
      rewrite (IH lj); [done|by apply list_lookup_insert_eq|].
      intros k l' Hk Hl' y Hy. rewrite list_lookup_insert_ne in Hl' by done. by eapply Ho.
    + rewrite filter_cons, decide_False by (eapply (Ho j); [done..|by left]).
      apply IH; [by rewrite list_lookup_insert_ne|].
      intros k l' Hk Hl' y Hy. destruct (decide (k = j)) as [->|Hkj].
      * rewrite list_lookup_insert_eq in Hl' by done. injection Hl' as <-.
        apply (Ho j (x :: lj)); [done|done|by right].
      * rewrite list_lookup_insert_ne in Hl' by done. by eapply Ho.
Qed.
End interleaving.

Lemma elem_of_concat {A} (x : A) ls : x ∈ concat ls ↔ ∃ l, l ∈ ls ∧ x ∈ l.
Proof.
  rewrite list_elem_of_In, in_concat. setoid_rewrite <-list_elem_of_In. naive_solver.
Qed.


(** The goroutines one after the other. *)
Lemma interleaving_concat {A} (ls : list (list A)) : interleaving ls (concat ls).
Proof.
  cut (∀ ls0 : list (list A), Forall (λ l, l = []) ls0 → interleaving (ls0 ++ ls) (concat ls)).
  { intros Hc. by apply (Hc []). }
  induction ls as [|l ls IH]; intros ls0 H0; simpl; [constructor; by rewrite app_nil_r|].
  induction l as [|x l IHl]; simpl.
  - replace (ls0 ++ [] :: ls)%list with ((ls0 ++ [[]]) ++ ls)%list by (by rewrite <-app_assoc).
    apply IH, Forall_app. by rewrite Forall_singleton.
  - apply (il_send _ (length ls0) _ l); [by rewrite list_lookup_middle|].
    by rewrite (insert_app_r_alt), Nat.sub_diag by done.
Qed.
