(* ===== verification/Metrics.v ===== *)
(** internal/metrics and internal/k8s/metrics.go, node.go and proxy.go: the
    messages about the pods of a cluster, and the tree of clusters, custom
    resources and pods they are put into.

    A nil pointer to a message is [None]; the maps of pointers never hold nil.
    What the API of a cluster answers during one request is a function of the
    call ([Client]).  The text parser of expfmt is a parameter. *)
From S2P Require Import Prelude Strings Env World Kube Server Promxy.
From S2P Require Import ColdRows Region.

Open Scope string_scope.
Open Scope Z_scope.

(** * types.go and consts.go *)

Definition MessageTypeInfo := "info".
Definition MessageTypeWarning := "warning".
Definition MessageTypeError := "error".

Record BaseResourceStatus := { bs_Name : string; bs_Message : string; bs_MessageType : string }.
Record ResourceUsage := { ru_CPU : Z; ru_Memory : Z }.
Record ResourceAddress := { ra_Cluster : string; ra_CustomResource : string; ra_Pod : string }.
Record StatusMessage := {
  sm_Address : ResourceAddress; sm_Type : string; sm_Message : string; sm_Details : string }.

#[export] Instance ResourceAddress_eq_dec : EqDecision ResourceAddress.
Proof. solve_decision. Defined.

Definition ConditionReadyHealthy := "condition_ready_healthy".
Definition ConditionReadyReason := "condition_ready_reason".
Definition ConditionReadyMessage := "condition_ready_message".
Definition ContainerCPUUsage := "container_resource_cpu_usage".
Definition ContainerCPULimit := "container_resource_cpu_limit".
Definition ContainerMemoryUsage := "container_resource_memory_usage".
Definition ContainerMemoryLimit := "container_resource_memory_limit".

(** The status a resource starts with, and with a message. *)
Definition named (name : string) : BaseResourceStatus :=
  {| bs_Name := name; bs_Message := ""; bs_MessageType := "" |}.
Definition with_message (s : StatusMessage) (b : BaseResourceStatus) : BaseResourceStatus :=
  {| bs_Name := bs_Name b; bs_Message := sm_Message s; bs_MessageType := sm_Type s |}.

Section metrics.
Context `{Float64}.

(** The dynamic types of the values sent. *)
Inductive metric_value := MString (s : string) | MInt (n : Z) | MFloat (f : float).
Record MetricValue := { mv_Labels : gmap string string; mv_Value : metric_value }.
Record MetricData := {
  mm_Address : ResourceAddress; mm_Name : string; mm_Value : option MetricValue;
  mm_Err : option gerror }.
Record ResourceMessage := { rm_Status : option StatusMessage; rm_Metrics : option MetricData }.

Record PodInfo := { pi_Status : BaseResourceStatus; pi_Metrics : gmap string (list MetricValue) }.
Record CustomResourceInfo := { ci_Status : BaseResourceStatus; ci_Pods : gmap string PodInfo }.
Record ClusterInfo := { cl_Status : BaseResourceStatus; cl_CustomResources : gmap string CustomResourceInfo }.

(** * metrics.go *)

(** What is there under a name, or what is made for it. *)
Definition new_cluster (name : string) : ClusterInfo :=
  {| cl_Status := named name; cl_CustomResources := ∅ |}.
Definition new_custom_resource (name : string) : CustomResourceInfo :=
  {| ci_Status := named name; ci_Pods := ∅ |}.
Definition new_pod (name : string) : PodInfo :=
  {| pi_Status := named name; pi_Metrics := ∅ |}.

Definition MetricsMap_Add (m : gmap string (list MetricValue)) (data : option MetricData) : gmap string (list MetricValue) :=
  match data with
  | None => m
  | Some d =>
      if bool_decide (mm_Name d = "") then m
      else match mm_Value d with
           | None => m
           | Some v => <[mm_Name d := (default [] (m !! mm_Name d) ++ [v])%list]> m
           end
  end.

Definition PodMap_AddMetric (pm : gmap string PodInfo) (m : option MetricData) : gmap string PodInfo :=
  match m with
  | None => pm
  | Some d =>
      let name := ra_Pod (mm_Address d) in
      if bool_decide (name = "") then pm
      else let pod := default (new_pod name) (pm !! name) in
           <[name := {| pi_Status := pi_Status pod; pi_Metrics := MetricsMap_Add (pi_Metrics pod) m |}]> pm
  end.

Definition CustomResourceMap_AddMetric (crm : gmap string CustomResourceInfo) (m : option MetricData)
    : gmap string CustomResourceInfo :=
  match m with
  | None => crm
  | Some d =>
      let name := ra_CustomResource (mm_Address d) in
      if bool_decide (name = "") then crm
      else let cr := default (new_custom_resource name) (crm !! name) in
           <[name := {| ci_Status := ci_Status cr; ci_Pods := PodMap_AddMetric (ci_Pods cr) m |}]> crm
  end.

Definition ClusterMap_AddMetric (cm : gmap string ClusterInfo) (m : option MetricData) : gmap string ClusterInfo :=
  match m with
  | None => cm
  | Some d =>
      let name := ra_Cluster (mm_Address d) in
      if bool_decide (name = "") then cm
      else let cluster := default (new_cluster name) (cm !! name) in
           <[name := {| cl_Status := cl_Status cluster;
                        cl_CustomResources :=
                          CustomResourceMap_AddMetric (cl_CustomResources cluster) m |}]> cm
  end.

Definition PodMap_AddStatus (pm : gmap string PodInfo) (s : option StatusMessage) : gmap string PodInfo :=
  match s with
  | None => pm
  | Some st =>
      let name := ra_Pod (sm_Address st) in
      if bool_decide (name = "") then pm
      else let pod := default (new_pod name) (pm !! name) in
           <[name := {| pi_Status := with_message st (pi_Status pod); pi_Metrics := pi_Metrics pod |}]> pm
  end.

Definition CustomResourceMap_AddStatus (crm : gmap string CustomResourceInfo) (s : option StatusMessage)
    : gmap string CustomResourceInfo :=
  match s with
  | None => crm
  | Some st =>
      let name := ra_CustomResource (sm_Address st) in
      if bool_decide (name = "") then crm
      else let cr := default (new_custom_resource name) (crm !! name) in
           <[name :=
               if bool_decide (ra_Pod (sm_Address st) = "")
               then {| ci_Status := with_message st (ci_Status cr); ci_Pods := ci_Pods cr |}
               else {| ci_Status := ci_Status cr; ci_Pods := PodMap_AddStatus (ci_Pods cr) s |}]> crm
  end.

Definition ClusterMap_AddStatus (cm : gmap string ClusterInfo) (s : option StatusMessage) : gmap string ClusterInfo :=
  match s with
  | None => cm
  | Some st =>
      let name := ra_Cluster (sm_Address st) in
      if bool_decide (name = "") then cm
      else let cluster := default (new_cluster name) (cm !! name) in
           <[name :=
               if bool_decide (ra_CustomResource (sm_Address st) = "")
               then {| cl_Status := with_message st (cl_Status cluster);
                       cl_CustomResources := cl_CustomResources cluster |}
               else {| cl_Status := cl_Status cluster;
                       cl_CustomResources :=
                         CustomResourceMap_AddStatus (cl_CustomResources cluster) s |}]> cm
  end.

(** * The API of a cluster *)

Record ContainerMetrics := { cn_Name : string; cn_Usage : gmap string Quantity }.
Record OpenTelemetryCollector := {
  oc_Name : string; oc_StatusReplicas : string; oc_Replicas : Z; oc_Selector : string }.
Record Client := {
  kc_Pods : list ListOption → result (list Pod);
  kc_Collectors : result (list OpenTelemetryCollector);
  (** The data of a secret: name, namespace. *)
  kc_Secret : string → string → result (gmap string string);
  kc_PodMetrics : string → string → result (list ContainerMetrics);
  kc_NodeMetrics : string → result (gmap string Quantity);
  (** The allocatable resources of a node. *)
  kc_Node : string → result (gmap string Quantity);
  (** A GET through the proxy of the API server: namespace, pod and port, path. *)
  kc_Proxy : string → string → string → result string }.

Definition GetPodMetrics (c : Client) (podName podNamespace : string) : result (list ContainerMetrics) :=
  kc_PodMetrics c podNamespace podName.
Definition GetNodeMetrics (c : Client) (nodeName : string) : result (gmap string Quantity) :=
  kc_NodeMetrics c nodeName.
Definition GetNode (c : Client) (nodeName : string) : result (gmap string Quantity) := kc_Node c nodeName.
Definition Proxy (c : Client) (pod : Pod) (port path : string) : result string :=
  kc_Proxy c (om_Namespace (po_meta pod)) (om_Name (po_meta pod) +:+ ":" +:+ port) path.

(** [ResourceList.Cpu] and [ResourceList.Memory]: zero when there is none. *)
Definition zero_quantity : Quantity := {| q_MilliValue := 0; q_Value := 0 |}.
Definition Cpu (l : gmap string Quantity) : Quantity := default zero_quantity (l !! "cpu").
Definition Memory (l : gmap string Quantity) : Quantity := default zero_quantity (l !! "memory").

(** * The collectors of a pod *)

(** A metric family of the text format: its type and its metrics; a value that
    is not there reads as zero. *)
Inductive MetricType := COUNTER | GAUGE | SUMMARY | UNTYPED | HISTOGRAM | GAUGE_HISTOGRAM.
Record Metric := {
  mt_Label : list (string * string);
  mt_Counter : float; mt_Gauge : float; mt_HistogramSum : float; mt_SummarySum : float;
  mt_Untyped : float }.
Record MetricFamily := { mf_Type : MetricType; mf_Metric : list Metric }.

Section collector.
Context (TextToMetricFamilies : string → result (gmap string MetricFamily))
  (visit : ∀ A, gmap string A → list (string * A)).

Definition family_value (mf : MetricFamily) (m : Metric) : MetricValue :=
  {| mv_Labels := foldl (λ ls kv, <[kv.1 := kv.2]> ls) ∅ (mt_Label m);
     mv_Value := MFloat match mf_Type mf with
                        | COUNTER => mt_Counter m
                        | GAUGE => mt_Gauge m
                        | HISTOGRAM => mt_HistogramSum m
                        | SUMMARY => mt_SummarySum m
                        | _ => mt_Untyped m
                        end |}.
Definition add_value (name : string) (metrics : gmap string (list MetricValue)) (v : MetricValue)
    : gmap string (list MetricValue) := <[name := (default [] (metrics !! name) ++ [v])%list]> metrics.
Definition ParsePrometheusMetrics (metricsText : string) : result (gmap string (list MetricValue)) :=
  try metricFamilies := wrap_err "failed to parse metrics" (TextToMetricFamilies metricsText) in
  Ok (foldl (λ metrics nf, foldl (add_value nf.1) metrics (family_value nf.2 <$> mf_Metric nf.2))
        ∅ (visit MetricFamily metricFamilies)).

Definition PodReady := "Ready".
Definition getReadyCondition (conditions : list PodCondition) : option PodCondition :=
  head (filter (λ c, pd_Type c = PodReady) conditions).
Definition findContainerMetric (containers : list ContainerMetrics) (name : string)
    : result ContainerMetrics :=
  match head (filter (λ c, cn_Name c = name) containers) with
  | Some c => Ok c
  | None => Err (EText ("metrics not found for container: " +:+ name))
  end.

Record MetricCollectorServiceConfig := {
  mc_Client : Client; mc_Pod : Pod; mc_ClusterName : string; mc_CustomResourceName : string;
  mc_ContainerName : string; mc_PortAnnotation : string; mc_PortName : string;
  mc_ProxyEndpoint : string }.

Context (s : MetricCollectorServiceConfig).

(** What a collector does is the list of the messages it sends, in order. *)
Definition address : ResourceAddress :=
  {| ra_Cluster := mc_ClusterName s; ra_CustomResource := mc_CustomResourceName s;
     ra_Pod := om_Name (po_meta (mc_Pod s)) |}.
Definition sendMetric (name : string) (v : MetricValue) : ResourceMessage :=
  {| rm_Status := None;
     rm_Metrics := Some {| mm_Address := address; mm_Name := name; mm_Value := Some v; mm_Err := None |} |}.
Definition sendStatus (msgType message details : string) : ResourceMessage :=
  {| rm_Status := Some {| sm_Address := address; sm_Type := msgType; sm_Message := message;
                          sm_Details := details |};
     rm_Metrics := None |}.
Definition send_error (e : gerror) : ResourceMessage :=
  sendStatus MessageTypeError (error_text e) "".
Definition plain (v : metric_value) : MetricValue := {| mv_Labels := ∅; mv_Value := v |}.

(** ** health.go *)

Definition CollectHealth : list ResourceMessage :=
  match getReadyCondition (po_Conditions (mc_Pod s)) with
  | None =>
      [sendMetric ConditionReadyHealthy (plain (MString "unhealthy"));
       sendMetric ConditionReadyReason (plain (MString "MissingReadyCondition"));
       sendMetric ConditionReadyMessage
         (plain (MString "Pod status does not contain Ready condition"));
       send_error (EText "the Ready condition is not found in pod status")]
  | Some condition =>
      if String.eqb (pd_Status condition) "True" then
        [sendMetric ConditionReadyHealthy (plain (MString "healthy"))]
      else
        [sendMetric ConditionReadyHealthy (plain (MString "unhealthy"));
         sendMetric ConditionReadyReason (plain (MString (pd_Reason condition)));
         sendMetric ConditionReadyMessage (plain (MString (pd_Message condition)))]
  end.

(** ** resources.go *)

Definition getContainerLimits : result ResourceUsage :=
  match GetContainer (po_Containers (mc_Pod s)) (mc_ContainerName s) with
  | None => Err (EText "container not found")
  | Some c => Ok {| ru_CPU := q_MilliValue (Cpu (co_Limits c));
                    ru_Memory := q_Value (Memory (co_Limits c)) |}
  end.
Definition getContainerUsage : result ResourceUsage :=
  try containers := flat_err "failed to get pod metrics"
    (GetPodMetrics (mc_Client s) (om_Name (po_meta (mc_Pod s))) (om_Namespace (po_meta (mc_Pod s)))) in
  try metrics := flat_err ("failed to find container " +:+ mc_ContainerName s)
    (findContainerMetric containers (mc_ContainerName s)) in
  Ok {| ru_CPU := q_MilliValue (Cpu (cn_Usage metrics));
        ru_Memory := q_Value (Memory (cn_Usage metrics)) |}.
Definition getNodeAvailableNow : result ResourceUsage :=
  let nodeName := po_NodeName (mc_Pod s) in
  try nodeUsage := flat_err "failed to get node metrics" (GetNodeMetrics (mc_Client s) nodeName) in
  try allocatable := flat_err "failed to get node" (GetNode (mc_Client s) nodeName) in
  match allocatable !! "cpu" with
  | None => Err (EText ("CPU resource not found in node " +:+ quote nodeName))
  | Some cpu =>
      match allocatable !! "memory" with
      | None => Err (EText ("memory resource not found in node " +:+ quote nodeName))
      | Some memory =>
          Ok {| ru_CPU := wrap64 (q_MilliValue cpu - q_MilliValue (Cpu nodeUsage));
                ru_Memory := wrap64 (q_Value memory - q_Value (Memory nodeUsage)) |}
      end
  end.
Definition send_usage (cpuName memoryName : string) (cpu memory : Z) : list ResourceMessage :=
  [sendMetric cpuName (plain (MInt cpu)); sendMetric memoryName (plain (MInt memory))].

Definition CollectResources : list ResourceMessage :=
  match getContainerUsage with
  | Err e => [send_error (EText ("failed to get container resources usage: " +:+ error_text e))]
  | Ok usage =>
      send_usage ContainerCPUUsage ContainerMemoryUsage (ru_CPU usage) (ru_Memory usage) ++
      match getContainerLimits with
      | Err e => [send_error (EText ("failed to get container resources limit: " +:+ error_text e))]
      | Ok limits =>
          if (0 <? ru_CPU limits) && (0 <? ru_Memory limits) then
            send_usage ContainerCPULimit ContainerMemoryLimit (ru_CPU limits) (ru_Memory limits)
          else
            match getNodeAvailableNow with
            | Err e => [send_error (EText ("failed to get node limits: " +:+ error_text e))]
            | Ok node =>
                send_usage ContainerCPULimit ContainerMemoryLimit
                  (wrap64 (ru_CPU node + ru_CPU usage)) (wrap64 (ru_Memory node + ru_Memory usage))
            end
      end
  end%list.

(** ** internal.go *)

Definition getPort : result string :=
  match om_Annotations (po_meta (mc_Pod s)) !! mc_PortAnnotation s with
  | Some port => Ok port
  | None => ExtractContainerPort (mc_Pod s) (mc_ContainerName s) (mc_PortName s)
  end.

Definition CollectInternal : list ResourceMessage :=
  match getPort with
  | Err e => [send_error (EText ("failed to get metrics port: " +:+ error_text e))]
  | Ok port =>
      match Proxy (mc_Client s) (mc_Pod s) port (mc_ProxyEndpoint s) with
      | Err e => [send_error (EText ("failed to proxy: " +:+ error_text e))]
      | Ok resp =>
          match ParsePrometheusMetrics resp with
          | Err e => [send_error (EText ("failed to parse prometheus metrics: " +:+ error_text e))]
          | Ok metrics =>
              concat ((λ nv : string * list MetricValue, sendMetric nv.1 <$> nv.2) <$> visit (list MetricValue) metrics)
          end
      end
  end.

(** ** service.go *)

Definition CollectAll : list ResourceMessage :=
  (CollectHealth ++ CollectResources ++ CollectInternal)%list.
End collector.
End metrics.
