(* ===== verification/Dashboard.v ===== *)
(** internal/server/handlers/metrics_handler.go, collector_metrics_handler.go,
    victoria_handler.go and internal/k8s/client.go, otel.go: which clusters,
    custom resources and pods the metrics of the web application come from, and
    how the messages of their collectors are put together.

    Goroutines that send to one channel are lists of messages; what is received
    is an [interleaving] of them.  A timeout shows as an error of a call.  Log
    lines are left out. *)
From S2P Require Import Prelude Strings Interleave Env World Kube Server Promxy Api.
From S2P Require Import ColdRows Region Metrics.
From Stdlib Require Import Ascii.

Open Scope string_scope.
Open Scope Z_scope.

(** The default of the flag management-cluster-name. *)
Definition ManagementClusterName := "mothership".

Record ResourceStatus := { rs_MessageType : string; rs_Message : string }.
(** What an ICustomResource answers. *)
Record CustomResource := {
  ir_Name : string; ir_Pods : result (list Pod); ir_Status : option ResourceStatus }.

Section dashboard.
Context `{Float64}
  (TextToMetricFamilies : string → result (gmap string MetricFamily))
  (visit : ∀ A, gmap string A → list (string * A))
  (** labels.Parse of the API machinery. *)
  (parse_selector : string → result (gmap string string → bool)).

(** * The collection *)

Record MetricsConfig := {
  mf_GetCustomResourcesFn : Client → result (list CustomResource);
  (** In seconds; set and never read. *)
  mf_MaxResponseTime : Z;
  mf_MetricsPortAnnotation : string;
  mf_PortName : string;
  mf_MetricsEndpoint : string;
  mf_ContainerName : string }.

Section handler.
Context (cfg : MetricsConfig).

(** The API admits no pod without a container. *)
Definition container_name (pod : Pod) : string :=
  if bool_decide (mf_ContainerName cfg = "")
  then default "" (co_Name <$> head (po_Containers pod))
  else mf_ContainerName cfg.

Definition pod_config (client : Client) (clusterName customResource : string) (pod : Pod)
    : MetricCollectorServiceConfig :=
  {| mc_Client := client; mc_Pod := pod; mc_ClusterName := clusterName;
     mc_CustomResourceName := customResource; mc_ContainerName := container_name pod;
     mc_PortAnnotation := mf_MetricsPortAnnotation cfg; mc_PortName := mf_PortName cfg;
     mc_ProxyEndpoint := mf_MetricsEndpoint cfg |}.

(** What the goroutine of a cluster sends for a custom resource. *)
Definition status_messages (clusterName : string) (cr : CustomResource) : list ResourceMessage :=
  match ir_Status cr with
  | Some status =>
      [{| rm_Status := Some
            {| sm_Address := {| ra_Cluster := clusterName; ra_CustomResource := ir_Name cr; ra_Pod := "" |};
               sm_Type := rs_MessageType status; sm_Message := rs_Message status; sm_Details := "" |};
          rm_Metrics := None |}]
  | None => []
  end.

(** The custom resources whose pods are found, with these. *)
Definition collected_resources (client : Client) : list (CustomResource * list Pod) :=
  match mf_GetCustomResourcesFn cfg client with
  | Err _ => []
  | Ok customResources =>
      omap (λ cr, match ir_Pods cr with Ok pods => Some (cr, pods) | Err _ => None end) customResources
  end.

(** What the goroutine of a cluster sends, and what those of its pods send. *)
Definition CollectMetrics (client : Client) (clusterName : string)
    : list ResourceMessage * list (list ResourceMessage) :=
  let found := collected_resources client in
  (concat ((λ cp, status_messages clusterName cp.1) <$> found),
   concat ((λ cp : CustomResource * list Pod,
              (λ pod, CollectAll TextToMetricFamilies visit
                            (pod_config client clusterName (ir_Name cp.1) pod)) <$> cp.2) <$> found)).

(** Every goroutine that sends, for the clusters with their clients. *)
Definition senders (clusters : list (string * Client)) : list (list ResourceMessage) :=
  concat ((λ nc : string * Client, (CollectMetrics nc.2 nc.1).1 :: (CollectMetrics nc.2 nc.1).2)
            <$> clusters).

(** The loop of [GetMetrics] over the channel. *)
Definition receive (clusters : gmap string ClusterInfo) (resource : ResourceMessage) : gmap string ClusterInfo :=
  let with_status (cm : gmap string ClusterInfo) : gmap string ClusterInfo :=
    match rm_Status resource with
    | Some s => ClusterMap_AddStatus cm (Some s)
    | None => cm
    end in
  match rm_Metrics resource with
  | Some m =>
      match mm_Err m with
      | Some _ => clusters
      | None => with_status (ClusterMap_AddMetric clusters (Some m))
      end
  | None => with_status clusters
  end.
Definition received (messages : list ResourceMessage) : gmap string ClusterInfo :=
  foldl receive ∅ messages.

(** [GetMetrics] with the clients of the remote clusters it has got; which
    interleaving happens is up to the scheduler. *)
Definition GetMetrics (localClient : Client) (remote : list (string * Client)) (result : gmap string ClusterInfo)
    : Prop :=
  ∃ messages, interleaving (senders ((ManagementClusterName, localClient) :: remote)) messages ∧
              result = received messages.
End handler.

(** * Collectors *)

Definition CollectorMaxResponseTime : Z := 60.
Definition CollectorPortName := "metrics".
Definition CollectorMetricsEndpoint := "metrics".
Definition CollectorContainerName := "otc-container".
Definition CollectorMetricsPortAnnotation := "kof.k0rdent.mirantis.com/collector-metrics-port".
Definition CollectorMetricsLabel := "k0rdent.mirantis.com/kof-collector-metrics".
Definition CollectorNoReplicasMessage :=
  "Collector has no replicas, please check configuration of the collector.".
Definition CollectorFailedFetchStatusMessage := "Failed to fetch current collector status.".
Definition CollectorZeroReplicasWarningMessage :=
  "Collector was not deployed because the replica count is zero. This may be caused by a mismatched selector.".
Definition replicas_down (current expected : Z) : string :=
  "Collector replicas are not ready (" +:+ itoa current +:+ " of " +:+ itoa expected +:+
  " replicas ready). Check the Collector configuration and pod logs for details.".

Definition GetStatus (o : OpenTelemetryCollector) : option ResourceStatus :=
  if bool_decide (oc_StatusReplicas o = "") then
    Some {| rs_MessageType := MessageTypeError; rs_Message := CollectorNoReplicasMessage |}
  else
    let expectedReplicas := oc_Replicas o in
    match parse_int64 (default "" (head (split_char "/"%char (oc_StatusReplicas o)))) with
    | None => Some {| rs_MessageType := MessageTypeError; rs_Message := CollectorFailedFetchStatusMessage |}
    | Some currentReplicas =>
        if (expectedReplicas =? 0) && (currentReplicas =? 0) then
          Some {| rs_MessageType := MessageTypeWarning; rs_Message := CollectorZeroReplicasWarningMessage |}
        else if negb (currentReplicas =? expectedReplicas) then
          Some {| rs_MessageType := MessageTypeError;
                  rs_Message := replicas_down currentReplicas expectedReplicas |}
        else None
    end.

(** No selector is nil, which the client takes for [labels.Nothing]. *)
Definition ExtractPodSelectorsFromOTelCollector (o : OpenTelemetryCollector)
    : result (option (gmap string string → bool)) :=
  if bool_decide (oc_Selector o = "") then Ok None
  else try sel := parse_selector (oc_Selector o) in Ok (Some sel).
Definition collector_options (selector : option (gmap string string → bool)) : list ListOption :=
  [HasLabels [CollectorMetricsLabel];
   MatchingLabelsSelector (default (λ _, false) selector)].
Definition collector_pods (client : Client) (o : OpenTelemetryCollector) : result (list Pod) :=
  try selector := flat_err "failed to extract pod selectors from collector"
                    (ExtractPodSelectorsFromOTelCollector o) in
  flat_err "failed to get pods of collector" (kc_Pods client (collector_options selector)).

Definition GetOpenTelemetryCollectors (client : Client) : result (list CustomResource) :=
  try items := flat_err "failed to get OpenTelemetryCollectors" (kc_Collectors client) in
  Ok ((λ o, {| ir_Name := oc_Name o; ir_Pods := collector_pods client o; ir_Status := GetStatus o |})
        <$> items).

Definition collector_config : MetricsConfig :=
  {| mf_GetCustomResourcesFn := GetOpenTelemetryCollectors;
     mf_MaxResponseTime := CollectorMaxResponseTime;
     mf_MetricsPortAnnotation := CollectorMetricsPortAnnotation;
     mf_PortName := CollectorPortName;
     mf_MetricsEndpoint := CollectorMetricsEndpoint;
     mf_ContainerName := CollectorContainerName |}.

(** * VictoriaMetrics and VictoriaLogs *)

Definition VictoriaMaxResponseTime : Z := 10.
Definition VictoriaMetricsPortAnnotation := "kof.k0rdent.mirantis.com/victoria-metrics-port".
Definition VictoriaMetricsLabel := "k0rdent.mirantis.com/kof-victoria-metrics".
Definition VictoriaPortName := "http".
Definition VictoriaMetricsEndpoint := "metrics".
Definition KubernetesAppLabel := "app.kubernetes.io/name".
Definition VictoriaLogsAppLabelValue := "victoria-logs-cluster".
Definition VictoriaLogsResource := "VictoriaLogs".
Definition VictoriaMetricsResource := "VictoriaMetrics".

Definition is_logs_pod (pod : Pod) : bool :=
  bool_decide (at_key (om_Labels (po_meta pod)) KubernetesAppLabel = VictoriaLogsAppLabelValue).
Definition NewVictoriaResource (resourceName : string) (pods : list Pod) : CustomResource :=
  {| ir_Name := resourceName; ir_Pods := Ok pods; ir_Status := None |}.

Definition GetVictoriaResources (client : Client) : result (list CustomResource) :=
  try pods := flat_err "failed to get victoria metrics/logs pods"
                (kc_Pods client [HasLabels [VictoriaMetricsLabel]]) in
  let vlPods := filter (λ p, is_logs_pod p = true) pods in
  let vmPods := filter (λ p, is_logs_pod p = false) pods in
  Ok ((if bool_decide (length vlPods = 0%nat) then []
       else [NewVictoriaResource VictoriaLogsResource vlPods]) ++
      (if bool_decide (length vmPods = 0%nat) then []
       else [NewVictoriaResource VictoriaMetricsResource vmPods]))%list.

Definition victoria_config : MetricsConfig :=
  {| mf_GetCustomResourcesFn := GetVictoriaResources;
     mf_MaxResponseTime := VictoriaMaxResponseTime;
     mf_MetricsPortAnnotation := VictoriaMetricsPortAnnotation;
     mf_PortName := VictoriaPortName;
     mf_MetricsEndpoint := VictoriaMetricsEndpoint;
     mf_ContainerName := "" |}.

(** * The clients of remote clusters *)

Section remote.
Context {W : Type} `{Cluster W}
  (** clientcmd and client-go: a client from a kubeconfig. *)
  (connect : string → result Client).

Definition GetSecretValue (data : gmap string string) : string := at_key data "value".
Definition NewKubeClientFromSecret (get : string → string → eff W (gmap string string))
    (secretName namespace : string) : eff W Client :=
  do secret := ewrapv "failed to get secret" (get secretName namespace) in
  let kubeconfig := GetSecretValue secret in
  if bool_decide (kubeconfig = "") then eret (Err (EText "kubeconfig is empty"))
  else eret (flat_err "failed to create new client from kubeconfig" (connect kubeconfig)).
Definition NewKubeClientFromClusterDeployment (get : string → string → eff W (gmap string string))
    (cd : ClusterDeployment) : eff W Client :=
  do secretName := ewrapv "failed to get secret name" (GetKubeconfigSecretName cd) in
  NewKubeClientFromSecret get secretName (om_Namespace (cd_meta cd)).

(** Secrets of the management cluster, and through the client of another one. *)
Definition local_secret (name namespace : string) : eff W (gmap string string) :=
  do s := GetSecret name namespace in eret (Ok (se_Data s)).
Definition secret_of (client : Client) (name namespace : string) : eff W (gmap string string) :=
  eret (kc_Secret client name namespace).

(** The client of a cluster under its name, or nothing after an error, which
    is logged. *)
Definition createAndSendKubeClient (get : string → string → eff W (gmap string string))
    (cd : ClusterDeployment) : eff W (option (string * Client)) :=
  ecase (do secretName := GetKubeconfigSecretName cd in
         NewKubeClientFromSecret get secretName (om_Namespace (cd_meta cd)))
    (λ r, eret (Ok match r with Ok c => Some (om_Name (cd_meta cd), c) | Err _ => None end)).

Fixpoint send_all (get : string → string → eff W (gmap string string)) (cds : list ClusterDeployment)
    : eff W (list (string * Client)) :=
  match cds with
  | [] => eret (Ok [])
  | cd :: r => do c := createAndSendKubeClient get cd in
               do cs := send_all get r in
               eret (Ok (option_list c ++ cs)%list)
  end.

(** The regions' own clusters, and the children reached through them. *)
Fixpoint region_loop (cache : CachedClusterData) (cds : list ClusterDeployment)
    : eff W (list (string * Client) * list (string * Client)) :=
  match cds with
  | [] => eret (Ok ([], []))
  | cd :: r =>
      ecase (GetKcmRegionChildClusters cd cache) (λ childs,
        match childs with
        | Err _ => region_loop cache r
        | Ok childs =>
            do region := createAndSendKubeClient local_secret cd in
            match region with
            | None => region_loop cache r
            | Some (name, client) =>
                do cs := send_all (secret_of client) childs in
                do rest := region_loop cache r in
                eret (Ok ((name, client) :: rest.1, (cs ++ rest.2)%list))
            end
        end)
  end.
Definition handleRegionClusters (cache : CachedClusterData)
    : eff W (list (string * Client) * list (string * Client)) :=
  ecase GetKcmRegionClusters (λ r,
    match r with Ok cds => region_loop cache cds | Err _ => eret (Ok ([], [])) end).

(** [processed] holds the clusters of the regions; a child, or another cluster
    of the same name, may or may not have been stored when a cluster is looked
    up ([early]). *)
Fixpoint other_loop (early : ClusterDeployment → bool) (processed racing : list string)
    (cds : list ClusterDeployment) : eff W (list (string * Client)) :=
  match cds with
  | [] => eret (Ok [])
  | cd :: r =>
      let name := om_Name (cd_meta cd) in
      if bool_decide (name ∈ processed) || (bool_decide (name ∈ racing) && early cd)
      then other_loop early processed racing r
      else
        do c := createAndSendKubeClient local_secret cd in
        do cs := other_loop early processed (racing ++ (option_list c).*1)%list r in
        eret (Ok (option_list c ++ cs)%list)
  end.

Definition fetchClusterData : eff W (list Region * list Credential * list ClusterDeployment) :=
  do regionList := ewrap "failed to get region list" GetRegions in
  do credList := ewrap "failed to get credential list" GetCredentials in
  do clusterList := ewrap "failed to get cluster deployment list" (GetClusterDeployments []) in
  eret (Ok (regionList, credList, clusterList)).

(** An error of the first reads is logged, and no remote cluster is asked. *)
Definition collectRemoteClusterKubeClients (early : ClusterDeployment → bool)
    : eff W (list (string * Client)) :=
  ecase fetchClusterData (λ r,
    match r with
    | Err _ => eret (Ok [])
    | Ok (regions, creds, clusters) =>
        do sent := handleRegionClusters
          {| cache_Regions := Some regions; cache_Clusters := Some clusters |} in
        do others := other_loop early sent.1.*1 sent.2.*1 clusters in
        eret (Ok (sent.1 ++ sent.2 ++ others)%list)
    end).
End remote.
End dashboard.
