(* ===== verification/DashboardFacts.v ===== *)
(** Facts about the metrics of the web application: whatever the order in
    which the goroutines get to send, the same tree comes out, and a pod has in
    it the values its collector sent, in their order. *)
From S2P Require Import Prelude Strings Interleave Env World Kube Server Promxy Api.
From S2P Require Import VMUser ColdRows Region ConfigData Child Demo Metrics Dashboard.

Open Scope string_scope.

(** * Messages commute *)

(** Change what is under a name, or what is made for it. *)
Definition change {V} (new : string → V) (f : V → V) (k : string) (m : gmap string V) : gmap string V :=
  <[k := f (default (new k) (m !! k))]> m.

Lemma change_commute {V} (new : string → V) f g k k' (m : gmap string V) :
  (k = k' → ∀ v, f (g v) = g (f v)) →
  change new f k (change new g k' m) = change new g k' (change new f k m).
Proof.
  intros Hfg. unfold change. destruct (decide (k = k')) as [<-|Hne].
  - rewrite !lookup_insert_eq, !insert_insert_eq. simpl. by rewrite Hfg.
  - rewrite !lookup_insert_ne by done. by apply insert_insert_ne.
Qed.

Section messages.
Context `{Float64}.

(** A message is about one metric or one status. *)
Notation update := (MetricData + StatusMessage)%type.
Definition update_address (u : update) : ResourceAddress :=
  match u with inl d => mm_Address d | inr s => sm_Address s end.
Definition update_of (m : ResourceMessage) : option update :=
  match rm_Metrics m, rm_Status m with
  | Some d, None => match mm_Err d with None => Some (inl d) | Some _ => None end
  | None, Some s => Some (inr s)
  | _, _ => None
  end.

Definition in_metrics (u : update) (p : PodInfo) : PodInfo :=
  match u with
  | inl d => {| pi_Status := pi_Status p; pi_Metrics := MetricsMap_Add (pi_Metrics p) (Some d) |}
  | inr s => {| pi_Status := with_message s (pi_Status p); pi_Metrics := pi_Metrics p |}
  end.
Definition in_pods (u : update) (pm : gmap string PodInfo) : gmap string PodInfo :=
  match u with inl d => PodMap_AddMetric pm (Some d) | inr s => PodMap_AddStatus pm (Some s) end.
Definition in_resources (u : update) (crm : gmap string CustomResourceInfo) : gmap string CustomResourceInfo :=
  match u with
  | inl d => CustomResourceMap_AddMetric crm (Some d)
  | inr s => CustomResourceMap_AddStatus crm (Some s)
  end.
Definition in_clusters (u : update) (cm : gmap string ClusterInfo) : gmap string ClusterInfo :=
  match u with inl d => ClusterMap_AddMetric cm (Some d) | inr s => ClusterMap_AddStatus cm (Some s) end.

Lemma receive_update cm m u : update_of m = Some u → receive cm m = in_clusters u cm.
Proof.
  unfold update_of, receive. destruct (rm_Metrics m) as [d|], (rm_Status m) as [s|]; try done.
  - destruct (mm_Err d); [done|]. by intros [= <-].
  - by intros [= <-].
Qed.

(** What an update does to the resource, and to the cluster, it is about. *)
Definition in_resource (u : update) (ci : CustomResourceInfo) : CustomResourceInfo :=
  match u with
  | inr s => if bool_decide (ra_Pod (sm_Address s) = "")
             then {| ci_Status := with_message s (ci_Status ci); ci_Pods := ci_Pods ci |}
             else {| ci_Status := ci_Status ci; ci_Pods := in_pods u (ci_Pods ci) |}
  | inl d => {| ci_Status := ci_Status ci; ci_Pods := in_pods u (ci_Pods ci) |}
  end.
Definition in_cluster (u : update) (ci : ClusterInfo) : ClusterInfo :=
  match u with
  | inr s => if bool_decide (ra_CustomResource (sm_Address s) = "")
             then {| cl_Status := with_message s (cl_Status ci);
                     cl_CustomResources := cl_CustomResources ci |}
             else {| cl_Status := cl_Status ci;
                     cl_CustomResources := in_resources u (cl_CustomResources ci) |}
  | inl d => {| cl_Status := cl_Status ci; cl_CustomResources := in_resources u (cl_CustomResources ci) |}
  end.

Lemma in_pods_change u pm :
  in_pods u pm = if bool_decide (ra_Pod (update_address u) = "") then pm
                 else change new_pod (in_metrics u) (ra_Pod (update_address u)) pm.
Proof. by destruct u. Qed.
Lemma in_resources_change u crm :
  in_resources u crm =
    if bool_decide (ra_CustomResource (update_address u) = "") then crm
    else change new_custom_resource (in_resource u) (ra_CustomResource (update_address u)) crm.
Proof. by destruct u. Qed.
Lemma in_clusters_change u cm :
  in_clusters u cm =
    if bool_decide (ra_Cluster (update_address u) = "") then cm
    else change new_cluster (in_cluster u) (ra_Cluster (update_address u)) cm.
Proof. by destruct u. Qed.

Lemma in_pods_commute u v pm :
  ra_Pod (update_address u) ≠ ra_Pod (update_address v) →
  in_pods u (in_pods v pm) = in_pods v (in_pods u pm).
Proof.
  intros Hne. rewrite !in_pods_change. do 2 case_bool_decide; try done. by apply change_commute.
Qed.

Lemma in_resource_commute u v ci :
  ra_Pod (update_address u) ≠ ra_Pod (update_address v) →
  in_resource u (in_resource v ci) = in_resource v (in_resource u ci).
Proof.
  intros Hne. pose proof (in_pods_commute u v (ci_Pods ci) Hne) as Hc.
  destruct u as [d|s], v as [d'|s']; simpl in *; try (by rewrite Hc);
    repeat case_bool_decide; simpl; try (by rewrite Hc); try done.
  congruence.
Qed.

Lemma in_resources_commute u v crm :
  (ra_CustomResource (update_address u), ra_Pod (update_address u)) ≠
  (ra_CustomResource (update_address v), ra_Pod (update_address v)) →
  in_resources u (in_resources v crm) = in_resources v (in_resources u crm).
Proof.
  intros Hne. rewrite !in_resources_change. do 2 case_bool_decide; try done.
  apply change_commute. intros He ci. apply in_resource_commute. congruence.
Qed.

Lemma in_cluster_commute u v ci :
  (ra_CustomResource (update_address u), ra_Pod (update_address u)) ≠
  (ra_CustomResource (update_address v), ra_Pod (update_address v)) →
  (ra_CustomResource (update_address u) = "" → ra_Pod (update_address u) = "") →
  (ra_CustomResource (update_address v) = "" → ra_Pod (update_address v) = "") →
  in_cluster u (in_cluster v ci) = in_cluster v (in_cluster u ci).
Proof.
  intros Hne Hu Hv. pose proof (in_resources_commute u v (cl_CustomResources ci) Hne) as Hc.
  destruct u as [d|s], v as [d'|s']; simpl in *; try (by rewrite Hc);
    repeat case_bool_decide; simpl; try (by rewrite Hc); try done.
  exfalso. apply Hne. f_equal; [congruence|]. by rewrite Hu, Hv.
Qed.

(** An address names a pod only below a custom resource. *)
Definition proper (a : ResourceAddress) : Prop := ra_CustomResource a = "" → ra_Pod a = "".

(** Messages about different resources commute. *)
Lemma receive_commute cm m m' u v :
  update_of m = Some u → update_of m' = Some v →
  proper (update_address u) → proper (update_address v) → update_address u ≠ update_address v →
  receive (receive cm m) m' = receive (receive cm m') m.
Proof.
  intros Hm Hm' Hu Hv Hne.
  rewrite !(receive_update _ _ _ Hm), !(receive_update _ _ _ Hm'), !in_clusters_change.
  do 2 case_bool_decide; try done. apply change_commute. intros He ci.
  apply in_cluster_commute; [|done..]. intros [= Hr Hp]. apply Hne.
  destruct (update_address u), (update_address v). simpl in *. congruence.
Qed.
End messages.

(** * What is sent *)

Section sent.
Context `{Float64}
  (TextToMetricFamilies : string → result (gmap string MetricFamily))
  (visit : ∀ A, gmap string A → list (string * A)).
Notation CollectAll := (CollectAll TextToMetricFamilies visit).

(** A message of the collector of a pod: a metric or a status. *)
Definition sent_by (s : MetricCollectorServiceConfig) (m : ResourceMessage) : Prop :=
  (∃ name v, m = sendMetric s name v) ∨ ∃ t x y, m = sendStatus s t x y.

Lemma sent_metric s name v : sent_by s (sendMetric s name v).
Proof. left. eauto. Qed.
Lemma sent_error s e : sent_by s (send_error s e).
Proof. right. unfold send_error. eauto. Qed.

Lemma CollectAll_sent s : Forall (sent_by s) (CollectAll s).
Proof.
  assert (Hu : ∀ a b x y, Forall (sent_by s) (send_usage s a b x y)).
  { intros. repeat (apply Forall_cons; split); [apply sent_metric..|by apply Forall_nil]. }
  unfold Metrics.CollectAll. rewrite !Forall_app. split_and!.
  - unfold CollectHealth. repeat case_match; repeat (apply Forall_cons; split);
      try apply Forall_nil; eauto using sent_metric, sent_error.
  - unfold CollectResources. destruct (getContainerUsage s) as [usage|e].
    2: { apply Forall_singleton, sent_error. }
    apply Forall_app. split; [apply Hu|]. repeat case_match; try apply Hu; apply Forall_singleton, sent_error.
  - unfold CollectInternal. repeat case_match; try (apply Forall_singleton, sent_error).
    apply Forall_forall. intros m Hm. apply list_elem_of_In, in_concat in Hm as (l & Hl & Hm).
    apply list_elem_of_In in Hl, Hm. apply list_elem_of_fmap in Hl as (nv & -> & _).
    apply list_elem_of_fmap in Hm as (v & -> & _). apply sent_metric.
Qed.

Lemma sent_update s m : sent_by s m → ∃ u, update_of m = Some u ∧ update_address u = address s.
Proof. intros [(n & v & ->)|(t & x & y & ->)]; eauto. Qed.

(** The first message is about the Ready condition. *)
Lemma CollectAll_nonempty s : CollectAll s ≠ [].
Proof. unfold Metrics.CollectAll, CollectHealth. by repeat case_match. Qed.

(** * Distinct names *)

Context (cfg : MetricsConfig).
Notation CollectMetrics := (CollectMetrics TextToMetricFamilies visit cfg).
Notation senders := (senders TextToMetricFamilies visit cfg).

(** Clusters, custom resources of a cluster and pods of a custom resource have
    names of their own, which are not empty. *)
Definition distinct (clusters : list (string * Client)) : Prop :=
  NoDup clusters.*1 ∧
  ∀ nc, nc ∈ clusters →
    nc.1 ≠ "" ∧ NoDup ((λ cp : CustomResource * list Pod, ir_Name cp.1) <$> collected_resources cfg nc.2) ∧
    ∀ cp, cp ∈ collected_resources cfg nc.2 →
      ir_Name cp.1 ≠ "" ∧ NoDup ((λ p, om_Name (po_meta p)) <$> cp.2) ∧
      ∀ p, p ∈ cp.2 → om_Name (po_meta p) ≠ "".

(** The cluster, and the pod if there is one, an address is about. *)
Definition tag : Type := string * option (string * string).
Definition tag_of (a : ResourceAddress) : tag :=
  (ra_Cluster a, if bool_decide (ra_Pod a = "") then None else Some (ra_CustomResource a, ra_Pod a)).

Definition resource_tags (name : string) (cp : CustomResource * list Pod) : list tag :=
  (λ p, (name, Some (ir_Name cp.1, om_Name (po_meta p)))) <$> cp.2.
Definition cluster_tags (nc : string * Client) : list tag :=
  (nc.1, None) :: concat (resource_tags nc.1 <$> collected_resources cfg nc.2).
Definition tags (clusters : list (string * Client)) : list tag := concat (cluster_tags <$> clusters).

Lemma NoDup_concat_map {A B} (f : A → list B) (l : list A) :
  NoDup l → (∀ x, x ∈ l → NoDup (f x)) →
  (∀ x y b, x ∈ l → y ∈ l → b ∈ f x → b ∈ f y → x = y) → NoDup (concat (f <$> l)).
Proof.
  induction l as [|x l IH]; intros Hl Hf Hd; [constructor|]. simpl.
  apply NoDup_cons in Hl as [Hx Hl]. apply NoDup_app. split_and!.
  - apply Hf. by left.
  - intros b Hb (l' & Hl' & Hb')%elem_of_concat. apply list_elem_of_fmap in Hl' as (y & -> & Hy).
    apply Hx. rewrite (Hd x y b); [done|by left|by right|done|done].
  - apply IH; [done|intros y Hy; apply Hf; by right|].
    intros y z b Hy Hz. apply Hd; by right.
Qed.

Lemma elem_of_cluster_tags nc t :
  t ∈ cluster_tags nc ↔
  t = (nc.1, None) ∨ ∃ cp p, cp ∈ collected_resources cfg nc.2 ∧ p ∈ cp.2 ∧
                             t = (nc.1, Some (ir_Name cp.1, om_Name (po_meta p))).
Proof.
  unfold cluster_tags. rewrite elem_of_cons, elem_of_concat. split.
  - intros [->|(l & Hl & Ht)]; [by left|right].
    apply list_elem_of_fmap in Hl as (cp & -> & Hcp). apply list_elem_of_fmap in Ht as (p & -> & Hp).
    eauto.
  - intros [->|(cp & p & Hcp & Hp & ->)]; [by left|right]. exists (resource_tags nc.1 cp).
    split; apply list_elem_of_fmap; eauto.
Qed.

Lemma NoDup_map_inj {A B} (f : A → B) (l : list A) x y :
  NoDup (f <$> l) → x ∈ l → y ∈ l → f x = f y → x = y.
Proof.
  intros Hl Hx Hy He. apply list_elem_of_lookup in Hx as (i & Hi), Hy as (j & Hj).
  assert (i = j) as ->.
  { eapply (NoDup_lookup _ _ _ (f x) Hl); rewrite list_lookup_fmap; [by rewrite Hi|by rewrite Hj, He]. }
  congruence.
Qed.

Lemma NoDup_tags clusters : distinct clusters → NoDup (tags clusters).
Proof.
  intros [Hn Hd]. apply NoDup_concat_map.
  - by apply (NoDup_fmap_1 fst).
  - intros nc Hnc. destruct (Hd nc Hnc) as (_ & Hr & Hp). unfold cluster_tags. apply NoDup_cons. split.
    { intros (l & Hl & Ht)%elem_of_concat. apply list_elem_of_fmap in Hl as (cp & -> & _).
      by apply list_elem_of_fmap in Ht as (p & ? & _). }
    apply NoDup_concat_map; [by apply NoDup_fmap_1 in Hr|..].
    + intros cp Hcp. destruct (Hp cp Hcp) as (_ & Hq & _). unfold resource_tags.
      assert (Inj (=) (=) (λ n, (nc.1, Some (ir_Name cp.1, n)) : tag)) by (by intros ?? [= ->]).
      apply (NoDup_fmap_2 (λ n, (nc.1, Some (ir_Name cp.1, n)) : tag)) in Hq.
      by rewrite <-list_fmap_compose in Hq.
    + intros cp cp' t Hcp Hcp' Ht Ht'. apply list_elem_of_fmap in Ht as (p & -> & _), Ht' as (p' & [= He _] & _).
      by eapply NoDup_map_inj.
  - intros nc nc' t Hnc Hnc' Ht Ht'. apply elem_of_cluster_tags in Ht, Ht'.
    apply (NoDup_map_inj fst clusters); [done..|].
    destruct Ht as [->|(? & ? & _ & _ & ->)], Ht' as [He|(? & ? & _ & _ & He)]; by injection He.
Qed.

(** Each goroutine sends messages with one tag. *)
Definition tagged (t : tag) (l : list ResourceMessage) : Prop :=
  ∀ m, m ∈ l → ∃ u, update_of m = Some u ∧ proper (update_address u) ∧ tag_of (update_address u) = t.

Lemma Forall2_concat_map {A B C} (P : B → C → Prop) (f : A → list B) (g : A → list C) (l : list A) :
  (∀ x, x ∈ l → Forall2 P (f x) (g x)) → Forall2 P (concat (f <$> l)) (concat (g <$> l)).
Proof.
  induction l as [|x l IH]; intros Hf; simpl; [done|]. apply Forall2_app; [apply Hf; by left|].
  apply IH. intros y Hy. apply Hf. by right.
Qed.

Lemma pod_tagged client name cp p :
  ir_Name cp ≠ "" → om_Name (po_meta p) ≠ "" →
  tagged (name, Some (ir_Name cp, om_Name (po_meta p)))
    (CollectAll (pod_config cfg client name (ir_Name cp) p)).
Proof.
  intros Hr Hp m Hm. pose proof (CollectAll_sent (pod_config cfg client name (ir_Name cp) p)) as Hs.
  rewrite Forall_forall in Hs. apply Hs, sent_update in Hm as (u & Hu & Ha). exists u.
  split; [done|]. rewrite Ha. unfold proper, tag_of. cbn. by rewrite bool_decide_eq_false_2.
Qed.

Lemma main_tagged client name : tagged (name, None) (CollectMetrics client name).1.
Proof.
  intros m (l & Hl & Hm)%elem_of_concat. apply list_elem_of_fmap in Hl as (cp & -> & _).
  unfold status_messages in Hm. destruct (ir_Status cp.1) as [st|]; [|by apply not_elem_of_nil in Hm].
  apply list_elem_of_singleton in Hm as ->. eexists. split; [done|]. split; [done|].
  unfold tag_of. cbn. by rewrite bool_decide_eq_true_2.
Qed.

Lemma senders_tagged clusters :
  distinct clusters → Forall2 tagged (tags clusters) (senders clusters).
Proof.
  intros [_ Hd]. apply Forall2_concat_map. intros nc Hnc. destruct (Hd nc Hnc) as (_ & _ & Hp).
  unfold cluster_tags. constructor; [apply main_tagged|]. apply Forall2_concat_map. intros cp Hcp.
  destruct (Hp cp Hcp) as (Hr & _ & Hq). unfold resource_tags. rewrite Forall2_fmap.
  apply Forall_Forall2_diag, Forall_forall. intros p Hpp. by apply pod_tagged; [|apply Hq].
Qed.

(** Messages of two goroutines are about different resources. *)
Lemma senders_apart clusters i j l l' m m' :
  distinct clusters → i ≠ j → senders clusters !! i = Some l → senders clusters !! j = Some l' →
  m ∈ l → m' ∈ l' →
  ∃ u v, update_of m = Some u ∧ update_of m' = Some v ∧ proper (update_address u) ∧
         proper (update_address v) ∧ update_address u ≠ update_address v.
Proof.
  intros Hd Hij Hi Hj Hm Hm'. pose proof (senders_tagged _ Hd) as Ht.
  destruct (Forall2_lookup_r _ _ _ _ _ Ht Hi) as (t & Hti & Hu).
  destruct (Forall2_lookup_r _ _ _ _ _ Ht Hj) as (t' & Htj & Hv).
  destruct (Hu m Hm) as (u & Hu1 & Hu2 & Hu3), (Hv m' Hm') as (v & Hv1 & Hv2 & Hv3).
  exists u, v. split_and!; try done. intros He. apply Hij.
  eapply (NoDup_lookup _ _ _ t (NoDup_tags _ Hd)); [done|]. by rewrite Htj, <-Hu3, <-Hv3, He.
Qed.

Lemma senders_commuting clusters : distinct clusters → commuting receive (senders clusters).
Proof.
  intros Hd i j l l' m m' Hij Hi Hj Hm Hm' cm.
  destruct (senders_apart _ _ _ _ _ _ _ Hd Hij Hi Hj Hm Hm') as (u & v & Hu & Hv & Hpu & Hpv & Hne).
  by eapply receive_commute.
Qed.

(** C29: When every cluster is asked once, and the clusters, the custom
    resources of a cluster and the pods of a custom resource have names of
    their own, the metrics that are shown do not depend on the order in which
    the goroutines of the clusters and the pods get to send: it is as if each
    had sent after the other.  [race_duplicates] shows a cluster that is asked
    twice, which the code does not rule out: then the order decides. *)
Theorem metrics_deterministic localClient remote result :
  distinct ((ManagementClusterName, localClient) :: remote) →
  GetMetrics TextToMetricFamilies visit cfg localClient remote result →
  result = received (concat (senders ((ManagementClusterName, localClient) :: remote))).
Proof.
  intros Hd (messages & Hi & ->). by apply interleaving_foldl, senders_commuting.
Qed.

(** * What is shown of a pod *)

Definition resource_pod (r p : string) (crm : gmap string CustomResourceInfo) : option PodInfo :=
  crm !! r ≫= λ cr, ci_Pods cr !! p.
Definition pod_at (a : ResourceAddress) (cm : gmap string ClusterInfo) : option PodInfo :=
  cm !! ra_Cluster a ≫= λ ci, resource_pod (ra_CustomResource a) (ra_Pod a) (cl_CustomResources ci).

(** An address with all its parts. *)
Definition full (a : ResourceAddress) : Prop :=
  ra_Cluster a ≠ "" ∧ ra_CustomResource a ≠ "" ∧ ra_Pod a ≠ "".

Lemma lookup_change {V} (new : string → V) f k k' (m : gmap string V) :
  change new f k m !! k' = if decide (k = k') then Some (f (default (new k) (m !! k))) else m !! k'.
Proof.
  unfold change. destruct (decide (k = k')) as [<-|Hne]; [apply lookup_insert_eq|by apply lookup_insert_ne].
Qed.

Lemma lookup_in_pods u pm p :
  p ≠ "" →
  in_pods u pm !! p = if decide (ra_Pod (update_address u) = p)
                      then Some (in_metrics u (default (new_pod p) (pm !! p))) else pm !! p.
Proof.
  intros Hp. rewrite in_pods_change. case_bool_decide as He.
  - rewrite decide_False by congruence. done.
  - rewrite lookup_change. by destruct (decide _) as [<-|].
Qed.

Lemma lookup_in_resource u ci p :
  p ≠ "" →
  ci_Pods (in_resource u ci) !! p = if decide (ra_Pod (update_address u) = p)
    then Some (in_metrics u (default (new_pod p) (ci_Pods ci !! p))) else ci_Pods ci !! p.
Proof.
  intros Hp. pose proof (lookup_in_pods u (ci_Pods ci) p Hp) as Hl.
  destruct u as [d|s]; [exact Hl|]. simpl in *. case_bool_decide as He; [|exact Hl]. simpl.
  rewrite decide_False by congruence. done.
Qed.

Lemma resource_pod_update u crm r p :
  r ≠ "" → p ≠ "" →
  resource_pod r p (in_resources u crm) =
    if decide (ra_CustomResource (update_address u) = r ∧ ra_Pod (update_address u) = p)
    then Some (in_metrics u (default (new_pod p) (resource_pod r p crm))) else resource_pod r p crm.
Proof.
  intros Hr Hp. unfold resource_pod. rewrite in_resources_change. case_bool_decide as He.
  { rewrite decide_False by (intros [? _]; congruence). done. }
  rewrite lookup_change. destruct (decide (ra_CustomResource (update_address u) = r)) as [<-|Hne].
  2: { rewrite decide_False by (intros [? _]; congruence). done. }
  simpl. rewrite lookup_in_resource by done.
  assert (Hd : ci_Pods (default (new_custom_resource (ra_CustomResource (update_address u)))
                 (crm !! ra_CustomResource (update_address u))) !! p =
               crm !! ra_CustomResource (update_address u) ≫= λ cr, ci_Pods cr !! p).
  { by destruct (crm !! ra_CustomResource (update_address u)). }
  rewrite Hd. destruct (decide (ra_Pod (update_address u) = p)) as [He'|He'].
  - by rewrite decide_True.
  - rewrite decide_False by tauto. done.
Qed.

Lemma pod_at_update a u cm :
  full a →
  pod_at a (in_clusters u cm) =
    if decide (update_address u = a) then Some (in_metrics u (default (new_pod (ra_Pod a)) (pod_at a cm)))
    else pod_at a cm.
Proof.
  intros (Hc & Hr & Hp). unfold pod_at. rewrite in_clusters_change. case_bool_decide as He.
  { rewrite decide_False by congruence. done. }
  rewrite lookup_change. destruct (decide (ra_Cluster (update_address u) = ra_Cluster a)) as [Hca|Hne].
  2: { rewrite decide_False by congruence. done. }
  rewrite Hca. simpl. set (ci := default (new_cluster (ra_Cluster a)) (cm !! ra_Cluster a)).
  assert (Hd : resource_pod (ra_CustomResource a) (ra_Pod a) (cl_CustomResources ci) =
    cm !! ra_Cluster a ≫= λ ci, resource_pod (ra_CustomResource a) (ra_Pod a) (cl_CustomResources ci)).
  { unfold ci. by destruct (cm !! ra_Cluster a). }
  rewrite <-Hd.
  assert (Hi : resource_pod (ra_CustomResource a) (ra_Pod a) (cl_CustomResources (in_cluster u ci)) =
    resource_pod (ra_CustomResource a) (ra_Pod a) (in_resources u (cl_CustomResources ci))).
  { destruct u as [d|s]; [done|]. simpl. case_bool_decide as Hs; [|done]. simpl.
    done. }
  rewrite Hi, resource_pod_update by done.
  destruct (decide (update_address u = a)) as [Ha|Ha].
  - by rewrite decide_True by (by rewrite Ha).
  - rewrite decide_False; [done|]. intros [Hra Hpa]. apply Ha.
    destruct (update_address u), a. simpl in *. congruence.
Qed.

(** What the messages of a pod make of it. *)
Definition pod_step (p : PodInfo) (m : ResourceMessage) : PodInfo :=
  match update_of m with Some u => in_metrics u p | None => p end.
Definition about (a : ResourceAddress) (m : ResourceMessage) : Prop :=
  update_address <$> update_of m = Some a.
#[local] Instance about_dec a m : Decision (about a m).
Proof. unfold about. apply _. Defined.

Lemma pod_at_receive a cm l :
  full a → Forall (λ m, is_Some (update_of m)) l →
  pod_at a (foldl receive cm l) =
    match filter (about a) l with
    | [] => pod_at a cm
    | l' => Some (foldl pod_step (default (new_pod (ra_Pod a)) (pod_at a cm)) l')
    end.
Proof.
  intros Ha. revert cm. induction l as [|m l IH]; intros cm Hl; simpl; [done|].
  apply Forall_cons in Hl as [[u Hu] Hl]. rewrite IH by done.
  rewrite (receive_update _ _ _ Hu), pod_at_update by done. rewrite filter_cons.
  assert (Hab : about a m ↔ update_address u = a).
  { unfold about. rewrite Hu. split; [by intros [= ?]|by intros <-]. }
  destruct (decide (update_address u = a)) as [He|He].
  - rewrite (decide_True (P := about a m)) by (by apply Hab). cbn [default from_option]. unfold id.
    cbn [foldl]. assert (Hs : ∀ q, pod_step q m = in_metrics u q) by (intros q; unfold pod_step; by rewrite Hu).
    rewrite !Hs. by destruct (filter (about a) l).
  - rewrite (decide_False (P := about a m)) by (by rewrite Hab). done.
Qed.

(** ** Reading a pod off *)

(** The values sent under a name, and the statuses. *)
Definition values_named (name : string) (l : list ResourceMessage) : list MetricValue :=
  omap (λ m, match rm_Metrics m with
             | Some d => if bool_decide (mm_Name d = name) then mm_Value d else None
             | None => None
             end) l.
Definition last_message (l : list ResourceMessage) : string :=
  from_option sm_Message "" (last (omap rm_Status l)).

Lemma pod_values s l p name :
  name ≠ "" → Forall (sent_by s) l →
  default [] (pi_Metrics (foldl pod_step p l) !! name) =
  (default [] (pi_Metrics p !! name) ++ values_named name l)%list.
Proof.
  intros Hn Hl. revert p. induction Hl as [|m l Hm Hl IH]; intros p; simpl.
  { by rewrite app_nil_r. }
  rewrite IH. destruct Hm as [(n & v & ->)|(t & x & y & ->)]; [|done].
  unfold values_named at 2. simpl. fold (values_named name l).
  destruct (decide (n = name)) as [->|Hne].
  - rewrite !bool_decide_eq_false_2, bool_decide_eq_true_2 by done. rewrite lookup_insert_eq. simpl.
    by rewrite <-app_assoc.
  - rewrite (bool_decide_eq_false_2 (n = name)) by done. case_bool_decide; [done|].
    by rewrite lookup_insert_ne.
Qed.

Lemma pod_message s l p :
  Forall (sent_by s) l →
  bs_Message (pi_Status (foldl pod_step p l)) =
    from_option sm_Message (bs_Message (pi_Status p)) (last (omap rm_Status l)).
Proof.
  intros Hl. revert p. induction Hl as [|m l Hm Hl IH]; intros p; simpl; [done|].
  rewrite IH. destruct Hm as [(n & v & ->)|(t & x & y & ->)]; simpl; [done|].
  change (list_omap _ _ rm_Status l) with (omap rm_Status l). rewrite last_cons.
  by destruct (last (omap rm_Status l)).
Qed.

(** C28: When every cluster is asked once, and the clusters, the custom
    resources of a cluster and the pods of a custom resource have names of
    their own (pods of one name in two namespaces share an entry), the answer
    shows of every pod that is found, under each name, the values its
    collector sent under that name, in their order, and the last error of the
    collector, if any. *)
Theorem pod_reported localClient remote result nc cp pod :
  let clusters := (ManagementClusterName, localClient) :: remote in
  distinct clusters → nc ∈ clusters → cp ∈ collected_resources cfg nc.2 → pod ∈ cp.2 →
  GetMetrics TextToMetricFamilies visit cfg localClient remote result →
  let s := pod_config cfg nc.2 nc.1 (ir_Name cp.1) pod in
  ∃ info,
    pod_at (address s) result = Some info ∧
    (∀ name, name ≠ "" → default [] (pi_Metrics info !! name) = values_named name (CollectAll s)) ∧
    bs_Message (pi_Status info) = last_message (CollectAll s).
Proof.
  intros clusters Hd Hnc Hcp Hpod (messages & Hi & ->) s. subst clusters.
  set (clusters := (ManagementClusterName, localClient) :: remote) in *.
  pose proof (senders_tagged _ Hd) as Ht.
  destruct Hd as [Hn Hd']. pose proof (conj Hn Hd' : distinct clusters) as Hd.
  destruct (Hd' nc Hnc) as (Hc & _ & Hr). destruct (Hr cp Hcp) as (Hrn & _ & Hp).
  assert (Hf : full (address s)) by (split_and!; [done..|by apply Hp]).
  assert (Hs : CollectAll s ∈ senders clusters).
  { apply elem_of_concat. exists ((CollectMetrics nc.2 nc.1).1 :: (CollectMetrics nc.2 nc.1).2).
    split; [apply list_elem_of_fmap; by exists nc|]. right. apply elem_of_concat.
    eexists. split; [apply list_elem_of_fmap; by exists cp|]. apply list_elem_of_fmap. by exists pod. }
  apply list_elem_of_lookup in Hs as (i & Hsi).
  pose proof (CollectAll_sent s) as Hsent. rewrite Forall_forall in Hsent.
  assert (Hown : filter (about (address s)) (CollectAll s) = CollectAll s).
  { apply filter_id. intros m Hm. destruct (sent_update _ _ (Hsent m Hm)) as (u & Hu & Ha).
    unfold about. by rewrite Hu, <-Ha. }
  assert (Hall : Forall (λ m, is_Some (update_of m)) messages).
  { apply Forall_forall. intros m Hm. destruct (interleaving_elem _ _ _ Hi Hm) as (l & Hl & Hml).
    apply list_elem_of_lookup in Hl as (j & Hj).
    destruct (Forall2_lookup_r _ _ _ _ _ Ht Hj) as (t & _ & Hu).
    destruct (Hu m Hml) as (u & -> & _). eauto. }
  unfold received. rewrite pod_at_receive by done.
  rewrite (interleaving_filter _ _ _ _ _ Hi Hsi), Hown.
  2: { intros j l' Hj Hl' m Hm Ha. destruct (CollectAll s) as [|m0 l0] eqn:Hl; [by apply CollectAll_nonempty in Hl|].
       destruct (senders_apart clusters j i l' (m0 :: l0) m m0 Hd Hj Hl' Hsi Hm) as (u & v & Hu & Hv & _ & _ & Hne);
         [by left|]. apply Hne. unfold about in Ha. rewrite Hu in Ha. injection Ha as ->.
       destruct (sent_update s m0) as (v' & Hv' & <-); [apply Hsent; by left|]. congruence. }
  pose proof (CollectAll_nonempty s) as Hne. destruct (CollectAll s) as [|m0 l0] eqn:Hl; [done|].
  eexists. split; [reflexivity|]. rewrite <-Hl in *. clear Hl.
  assert (Hempty : pod_at (address s) ∅ = None) by (unfold pod_at; by rewrite lookup_empty).
  rewrite Hempty. split.
  - intros name Hname. by rewrite (pod_values s) by (done || apply CollectAll_sent).
  - by rewrite (pod_message s) by apply CollectAll_sent.
Qed.
End sent.

(** * Remote clusters *)

Section remote.
Context `{Float64} {W : Type} `{HC : ClusterLaws W} (connect : string → result Client).

(** At some point no client could be made for the cluster. *)
Definition unreachable (cd : ClusterDeployment) : Prop :=
  ∃ w w' : W, createAndSendKubeClient connect local_secret cd w = (Ok None, w').

Lemma createAndSend_ok get cd (w : W) c w' :
  createAndSendKubeClient connect get cd w = (Ok (Some c), w') → c.1 = om_Name (cd_meta cd).
Proof.
  unfold createAndSendKubeClient, ecase, eret. destruct (ebind _ _ w) as [[x|e] w1]; [|done].
  by intros [= <- _].
Qed.

Lemma other_loop_complete early processed racing cds (w : W) cs w' cd :
  other_loop connect early processed racing cds w = (Ok cs, w') → cd ∈ cds →
  let name := om_Name (cd_meta cd) in
  name ∈ processed ∨ name ∈ racing ∨ name ∈ cs.*1 ∨ unreachable cd.
Proof.
  revert racing w cs w'. induction cds as [|x r IH]; intros racing w cs w' E Hcd.
  { by apply not_elem_of_nil in Hcd. }
  simpl in E. destruct (_ || _) eqn:Hskip.
  - apply elem_of_cons in Hcd as [->|Hcd]; [|by eapply IH].
    apply orb_true_iff in Hskip as [Hs|Hs]; [left; by apply bool_decide_eq_true_1 in Hs|right; left].
    apply andb_true_iff in Hs as [Hs _]. by apply bool_decide_eq_true_1 in Hs.
  - apply ebind_ok in E as (c & w1 & Ec & E). apply ebind_ok in E as (rest & w2 & Er & E).
    apply eret_ok in E as [<- _]. rewrite fmap_app.
    assert (Hc : c = None ∧ unreachable x ∨ ∃ y, c = Some y ∧ y.1 = om_Name (cd_meta x)).
    { destruct c as [y|]; [right; exists y; split; [done|by eapply createAndSend_ok]|left].
      split; [done|]. by exists w, w1. }
    apply elem_of_cons in Hcd as [->|Hcd].
    + destruct Hc as [[-> Hu]|(y & -> & Hy)]; [by do 3 right|]. do 2 right. left.
      apply elem_of_app. left. rewrite <-Hy. by apply elem_of_cons; left.
    + destruct (IH _ _ _ _ Er Hcd) as [?|[Hr|[?|?]]]; [by left| |do 2 right; left|by do 3 right].
      * apply elem_of_app in Hr as [Hr|Hr]; [by right; left|]. do 2 right. left.
        apply elem_of_app. by left.
      * apply elem_of_app. by right.
Qed.

(** Whatever goroutine is ahead, every cluster deployment that is listed is
    asked, unless no client can be made for it, or another cluster of its name
    is asked. *)
Lemma remote_complete early (w : W) data w1 cs w' cd :
  fetchClusterData w = (Ok data, w1) → cd ∈ data.2 →
  collectRemoteClusterKubeClients connect early w = (Ok cs, w') →
  om_Name (cd_meta cd) ∈ cs.*1 ∨ unreachable cd.
Proof.
  intros Ef Hcd E. unfold collectRemoteClusterKubeClients, ecase in E. rewrite Ef in E.
  destruct data as [[regions creds] clusters]. apply ebind_ok in E as (sent & w2 & Es & E).
  apply ebind_ok in E as (others & w3 & Eo & E). apply eret_ok in E as [<- _].
  rewrite !fmap_app, !elem_of_app.
  destruct (other_loop_complete _ _ _ _ _ _ _ cd Eo Hcd) as [?|[?|[?|?]]]; tauto.
Qed.
End remote.

(** * Examples *)

#[local] Instance demo_float : Float64 :=
  {| float := Z; fzero := 0%Z; fnan := 0%Z; finf := 0%Z; fneginf := 0%Z; parse_float _ := None |}.

Definition demo_vm_pod (name : string) : Pod :=
  {| po_meta := new_meta "kof" name {[VictoriaMetricsLabel := "true"]}; po_Phase := "Running";
     po_PodIP := "10.0.0.2"; po_NodeName := "node";
     po_Containers := [{| co_Name := "vmselect"; co_Ports := [{| cp_Name := "http"; cp_ContainerPort := 8481 |}];
                          co_Env := [];
                          co_Limits := {["cpu" := {| q_MilliValue := 500; q_Value := 1 |}]} |}];
     po_Conditions := [{| pd_Type := "Ready"; pd_Status := "True"; pd_Reason := ""; pd_Message := "" |}] |}.
Definition demo_client : Client :=
  {| kc_Pods _ := Ok [demo_vm_pod "a"; demo_vm_pod "b"];
     kc_Collectors := Ok [];
     kc_Secret name _ := if String.eqb name "ch-kubeconfig" then Ok {["value" := "ch"]}
                         else Err (ENotFound "secret");
     kc_PodMetrics _ _ := Ok [{| cn_Name := "vmselect";
                                 cn_Usage := {["cpu" := {| q_MilliValue := 20; q_Value := 1 |};
                                               "memory" := {| q_MilliValue := 7000; q_Value := 7 |}]} |}];
     kc_NodeMetrics _ := Ok {["cpu" := {| q_MilliValue := 1000; q_Value := 1 |}]};
     kc_Node _ := Ok {["cpu" := {| q_MilliValue := 4000; q_Value := 4 |};
                       "memory" := {| q_MilliValue := 9000; q_Value := 9 |}]};
     kc_Proxy _ _ _ := Err (EText "no answer") |}.
Definition demo_text (_ : string) : result (gmap string MetricFamily) := Ok ∅.
Definition demo_order (A : Type) (m : gmap string A) : list (string * A) := map_to_list m.
Definition demo_remote : list (string * Client) := [("reg", demo_client)].

Lemma demo_distinct : distinct victoria_config ((ManagementClusterName, demo_client) :: demo_remote).
Proof.
  split.
  - apply (bool_decide_eq_true_1 _). vm_compute. reflexivity.
  - intros nc Hnc. assert (Hc : nc.2 = demo_client ∧ nc.1 ≠ "").
    { repeat (apply elem_of_cons in Hnc as [->|Hnc]; [done|]). by apply not_elem_of_nil in Hnc. }
    destruct Hc as [-> Hn]. split; [done|].
    change (collected_resources victoria_config demo_client)
      with [(NewVictoriaResource VictoriaMetricsResource [demo_vm_pod "a"; demo_vm_pod "b"],
             [demo_vm_pod "a"; demo_vm_pod "b"])].
    split; [apply (bool_decide_eq_true_1 _); vm_compute; reflexivity|].
    intros cp ->%list_elem_of_singleton. split; [done|].
    split; [apply (bool_decide_eq_true_1 _); vm_compute; reflexivity|].
    intros p Hp. repeat (apply elem_of_cons in Hp as [->|Hp]; [done|]). by apply not_elem_of_nil in Hp.
Qed.

Definition demo_shown : gmap string ClusterInfo :=
  received (concat (senders demo_text demo_order victoria_config
                      ((ManagementClusterName, demo_client) :: demo_remote))).
Lemma demo_metrics :
  GetMetrics demo_text demo_order victoria_config demo_client demo_remote demo_shown.
Proof. eexists. split; [apply interleaving_concat|done]. Qed.

(** The goroutines of the example in the opposite order. *)
Lemma metrics_deterministic_witness :
  received (concat (reverse (senders demo_text demo_order victoria_config
                               ((ManagementClusterName, demo_client) :: demo_remote)))) = demo_shown.
Proof.
  apply (metrics_deterministic demo_text demo_order victoria_config demo_client demo_remote).
  - apply demo_distinct.
  - eexists. split; [apply interleaving_reverse|reflexivity].
Defined.

(** The pod of the example: its values, and the error of the last collector. *)
Lemma pod_reported_witness :
  ∃ result info,
    GetMetrics demo_text demo_order victoria_config demo_client demo_remote result ∧
    pod_at {| ra_Cluster := "reg"; ra_CustomResource := "VictoriaMetrics"; ra_Pod := "b" |} result
      = Some info ∧
    default [] (pi_Metrics info !! ContainerCPULimit) =
      [{| mv_Labels := ∅; mv_Value := MInt 3020 |}] ∧
    bs_Message (pi_Status info) = "failed to proxy: no answer".
Proof.
  destruct (pod_reported demo_text demo_order victoria_config demo_client demo_remote demo_shown
              ("reg", demo_client)
              (NewVictoriaResource VictoriaMetricsResource [demo_vm_pod "a"; demo_vm_pod "b"],
               [demo_vm_pod "a"; demo_vm_pod "b"])
              (demo_vm_pod "b") demo_distinct) as (info & Hi & Hv & Hm); [..|apply demo_metrics|].
  - right. by left.
  - by left.
  - right. by left.
  - exists demo_shown, info. split_and!; [apply demo_metrics|exact Hi| |exact Hm].
    rewrite Hv by done. reflexivity.
Defined.

(** A KCM region with a child whose secret is in both clusters. *)
Definition demo_kubeconfig_secret (name : string) : Secret :=
  {| se_meta := new_meta "kcm" name ∅; se_Data := {["value" := name]}; se_StringData := ∅ |}.
Definition demo_region_data : cluster_data := λ k,
  match k with
  | KClusterDeployment =>
      keyed [{| cd_meta := new_meta "kcm" "reg"
                  {[KofClusterRoleLabel := KofRoleRegional; KofKcmRegionLabel := "true"]};
                cd_Template := "aws"; cd_Credential := "aws"; cd_Config := None; cd_Region := "" |};
             {| cd_meta := new_meta "kcm" "ch" {[KofClusterRoleLabel := KofRoleChild]};
                cd_Template := "aws"; cd_Credential := "aws"; cd_Config := None; cd_Region := "eu" |}]
  | KRegion => keyed [{| re_meta := new_meta "" "eu" ∅; re_ClusterDeployment := Some ("reg", "kcm");
                         re_KubeConfig := None |}]
  | KSecret => keyed [demo_kubeconfig_secret "reg-kubeconfig"; demo_kubeconfig_secret "ch-kubeconfig"]
  | _ => ∅
  end.
Definition demo_names (early : bool) : option (list string) :=
  match (collectRemoteClusterKubeClients (λ _, Ok demo_client) (λ _, early)
           {| kw_data := demo_region_data; kw_faults := [] |}).1 with
  | Ok cs => Some cs.*1
  | Err _ => None
  end.

(** The child is asked twice when its goroutine has not stored it yet. *)
Lemma race_duplicates :
  demo_names true = Some ["reg"; "ch"] ∧ demo_names false = Some ["reg"; "ch"; "ch"].
Proof. split; vm_compute; reflexivity. Qed.
