(* ===== verification/WebApp.v ===== *)
(** internal/server/handlers: the static files (react_app_handler.go), the
    objects of the API (k8s_objects/, helper.go) and the targets of Prometheus
    (prometheus_handler.go with internal/models/target).

    The replies are what the handlers send on success; the JSON of foreign types
    is a parameter.  Log lines are left out. *)
From S2P Require Import Prelude Strings Env World Kube Server Promxy Api.
From S2P Require Import ColdRows Region Metrics Dashboard.
From Stdlib Require Import Ascii.

Open Scope string_scope.
Open Scope Z_scope.

(** * path.Clean *)

(** The elements kept so far, the last first. *)
Definition clean_step (rooted : bool) (out : list string) (e : string) : list string :=
  if String.eqb e "" || String.eqb e "." then out
  else if String.eqb e ".." then
    match out with
    | x :: r => if String.eqb x ".." then e :: out else r
    | [] => if rooted then [] else [e]
    end
  else e :: out.
Definition clean_elements (rooted : bool) (path : string) : list string :=
  rev (foldl (clean_step rooted) [] (split_char "/"%char path)).
Definition path_Clean (path : string) : string :=
  let rooted := has_prefix "/" path in
  let text := (if rooted then "/" else "") +:+ join "/" (clean_elements rooted path) in
  if String.eqb text "" then "." else text.

(** * react_app_handler.go *)

Definition ReactAppMainFile := "index.html".
Definition has_suffix (suffix s : string) : bool := has_prefix (String.rev suffix) (String.rev s).

Definition getContentType (path : string) : string :=
  if has_suffix ".html" path then "text/html"
  else if has_suffix ".css" path then "text/css"
  else if has_suffix ".js" path then "application/javascript"
  else if has_suffix ".json" path then "application/json"
  else if has_suffix ".png" path then "image/png"
  else if has_suffix ".jpg" path || has_suffix ".jpeg" path then "image/jpeg"
  else if has_suffix ".svg" path then "image/svg+xml"
  else if has_suffix ".ico" path then "image/x-icon"
  else "text/plain".

(** A file of the embedded file system: its text, or a directory. *)
Inductive static_file := SFile (text : string) | SDir.

Section static.
(** [fs.FS.Open]; a missing file is an [ENotFound]. *)
Context (staticFS : string → result static_file).

Definition static_path (url_path : string) : string :=
  let cleaned := path_Clean url_path in
  let filePath := trim_prefix "/" cleaned in
  if String.eqb filePath "" then ReactAppMainFile else filePath.

(** The file that is served: its path, its content type and its text, which
    http.ServeContent sends for a request without a range. *)
Definition serve_file (filePath : string) (file : static_file) : result (string * string * string) :=
  match file with
  | SDir => Err (EText ("requested path is a directory: " +:+ filePath))
  | SFile text => Ok (filePath, getContentType filePath, text)
  end.
Definition serveStaticFile (url_path : string) : result (string * string * string) :=
  let filePath := static_path url_path in
  match staticFS filePath with
  | Ok file => serve_file filePath file
  | Err e =>
      if errors_as is_not_found e then
        try file := flat_err ("failed to open " +:+ ReactAppMainFile +:+ " file")
                      (staticFS ReactAppMainFile) in
        serve_file ReactAppMainFile file
      else Err (EText ("failed to open " +:+ filePath +:+ " file: " +:+ error_text e))
  end.

(** An error is logged only, which leaves an empty reply of status 200. *)
Definition NotFoundHandler : reply :=
  {| rp_status := 404; rp_type := "text/plain"; rp_text := "404 - Page not found" +:+ newline |}.
Definition ReactAppHandler (req : request) : reply :=
  if has_prefix "/api/" (rq_path req) then NotFoundHandler
  else match serveStaticFile (rq_path req) with
       | Ok (_, contentType, text) => {| rp_status := 200; rp_type := contentType; rp_text := text |}
       | Err _ => {| rp_status := 200; rp_type := ""; rp_text := "" |}
       end.
End static.

(** * k8s_objects *)

Definition GetResourcePath (clusterName namespace name : string) : string :=
  if bool_decide (namespace = "") then clusterName +:+ "/" +:+ name
  else clusterName +:+ "/" +:+ namespace +:+ "/" +:+ name.

Section objects.
Context {O : Type} `{Object O}.

Definition getObjectPath (clusterName : string) (obj : O) : string :=
  GetResourcePath clusterName (om_Namespace (om obj)) (om_Name (om obj)).
(** The objects listed, by their paths; [items] is the list call. *)
Definition GetObjectsMap (items : result (list O)) (clusterName : string) : result (gmap string O) :=
  try objectList := flat_err "failed to get objects list" items in
  Ok (foldl (λ m obj, <[getObjectPath clusterName obj := obj]> m) ∅ objectList).

(** [ClusterSummariesHandler]: those of the management cluster and of the
    clusters of the regions whose clients, and lists, could be got; [regions]
    are the names with the list calls of the clients there are. *)
Definition ClusterSummaries (own : result (list O)) (regions : list (string * result (list O)))
    : result (gmap string O) :=
  try clusterSummariesMap := GetObjectsMap own ManagementClusterName in
  Ok (foldl (λ m nr, match GetObjectsMap nr.2 nr.1 with
                     | Ok m' => m' ∪ m
                     | Err _ => m
                     end) clusterSummariesMap regions).
End objects.

(** * Prometheus targets *)

Definition PrometheusEndpoint := "api/v1/targets".
Definition PrometheusReceiverLabel := "k0rdent.mirantis.com/kof-prometheus-receiver".
Definition PrometheusPortAnnotation := "kof.k0rdent.mirantis.com/prometheus-api-server-port".
Definition PrometheusPortName := "api-server".

Section targets.
(** The reply of the API of Prometheus and its decoding. *)
Context `{Float64} {R : Type} (decode_response : string → option R).

(** internal/models/target: clusters, their nodes, their pods. *)
Record Node := { nd_Pods : gmap string R }.
Record TargetCluster := { tc_Nodes : gmap string Node }.

Definition Pods_Add (p : gmap string R) (name : string) (response : R) : gmap string R :=
  <[name := response]> p.
Definition Nodes_FindOrCreate (n : gmap string Node) (name : string) : Node :=
  match n !! name with Some node => node | None => {| nd_Pods := ∅ |} end.
Definition Clusters_FindOrCreate (c : gmap string TargetCluster) (name : string) : TargetCluster :=
  match c !! name with Some cluster => cluster | None => {| tc_Nodes := ∅ |} end.

(** What is found or created is written back with the pod in it. *)
Definition AddPodResponse (t : gmap string TargetCluster) (clusterName nodeName podName : string)
    (podResponse : R) : gmap string TargetCluster :=
  let cluster := Clusters_FindOrCreate t clusterName in
  let node := Nodes_FindOrCreate (tc_Nodes cluster) nodeName in
  <[clusterName := {| tc_Nodes :=
      <[nodeName := {| nd_Pods := Pods_Add (nd_Pods node) podName podResponse |}]>
        (tc_Nodes cluster) |}]> t.
Definition Merge (t target : gmap string TargetCluster) : gmap string TargetCluster := target ∪ t.

Definition getPrometheusPort (pod : Pod) : result string :=
  match om_Annotations (po_meta pod) !! PrometheusPortAnnotation with
  | Some port => Ok port
  | None => ExtractContainerPort pod CollectorContainerName PrometheusPortName
  end.

(** What a pod answers; a pod with an error is left out. *)
Definition pod_response (client : Client) (pod : Pod) : option R :=
  match getPrometheusPort pod with
  | Err _ => None
  | Ok port =>
      match Proxy client pod port PrometheusEndpoint with
      | Err _ => None
      | Ok byteResponse => decode_response byteResponse
      end
  end.
Definition add_pod (client : Client) (clusterName : string) (t : gmap string TargetCluster) (pod : Pod)
    : gmap string TargetCluster :=
  match pod_response client pod with
  | Some r => AddPodResponse t clusterName (po_NodeName pod) (om_Name (po_meta pod)) r
  | None => t
  end.
Definition collectPrometheusTargets (client : Client) (clusterName : string)
    : result (gmap string TargetCluster) :=
  try pods := flat_err "failed to list pods" (kc_Pods client [HasLabels [PrometheusReceiverLabel]]) in
  Ok (foldl (add_pod client clusterName) ∅ pods).

Section handler.
Context {W : Type} `{Cluster W} (connect : string → result Client).

(** The loop over the cluster deployments; one with an error is left out. *)
Fixpoint targets_loop (targets : gmap string TargetCluster) (cds : list ClusterDeployment)
    : eff W (gmap string TargetCluster) :=
  match cds with
  | [] => eret (Ok targets)
  | cd :: r =>
      ecase (do secretName := GetKubeconfigSecretName cd in
             NewKubeClientFromSecret connect local_secret secretName (om_Namespace (cd_meta cd)))
        (λ client, match client with
                   | Err _ => targets_loop targets r
                   | Ok client =>
                       match collectPrometheusTargets client (om_Name (cd_meta cd)) with
                       | Err _ => targets_loop targets r
                       | Ok newTargets => targets_loop (Merge targets newTargets) r
                       end
                   end)
  end.
Definition collectClusterDeploymentsTargets : eff W (gmap string TargetCluster) :=
  ecase GetKofClusterDeployments (λ r,
    match r with Ok cds => targets_loop ∅ cds | Err _ => eret (Ok ∅) end).
Definition collectLocalTargets (client : Client) (targets : gmap string TargetCluster)
    : gmap string TargetCluster :=
  match collectPrometheusTargets client ManagementClusterName with
  | Ok localTargets => Merge targets localTargets
  | Err _ => targets
  end.
Definition PrometheusHandler (client : Client) : eff W (gmap string TargetCluster) :=
  do targets := collectClusterDeploymentsTargets in
  eret (Ok (collectLocalTargets client targets)).
End handler.
End targets.
