(* ===== verification/Mesh.v ===== *)
(** internal/server/handlers: the Istio mesh of the web application
    (istio_mesh_handler.go, istio_endpoints_handler.go,
    istio_remote_secrets_handler.go, types.go).

    What the istiods of a cluster answer is a parameter ([AllDiscoveryDo]), by
    pod, as is the decoding of its JSON.  A range over a map visits it in the
    order [visit] gives.  Log lines are left out. *)
From S2P Require Import Prelude Strings Interleave Env World Kube Server Promxy Api.
From S2P Require Import ColdRows Region Metrics Dashboard.
From Stdlib Require Import Ascii.

Open Scope string_scope.
Open Scope Z_scope.

(** * types.go *)

(** An endpoint of a shard, as far as it is read; a nil slice of addresses is
    [None], and [en_Healthy] is whether its status is the healthy one. *)
Record Endpoint := {
  en_Addresses : option (list string); en_ServiceAccount : string; en_EndpointPort : Z;
  en_Namespace : string; en_WorkloadName : string; en_Healthy : bool }.
Record NamespaceEntry := { ne_Shards : gmap string (list Endpoint) }.
Notation NamespaceMap := (gmap string NamespaceEntry).
Notation IstioMesh := (gmap string (gmap string NamespaceEntry)).

Record ServiceEndpoint := {
  sp_ServiceFQDN : string; sp_Namespace : string; sp_WorkloadName : string;
  sp_Addresses : option (list string); sp_Port : Z; sp_ServiceAccount : string; sp_Healthy : bool }.
Record ConnectedCluster := { kn_ClusterID : string; kn_Services : list ServiceEndpoint }.
Record ClusterConnectivity := {
  kt_SourceCluster : string; kt_SourceClusterNamespace : string;
  kt_ConnectedClusters : list ConnectedCluster }.
Record ClusterEndpoints := { ke_Cluster : string; ke_Endpoints : ClusterConnectivity }.
Record MeshNode := { mn_ID : string; mn_Name : string; mn_Namespace : string; mn_Role : string }.
Record MeshLink := { ml_Source : string; ml_Target : string; ml_SecretName : string }.
Record MeshGraph := { mg_Nodes : gmap string MeshNode; mg_Links : gmap string MeshLink }.
(** [cluster.DebugInfo] of Istio. *)
Record DebugInfo := { di_ID : string; di_SecretName : string; di_SyncStatus : string }.

Definition IstioSystemNamespace := "istio-system".

Section mesh.
Context `{Float64} (visit : ∀ A, gmap string A → list (string * A))
  (decode_infos : string → option (list DebugInfo))
  (decode_mesh : string → option IstioMesh)
  (AllDiscoveryDo : Client → string → result (gmap string string)).

(** * istio_endpoints_handler.go *)

(** The text after the first slash. *)
Definition ShardKeyToClusterID (shardKey : string) : string :=
  match cut_char "/" shardKey with
  | Some (_, clusterID) => clusterID
  | None => shardKey
  end.

Definition service_endpoint (fqdn : string) (ep : Endpoint) : ServiceEndpoint :=
  {| sp_ServiceFQDN := fqdn; sp_Namespace := en_Namespace ep; sp_WorkloadName := en_WorkloadName ep;
     sp_Addresses := en_Addresses ep; sp_Port := en_EndpointPort ep;
     sp_ServiceAccount := en_ServiceAccount ep; sp_Healthy := en_Healthy ep |}.

(** The loops, from the outermost in. *)
Definition add_endpoint (fqdn clusterID : string) (byCluster : gmap string (list ServiceEndpoint))
    (ep : Endpoint) : gmap string (list ServiceEndpoint) :=
  <[clusterID := (default [] (byCluster !! clusterID) ++ [service_endpoint fqdn ep])%list]> byCluster.
Definition add_shard (sourceCluster fqdn : string) (byCluster : gmap string (list ServiceEndpoint))
    (shard : string * list Endpoint) : gmap string (list ServiceEndpoint) :=
  let clusterID := ShardKeyToClusterID shard.1 in
  if bool_decide (clusterID = sourceCluster) then byCluster
  else foldl (add_endpoint fqdn clusterID) byCluster shard.2.
Definition add_entry (sourceCluster fqdn : string) (byCluster : gmap string (list ServiceEndpoint))
    (entry : string * NamespaceEntry) : gmap string (list ServiceEndpoint) :=
  foldl (add_shard sourceCluster fqdn) byCluster (visit (list Endpoint) (ne_Shards entry.2)).
Definition add_service (sourceCluster : string) (byCluster : gmap string (list ServiceEndpoint))
    (service : string * NamespaceMap) : gmap string (list ServiceEndpoint) :=
  foldl (add_entry sourceCluster service.1) byCluster (visit NamespaceEntry service.2).

Definition BuildClusterConnectivity (sourceCluster sourceClusterNamespace : string) (mesh : IstioMesh)
    : ClusterConnectivity :=
  let byCluster := foldl (add_service sourceCluster) ∅ (visit NamespaceMap mesh) in
  {| kt_SourceCluster := sourceCluster; kt_SourceClusterNamespace := sourceClusterNamespace;
     kt_ConnectedClusters :=
       (λ cs : string * list ServiceEndpoint, {| kn_ClusterID := cs.1; kn_Services := cs.2 |})
         <$> visit (list ServiceEndpoint) byCluster |}.

(** The answers of the istiods are merged service by service: a later one
    replaces an earlier. *)
Definition merge_answer (merged : IstioMesh) (data : string * string) : IstioMesh :=
  match decode_mesh data.2 with Some entries => entries ∪ merged | None => merged end.
Definition collectEndpointsFromCluster (client : Client) (clusterName clusterNamespace : string)
    : result ClusterEndpoints :=
  try results := wrap_err ("istio AllDiscoveryDo endpointz for " +:+ clusterName)
                   (AllDiscoveryDo client "debug/endpointz") in
  let merged := foldl merge_answer ∅ (visit string results) in
  Ok {| ke_Cluster := clusterName;
        ke_Endpoints := BuildClusterConnectivity clusterName clusterNamespace merged |}.

(** * The identity of the management cluster *)

(** The first variable of that name, of the containers of the pods in turn. *)
Definition cluster_id_of (pods : list Pod) : string :=
  default "" (snd <$> head (filter (λ e : string * string, e.1 = "CLUSTER_ID")
                              (pods ≫= λ p, po_Containers p ≫= co_Env))).
Definition istiod_options : list ListOption :=
  [InNamespace IstioSystemNamespace; MatchingLabels {["app" := "istiod"]}].
Definition discoverIstioClusterIDUncached (client : Client) : result string :=
  try pods := wrap_err "failed to get Istio pods" (kc_Pods client istiod_options) in
  if bool_decide (length pods = 0%nat) then Err (EText "no Istio pods found")
  else if bool_decide (cluster_id_of pods = "") then
    Err (EText "no Istio pods found with CLUSTER_ID")
  else Ok (cluster_id_of pods).

(** The cache is a string, empty at first; it is passed and returned. *)
Definition discoverIstioClusterID (client : Client) (cache : string) : result string * string :=
  if negb (bool_decide (cache = "")) then (Ok cache, cache)
  else match discoverIstioClusterIDUncached client with
       | Err e => (Err e, cache)
       | Ok clusterID => (Ok clusterID, clusterID)
       end.

(** * istio_mesh_handler.go *)

Definition meshClusterRole (cd : ClusterDeployment) : string :=
  default KofRoleChild (om_Labels (cd_meta cd) !! KofClusterRoleLabel).

(** [sync.Map.LoadOrStore]: the first value stored under a key stays. *)
Definition LoadOrStore {V} (m : gmap string V) (k : string) (v : V) : gmap string V :=
  match m !! k with Some _ => m | None => <[k := v]> m end.
Definition addMeshNode (nodes : gmap string MeshNode) (id namespace role : string)
    : gmap string MeshNode :=
  LoadOrStore nodes id {| mn_ID := id; mn_Name := id; mn_Namespace := namespace; mn_Role := role |}.

(** The name of the secret without its namespace. *)
Definition secret_name (s : string) : string :=
  match cut_char "/" s with Some (_, name) => name | None => s end.
Definition edgeKey (sourceCluster targetCluster : string) : string :=
  sourceCluster +:+ "->" +:+ targetCluster.
(** The link an answer about a cluster gives, with its key. *)
Definition link_of (sourceCluster : string) (info : DebugInfo) : option (string * MeshLink) :=
  if bool_decide (di_SecretName info = "") then None
  else
    let targetCluster := di_ID info in
    if bool_decide (targetCluster = "") || bool_decide (targetCluster = sourceCluster) then None
    else Some (edgeKey sourceCluster targetCluster,
               {| ml_Source := sourceCluster; ml_Target := targetCluster;
                  ml_SecretName := secret_name (di_SecretName info) |}).
Definition links_of (sourceCluster : string) (data : string * string) : list (string * MeshLink) :=
  match decode_infos data.2 with
  | Some infos => omap (link_of sourceCluster) infos
  | None => []
  end.
(** What [collectLinksFromCluster] stores, in its order; after an error, which
    is logged, nothing. *)
Definition collectLinksFromCluster (client : Client) (sourceCluster : string) : list (string * MeshLink) :=
  match AllDiscoveryDo client "debug/clusterz" with
  | Err _ => []
  | Ok results => concat (links_of sourceCluster <$> visit string results)
  end.

(** What a goroutine stores in the maps that all share. *)
Inductive mesh_store := SNode (id namespace role : string) | SLink (key : string) (l : MeshLink).
Definition store (g : MeshGraph) (s : mesh_store) : MeshGraph :=
  match s with
  | SNode id namespace role =>
      {| mg_Nodes := addMeshNode (mg_Nodes g) id namespace role; mg_Links := mg_Links g |}
  | SLink key l => {| mg_Nodes := mg_Nodes g; mg_Links := LoadOrStore (mg_Links g) key l |}
  end.
Definition link_stores (links : list (string * MeshLink)) : list mesh_store :=
  (λ kl : string * MeshLink, SLink kl.1 kl.2) <$> links.

Section graph.
Context {W : Type} `{Cluster W} (connect : string → result Client).

(** The goroutine of a cluster: its node, and its links when it can be
    asked. *)
Definition cluster_stores (cd : ClusterDeployment) : eff W (list mesh_store) :=
  let name := om_Name (cd_meta cd) in
  let node := SNode name (om_Namespace (cd_meta cd)) (meshClusterRole cd) in
  ecase (NewKubeClientFromClusterDeployment connect local_secret cd) (λ client, eret (Ok (node ::
    match client with
    | Ok c => link_stores (collectLinksFromCluster c name)
    | Err _ => []
    end))).
Fixpoint goroutines (cds : list ClusterDeployment) : eff W (list (list mesh_store)) :=
  match cds with
  | [] => eret (Ok [])
  | cd :: r => do ss := cluster_stores cd in
               do rest := goroutines r in
               eret (Ok (ss :: rest))
  end.

(** The graph of the management cluster, and what the goroutines store. *)
Definition mesh_parts (client : Client) (cache : string)
    : eff W (MeshGraph * list (list mesh_store)) :=
  do clusterID := eret (wrap_err "failed to discover Istio cluster ID"
                          (discoverIstioClusterID client cache).1) in
  let own := foldl store {| mg_Nodes := ∅; mg_Links := ∅ |}
    (SNode clusterID "" "management" :: link_stores (collectLinksFromCluster client clusterID)) in
  do cds := ewrap "failed to list ClusterDeployments" GetIstioClusterDeployments in
  do stores := goroutines cds in
  eret (Ok (own, stores)).

(** The stores happen in some interleaving. *)
Definition buildMeshGraph (client : Client) (cache : string) (w : W) (r : result MeshGraph) : Prop :=
  match (mesh_parts client cache w).1 with
  | Err e => r = Err e
  | Ok (own, stores) => ∃ order, interleaving stores order ∧ r = Ok (foldl store own order)
  end.

Definition getIstioEndpoints (client : Client) (cache clusterName clusterNamespace : string)
    : eff W (list ClusterEndpoints) :=
  do clusterID := eret (wrap_err "failed to discover Istio cluster ID"
                          (discoverIstioClusterID client cache).1) in
  do kubeClient :=
    (if bool_decide (clusterName = clusterID) then eret (Ok client)
     else if bool_decide (clusterNamespace = "") then
       eret (Err (EText "missing required query parameter: namespace"))
     else
       do cluster := ecase (GetClusterDeployment clusterName clusterNamespace) (λ r, eret
         match r with
         | Ok cd => Ok cd
         | Err e =>
             if errors_as is_not_found e then
               Err (EText ("cluster " +:+ quote clusterName +:+ " not found in namespace " +:+
                           quote clusterNamespace))
             else Err (EWrap ("failed to get ClusterDeployment for cluster " +:+ quote clusterName) e)
         end) in
       ewrap ("failed to create kube client for cluster " +:+ quote clusterName)
         (NewKubeClientFromClusterDeployment connect local_secret cluster)) in
  do ce := eret (wrap_err ("failed to collect Istio endpoints for cluster " +:+ quote clusterName)
                   (collectEndpointsFromCluster kubeClient clusterName clusterNamespace)) in
  eret (Ok [ce]).
End graph.

(** * istio_remote_secrets_handler.go *)

Record RemoteSecret := {
  rx_Name : string; rx_Namespace : string; rx_SyncStatus : string; rx_ClusterName : string }.

Definition remote_secret (info : DebugInfo) : option RemoteSecret :=
  if bool_decide (di_SecretName info = "") then None
  else match cut_char "/" (di_SecretName info) with
       | None => None
       | Some (namespace, name) =>
           Some {| rx_Name := name; rx_Namespace := namespace; rx_SyncStatus := di_SyncStatus info;
                   rx_ClusterName := di_ID info |}
       end.
Fixpoint parse_answers (answers : list string) : result (list RemoteSecret) :=
  match answers with
  | [] => Ok []
  | bytes :: r =>
      match decode_infos bytes with
      | None => Err (EText "failed to parse istio cluster statuses")
      | Some parsed => try rest := parse_answers r in Ok (omap remote_secret parsed ++ rest)%list
      end
  end.
Definition ParseIstioSecretsStatus (istioRes : gmap string string) : result (list RemoteSecret) :=
  parse_answers (visit string istioRes).*2.
End mesh.
