(* ===== verification/WebFacts.v ===== *)
(** Facts about the other pages of the web application: static files stay below
    the root, objects have paths of their own, every target that answers is
    shown, and so is every endpoint of another cluster. *)
From S2P Require Import Prelude Strings Interleave Env World Kube Server ServerFacts Promxy Api.
From S2P Require Import ColdRows Region Metrics Dashboard WebApp Mesh.
From Stdlib Require Import Ascii.

Open Scope string_scope.

(** * Static files *)

(** A proper element of a path. *)
Definition path_element (e : string) : Prop :=
  e ≠ "" ∧ e ≠ "." ∧ e ≠ ".." ∧ char_free "/" e = true.

Lemma split_char_char_free c s : Forall (λ e, char_free c e = true) (split_char c s).
Proof.
  induction s as [|a s IH]; simpl; [by repeat constructor|].
  destruct (Ascii.eqb a c) eqn:Ha; [by constructor|].
  destruct (split_char c s) as [|h t]; [by constructor; [simpl; by rewrite Ha|]|].
  apply Forall_cons in IH as [Hh Ht]. constructor; [|done]. simpl. by rewrite Ha.
Qed.

Lemma clean_step_rooted out e :
  Forall path_element out → char_free "/" e = true → Forall path_element (clean_step true out e).
Proof.
  intros Ho He. unfold clean_step.
  destruct (String.eqb_spec e ""); [done|]. destruct (String.eqb_spec e "."); [done|]. simpl.
  destruct (String.eqb_spec e "..") as [->|Hn]; [|by constructor].
  destruct out as [|x r]; [done|]. apply Forall_cons in Ho as [Hx Hr].
  destruct (String.eqb_spec x "..") as [->|_]; [|done]. by destruct Hx as (_ & _ & ? & _).
Qed.

Lemma clean_elements_rooted path : Forall path_element (clean_elements true path).
Proof.
  unfold clean_elements. apply Forall_rev.
  assert (Hs := split_char_char_free "/" path). revert Hs.
  assert (Hn : Forall path_element []) by constructor. revert Hn. generalize (@nil string).
  induction (split_char "/" path) as [|e l IH]; intros out Ho Hl; [done|]. simpl.
  apply Forall_cons in Hl as [He Hl]. apply IH; [|done]. by apply clean_step_rooted.
Qed.

Lemma join_nonempty l : Forall path_element l → l ≠ [] → join "/" l ≠ "".
Proof.
  intros Hl Hn. destruct l as [|x [|y r]]; [done|..]; apply Forall_cons in Hl as [(Hx & _) _]; [done|].
  by destruct x.
Qed.

(** The path of the file for a rooted path of a URL is made of proper elements
    only. *)
Lemma static_path_elements url_path :
  has_prefix "/" url_path = true → Forall path_element (split_char "/" (static_path url_path)).
Proof.
  intros Hp. pose proof (clean_elements_rooted url_path) as Hl. unfold static_path, path_Clean.
  rewrite Hp. simpl.
  change (("/" +:+ join "/" (clean_elements true url_path)) =? "")%string with false. cbn beta iota.
  set (l := clean_elements true url_path) in *.
  assert (Ht : trim_prefix "/" ("/" +:+ join "/" l) = join "/" l).
  { unfold trim_prefix. by rewrite (proj2 (cut_prefix_Some "/" ("/" +:+ join "/" l) (join "/" l))). }
  cbv zeta. rewrite Ht. destruct (decide (l = [])) as [->|Hn].
  - simpl. by repeat constructor.
  - destruct (String.eqb_spec (join "/" l) "") as [He|_]; [by apply join_nonempty in He|].
    rewrite split_join; [done..|]. eapply Forall_impl; [exact Hl|]. by intros e (_ & _ & _ & ?).
Qed.

(** Whatever the path of the request is, the file that is served is one of the
    file system, by a path without "..", or the main page. *)
Lemma static_confined staticFS url_path filePath contentType text :
  has_prefix "/" url_path = true →
  serveStaticFile staticFS url_path = Ok (filePath, contentType, text) →
  Forall path_element (split_char "/" filePath) ∧ staticFS filePath = Ok (SFile text) ∧
  contentType = getContentType filePath.
Proof.
  intros Hp E. pose proof (static_path_elements _ Hp) as Hs. unfold serveStaticFile in E.
  assert (Hf : ∀ path file, Forall path_element (split_char "/" path) → staticFS path = Ok file →
    serve_file path file = Ok (filePath, contentType, text) →
    Forall path_element (split_char "/" filePath) ∧ staticFS filePath = Ok (SFile text) ∧
    contentType = getContentType filePath).
  { intros path [t|] Hpath Hopen; [|done]. intros Hserve. unfold serve_file in Hserve.
    injection Hserve as <- <- <-. done. }
  destruct (staticFS (static_path url_path)) as [file|e] eqn:Ho; [by eapply Hf|].
  destruct (errors_as is_not_found e); [|done]. apply rbind_ok in E as (file & Hm & E).
  destruct (staticFS ReactAppMainFile) as [f|e'] eqn:Hmain; [|done]. injection Hm as ->.
  apply (Hf ReactAppMainFile file); [by repeat constructor|done..].
Qed.

Example static_examples :
  static_path "/" = "index.html" ∧ static_path "/assets/../../etc/passwd" = "etc/passwd" ∧
  static_path "/a//b/./c/../d.js" = "a/b/d.js".
Proof. done. Qed.

(** * Paths of objects *)

(** Names without slashes give paths of their own. *)
Lemma GetResourcePath_inj c ns n c' ns' n' :
  Forall (λ s, char_free "/" s = true) [c; ns; n; c'; ns'; n'] →
  GetResourcePath c ns n = GetResourcePath c' ns' n' → c = c' ∧ ns = ns' ∧ n = n'.
Proof.
  intros Hf. repeat (apply Forall_cons in Hf as [? Hf]). intros E.
  assert (Hs : ∀ c ns n, char_free "/" c = true → char_free "/" ns = true → char_free "/" n = true →
    split_char "/" (GetResourcePath c ns n) = if bool_decide (ns = "") then [c; n] else [c; ns; n]).
  { intros x y z Hx Hy Hz. unfold GetResourcePath. case_bool_decide.
    - change (x +:+ "/" +:+ z) with (join "/" [x; z]). rewrite split_join; [done..|]. by repeat constructor.
    - change (x +:+ "/" +:+ y +:+ "/" +:+ z) with (join "/" [x; y; z]).
      rewrite split_join; [done..|]. by repeat constructor. }
  apply (f_equal (split_char "/")) in E. rewrite !Hs in E by done.
  do 2 case_bool_decide; by simplify_eq.
Qed.

(** * Prometheus targets *)

Section targets.
Context `{Float64} {R : Type} (decode_response : string → option R).

(** What is shown of a pod. *)
Definition target_at (t : gmap string (TargetCluster (R := R))) (cluster node pod : string) : option R :=
  t !! cluster ≫= λ c, tc_Nodes c !! node ≫= λ n, nd_Pods n !! pod.

Lemma target_at_add t c n p r c' n' p' :
  target_at (AddPodResponse t c n p r) c' n' p' =
    if decide ((c, n, p) = (c', n', p')) then Some r else target_at t c' n' p'.
Proof.
  unfold target_at, AddPodResponse, Clusters_FindOrCreate, Nodes_FindOrCreate, Pods_Add.
  destruct (decide (c = c')) as [<-|Hc].
  2: { rewrite lookup_insert_ne, decide_False by congruence. done. }
  rewrite lookup_insert_eq. cbn [option_bind mbind tc_Nodes].
  destruct (decide (n = n')) as [<-|Hn].
  2: { rewrite lookup_insert_ne, decide_False by congruence. by destruct (t !! c). }
  rewrite lookup_insert_eq. cbn [option_bind mbind nd_Pods].
  destruct (decide (p = p')) as [<-|Hp].
  - by rewrite lookup_insert_eq, decide_True.
  - rewrite lookup_insert_ne, decide_False by congruence. destruct (t !! c) as [cl|]; [|done]. simpl.
    by destruct (tc_Nodes cl !! n).
Qed.

(** The last answer of the pods of that node and name. *)
Lemma target_at_pods client name pods t c n p :
  target_at (foldl (add_pod decode_response client name) t pods) c n p =
    match last (omap (λ pod, if decide ((name, po_NodeName pod, om_Name (po_meta pod)) = (c, n, p))
                             then pod_response decode_response client pod else None) pods) with
    | Some r => Some r
    | None => target_at t c n p
    end.
Proof.
  revert t. induction pods as [|pod pods IH]; intros t; simpl; [done|]. rewrite IH.
  unfold add_pod. destruct (pod_response decode_response client pod) as [r|].
  - rewrite target_at_add. destruct (decide (_ = _)); simpl; [|done].
    change (list_omap Pod R ?f pods) with (omap f pods). rewrite last_cons. by case_match.
  - by destruct (decide (_ = _)).
Qed.

(** Every pod that answers is shown, and only under its cluster. *)
Lemma targets_shown client name pods t pod :
  kc_Pods client [HasLabels [PrometheusReceiverLabel]] = Ok pods →
  collectPrometheusTargets decode_response client name = Ok t →
  NoDup ((λ p, om_Name (po_meta p)) <$> pods) → pod ∈ pods →
  target_at t name (po_NodeName pod) (om_Name (po_meta pod)) = pod_response decode_response client pod ∧
  ∀ c, c ≠ name → t !! c = None.
Proof.
  intros Hk E Hn Hpod. unfold collectPrometheusTargets in E. rewrite Hk in E. simpl in E.
  injection E as <-. split.
  - rewrite target_at_pods. 
    assert (Hl : omap (λ p, if decide ((name, po_NodeName p, om_Name (po_meta p)) =
                                        (name, po_NodeName pod, om_Name (po_meta pod)))
                             then pod_response decode_response client p else None) pods =
                 option_list (pod_response decode_response client pod)).
    { apply list_elem_of_lookup in Hpod as (i & Hi). rewrite <-(take_drop_middle _ _ _ Hi), omap_app.
      assert (Hnone : ∀ l, (∀ p, p ∈ l → om_Name (po_meta p) ≠ om_Name (po_meta pod)) →
        omap (λ p, if decide ((name, po_NodeName p, om_Name (po_meta p)) =
                              (name, po_NodeName pod, om_Name (po_meta pod)))
                   then pod_response decode_response client p else None) l = []).
      { induction l as [|x l IH]; intros Hx; [done|]. simpl.
        rewrite decide_False by (intros [= _ He]; by apply (Hx x); [left|]).
        apply IH. intros p Hp. apply Hx. by right. }
      assert (Hd : ∀ j p, j ≠ i → pods !! j = Some p → om_Name (po_meta p) ≠ om_Name (po_meta pod)).
      { intros j p Hj Hp He. apply Hj. eapply (NoDup_lookup _ _ _ (om_Name (po_meta pod)) Hn);
          rewrite list_lookup_fmap; [rewrite Hp|rewrite Hi]; simpl; congruence. }
      rewrite Hnone. 2: { intros p (j & Hj)%list_elem_of_lookup.
        assert (j < i)%nat by (apply lookup_lt_Some in Hj; rewrite length_take in Hj; lia).
        rewrite lookup_take_lt in Hj by done. apply (Hd j); [lia|done]. }
      simpl. rewrite decide_True by done. change (list_omap Pod R ?f ?l) with (omap f l). rewrite Hnone.
      - by destruct (pod_response decode_response client pod).
      - intros p (j & Hj)%list_elem_of_lookup. rewrite lookup_drop in Hj. apply (Hd (S i + j)%nat); [lia|done]. }
    rewrite Hl. destruct (pod_response decode_response client pod); [done|].
    unfold target_at. by rewrite lookup_empty.
  - intros c Hc. clear -Hc. assert (Ht : (∅ : gmap string (TargetCluster (R := R))) !! c = None) by apply lookup_empty.
    revert Ht. generalize (∅ : gmap string (TargetCluster (R := R))).
    induction pods as [|p pods IH]; intros t Ht; [done|]. simpl. apply IH. unfold add_pod.
    destruct (pod_response decode_response client p); [|done]. unfold AddPodResponse.
    by rewrite lookup_insert_ne.
Qed.
End targets.

(** * Endpoints of other clusters *)

Section connectivity.
Context (visit : ∀ A, gmap string A → list (string * A)).

(** Every endpoint of the mesh with the cluster its shard is of. *)
Definition mesh_endpoints (mesh : IstioMesh) : list (string * ServiceEndpoint) :=
  visit _ mesh ≫= λ service, visit _ service.2 ≫= λ entry, visit _ (ne_Shards entry.2) ≫= λ shard,
  (λ ep, (ShardKeyToClusterID shard.1, service_endpoint service.1 ep)) <$> shard.2.

Definition add_pair (sourceCluster : string) (m : gmap string (list ServiceEndpoint))
    (x : string * ServiceEndpoint) : gmap string (list ServiceEndpoint) :=
  if bool_decide (x.1 = sourceCluster) then m else <[x.1 := (default [] (m !! x.1) ++ [x.2])%list]> m.

Lemma foldl_bind {A B C} (f : C → B → C) (g : C → A → C) (h : A → list B) l c :
  (∀ c x, g c x = foldl f c (h x)) → foldl g c l = foldl f c (l ≫= h).
Proof.
  intros Hg. revert c. induction l as [|x l IH]; intros c; [done|]. simpl. by rewrite foldl_app, <-Hg, IH.
Qed.

Lemma byCluster_eq source mesh m :
  foldl (add_service visit source) m (visit _ mesh) = foldl (add_pair source) m (mesh_endpoints mesh).
Proof.
  apply foldl_bind. intros m1 service. unfold add_service. apply foldl_bind. intros m2 entry.
  unfold add_entry. apply foldl_bind. intros m3 shard. unfold add_shard.
  case_bool_decide as Hs.
  - induction shard.2 as [|ep eps IH]; [done|]. simpl. unfold add_pair at 2. simpl.
    by rewrite bool_decide_eq_true_2.
  - revert m3. induction shard.2 as [|ep eps IH]; intros m3; [done|]. simpl. rewrite IH. f_equal.
    unfold add_pair. simpl. by rewrite bool_decide_eq_false_2.
Qed.

Definition of_cluster (clusterID : string) (l : list (string * ServiceEndpoint)) : list ServiceEndpoint :=
  snd <$> filter (λ x, x.1 = clusterID) l.

Lemma lookup_add_pairs source l m id :
  foldl (add_pair source) m l !! id =
    if decide (id = source) then m !! id
    else match of_cluster id l with [] => m !! id | es => Some (default [] (m !! id) ++ es)%list end.
Proof.
  revert m. induction l as [|[k e] l IH]; intros m; simpl.
  { by destruct (decide (id = source)). }
  rewrite IH. unfold add_pair, of_cluster. simpl. rewrite filter_cons. simpl.
  destruct (decide (id = source)) as [->|Hs].
  { case_bool_decide; [done|]. by rewrite lookup_insert_ne. }
  destruct (decide (k = id)) as [->|Hk].
  - rewrite bool_decide_eq_false_2, lookup_insert_eq by done. cbn [fmap list_fmap].
    destruct (snd <$> filter (λ x : string * ServiceEndpoint, x.1 = id) l); simpl; [done|].
    by rewrite <-app_assoc.
  - case_bool_decide; [done|]. by rewrite lookup_insert_ne.
Qed.

(** The connected clusters are those with endpoints other than the source
    itself, once each, with all their endpoints. *)
Lemma connectivity_complete source namespace mesh :
  (∀ A (m : gmap string A), visit A m ≡ₚ map_to_list m) →
  let c := BuildClusterConnectivity visit source namespace mesh in
  NoDup (kn_ClusterID <$> kt_ConnectedClusters c) ∧
  ∀ k, k ∈ kt_ConnectedClusters c ↔
    kn_ClusterID k ≠ source ∧ kn_Services k = of_cluster (kn_ClusterID k) (mesh_endpoints mesh) ∧
    kn_Services k ≠ [].
Proof.
  intros Hv c. unfold c, BuildClusterConnectivity. cbn [kt_ConnectedClusters].
  rewrite byCluster_eq. set (m := foldl _ _ _). split.
  - rewrite <-list_fmap_compose. rewrite (Hv _ m). apply NoDup_fst_map_to_list.
  - intros k. rewrite list_elem_of_fmap. 
    assert (Hm : ∀ id l, m !! id = Some l ↔
      id ≠ source ∧ l = of_cluster id (mesh_endpoints mesh) ∧ l ≠ []).
    { intros id l. unfold m. rewrite lookup_add_pairs, lookup_empty. simpl.
      destruct (decide (id = source)) as [->|Hne]; [naive_solver|].
      destruct (of_cluster id (mesh_endpoints mesh)); naive_solver. }
    split.
    + intros ([id l] & -> & Hin). rewrite (Hv _ m) in Hin. apply elem_of_map_to_list, Hm in Hin as (? & ? & ?).
      done.
    + intros (Hs & He & Hn). exists (kn_ClusterID k, kn_Services k). split; [by destruct k|].
      rewrite (Hv _ m). apply elem_of_map_to_list, Hm. done.
Qed.
End connectivity.

(** * Links *)

Section links.
Context (decode_infos : string → option (list DebugInfo)).

(** Links go from the cluster asked to another one. *)
Definition proper_link (key : string) (l : MeshLink) : Prop :=
  key = edgeKey (ml_Source l) (ml_Target l) ∧ ml_Source l ≠ ml_Target l ∧ ml_Target l ≠ "".

Lemma LoadOrStore_keeps {V} (P : string → V → Prop) (m : gmap string V) k v :
  map_Forall P m → P k v → map_Forall P (LoadOrStore m k v).
Proof.
  intros Hm Hv. unfold LoadOrStore. destruct (m !! k); [done|]. by apply map_Forall_insert_2.
Qed.
Lemma LoadOrStore_first {V} (m : gmap string V) k v k' v' :
  m !! k' = Some v' → LoadOrStore m k v !! k' = Some v'.
Proof.
  intros Hk. unfold LoadOrStore. destruct (m !! k) eqn:Hm; [done|].
  rewrite lookup_insert_ne; [done|]. by intros ->; rewrite Hk in Hm.
Qed.

Lemma foldl_keeps {A B} (P : A → Prop) (Q : B → Prop) (f : A → B → A) l a :
  (∀ a x, P a → Q x → P (f a x)) → Forall Q l → P a → P (foldl f a l).
Proof.
  intros Hf Hl. revert a. induction Hl as [|x l Hx Hl IH]; intros a Ha; [done|]. by apply IH, Hf.
Qed.

Definition proper_store (s : mesh_store) : Prop :=
  match s with SNode _ _ _ => True | SLink key l => proper_link key l end.

(** What is collected of a cluster: proper links from it. *)
Lemma collected_link visit AllDiscoveryDo `{Float64} client source kl :
  kl ∈ collectLinksFromCluster visit decode_infos AllDiscoveryDo client source →
  proper_link kl.1 kl.2 ∧ ml_Source kl.2 = source.
Proof.
  unfold collectLinksFromCluster. destruct (AllDiscoveryDo client _); [|by intros ?%not_elem_of_nil].
  intros (l & Hl & Hkl)%elem_of_concat. apply list_elem_of_fmap in Hl as (data & -> & _).
  unfold links_of in Hkl. destruct (decode_infos data.2); [|by apply not_elem_of_nil in Hkl].
  apply list_elem_of_omap in Hkl as (info & _ & Hi). unfold link_of in Hi. case_bool_decide; [done|].
  destruct (_ || _) eqn:Ho; [done|]. injection Hi as <-.
  apply orb_false_iff in Ho as [Ht%bool_decide_eq_false_1 Hs%bool_decide_eq_false_1].
  split; [|done]. by split_and!; [|intros ?|].
Qed.

Lemma links_proper visit AllDiscoveryDo `{Float64} client source :
  Forall proper_store
    (link_stores (collectLinksFromCluster visit decode_infos AllDiscoveryDo client source)).
Proof.
  apply Forall_forall. intros s (kl & -> & Hkl)%list_elem_of_fmap.
  exact (proj1 (collected_link _ _ _ _ _ Hkl)).
Qed.

(** ** The graph *)

(** What a store stores under. *)
Definition store_key (s : mesh_store) : string + string :=
  match s with SNode id _ _ => inl id | SLink key _ => inr key end.

Lemma LoadOrStore_commute {V} (m : gmap string V) k k' v v' :
  k ≠ k' → LoadOrStore (LoadOrStore m k v) k' v' = LoadOrStore (LoadOrStore m k' v') k v.
Proof.
  intros Hk. unfold LoadOrStore.
  destruct (m !! k) eqn:E, (m !! k') eqn:E'; rewrite ?E, ?E'; try done.
  - by rewrite lookup_insert_ne, E by done.
  - by rewrite lookup_insert_ne, E' by done.
  - rewrite !lookup_insert_ne, E, E' by done. by apply insert_insert_ne.
Qed.

Lemma store_commute g s s' : store_key s ≠ store_key s' → store (store g s) s' = store (store g s') s.
Proof.
  intros Hk. destruct s, s'; simpl in *; try done; f_equal; apply LoadOrStore_commute; congruence.
Qed.

Lemma edgeKey_inj a b t u :
  char_free ">" a = true → char_free ">" b = true → edgeKey a t = edgeKey b u → a = b ∧ t = u.
Proof.
  assert (Hx : ∀ x t, edgeKey x t = (x +:+ "-") +:+ String ">" t).
  { intros x y. unfold edgeKey. change ("->" +:+ y) with ("-" +:+ String ">" y).
    by rewrite <-string_app_assoc. }
  rewrite !Hx. intros Ha Hb [Hab <-]%string_app_inj_sep; [|by rewrite char_free_app, ?Ha, ?Hb..].
  split; [|done]. by apply (string_app_inj_len a b "-" "-") in Hab as [-> _].
Qed.

(** The stores of a cluster are under its name, or lead from it. *)
Definition stores_of (name : string) (ss : list mesh_store) : Prop :=
  Forall (λ s, store_key s = inl name ∨ ∃ target, store_key s = inr (edgeKey name target)) ss.

Lemma link_stores_of visit AllDiscoveryDo `{Float64} client source :
  stores_of source (link_stores (collectLinksFromCluster visit decode_infos AllDiscoveryDo client source)).
Proof.
  apply Forall_forall. intros s (kl & -> & Hkl)%list_elem_of_fmap.
  destruct (collected_link _ _ _ _ _ Hkl) as [[Hk _] Hs]. right. exists (ml_Target kl.2). simpl. by rewrite Hk, Hs.
Qed.

Section graph.
Context `{Float64} (visit : ∀ A, gmap string A → list (string * A))
  (AllDiscoveryDo : Client → string → result (gmap string string))
  {W : Type} `{HC : ClusterLaws W} (connect : string → result Client).

Lemma goroutines_stores cds (w : W) ss w' :
  goroutines visit decode_infos AllDiscoveryDo connect cds w = (Ok ss, w') →
  Forall2 (λ cd s, stores_of (om_Name (cd_meta cd)) s) cds ss.
Proof.
  revert w ss w'. induction cds as [|cd r IH]; intros w ss w' E; simpl in E.
  { apply eret_ok in E as [<- _]. constructor. }
  apply ebind_ok in E as (s & w1 & Es & E). apply ebind_ok in E as (rest & w2 & Er & E).
  apply eret_ok in E as [<- _]. constructor; [|by eapply IH].
  unfold cluster_stores, ecase, eret in Es. destruct (NewKubeClientFromClusterDeployment _ _ _ _) as [[c|e] w3];
    injection Es as <- _; (constructor; [by left|]); [|constructor].
  exact (link_stores_of visit AllDiscoveryDo c _).
Qed.

Lemma stores_commuting (names : list string) ss :
  NoDup names → Forall (λ n, char_free ">" n = true) names → Forall2 stores_of names ss →
  commuting store ss.
Proof.
  intros Hn Hf Hs i j l l' x y Hij Hi Hj Hx Hy g. apply store_commute.
  destruct (Forall2_lookup_r _ _ _ _ _ Hs Hi) as (n & Hni & Hl).
  destruct (Forall2_lookup_r _ _ _ _ _ Hs Hj) as (n' & Hnj & Hl').
  assert (Hne : n ≠ n') by (intros ->; by apply Hij, (NoDup_lookup _ _ _ _ Hn Hni)).
  apply (proj1 (Forall_forall _ _) Hl) in Hx. apply (proj1 (Forall_forall _ _) Hl') in Hy.
  pose proof (proj1 (Forall_lookup _ _) Hf _ _ Hni). pose proof (proj1 (Forall_lookup _ _) Hf _ _ Hnj).
  destruct Hx as [->|[t ->]], Hy as [->|[u ->]]; intros [= He]; [done|].
  by apply edgeKey_inj in He as [? _].
Qed.

(** The graph does not depend on the order of the goroutines when no two
    clusters have one name. *)
Lemma mesh_deterministic client cache (w : W) own stores w' g :
  mesh_parts visit decode_infos AllDiscoveryDo connect client cache w = (Ok (own, stores), w') →
  (∀ (v : W) cds v', GetIstioClusterDeployments v = (Ok cds, v') →
     NoDup (om_Name ∘ cd_meta <$> cds) ∧ Forall (λ cd, char_free ">" (om_Name (cd_meta cd)) = true) cds) →
  buildMeshGraph visit decode_infos AllDiscoveryDo connect client cache w (Ok g) →
  g = foldl store own (concat stores).
Proof.
  intros E Hcds. unfold buildMeshGraph. rewrite E. intros (order & Hi & [= ->]).
  apply interleaving_foldl; [done|]. unfold mesh_parts in E.
  apply ebind_ok in E as (id & w1 & _ & E). apply ebind_ok in E as (cds & w2 & Ec & E).
  apply ebind_ok in E as (ss & w3 & Es & E). apply eret_ok in E as [[= <- <-] _].
  apply goroutines_stores in Es.
  assert (∃ e, GetIstioClusterDeployments w1 = (Ok cds, e)) as (v' & Ev).
  { unfold ewrap in Ec. destruct (GetIstioClusterDeployments w1) as [[x|e] v']; [|done].
    injection Ec as <- _. eauto. }
  destruct (Hcds _ _ _ Ev) as [Hn Hf].
  apply (stores_commuting (om_Name ∘ cd_meta <$> cds)); [done|by apply Forall_fmap|].
  by apply Forall2_fmap_l.
Qed.
End graph.
End links.

(** The answer of another istiod about a service replaces the first: its
    namespace is lost. *)
Lemma answers_overwrite :
  let entry := {| ne_Shards := ∅ |} in
  let decode (text : string) : option IstioMesh :=
    Some {["svc" := {[text := entry]}]} in
  (λ ns : NamespaceMap, (map_to_list ns).*1) <$>
    foldl (merge_answer decode) ∅ [("istiod-1", "a"); ("istiod-2", "b")] !! "svc" = Some ["b"].
Proof. vm_compute. reflexivity. Qed.
