(* ===== verification/Pages.v ===== *)
(** The pages of the web application: internal/server/server.go (SendObj), the
    handlers of internal/server/handlers with the JSON of what they send, and
    the routes and middleware of cmd/main.go.

    encoding/json has no text for a float that is not a number: [render_float]
    is [None] there.  The JSON of types of other projects is a parameter.  A
    handler that collects concurrently is the relation of its replies. *)
From S2P Require Import Prelude Strings Json Interleave Env World Kube Server AclServer Promxy Api.
From S2P Require Import ColdRows Region Metrics Dashboard WebApp Mesh.

Open Scope string_scope.
Open Scope Z_scope.

Definition BasicInternalErrorMessage := "Something went wrong".
(** The text of the object, if it has one. *)
Definition SendObj (jsonResponse : option string) (code : Z) : reply :=
  match jsonResponse with
  | Some text => SendJson text code
  | None => Fail BasicInternalErrorMessage 500
  end.
Definition internal_error : reply := Fail BasicInternalErrorMessage 500.

(** * JSON *)

(** A struct, a slice and a map whose parts may have no text. *)
Definition json_fields (fs : list (string * option string)) : option string :=
  struct_text <$> mapM (λ f : string * option string, (λ t, (f.1, t)) <$> f.2) fs.
Definition json_list {A} (f : A → option string) (l : list A) : option string :=
  (λ ts, "[" +:+ join "," ts +:+ "]") <$> mapM f l.
Definition json_map {A} (f : A → option string) (m : gmap string A) : option string :=
  if bool_decide (map_Forall (λ _ v, is_Some (f v)) m) then Some (render_object (omap f m)) else None.
Definition json_string (s : string) : option string := Some (marshal_string s).
(** Members with [omitempty]. *)
Definition omit_empty (k s : string) : list (string * option string) :=
  if bool_decide (s = "") then [] else [(k, json_string s)].
Definition omit_empty_map {A} (k : string) (f : A → option string) (m : gmap string A)
    : list (string * option string) :=
  if bool_decide (size m = 0%nat) then [] else [(k, json_map f m)].

Section pages.
Context `{Float64} (render_float : float → option string).

(** ** The tree of metrics *)

Definition value_json (v : metric_value) : option string :=
  match v with
  | MString s => json_string s
  | MInt n => Some (itoa n)
  | MFloat f => render_float f
  end.
Definition metric_json (v : MetricValue) : option string :=
  json_fields (omit_empty_map "labels" json_string (mv_Labels v) ++ [("value", value_json (mv_Value v))])%list.
Definition status_fields (b : BaseResourceStatus) : list (string * option string) :=
  (omit_empty "name" (bs_Name b) ++ omit_empty "message" (bs_Message b) ++
   omit_empty "type" (bs_MessageType b))%list.
Definition pod_json (p : PodInfo) : option string :=
  json_fields (status_fields (pi_Status p) ++
               omit_empty_map "metrics" (json_list metric_json) (pi_Metrics p))%list.
Definition resource_json (c : CustomResourceInfo) : option string :=
  json_fields (status_fields (ci_Status c) ++ omit_empty_map "pods" pod_json (ci_Pods c))%list.
Definition cluster_json (c : ClusterInfo) : option string :=
  json_fields (status_fields (cl_Status c) ++
               omit_empty_map "customResource" resource_json (cl_CustomResources c))%list.
Definition metrics_json (clusters : gmap string ClusterInfo) : option string :=
  json_fields [("clusters", json_map cluster_json clusters)].

(** ** The mesh *)

Definition json_bool (b : bool) : option string := Some (format_bool b).
Definition nullable {A} (f : A → option string) (x : option A) : option string :=
  match x with Some y => f y | None => Some "null" end.
Definition node_json (n : MeshNode) : option string :=
  json_fields [("id", json_string (mn_ID n)); ("name", json_string (mn_Name n));
               ("namespace", json_string (mn_Namespace n)); ("role", json_string (mn_Role n))].
Definition link_json (l : MeshLink) : option string :=
  json_fields [("source", json_string (ml_Source l)); ("target", json_string (ml_Target l));
               ("secretName", json_string (ml_SecretName l))].
Definition endpoint_json (e : ServiceEndpoint) : option string :=
  json_fields [("serviceFqdn", json_string (sp_ServiceFQDN e)); ("namespace", json_string (sp_Namespace e));
               ("workloadName", json_string (sp_WorkloadName e));
               ("addresses", nullable (json_list json_string) (sp_Addresses e));
               ("port", Some (itoa (sp_Port e))); ("serviceAccount", json_string (sp_ServiceAccount e));
               ("healthy", json_bool (sp_Healthy e))].
Definition connected_json (c : ConnectedCluster) : option string :=
  json_fields [("clusterId", json_string (kn_ClusterID c));
               ("services", json_list endpoint_json (kn_Services c))].
Definition endpoints_json (e : ClusterEndpoints) : option string :=
  let c := ke_Endpoints e in
  json_fields [("cluster", json_string (ke_Cluster e));
               ("endpoints", json_fields
                  [("sourceCluster", json_string (kt_SourceCluster c));
                   ("sourceClusterNamespace", json_string (kt_SourceClusterNamespace c));
                   ("connectedClusters", json_list connected_json (kt_ConnectedClusters c))])].
Definition secret_json (s : RemoteSecret) : option string :=
  json_fields [("name", json_string (rx_Name s)); ("namespace", json_string (rx_Namespace s));
               ("syncStatus", json_string (rx_SyncStatus s));
               ("clusterName", json_string (rx_ClusterName s))].
(** The slice of the secrets is nil when there is none. *)
Definition secrets_json (l : list RemoteSecret) : option string :=
  json_fields [("secrets", match l with [] => Some "null" | _ => json_list secret_json l end)].

Section json_visit.
Context (visit : ∀ A, gmap string A → list (string * A)).
Definition graph_json (g : MeshGraph) : option string :=
  json_fields [("nodes", json_list node_json (visit MeshNode (mg_Nodes g)).*2);
               ("links", json_list link_json (visit MeshLink (mg_Links g)).*2)].
End json_visit.

(** ** Targets and objects *)

Section foreign.
Context {R : Type} (response_json : R → option string).
Definition target_node_json (n : Node (R := R)) : option string :=
  json_fields [("pods", json_map response_json (nd_Pods n))].
Definition target_cluster_json (c : TargetCluster (R := R)) : option string :=
  json_fields [("nodes", json_map target_node_json (tc_Nodes c))].
Definition targets_json (t : gmap string (TargetCluster (R := R))) : option string :=
  json_fields [("clusters", json_map target_cluster_json t)].
Definition objects_json {O} (object_json : O → option string) (items : gmap string O) : option string :=
  json_fields [("items", json_map object_json items)].
End foreign.

(** * Handlers *)

(** The kinds of objects listed by a handler of their own. *)
Inductive object_kind :=
  | ServiceSets | ClusterDeployments | MultiClusterServices | SveltosClusters
  | StateManagementProviders.

Section handlers.
Context (visit : ∀ A, gmap string A → list (string * A))
  (TextToMetricFamilies : string → result (gmap string MetricFamily))
  (parse_selector : string → result (gmap string string → bool))
  (decode_infos : string → option (list DebugInfo)) (decode_mesh : string → option IstioMesh)
  (AllDiscoveryDo : Client → string → result (gmap string string))
  {R : Type} (decode_response : string → option R) (response_json : R → option string)
  {O : Type} `{Object O} (list_objects : object_kind → result (list O))
  (list_summaries : Client → result (list O))
  (** Managed fields are no part of the JSON. *)
  (object_json : O → option string)
  (staticFS : string → result static_file)
  {W : Type} `{Cluster W} (connect : string → result Client).

(** Without the remote clusters when they cannot be listed. *)
Definition remote_clients (early : ClusterDeployment → bool) (w : W) : list (string * Client) :=
  match (collectRemoteClusterKubeClients connect early w).1 with Ok cs => cs | Err _ => [] end.
Definition metrics_page (cfg : MetricsConfig) (client : Client) (w : W) (r : reply) : Prop :=
  ∃ early clusters,
    GetMetrics TextToMetricFamilies visit cfg client (remote_clients early w) clusters ∧
    r = SendObj (metrics_json clusters) 200.
Definition CollectorHandler (localClient : Client) (w : W) (r : reply) : Prop :=
  metrics_page (collector_config parse_selector) localClient w r.
(** [newClient] is what [k8s.NewClient] gives. *)
Definition VictoriaHandler (newClient : result Client) (w : W) (r : reply) : Prop :=
  match newClient with
  | Err _ => r = internal_error
  | Ok client => metrics_page victoria_config client w r
  end.

Definition targets_page (newClient : result Client) (w : W) : reply :=
  match newClient with
  | Err _ => internal_error
  | Ok client =>
      match (PrometheusHandler decode_response connect client w).1 with
      | Ok targets => SendObj (targets_json response_json targets) 200
      | Err _ => internal_error
      end
  end.

Definition IstioMeshHandler (localClient : Client) (cache : string) (w : W) (r : reply) : Prop :=
  ∃ graph, buildMeshGraph visit decode_infos AllDiscoveryDo connect localClient cache w graph ∧
    r = match graph with
        | Ok g => SendObj (graph_json visit g) 200
        | Err _ => internal_error
        end.
Definition IstioMeshEndpointsHandler (localClient : Client) (cache : string) (req : request) (w : W)
    : reply :=
  let clusterNamespace := v_get (Query req) "namespace" in
  let clusterName := v_get (Query req) "cluster" in
  if bool_decide (clusterName = "") then Fail "missing required query parameter: cluster" 400
  else match (getIstioEndpoints visit decode_mesh AllDiscoveryDo connect localClient cache
                clusterName clusterNamespace w).1 with
       | Ok graph => SendObj (json_fields [("endpoints", json_list endpoints_json graph)]) 200
       | Err _ => internal_error
       end.
Definition IstioRemoteSecretsHandler (localClient : Client) : reply :=
  match AllDiscoveryDo localClient "debug/clusterz" with
  | Err _ => internal_error
  | Ok istioRes =>
      match ParseIstioSecretsStatus visit decode_infos istioRes with
      | Ok result => SendObj (secrets_json result) 200
      | Err _ => internal_error
      end
  end.

Definition K8sObjectsHandler (kind : object_kind) : reply :=
  match GetObjectsMap (list_objects kind) ManagementClusterName with
  | Ok objectsMap => SendObj (objects_json object_json objectsMap) 200
  | Err _ => internal_error
  end.
(** The lists of the regions' clusters that have a client. *)
Fixpoint region_summaries (cds : list ClusterDeployment) : eff W (list (string * result (list O))) :=
  match cds with
  | [] => eret (Ok [])
  | cluster :: r =>
      ecase (NewKubeClientFromClusterDeployment connect local_secret cluster) (λ client,
        do rest := region_summaries r in
        eret (Ok match client with
                 | Ok c => (om_Name (cd_meta cluster), list_summaries c) :: rest
                 | Err _ => rest
                 end))
  end.
Definition ClusterSummariesHandler (localClient : Client) (w : W) : reply :=
  match GetObjectsMap (list_summaries localClient) ManagementClusterName with
  | Err _ => internal_error
  | Ok _ =>
      match (do regionClusters := GetKcmRegionClusters in region_summaries regionClusters) w with
      | (Err _, _) => internal_error
      | (Ok regions, _) =>
          match ClusterSummaries (list_summaries localClient) regions with
          | Ok items => SendObj (objects_json object_json items) 200
          | Err _ => internal_error
          end
      end
  end.

(** * cmd/main.go *)

(** The handlers by name. *)
Inductive page :=
  | PReact | PTargets | PMesh | PEndpoints | PSecrets | PCollectors | PVictoria
  | PObjects (kind : object_kind) | PSummaries | PNotFound.

Definition kof_table : list (string * string * page) :=
  [("GET", "/*", PReact);
   ("GET", "/assets/*", PReact);
   ("GET", "/api/targets", PTargets);
   ("GET", "/api/istio/mesh", PMesh);
   ("GET", "/api/istio/endpoints", PEndpoints);
   ("GET", "/api/istio/secrets", PSecrets);
   ("GET", "/api/collectors/metrics", PCollectors);
   ("GET", "/api/victoria/metrics", PVictoria);
   ("GET", "/api/service-sets", PObjects ServiceSets);
   ("GET", "/api/cluster-deployments", PObjects ClusterDeployments);
   ("GET", "/api/cluster-summaries", PSummaries);
   ("GET", "/api/multi-cluster-services", PObjects MultiClusterServices);
   ("GET", "/api/sveltos-clusters", PObjects SveltosClusters);
   ("GET", "/api/state-management-providers", PObjects StateManagementProviders)].

(** What a handler may answer. *)
Definition kof_answer (localClient : Client) (newClient : result Client) (cache : string)
    (req : request) (w : W) (p : page) (r : reply) : Prop :=
  match p with
  | PReact => r = ReactAppHandler staticFS req
  | PTargets => r = targets_page newClient w
  | PMesh => IstioMeshHandler localClient cache w r
  | PEndpoints => r = IstioMeshEndpointsHandler localClient cache req w
  | PSecrets => r = IstioRemoteSecretsHandler localClient
  | PCollectors => CollectorHandler localClient w r
  | PVictoria => VictoriaHandler newClient w r
  | PObjects kind => r = K8sObjectsHandler kind
  | PSummaries => r = ClusterSummariesHandler localClient w
  | PNotFound => r = NotFoundHandler
  end.
End handlers.
End pages.

(** The handler of a request; [visit] orders the routes of a method. *)
Definition kof_route (visit : gmap string page → list (string * page)) (req : request) : page :=
  match findHandler visit (add_routes kof_table) (rq_method req) (rq_path req) with
  | Some (_, p) => p
  | None => PNotFound
  end.

(** SpanNameMiddleware and LoggingMiddleware only report.  There is no
    authentication. *)
Definition kof_middleware (enableServerCORS : bool) : list Middleware :=
  (RecoveryMiddleware :: if enableServerCORS then [CORSMiddleware None] else [])%list.
Definition kof_server (enableServerCORS : bool) (r : reply) : Handler :=
  Chain (λ _ _, replies r) (kof_middleware enableServerCORS).
