(* ===== verification/PageFacts.v ===== *)
(** Facts about the pages: the metrics page is there unless some value shown
    is not a number, and every path has one handler whatever the order of the
    routes. *)
From S2P Require Import Prelude Strings Json Interleave Env World Kube Server ServerFacts AclServer AclFacts Promxy Api.
From S2P Require Import VMUser ColdRows Region ConfigData Child Demo Metrics Dashboard DashboardFacts WebApp Mesh Pages.

Open Scope string_scope.

(** * JSON that cannot be made *)

Lemma mapM_None {A B} (f : A → option B) (l : list A) :
  mapM f l = None ↔ ∃ x, x ∈ l ∧ f x = None.
Proof.
  split.
  - intros Hm%mapM_None_1. apply Exists_exists in Hm as (x & Hx & Hf). eauto.
  - intros (x & Hx & Hf). apply mapM_None_2, Exists_exists. eauto.
Qed.

Lemma json_fields_None fs : json_fields fs = None ↔ ∃ k, (k, None) ∈ fs.
Proof.
  unfold json_fields. rewrite fmap_None, mapM_None. split.
  - intros ([k v] & Hx & Hv). exists k. by destruct v.
  - intros (k & Hk). by exists (k, None).
Qed.
Lemma json_list_None {A} (f : A → option string) l : json_list f l = None ↔ ∃ x, x ∈ l ∧ f x = None.
Proof. unfold json_list. by rewrite fmap_None, mapM_None. Qed.
Lemma json_map_None {A} (f : A → option string) m :
  json_map f m = None ↔ ∃ k v, m !! k = Some v ∧ f v = None.
Proof.
  unfold json_map. case_bool_decide as Hm.
  - split; [done|]. intros (k & v & Hk & Hv). apply Hm in Hk as [t Ht]. congruence.
  - split; [|done]. intros _. apply map_not_Forall in Hm as (k & v & Hk & Hv); [|intros; apply _].
    exists k, v. split; [done|]. by rewrite eq_None_not_Some.
Qed.
Lemma omit_empty_None k s k' : (k', None) ∈ omit_empty k s ↔ False.
Proof. unfold omit_empty. case_bool_decide; set_solver. Qed.
Lemma omit_empty_map_None {A} k (f : A → option string) m :
  (∃ k', (k', None) ∈ omit_empty_map k f m) ↔ ∃ x v, m !! x = Some v ∧ f v = None.
Proof.
  unfold omit_empty_map. rewrite <-json_map_None. case_bool_decide as Hs.
  - apply map_size_empty_iff in Hs as ->. split; [by intros (? & ?%not_elem_of_nil)|done].
  - split.
    + intros (k' & Hk). apply elem_of_cons in Hk as [[= _ ->]|Hk]; [done|by apply not_elem_of_nil in Hk].
    + intros Hj. exists k. rewrite Hj. by left.
Qed.

Section pages.
Context `{Float64} (render_float : float → option string).

Definition no_number (v : MetricValue) : Prop :=
  match mv_Value v with MFloat f => render_float f = None | _ => False end.

Lemma status_fields_None b k : (k, None) ∈ status_fields b ↔ False.
Proof. unfold status_fields. rewrite !elem_of_app, !omit_empty_None. tauto. Qed.

Lemma fields_None b k (A : Type) (f : A → option string) m :
  json_fields (status_fields b ++ omit_empty_map k f m)%list = None ↔ ∃ x v, m !! x = Some v ∧ f v = None.
Proof.
  rewrite json_fields_None, <-omit_empty_map_None.
  setoid_rewrite elem_of_app. setoid_rewrite status_fields_None. naive_solver.
Qed.

Lemma metric_json_None v : metric_json render_float v = None ↔ no_number v.
Proof.
  unfold metric_json. rewrite json_fields_None. unfold no_number, value_json.
  split.
  - intros (k & Hk). apply elem_of_app in Hk as [Hk|Hk].
    + assert (Hl : ∃ k', (k', None) ∈ omit_empty_map "labels" json_string (mv_Labels v)) by eauto.
      apply omit_empty_map_None in Hl as (? & ? & _ & ?). done.
    + apply list_elem_of_singleton in Hk as [= _ Hn]. by destruct (mv_Value v).
  - intros Hv. exists "value". apply elem_of_app. right. apply list_elem_of_singleton.
    destruct (mv_Value v); [done..|by rewrite Hv].
Qed.

(** ** Where there is no number *)

Definition pod_bad (p : PodInfo) : Prop :=
  ∃ name vs, pi_Metrics p !! name = Some vs ∧ ∃ v, v ∈ vs ∧ no_number v.
Definition resource_bad (c : CustomResourceInfo) : Prop := ∃ k p, ci_Pods c !! k = Some p ∧ pod_bad p.
Definition cluster_bad (c : ClusterInfo) : Prop :=
  ∃ k r, cl_CustomResources c !! k = Some r ∧ resource_bad r.
Definition tree_bad (cm : gmap string ClusterInfo) : Prop := ∃ k c, cm !! k = Some c ∧ cluster_bad c.

Lemma metrics_json_None cm : metrics_json render_float cm = None ↔ tree_bad cm.
Proof.
  assert (Hp : ∀ p, pod_json render_float p = None ↔ pod_bad p).
  { intros p. unfold pod_json. rewrite fields_None. unfold pod_bad. by setoid_rewrite json_list_None;
      setoid_rewrite metric_json_None. }
  assert (Hr : ∀ c, resource_json render_float c = None ↔ resource_bad c).
  { intros c. unfold resource_json. rewrite fields_None. by setoid_rewrite Hp. }
  assert (Hc : ∀ c, cluster_json render_float c = None ↔ cluster_bad c).
  { intros c. unfold cluster_json. rewrite fields_None. by setoid_rewrite Hr. }
  unfold metrics_json. rewrite json_fields_None. unfold tree_bad. setoid_rewrite <-Hc.
  rewrite <-json_map_None. split.
  - intros (k & Hk). by apply list_elem_of_singleton in Hk as [= _ ->].
  - intros Hj. exists "clusters". rewrite Hj. by left.
Qed.
(** ** What the messages put there *)

Lemma change_exists {V} (P : V → Prop) (Q : Prop) (new : string → V) (f : V → V) k (m : gmap string V) :
  (∀ v, P (f v) ↔ P v ∨ Q) → ¬ P (new k) →
  (∃ x v, change new f k m !! x = Some v ∧ P v) ↔ (∃ x v, m !! x = Some v ∧ P v) ∨ Q.
Proof.
  intros Hf Hn. setoid_rewrite lookup_change. split.
  - intros (x & v & Hx & Hv). destruct (decide (k = x)) as [<-|Hne]; [|eauto].
    injection Hx as <-. apply Hf in Hv as [Hv|Hv]; [left|by right].
    destruct (m !! k) as [y|] eqn:Hk; [by exists k, y|done].
  - intros [(x & v & Hx & Hv)|HQ].
    + destruct (decide (k = x)) as [<-|Hne].
      * exists k, (f v). rewrite decide_True by done. rewrite Hx. split; [done|]. apply Hf. by left.
      * exists x, v. by rewrite decide_False.
    + exists k. eexists. rewrite decide_True by done. split; [reflexivity|]. apply Hf. by right.
Qed.

(** A metric that has a name, with a value that is not a number. *)
Definition bad_metric (u : MetricData + StatusMessage) : Prop :=
  match u with
  | inl d => mm_Name d ≠ "" ∧ ∃ v, mm_Value d = Some v ∧ no_number v
  | inr _ => False
  end.

Lemma pod_bad_in_metrics u p :
  pod_bad (in_metrics u p) ↔ pod_bad p ∨ bad_metric u.
Proof.
  destruct u as [d|s]; [|unfold pod_bad; simpl; tauto]. unfold pod_bad, bad_metric. simpl.
  case_bool_decide as Hn; [tauto|]. destruct (mm_Value d) as [v|].
  2: { split; [tauto|]. intros [?|(_ & v & [=] & _)]; done. }
  split.
  - intros (name & vs & Hl & x & Hx & Hb). destruct (decide (mm_Name d = name)) as [<-|Hne].
    + rewrite lookup_insert_eq in Hl. injection Hl as <-. apply elem_of_app in Hx as [Hx|Hx].
      * left. destruct (pi_Metrics p !! mm_Name d) as [old|] eqn:Ho; [by eauto 8|by apply not_elem_of_nil in Hx].
      * apply list_elem_of_singleton in Hx as ->. right. eauto.
    + rewrite lookup_insert_ne in Hl by done. left. eauto 8.
  - intros [(name & vs & Hl & x & Hx & Hb)|(_ & x & [= <-] & Hb)].
    + destruct (decide (mm_Name d = name)) as [<-|Hne].
      * exists (mm_Name d). eexists. rewrite lookup_insert_eq. split; [reflexivity|]. exists x.
        split; [|done]. rewrite Hl. apply elem_of_app. by left.
      * exists name, vs. rewrite lookup_insert_ne by done. eauto.
    + exists (mm_Name d). eexists. rewrite lookup_insert_eq. split; [reflexivity|]. exists v.
      split; [|done]. apply elem_of_app. right. by left.
Qed.

Lemma resource_bad_in_resource u c :
  resource_bad (in_resource u c) ↔
  resource_bad c ∨ (ra_Pod (update_address u) ≠ "" ∧ bad_metric u).
Proof.
  assert (Hn : ∀ k, ¬ pod_bad (new_pod k)) by (by intros k (? & ? & ? & _)).
  assert (Hc : ∀ pm : gmap string PodInfo,
    ra_Pod (update_address u) ≠ "" →
    (∃ x p, in_pods u pm !! x = Some p ∧ pod_bad p) ↔ (∃ x p, pm !! x = Some p ∧ pod_bad p) ∨ bad_metric u).
  { intros pm Hne. rewrite in_pods_change, bool_decide_eq_false_2 by done.
    apply change_exists; [intros p; apply pod_bad_in_metrics|done]. }
  unfold resource_bad. destruct u as [d|s]; simpl in *.
  - destruct (decide (ra_Pod (mm_Address d) = "")) as [He|Hne]; [|rewrite Hc by done; tauto].
    rewrite bool_decide_eq_true_2 by done. tauto.
  - case_bool_decide; simpl; [tauto|]. rewrite Hc by done. tauto.
Qed.

Lemma cluster_bad_in_cluster u c :
  cluster_bad (in_cluster u c) ↔
  cluster_bad c ∨ (ra_CustomResource (update_address u) ≠ "" ∧ ra_Pod (update_address u) ≠ "" ∧ bad_metric u).
Proof.
  assert (Hn : ∀ k, ¬ resource_bad (new_custom_resource k)) by (by intros k (? & ? & ? & _)).
  assert (Hr : ∀ r, resource_bad (in_resource u r) ↔
            resource_bad r ∨ (ra_Pod (update_address u) ≠ "" ∧ bad_metric u)).
  { apply resource_bad_in_resource. }
  assert (Hc : ∀ crm : gmap string CustomResourceInfo,
    ra_CustomResource (update_address u) ≠ "" →
    (∃ x r, in_resources u crm !! x = Some r ∧ resource_bad r) ↔
    (∃ x r, crm !! x = Some r ∧ resource_bad r) ∨ (ra_Pod (update_address u) ≠ "" ∧ bad_metric u)).
  { intros crm Hne. rewrite in_resources_change, bool_decide_eq_false_2 by done. by apply change_exists. }
  unfold cluster_bad. destruct u as [d|s]; simpl in *.
  - destruct (decide (ra_CustomResource (mm_Address d) = "")) as [He|Hne]; [|rewrite Hc by done; tauto].
    rewrite bool_decide_eq_true_2 by done. tauto.
  - case_bool_decide; simpl; [tauto|]. rewrite Hc by done. tauto.
Qed.

(** A metric of a pod, as it is sent. *)
Definition shows_no_number (m : ResourceMessage) : Prop :=
  match update_of m with
  | Some u => full (update_address u) ∧ bad_metric u
  | None => False
  end.

Lemma receive_bad cm m u :
  update_of m = Some u → tree_bad (receive cm m) ↔ tree_bad cm ∨ shows_no_number m.
Proof.
  intros Hu. rewrite (receive_update _ _ _ Hu), in_clusters_change.
  unfold shows_no_number. rewrite Hu. unfold tree_bad, full. case_bool_decide as Hc; [tauto|].
  rewrite (change_exists cluster_bad _ _ _ _ _ (cluster_bad_in_cluster u)); [tauto|].
  by intros (? & ? & ? & _).
Qed.

Lemma received_bad l :
  Forall (λ m, is_Some (update_of m)) l →
  tree_bad (received l) ↔ ∃ m, m ∈ l ∧ shows_no_number m.
Proof.
  intros Hl. unfold received.
  assert (Hg : ∀ cm, tree_bad (foldl receive cm l) ↔ tree_bad cm ∨ ∃ m, m ∈ l ∧ shows_no_number m).
  { induction Hl as [|m l [u Hu] Hl IH]; intros cm; simpl.
    - split; [by left|]. intros [?|(m & ?%not_elem_of_nil & _)]; done.
    - rewrite IH, (receive_bad _ _ _ Hu). setoid_rewrite elem_of_cons. naive_solver. }
  rewrite Hg. split; [|by right]. intros [(k & c & Hk & _)|?]; [|done]. by rewrite lookup_empty in Hk.
Qed.

Section page.
Context (visit : ∀ A, gmap string A → list (string * A))
  (TextToMetricFamilies : string → result (gmap string MetricFamily))
  {W : Type} `{HC : ClusterLaws W} (connect : string → result Client).
Notation senders := (senders TextToMetricFamilies visit).
Notation metrics_page := (metrics_page render_float visit TextToMetricFamilies connect).

(** Everything that is sent is about one metric or one status. *)
Lemma senders_updates cfg clusters l m :
  l ∈ senders cfg clusters → m ∈ l → is_Some (update_of m).
Proof.
  intros Hl Hm. apply elem_of_concat in Hl as (ls & Hls & Hl). apply list_elem_of_fmap in Hls as (nc & -> & _).
  apply elem_of_cons in Hl as [->|Hl].
  - apply elem_of_concat in Hm as (l' & Hl' & Hm). apply list_elem_of_fmap in Hl' as (cp & -> & _).
    unfold status_messages in Hm. destruct (ir_Status cp.1); [|by apply not_elem_of_nil in Hm].
    apply list_elem_of_singleton in Hm as ->. done.
  - apply elem_of_concat in Hl as (l' & Hl' & Hl). apply list_elem_of_fmap in Hl' as (cp & -> & _).
    apply list_elem_of_fmap in Hl as (pod & -> & _).
    eapply Forall_forall in Hm; [|apply CollectAll_sent]. destruct (sent_update _ _ Hm) as (u & -> & _). eauto.
Qed.

(** C30: A page of metrics is sent exactly when every value some collector has
    sent is a number.  One that is not, from one pod of one cluster, makes the
    page of all clusters an internal error. *)
Theorem page_needs_numbers cfg client (w : W) r :
  metrics_page cfg client w r →
  ∃ early,
    let messages := concat (senders cfg ((ManagementClusterName, client) ::
                                         remote_clients connect early w)) in
    (∃ m, m ∈ messages ∧ shows_no_number m) ∧ r = internal_error ∨
    (¬ ∃ m, m ∈ messages ∧ shows_no_number m) ∧ rp_status r = 200%Z ∧ rp_type r = "application/json".
Proof.
  intros (early & clusters & (messages & Hi & ->) & ->). exists early. intros all.
  assert (Hall : ∀ m, m ∈ messages ↔ m ∈ all).
  { intros m. unfold all. rewrite elem_of_concat. split.
    - intros Hm. destruct (interleaving_elem _ _ _ Hi Hm) as (l & ? & ?). eauto.
    - intros (l & Hl & Hm). by eapply interleaving_all. }
  assert (Hu : Forall (λ m, is_Some (update_of m)) messages).
  { apply Forall_forall. intros m Hm. apply Hall, elem_of_concat in Hm as (l & Hm & Hl).
    by eapply senders_updates. }
  apply received_bad in Hu. setoid_rewrite <-Hall. rewrite <-Hu, <-metrics_json_None.
  destruct (metrics_json render_float _); [right|left]; done.
Qed.
End page.
End pages.

(** * Routes *)

Section routes.
Context (visit : gmap string page → list (string * page))
  (visit_ok : ∀ m, visit m ≡ₚ map_to_list m).

(** A path of the table has its handler. *)
Lemma kof_route_known req p :
  (rq_method req, rq_path req, p) ∈ kof_table → kof_route visit req = p.
Proof.
  intros Hin. unfold kof_route.
  assert (Hm : add_routes kof_table !! rq_method req ≫= (λ rs : gmap string page, rs !! rq_path req) = Some p).
  { repeat (apply elem_of_cons in Hin as [[= -> -> ->]|Hin]; [vm_compute; reflexivity|]).
    by apply not_elem_of_nil in Hin. }
  unfold findHandler. destruct (add_routes kof_table !! rq_method req) as [rs|]; [|done].
  simpl in Hm. by rewrite Hm.
Qed.

Lemma wildcard_route :
  add_routes kof_table !! "GET" ≫= (λ rs : gmap string page, rs !! "/*") = Some PReact.
Proof. vm_compute. reflexivity. Qed.

(** Any other path has the application, and other methods have nothing. *)
Lemma kof_route_other req :
  (∀ p, (rq_method req, rq_path req, p) ∉ kof_table) →
  kof_route visit req =
    if bool_decide (rq_method req = "GET") && isWildcardMatch "/*" (rq_path req) then PReact else PNotFound.
Proof.
  intros Hno. unfold kof_route.
  destruct (findHandler visit (add_routes kof_table) (rq_method req) (rq_path req)) as [[k p]|] eqn:Ef.
  - apply findHandler_elem in Ef as [Hin Hk]; [|done].
    destruct Hk as [->|Hk]; [by apply Hno in Hin|].
    assert (Hl : literal k = false).
    { destruct (literal k) eqn:E; [|done]. apply literal_match in Hk as ->; [|done]. by apply Hno in Hin. }
    assert (Hw : ∀ path, isWildcardMatch "/assets/*" path = true → isWildcardMatch "/*" path = true).
    { intros path. rewrite !match_cases. change (is_open "/assets/*") with true. change (is_open "/*") with true.
      cbn iota. destruct (parts path) as [|[|? ?] r]; [done| |done]. done. }
    repeat (apply elem_of_cons in Hin as [[= Hm -> ->]|Hin];
      [try discriminate Hl; rewrite bool_decide_eq_true_2 by done; by rewrite ?Hk, ?(Hw _ Hk)|]).
    by apply not_elem_of_nil in Hin.
  - case_bool_decide as Hm; [|done]. destruct (isWildcardMatch "/*" (rq_path req)) eqn:Hw; [|done].
    exfalso. revert Ef. unfold findHandler. rewrite Hm.
    pose proof wildcard_route as Hr. destruct (add_routes kof_table !! "GET") as [rs|]; [|discriminate Hr].
    simpl in Hr. destruct (rs !! rq_path req) eqn:Ep; [done|].
    assert (Hin : ("/*", PReact) ∈ filter (λ kv, isWildcardMatch kv.1 (rq_path req) = true) (visit rs)).
    { apply list_elem_of_filter. split; [done|]. rewrite visit_ok. by apply elem_of_map_to_list. }
    by destruct (filter _ _); [apply not_elem_of_nil in Hin|].
Qed.

(** A path below /api/ that is not in the table is not found. *)
Lemma unknown_api_not_found staticFS req :
  has_prefix "/api/" (rq_path req) = true → (∀ p, (rq_method req, rq_path req, p) ∉ kof_table) →
  kof_route visit req = PNotFound ∨
  kof_route visit req = PReact ∧ ReactAppHandler staticFS req = NotFoundHandler.
Proof.
  intros Hp Hno. rewrite kof_route_other by done. destruct (_ && _); [right|by left].
  split; [done|]. unfold ReactAppHandler. by rewrite Hp.
Qed.
End routes.

(** * Example: one sample that is not a number *)

#[local] Existing Instance demo_float.
(** The zero of the example stands for what is not a number. *)
Definition demo_render (f : Z) : option string := if bool_decide (f = 0%Z) then None else Some (pretty f).
Definition demo_family : MetricFamily :=
  {| mf_Type := GAUGE;
     mf_Metric := [{| mt_Label := []; mt_Counter := 0%Z; mt_Gauge := 0%Z; mt_HistogramSum := 0%Z;
                      mt_SummarySum := 0%Z; mt_Untyped := 0%Z |}] |}.
Definition demo_nan (_ : string) : result (gmap string MetricFamily) := Ok {["vm_load" := demo_family]}.
Definition demo_exposing : Client :=
  {| kc_Pods := kc_Pods demo_client; kc_Collectors := Ok []; kc_Secret := kc_Secret demo_client;
     kc_PodMetrics := kc_PodMetrics demo_client; kc_NodeMetrics := kc_NodeMetrics demo_client;
     kc_Node := kc_Node demo_client; kc_Proxy _ _ _ := Ok "vm_load NaN" |}.
Definition demo_alone : kworld cluster_data := {| kw_data := λ _, ∅; kw_faults := [] |}.
Definition demo_all : list ResourceMessage :=
  concat (senders demo_nan demo_order victoria_config [(ManagementClusterName, demo_exposing)]).

Lemma demo_no_remote early : remote_clients (λ _, Ok demo_client) early demo_alone = [].
Proof. vm_compute. reflexivity. Qed.
Lemma demo_page :
  metrics_page demo_render demo_order demo_nan (λ _, Ok demo_client) victoria_config
    demo_exposing demo_alone (SendObj (metrics_json demo_render (received demo_all)) 200).
Proof.
  exists (λ _, true), (received demo_all). split; [|reflexivity]. rewrite demo_no_remote.
  exact (ex_intro _ demo_all (conj (interleaving_concat _) eq_refl)).
Qed.

(** The page, of which everything else is a number, is an internal error. *)
Lemma page_needs_numbers_witness :
  ∃ r, metrics_page demo_render demo_order demo_nan (λ _, Ok demo_client) victoria_config
         demo_exposing demo_alone r ∧ rp_status r = 500%Z.
Proof.
  eexists. split; [apply demo_page|].
  destruct (page_needs_numbers (H := demo_float) demo_render demo_order demo_nan (λ _, Ok demo_client) victoria_config
              demo_exposing demo_alone _ demo_page) as (early & [[_ ->]|[Hno _]]); [reflexivity|].
  exfalso. apply Hno. rewrite demo_no_remote.
  eexists. split; [apply (list_elem_of_lookup_2 _ 5); vm_compute; reflexivity|].
  unfold shows_no_number, full, bad_metric. cbn. split_and!; try done. eexists. done.
Defined.
