(* ===== verification/GoHeap.v ===== *)
(** Memory of Go as far as copies of data need it: a heap of cells, the types
    of data, what a value means at a type, and the steps that functions named
    DeepCopyInto are made of.  A copier is deep when the value it returns means
    the same in the part of the heap that the copying has added.

    A slice is a reference to the list of its elements; two slices that overlap
    without being equal are left out.  An interface value is compared as it is,
    without following what it refers to. *)
From S2P Require Import Prelude Strings.

Open Scope string_scope.

(** * Values, cells and types *)

Notation loc := positive.

Inductive val :=
  | VInt (n : Z) | VStr (s : string) | VBool (b : bool)
  | VNil | VRef (l : loc)
  | VStruct (fields : gmap string val).

(** What a reference refers to: the target of a pointer, the elements of a
    slice, the entries of a map. *)
Inductive cell := CVal (v : val) | CSlice (vs : list val) | CMap (entries : gmap string val).

Notation heap := (gmap loc cell).

Inductive gotype :=
  | Scalar | Any
  | Ptr (t : gotype) | Slice (t : gotype) | MapOf (t : gotype)
  | Struct (fields : list (string * gotype)).

Section gotype_ind.
Context (P : gotype → Prop) (Hscalar : P Scalar) (Hany : P Any)
  (Hptr : ∀ t, P t → P (Ptr t)) (Hslice : ∀ t, P t → P (Slice t)) (Hmap : ∀ t, P t → P (MapOf t))
  (Hstruct : ∀ fields, Forall (λ x, P x.2) fields → P (Struct fields)).

Fixpoint gotype_rect' (t : gotype) : P t :=
  match t with
  | Scalar => Hscalar
  | Any => Hany
  | Ptr t => Hptr t (gotype_rect' t)
  | Slice t => Hslice t (gotype_rect' t)
  | MapOf t => Hmap t (gotype_rect' t)
  | Struct fields => Hstruct fields
      ((fix go l : Forall (λ x : string * gotype, P x.2) l :=
          match l with
          | [] => Forall_nil_2 _
          | x :: r => Forall_cons_2 _ x r (gotype_rect' x.2) (go r)
          end) fields)
  end.
End gotype_ind.

(** * Meaning *)

(** What a value is without its addresses. *)
Inductive meaning :=
  | MVal (v : val)
  | MNil
  | MPtr (m : meaning)
  | MSlice (ms : list meaning)
  | MMap (ms : gmap string meaning)
  | MStruct (ms : list (string * meaning)).

Definition is_scalar (v : val) : bool :=
  match v with VInt _ | VStr _ | VBool _ => true | _ => false end.

(** Every entry has a meaning, or the map has none. *)
Definition read_entries (f : val → option meaning) (m : gmap string val) : option (gmap string meaning) :=
  if decide (map_Forall (λ _ v, is_Some (f v)) m) then Some (omap f m) else None.

Fixpoint read (t : gotype) (h : heap) (v : val) : option meaning :=
  match t with
  | Scalar => if is_scalar v then Some (MVal v) else None
  | Any => Some (MVal v)
  | Ptr t => match v with
             | VNil => Some MNil
             | VRef l => match h !! l with Some (CVal v) => MPtr <$> read t h v | _ => None end
             | _ => None
             end
  | Slice t => match v with
               | VNil => Some MNil
               | VRef l => match h !! l with
                           | Some (CSlice vs) => MSlice <$> mapM (read t h) vs
                           | _ => None
                           end
               | _ => None
               end
  | MapOf t => match v with
               | VNil => Some MNil
               | VRef l => match h !! l with
                           | Some (CMap m) => MMap <$> read_entries (read t h) m
                           | _ => None
                           end
               | _ => None
               end
  | Struct fields =>
      match v with
      | VStruct vs => MStruct <$> mapM (λ '(f, t), v ← vs !! f; pair f <$> read t h v) fields
      | _ => None
      end
  end.

(** Types whose values are read without the heap. *)
Fixpoint leaf (t : gotype) : bool :=
  match t with
  | Scalar | Any => true
  | Ptr _ | Slice _ | MapOf _ => false
  | Struct fields => forallb (λ '(_, t), leaf t) fields
  end.

Lemma read_struct fields h vs :
  read (Struct fields) h (VStruct vs) =
  MStruct <$> mapM (λ x, v ← vs !! x.1; pair x.1 <$> read x.2 h v) fields.
Proof. simpl. f_equal. apply mapM_ext. by intros []. Qed.

Lemma leaf_struct fields : leaf (Struct fields) = true ↔ Forall (λ x, leaf x.2 = true) fields.
Proof.
  simpl. rewrite forallb_forall, Forall_forall. setoid_rewrite list_elem_of_In.
  split; intros H [f t]; apply (H (f, t)).
Qed.

(** ** Reading depends on the cells it visits only *)

Lemma mapM_mono {A B} (f g : A → option B) l k :
  (∀ x y, x ∈ l → f x = Some y → g x = Some y) → mapM f l = Some k → mapM g l = Some k.
Proof.
  rewrite !mapM_Some. intros Hfg H. induction H as [|x y l k Hxy H IH]; constructor.
  - apply Hfg; [by left|done].
  - apply IH. intros x' y' Hx'. apply Hfg. by right.
Qed.

Lemma read_entries_Some f m ms :
  read_entries f m = Some ms ↔ ∀ k, ms !! k = m !! k ≫= f ∧ (is_Some (m !! k) → is_Some (ms !! k)).
Proof.
  unfold read_entries. case_decide as Hall; split.
  - intros [= <-] k. rewrite lookup_omap. split; [done|]. intros [v Hv]. rewrite Hv. by eapply Hall.
  - intros H. f_equal. apply map_eq. intros k. rewrite lookup_omap. symmetry. apply H.
  - done.
  - intros H. exfalso. apply Hall. intros k v Hv. destruct (H k) as [E Hs]. rewrite Hv in E, Hs.
    simpl in E. rewrite <-E. by apply Hs.
Qed.

Lemma read_entries_mono f g m ms :
  (∀ v y, f v = Some y → g v = Some y) → read_entries f m = Some ms → read_entries g m = Some ms.
Proof.
  rewrite !read_entries_Some. intros Hfg H k. destruct (H k) as [E Hs]. split; [|done].
  destruct (m !! k) as [v|]; [|done]. simpl in *. destruct (Hs (mk_is_Some _ _ eq_refl)) as [y Hy].
  rewrite Hy in E |- *. symmetry. by apply Hfg.
Qed.

Lemma read_mono t : ∀ h h' v T, h ⊆ h' → read t h v = Some T → read t h' v = Some T.
Proof.
  assert (Hl : ∀ (h h' : heap) l c, h ⊆ h' → h !! l = Some c → h' !! l = Some c)
    by (intros; by eapply lookup_weaken).
  induction t as [| |t IH|t IH|t IH|fields IH] using gotype_rect'; intros h h' v T Hs; try done.
  - destruct v; try done. simpl. destruct (h !! l) as [[v| |]|] eqn:E; try done.
    rewrite (Hl _ _ _ _ Hs E). rewrite !fmap_Some. naive_solver.
  - destruct v; try done. simpl. destruct (h !! l) as [[|vs|]|] eqn:E; try done.
    rewrite (Hl _ _ _ _ Hs E). rewrite !fmap_Some. intros (k & Hk & ->). exists k. split; [|done].
    eapply mapM_mono; [|exact Hk]. intros x y _. by apply IH.
  - destruct v; try done. simpl. destruct (h !! l) as [[| |m]|] eqn:E; try done.
    rewrite (Hl _ _ _ _ Hs E). rewrite !fmap_Some. intros (k & Hk & ->). exists k. split; [|done].
    eapply read_entries_mono; [|exact Hk]. intros x y. by apply IH.
  - destruct v as [| | | | |vs]; try done. rewrite !read_struct, !fmap_Some.
    intros (k & Hk & ->). exists k. split; [|done]. eapply mapM_mono; [|exact Hk].
    intros [f t] y Hin. simpl. destruct (vs !! f) as [v|]; [|done]. simpl.
    rewrite !fmap_Some. rewrite Forall_forall in IH. specialize (IH _ Hin). naive_solver.
Qed.

Lemma leaf_read t : leaf t = true → ∀ h v, read t h v = read t ∅ v.
Proof.
  induction t as [| |t IH|t IH|t IH|fields IH] using gotype_rect'; try done.
  rewrite leaf_struct. intros Hl h [| | | | |vs]; try done. rewrite !read_struct. f_equal.
  apply Forall_mapM_ext. rewrite Forall_forall in *. intros [f t] Hin. simpl.
  destruct (vs !! f) as [v|]; [|done]. simpl. by rewrite (IH _ Hin (Hl _ Hin)).
Qed.

(** * Copying *)

(** A copier takes the value of the source and gives that of the copy. *)
Definition copier : Type := val → heap → val * heap.

Definition alloc (c : cell) (h : heap) : val * heap :=
  let l := fresh (dom h) in (VRef l, <[l := c]> h).

(** [*out = *in]. *)
Definition assign : copier := λ v h, (v, h).

(** [if in != nil { out := new(T); copy *in into *out }]. *)
Definition copy_new (c : copier) : copier := λ v h,
  match v with
  | VRef l => match h !! l with
              | Some (CVal v) => let '(v', h') := c v h in alloc (CVal v') h'
              | _ => (v, h)
              end
  | _ => (v, h)
  end.

(** [if in != nil { out := make([]T, len(in)); copy every element }]. *)
Fixpoint copy_elements (c : copier) (vs : list val) (h : heap) : list val * heap :=
  match vs with
  | [] => ([], h)
  | v :: r => let '(v', h1) := c v h in let '(r', h2) := copy_elements c r h1 in (v' :: r', h2)
  end.
Definition copy_slice (c : copier) : copier := λ v h,
  match v with
  | VRef l => match h !! l with
              | Some (CSlice vs) => let '(vs', h') := copy_elements c vs h in alloc (CSlice vs') h'
              | _ => (v, h)
              end
  | _ => (v, h)
  end.

(** [if in != nil { out := make(map[string]T); copy every entry }], in the order
    in which the entries are visited. *)
Fixpoint copy_entries (c : copier) (l : list (string * val)) (h : heap) : gmap string val * heap :=
  match l with
  | [] => (∅, h)
  | (k, v) :: r =>
      let '(v', h1) := c v h in let '(m, h2) := copy_entries c r h1 in (<[k := v']> m, h2)
  end.
Definition copy_map (visit : gmap string val → list (string * val)) (c : copier) : copier := λ v h,
  match v with
  | VRef l => match h !! l with
              | Some (CMap m) => let '(m', h') := copy_entries c (visit m) h in alloc (CMap m') h'
              | _ => (v, h)
              end
  | _ => (v, h)
  end.

(** [*out = *in], and then the fields that are copied on their own. *)
Fixpoint copy_fields (steps : list (string * copier)) (source out : gmap string val) (h : heap)
    : gmap string val * heap :=
  match steps with
  | [] => (out, h)
  | (f, c) :: r => match source !! f with
                   | Some v => let '(v', h') := c v h in copy_fields r source (<[f := v']> out) h'
                   | None => copy_fields r source out h
                   end
  end.
Definition copy_into (steps : list (string * copier)) : copier := λ v h,
  match v with
  | VStruct fs => let '(out, h') := copy_fields steps fs fs h in (VStruct out, h')
  | _ => (v, h)
  end.

(** * Deep copies *)

(** The heap only grows, and the new cells alone give the copy the meaning of
    the source. *)
Definition deep (t : gotype) (c : copier) : Prop :=
  ∀ h v m v' h', read t h v = Some m → c v h = (v', h') →
    h ⊆ h' ∧ read t (h' ∖ h) v' = Some m.

Lemma fresh_upto (h h1 h' : heap) : h1 ⊆ h' → h1 ∖ h ⊆ h' ∖ h.
Proof.
  intros Hs. apply map_subseteq_spec. intros l c. rewrite !lookup_difference_Some.
  intros [??]. split; [by eapply lookup_weaken|done].
Qed.
Lemma fresh_from (h h1 h' : heap) : h ⊆ h1 → h' ∖ h1 ⊆ h' ∖ h.
Proof.
  intros Hs. apply map_subseteq_spec. intros l c. rewrite !lookup_difference_Some.
  intros [? Hn]. split; [done|]. destruct (h !! l) eqn:E; [|done].
  by rewrite (lookup_weaken _ _ _ _ E Hs) in Hn.
Qed.

(** A cell that is allocated last is new, and so is what was before it. *)
Lemma alloc_deep (h h1 h' : heap) (c : cell) v :
  h ⊆ h1 → alloc c h1 = (v, h') →
  h ⊆ h' ∧ h1 ∖ h ⊆ h' ∖ h ∧ ∃ l, v = VRef l ∧ (h' ∖ h) !! l = Some c.
Proof.
  intros Hs [= <- <-]. set (l := fresh (dom h1)).
  assert (Hl : h1 !! l = None) by apply not_elem_of_dom, is_fresh.
  assert (Hi : h1 ⊆ <[l := c]> h1) by by apply insert_subseteq.
  split; [by etrans|]. split; [by apply fresh_upto|]. exists l. split; [done|].
  rewrite lookup_difference_Some, lookup_insert_eq. split; [done|].
  destruct (h !! l) eqn:E; [|done]. by rewrite (lookup_weaken _ _ _ _ E Hs) in Hl.
Qed.

Lemma assign_deep t : leaf t = true → deep t assign.
Proof. intros Hl h v m v' h' Hr [= <- <-]. split; [done|]. rewrite leaf_read in * by done. done. Qed.

(** A copy in the middle of a larger one. *)
Lemma deep_within t c (h h1 h2 h' : heap) v m v' :
  deep t c → read t h v = Some m → h ⊆ h1 → c v h1 = (v', h2) →
  h1 ⊆ h2 ∧ (h2 ⊆ h' → read t (h' ∖ h) v' = Some m).
Proof.
  intros Hd Hr Hs Hc. destruct (Hd h1 v m v' h2) as [Hs2 Hr2]; [by eapply read_mono|done|].
  split; [done|]. intros Hs'. eapply read_mono; [|exact Hr2].
  etrans; [by apply fresh_upto|]. by apply fresh_from.
Qed.

Lemma copy_new_deep t c : deep t c → deep (Ptr t) (copy_new c).
Proof.
  intros Hd h v m v' h' Hr Hc. destruct v; simpl in *; try done; [by simplify_eq|].
  destruct (h !! l) as [[v0| |]|] eqn:E; try done. apply fmap_Some in Hr as (m0 & Hr & ->).
  destruct (c v0 h) as [v1 h1] eqn:Ec. destruct (Hd _ _ _ _ _ Hr Ec) as [Hs Hr1].
  destruct (alloc_deep h h1 h' (CVal v1) v' Hs Hc) as (Hs' & Hf & l' & -> & Hl). split; [done|].
  simpl. rewrite Hl. by rewrite (read_mono _ _ _ _ _ Hf Hr1).
Qed.

Lemma copy_elements_deep t c vs : deep t c → ∀ h ms vs' h',
  mapM (read t h) vs = Some ms → copy_elements c vs h = (vs', h') →
  h ⊆ h' ∧ mapM (read t (h' ∖ h)) vs' = Some ms.
Proof.
  intros Hd h ms vs' h' Hr Hc.
  cut (∀ h1 ms vs' h', h ⊆ h1 → mapM (read t h) vs = Some ms → copy_elements c vs h1 = (vs', h') →
    h1 ⊆ h' ∧ ∀ h2, h' ⊆ h2 → mapM (read t (h2 ∖ h)) vs' = Some ms).
  { intros H. destruct (H h ms vs' h') as [? Hm]; [done..|]. split; [done|by apply Hm]. }
  clear ms vs' h' Hr Hc. induction vs as [|v vs IH]; intros h1 ms vs' h' Hs Hr Hc; simpl in Hc.
  - simplify_eq. done.
  - simpl in Hr. apply bind_Some in Hr as (m & Hm & (ms0 & Hms & [= <-])%bind_Some).
    destruct (c v h1) as [v1 h2] eqn:Ec. destruct (copy_elements c vs h2) as [r h3] eqn:Er.
    injection Hc as <- <-.
    destruct (IH h2 ms0 r h3) as [Hs3 Hr3]; [|done|done|].
    { etrans; [done|]. by eapply (deep_within t c h h1 h2 ∅). }
    split; [etrans; [|done]; by eapply (deep_within t c h h1 h2 ∅)|]. intros h4 Hs4. simpl.
    destruct (deep_within t c h h1 h2 h4 v m v1 Hd Hm Hs Ec) as [_ Hv].
    rewrite Hv by by etrans. simpl. by rewrite Hr3.
Qed.

Lemma copy_slice_deep t c : deep t c → deep (Slice t) (copy_slice c).
Proof.
  intros Hd h v m v' h' Hr Hc. destruct v; simpl in *; try done; [by simplify_eq|].
  destruct (h !! l) as [[|vs|]|] eqn:E; try done. apply fmap_Some in Hr as (ms & Hr & ->).
  destruct (copy_elements c vs h) as [vs' h1] eqn:Ec.
  destruct (copy_elements_deep t c vs Hd _ _ _ _ Hr Ec) as [Hs Hr1].
  destruct (alloc_deep h h1 h' (CSlice vs') v' Hs Hc) as (Hs' & Hf & l' & -> & Hl). split; [done|].
  simpl. rewrite Hl. erewrite mapM_mono; [done| |exact Hr1]. intros x y _. by apply read_mono.
Qed.

(** Entries have distinct keys, and each is copied. *)
Lemma copy_entries_deep t c h l : deep t c → NoDup l.*1 → ∀ h1 out h',
  h ⊆ h1 → (∀ k v, (k, v) ∈ l → is_Some (read t h v)) → copy_entries c l h1 = (out, h') →
  h1 ⊆ h' ∧ ∀ h2, h' ⊆ h2 → ∀ k,
    option_Forall2 (λ v v', read t (h2 ∖ h) v' = read t h v) (list_to_map (M := gmap _ _) l !! k) (out !! k).
Proof.
  intros Hd. induction l as [|[k v] l IH]; intros Hn h1 out h' Hs Hr Hc; simpl in Hc.
  - simplify_eq. split; [done|]. intros h2 _ k. constructor.
  - apply NoDup_cons in Hn as [Hk Hn]. destruct (Hr k v) as [m Hm]; [by left|].
    destruct (c v h1) as [v1 h2] eqn:Ec. destruct (copy_entries c l h2) as [m1 h3] eqn:El.
    injection Hc as <- <-.
    destruct (deep_within t c h h1 h2 h3 v m v1 Hd Hm Hs Ec) as [Hs2 _].
    destruct (IH Hn h2 m1 h3) as [Hs3 Hout]; [by etrans| |done|].
    { intros k' v' Hin. apply (Hr k'). by right. }
    split; [by etrans|]. intros h4 Hs4 k'. simpl. destruct (decide (k' = k)) as [->|Hne].
    + rewrite !lookup_insert_eq. constructor. rewrite Hm.
      eapply (deep_within t c h h1 h2 h4 v m v1 Hd Hm Hs Ec). by etrans.
    + rewrite !lookup_insert_ne by done. by apply Hout.
Qed.

Lemma copy_map_deep visit t c :
  (∀ m, visit m ≡ₚ map_to_list m) → deep t c → deep (MapOf t) (copy_map visit c).
Proof.
  intros Hv Hd h v m v' h' Hr Hc. destruct v; simpl in *; try done; [by simplify_eq|].
  destruct (h !! l) as [[| |es]|] eqn:E; try done. apply fmap_Some in Hr as (ms & Hr & ->).
  destruct (copy_entries c (visit es) h) as [es' h1] eqn:Ec. rewrite read_entries_Some in Hr.
  assert (Hes : ∀ k v, (k, v) ∈ visit es → is_Some (read t h v)).
  { intros k v Hin. rewrite Hv, elem_of_map_to_list in Hin. destruct (Hr k) as [Hk Hsome].
    rewrite Hin in Hk, Hsome. simpl in Hk. rewrite <-Hk. by apply Hsome. }
  assert (Hn : NoDup (visit es).*1) by (rewrite Hv; apply NoDup_fst_map_to_list).
  destruct (copy_entries_deep t c h (visit es) Hd Hn h es' h1 ltac:(done) Hes Ec) as [Hs Hout].
  destruct (alloc_deep h h1 h' (CMap es') v' Hs Hc) as (Hs' & Hf & l' & -> & Hl). split; [done|].
  simpl. rewrite Hl. cut (read_entries (read t (h1 ∖ h)) es' = Some ms).
  { intros Hms. erewrite read_entries_mono; [done| |exact Hms]. intros x y. by apply read_mono. }
  apply read_entries_Some. intros k. specialize (Hout h1 ltac:(done) k).
  rewrite (list_to_map_proper (M := gmap _) _ _ Hn (Hv es)), list_to_map_to_list in Hout.
  destruct (Hr k) as [Hk Hsome]. inversion Hout as [v1 v2 E1 E2 E3|E1 E2].
  - rewrite <-E2 in Hk, Hsome. simpl in *. split; [congruence|]. intros _. by apply Hsome.
  - rewrite <-E1 in Hk. done.
Qed.

(** ** Structs *)

Fixpoint step_of (f : string) (steps : list (string * copier)) : option copier :=
  match steps with
  | [] => None
  | (g, c) :: r => if String.eqb f g then Some c else step_of f r
  end.

(** Every field is copied by a deep step, or holds no reference; and no field
    is copied twice. *)
Definition field_deep (steps : list (string * copier)) (x : string * gotype) : Prop :=
  match step_of x.1 steps with Some c => deep x.2 c | None => leaf x.2 = true end.
Definition steps_fit (steps : list (string * copier)) (fields : list (string * gotype)) : bool :=
  bool_decide (NoDup steps.*1) && bool_decide (NoDup fields.*1) &&
  bool_decide (Forall (λ f, f ∈ fields.*1) steps.*1).

Lemma step_of_notin f steps : f ∉ steps.*1 → step_of f steps = None.
Proof.
  induction steps as [|[g c] steps IH]; [done|]. rewrite fmap_cons, not_elem_of_cons. simpl.
  intros [Hne Hnin]. rewrite (proj2 (String.eqb_neq f g) Hne). by apply IH.
Qed.

Section fields.
Context (fields : list (string * gotype)) (h : heap) (source : gmap string val).

(** What the fields of the copy are to be read as. *)
Definition copied (h2 : heap) (f : string) (t : gotype) (v' : option val) : Prop :=
  ∃ v m, source !! f = Some v ∧ read t h v = Some m ∧ v' ≫= read t (h2 ∖ h) = Some m.

Lemma copy_fields_deep steps : NoDup steps.*1 →
  (∀ f t, (f, t) ∈ fields → ∃ v m, source !! f = Some v ∧ read t h v = Some m) →
  (∀ f c, (f, c) ∈ steps → ∃ t, (f, t) ∈ fields ∧ deep t c) →
  NoDup fields.*1 →
  ∀ h1 out out' h', h ⊆ h1 → copy_fields steps source out h1 = (out', h') →
  h1 ⊆ h' ∧ (∀ f, f ∉ steps.*1 → out' !! f = out !! f) ∧
  ∀ f t c, (f, c) ∈ steps → (f, t) ∈ fields → ∀ h2, h' ⊆ h2 → copied h2 f t (out' !! f).
Proof.
  intros Hn Hr Hd Hnf. induction steps as [|[g c] steps IH]; intros h1 out out' h' Hs Hc; simpl in Hc.
  { simplify_eq. split; [done|]. split; [done|]. by intros f t c ?%elem_of_nil. }
  apply NoDup_cons in Hn as [Hg Hn]. destruct (Hd g c) as (t & Ht & Hdc); [by left|].
  destruct (Hr g t Ht) as (v & m & Hv & Hm). rewrite Hv in Hc. destruct (c v h1) as [v1 h2] eqn:Ec.
  destruct (deep_within t c h h1 h2 ∅ v m v1 Hdc Hm Hs Ec) as [Hs2 _].
  destruct (IH Hn ltac:(intros; apply Hd; by right) h2 (<[g := v1]> out) out' h') as (Hs3 & Hkeep & Hall);
    [by etrans|done|].
  split; [by etrans|]. split.
  - intros f [Hne Hf]%not_elem_of_cons. rewrite Hkeep by done. by apply lookup_insert_ne.
  - intros f t' c' Hin Hf h4 Hs4. rewrite elem_of_cons in Hin. destruct Hin as [[= -> ->]|Hin].
    + assert (t' = t) as ->.
      { apply (elem_of_list_to_map_1 (M := gmap _)) in Hf, Ht; [congruence|done..]. }
      exists v, m. split; [done|]. split; [done|]. rewrite Hkeep by done. rewrite lookup_insert_eq. simpl.
      eapply (deep_within t c h h1 h2 h4 v m v1 Hdc Hm Hs Ec). by etrans.
    + by eapply Hall.
Qed.
End fields.

Lemma step_of_elem f c steps : NoDup steps.*1 → (f, c) ∈ steps ↔ step_of f steps = Some c.
Proof.
  induction steps as [|[g d] steps IH]; [by split; [intros ?%elem_of_nil|]|].
  rewrite fmap_cons, elem_of_cons. intros [Hg Hn]%NoDup_cons. simpl. destruct (String.eqb_spec f g) as [->|Hne].
  - split; [intros [[= ->]|Hin]; [done|]|intros [= ->]; by left].
    exfalso. apply Hg. by apply (list_elem_of_fmap_2 fst) in Hin.
  - rewrite <-IH by done. naive_solver.
Qed.

Lemma copy_into_deep steps fields :
  steps_fit steps fields = true → Forall (field_deep steps) fields →
  deep (Struct fields) (copy_into steps).
Proof.
  unfold steps_fit. rewrite !andb_true_iff, !bool_decide_eq_true.
  intros [[Hn Hnf] Hin] Hf h v m v' h' Hr Hc. rewrite Forall_forall in Hf. rewrite Forall_forall in Hin.
  destruct v as [| | | | |fs]; try done. simpl in Hc.
  destruct (copy_fields steps fs fs h) as [out h1] eqn:Ec. injection Hc as <- <-.
  rewrite read_struct in Hr |- *. apply fmap_Some in Hr as (ms & Hr & ->).
  assert (Hsrc : ∀ f t, (f, t) ∈ fields → ∃ v m, fs !! f = Some v ∧ read t h v = Some m).
  { intros f t Hft. apply mapM_Some_1 in Hr. destruct (list_elem_of_lookup_1 _ _ Hft) as [i Hi].
    destruct (Forall2_lookup_l _ _ _ _ _ Hr Hi) as (y & _ & Hy). simpl in Hy.
    destruct (fs !! f) as [v|]; [|done]. exists v. simpl in Hy. apply fmap_Some in Hy as (m & Hm & _). by exists m. }
  destruct (copy_fields_deep fields h fs steps Hn Hsrc) with (h1 := h) (out := fs) (out' := out) (h' := h1)
    as (Hs & Hkeep & Hall); [|done..|].
  { intros f c Hfc. assert (Hff : f ∈ fields.*1) by (apply Hin; by apply (list_elem_of_fmap_2 fst) in Hfc).
    apply list_elem_of_fmap in Hff as ([f' t] & -> & Hft). exists t. split; [done|].
    specialize (Hf _ Hft). unfold field_deep in Hf. apply step_of_elem in Hfc; [|done]. simpl in *.
    by rewrite Hfc in Hf. }
  split; [done|]. cut (mapM (λ x, v ← out !! x.1; pair x.1 <$> read x.2 (h1 ∖ h) v) fields = Some ms);
    [by intros ->|].
  rewrite <-Hr. apply Forall_mapM_ext, Forall_forall. intros [f t] Hft. simpl.
  destruct (Hsrc f t Hft) as (v & m & Hv & Hm). rewrite Hv. simpl. rewrite Hm.
  specialize (Hf _ Hft). unfold field_deep in Hf. simpl in Hf. destruct (step_of f steps) as [c|] eqn:Es.
  - apply step_of_elem in Es; [|done].
    destruct (Hall f t c Es Hft h1 ltac:(done)) as (v0 & m0 & Hv0 & Hm0 & Hout).
    assert (v0 = v) as -> by congruence. assert (m0 = m) as -> by congruence.
    destruct (out !! f) as [v1|]; [|done]. simpl in *. by rewrite Hout.
  - rewrite Hkeep, Hv.
    2:{ intros ([g c] & -> & Hgc)%list_elem_of_fmap. apply step_of_elem in Hgc; [|done]. simpl in Es. congruence. }
    simpl. rewrite leaf_read in Hm |- * by done. by rewrite Hm.
Qed.

(** ** Using a deep copy *)

(** Whatever is written to the cells there were before, the copy keeps its
    meaning; and what is written to those of the copy is not seen by the source. *)
Lemma deep_independent t c h v m v' h' :
  deep t c → read t h v = Some m → c v h = (v', h') →
  (∀ g, g ##ₘ h' ∖ h → read t (g ∪ (h' ∖ h)) v' = Some m) ∧
  (∀ g, read t (h ∪ g) v = Some m).
Proof.
  intros Hd Hr Hc. destruct (Hd _ _ _ _ _ Hr Hc) as [_ Hr']. split.
  - intros g Hg. eapply read_mono; [|exact Hr']. by apply map_union_subseteq_r.
  - intros g. eapply read_mono; [|exact Hr]. apply map_union_subseteq_l.
Qed.

Create HintDb deep.
#[export] Hint Resolve copy_new_deep copy_slice_deep copy_map_deep assign_deep : deep.

(** * Types of other projects *)

(** What is read of the types of the Kubernetes API, the DeepCopyInto of each,
    and the order in which a range visits a map. *)
Class Library := {
  lib : string → gotype;
  lib_copy : string → copier;
  ServicePort : gotype;
  visit : gmap string val → list (string * val) }.

(** The documented behaviour: DeepCopyInto is deep, the flat types hold no
    reference, a range visits every entry once; and service ports are compared
    as they are. *)
Definition flat_types : list string :=
  ["metav1.TypeMeta"; "metav1.Duration"; "intstr.IntOrString";
   "appsv1.StatefulSetPersistentVolumeClaimRetentionPolicy"].
Class LibraryLaws `{Library} := {
  lib_deep n : deep (lib n) (lib_copy n);
  lib_flat : forallb (λ n, leaf (lib n)) flat_types = true;
  port_opaque : leaf ServicePort = true;
  visit_perm m : visit m ≡ₚ map_to_list m }.
