(* ===== verification/OtelTypes.v ===== *)
(** The types of a collector of OpenTelemetry, internal/otelv1beta1/types.go, and
    their copies, deepcopy.go.  Types of the Kubernetes API are the parameter
    [lib], with their own copies, and [ServicePort]; a named string is a scalar.  An embedded
    struct is the field with the name of its type. *)
From S2P Require Import Prelude Strings GoHeap.

Open Scope string_scope.

(** * Types *)

Section types.
Context `{Library}.

Definition PodDisruptionBudgetSpec : gotype := Struct
  [("MinAvailable", Ptr (lib "intstr.IntOrString"));
   ("MaxUnavailable", Ptr (lib "intstr.IntOrString"))].
Definition PortsSpec : gotype := Struct
  [("HostPort", Scalar); ("ServicePort", ServicePort)].
Definition OpenTelemetryCommonFields : gotype := Struct
  [("ManagementState", Scalar); ("Resources", lib "corev1.ResourceRequirements");
   ("NodeSelector", MapOf Scalar); ("Args", MapOf Scalar); ("Replicas", Ptr Scalar);
   ("PodDisruptionBudget", Ptr PodDisruptionBudgetSpec);
   ("SecurityContext", Ptr (lib "corev1.SecurityContext"));
   ("PodSecurityContext", Ptr (lib "corev1.PodSecurityContext"));
   ("PodAnnotations", MapOf Scalar); ("ServiceAccount", Scalar); ("Image", Scalar);
   ("ImagePullPolicy", Scalar); ("VolumeMounts", Slice (lib "corev1.VolumeMount"));
   ("Ports", Slice PortsSpec); ("Env", Slice (lib "corev1.EnvVar"));
   ("EnvFrom", Slice (lib "corev1.EnvFromSource"));
   ("Tolerations", Slice (lib "corev1.Toleration")); ("Volumes", Slice (lib "corev1.Volume"));
   ("Affinity", Ptr (lib "corev1.Affinity")); ("Lifecycle", Ptr (lib "corev1.Lifecycle"));
   ("TerminationGracePeriodSeconds", Ptr Scalar);
   ("TopologySpreadConstraints", Slice (lib "corev1.TopologySpreadConstraint"));
   ("HostNetwork", Scalar); ("DNSPolicy", Ptr Scalar); ("HostPID", Scalar);
   ("ShareProcessNamespace", Scalar); ("PriorityClassName", Scalar);
   ("InitContainers", Slice (lib "corev1.Container"));
   ("AdditionalContainers", Slice (lib "corev1.Container"));
   ("PodDNSConfig", lib "corev1.PodDNSConfig"); ("IpFamilies", Slice Scalar);
   ("IpFamilyPolicy", Ptr Scalar); ("TrafficDistribution", Ptr Scalar)].
Definition StatefulSetCommonFields : gotype := Struct
  [("VolumeClaimTemplates", Slice (lib "corev1.PersistentVolumeClaim"));
   ("PersistentVolumeClaimRetentionPolicy", Ptr (lib "appsv1.StatefulSetPersistentVolumeClaimRetentionPolicy"));
   ("ServiceName", Scalar)].
Definition MetricSpec : gotype := Struct
  [("Type", Scalar); ("Pods", Ptr (lib "autoscalingv2.PodsMetricSource"))].
Definition AutoscalerSpec : gotype := Struct
  [("MinReplicas", Ptr Scalar); ("MaxReplicas", Ptr Scalar);
   ("Behavior", Ptr (lib "autoscalingv2.HorizontalPodAutoscalerBehavior"));
   ("Metrics", Slice MetricSpec); ("TargetCPUUtilization", Ptr Scalar);
   ("TargetMemoryUtilization", Ptr Scalar)].
Definition AnyConfig : gotype := Struct [("Object", MapOf Any)].
Definition TargetAllocatorPrometheusCR : gotype := Struct
  [("Enabled", Scalar); ("AllowNamespaces", Slice Scalar); ("DenyNamespaces", Slice Scalar);
   ("ScrapeInterval", Ptr (lib "metav1.Duration")); ("ScrapeClasses", Slice AnyConfig);
   ("PodMonitorSelector", Ptr (lib "metav1.LabelSelector"));
   ("ServiceMonitorSelector", Ptr (lib "metav1.LabelSelector"));
   ("ScrapeConfigSelector", Ptr (lib "metav1.LabelSelector"));
   ("ProbeSelector", Ptr (lib "metav1.LabelSelector"))].
Definition MetricsConfigSpec : gotype := Struct
  [("EnableMetrics", Scalar); ("ExtraLabels", MapOf Scalar);
   ("DisablePrometheusAnnotations", Scalar)].
Definition ObservabilitySpec : gotype := Struct [("Metrics", MetricsConfigSpec)].
Definition TargetAllocatorEmbedded : gotype := Struct
  [("Replicas", Ptr Scalar); ("NodeSelector", MapOf Scalar);
   ("Resources", lib "corev1.ResourceRequirements"); ("AllocationStrategy", Scalar);
   ("FilterStrategy", Scalar); ("ServiceAccount", Scalar); ("Image", Scalar);
   ("Enabled", Scalar); ("Affinity", Ptr (lib "corev1.Affinity"));
   ("PrometheusCR", TargetAllocatorPrometheusCR);
   ("SecurityContext", Ptr (lib "corev1.SecurityContext"));
   ("PodSecurityContext", Ptr (lib "corev1.PodSecurityContext"));
   ("TopologySpreadConstraints", Slice (lib "corev1.TopologySpreadConstraint"));
   ("Tolerations", Slice (lib "corev1.Toleration")); ("Env", Slice (lib "corev1.EnvVar"));
   ("Observability", ObservabilitySpec); ("PodDisruptionBudget", Ptr PodDisruptionBudgetSpec);
   ("CollectorNotReadyGracePeriod", Ptr (lib "metav1.Duration"));
   ("CollectorTargetReloadInterval", Ptr (lib "metav1.Duration"))].
Definition Pipeline : gotype := Struct
  [("Exporters", Slice Scalar); ("Processors", Slice Scalar); ("Receivers", Slice Scalar)].
Definition Service : gotype := Struct
  [("Extensions", Slice Scalar); ("Telemetry", Ptr AnyConfig);
   ("Pipelines", MapOf (Ptr Pipeline))].
Definition Config : gotype := Struct
  [("Receivers", AnyConfig); ("Exporters", AnyConfig); ("Processors", Ptr AnyConfig);
   ("Connectors", Ptr AnyConfig); ("Extensions", Ptr AnyConfig); ("Service", Service)].
Definition OpenShiftRoute : gotype := Struct [("Termination", Scalar)].
Definition Ingress : gotype := Struct
  [("Type", Scalar); ("RuleType", Scalar); ("Hostname", Scalar); ("Annotations", MapOf Scalar);
   ("TLS", Slice (lib "networkingv1.IngressTLS")); ("IngressClassName", Ptr Scalar);
   ("Route", OpenShiftRoute)].
Definition NetworkPolicy : gotype := Struct [("Enabled", Ptr Scalar)].
Definition Probe : gotype := Struct
  [("InitialDelaySeconds", Ptr Scalar); ("TimeoutSeconds", Ptr Scalar);
   ("PeriodSeconds", Ptr Scalar); ("SuccessThreshold", Ptr Scalar);
   ("FailureThreshold", Ptr Scalar); ("TerminationGracePeriodSeconds", Ptr Scalar)].
Definition ConfigMapsSpec : gotype := Struct [("Name", Scalar); ("MountPath", Scalar)].
Definition OpenTelemetryCollectorSpec : gotype := Struct
  [("OpenTelemetryCommonFields", OpenTelemetryCommonFields);
   ("StatefulSetCommonFields", StatefulSetCommonFields); ("Autoscaler", Ptr AutoscalerSpec);
   ("TargetAllocator", TargetAllocatorEmbedded); ("Mode", Scalar); ("UpgradeStrategy", Scalar);
   ("Config", Config); ("Ingress", Ingress); ("NetworkPolicy", NetworkPolicy);
   ("LivenessProbe", Ptr Probe); ("ReadinessProbe", Ptr Probe); ("StartupProbe", Ptr Probe);
   ("Observability", ObservabilitySpec); ("ConfigMaps", Slice ConfigMapsSpec);
   ("DaemonSetUpdateStrategy", lib "appsv1.DaemonSetUpdateStrategy");
   ("DeploymentUpdateStrategy", lib "appsv1.DeploymentStrategy")].
Definition ScaleSubresourceStatus : gotype := Struct
  [("Selector", Scalar); ("Replicas", Scalar); ("StatusReplicas", Scalar)].
Definition OpenTelemetryCollectorStatus : gotype := Struct
  [("Scale", ScaleSubresourceStatus); ("Version", Scalar); ("Image", Scalar)].
Definition OpenTelemetryCollector : gotype := Struct
  [("TypeMeta", lib "metav1.TypeMeta"); ("ObjectMeta", lib "metav1.ObjectMeta");
   ("Spec", OpenTelemetryCollectorSpec); ("Status", OpenTelemetryCollectorStatus)].
Definition OpenTelemetryCollectorList : gotype := Struct
  [("TypeMeta", lib "metav1.TypeMeta"); ("ListMeta", lib "metav1.ListMeta");
   ("Items", Slice OpenTelemetryCollector)].
End types.

(** * Copies *)

Section copies.
Context `{Library}.

Definition PodDisruptionBudgetSpec_DeepCopyInto : copier := copy_into
  [("MinAvailable", copy_new assign); ("MaxUnavailable", copy_new assign)].
Definition PodDisruptionBudgetSpec_DeepCopy : copier :=
  copy_new PodDisruptionBudgetSpec_DeepCopyInto.
Definition PortsSpec_DeepCopyInto : copier := copy_into [("ServicePort", assign)].
Definition PortsSpec_DeepCopy : copier := copy_new PortsSpec_DeepCopyInto.
Definition OpenTelemetryCommonFields_DeepCopyInto : copier := copy_into
  [("Resources", lib_copy "corev1.ResourceRequirements");
   ("NodeSelector", copy_map visit assign); ("Args", copy_map visit assign);
   ("Replicas", copy_new assign);
   ("PodDisruptionBudget", copy_new PodDisruptionBudgetSpec_DeepCopyInto);
   ("SecurityContext", copy_new (lib_copy "corev1.SecurityContext"));
   ("PodSecurityContext", copy_new (lib_copy "corev1.PodSecurityContext"));
   ("PodAnnotations", copy_map visit assign);
   ("VolumeMounts", copy_slice (lib_copy "corev1.VolumeMount"));
   ("Ports", copy_slice PortsSpec_DeepCopyInto); ("Env", copy_slice (lib_copy "corev1.EnvVar"));
   ("EnvFrom", copy_slice (lib_copy "corev1.EnvFromSource"));
   ("Tolerations", copy_slice (lib_copy "corev1.Toleration"));
   ("Volumes", copy_slice (lib_copy "corev1.Volume"));
   ("Affinity", copy_new (lib_copy "corev1.Affinity"));
   ("Lifecycle", copy_new (lib_copy "corev1.Lifecycle"));
   ("TerminationGracePeriodSeconds", copy_new assign);
   ("TopologySpreadConstraints", copy_slice (lib_copy "corev1.TopologySpreadConstraint"));
   ("DNSPolicy", copy_new assign); ("InitContainers", copy_slice (lib_copy "corev1.Container"));
   ("AdditionalContainers", copy_slice (lib_copy "corev1.Container"));
   ("PodDNSConfig", lib_copy "corev1.PodDNSConfig"); ("IpFamilies", copy_slice assign);
   ("IpFamilyPolicy", copy_new assign); ("TrafficDistribution", copy_new assign)].
Definition OpenTelemetryCommonFields_DeepCopy : copier :=
  copy_new OpenTelemetryCommonFields_DeepCopyInto.
Definition StatefulSetCommonFields_DeepCopyInto : copier := copy_into
  [("VolumeClaimTemplates", copy_slice (lib_copy "corev1.PersistentVolumeClaim"));
   ("PersistentVolumeClaimRetentionPolicy", copy_new assign)].
Definition StatefulSetCommonFields_DeepCopy : copier :=
  copy_new StatefulSetCommonFields_DeepCopyInto.
Definition MetricSpec_DeepCopyInto : copier := copy_into
  [("Pods", copy_new (lib_copy "autoscalingv2.PodsMetricSource"))].
Definition MetricSpec_DeepCopy : copier := copy_new MetricSpec_DeepCopyInto.
Definition AutoscalerSpec_DeepCopyInto : copier := copy_into
  [("MinReplicas", copy_new assign); ("MaxReplicas", copy_new assign);
   ("Behavior", copy_new (lib_copy "autoscalingv2.HorizontalPodAutoscalerBehavior"));
   ("Metrics", copy_slice MetricSpec_DeepCopyInto); ("TargetCPUUtilization", copy_new assign);
   ("TargetMemoryUtilization", copy_new assign)].
Definition AutoscalerSpec_DeepCopy : copier := copy_new AutoscalerSpec_DeepCopyInto.
Definition AnyConfig_DeepCopyInto : copier := copy_into [("Object", copy_map visit assign)].
Definition AnyConfig_DeepCopy : copier := copy_new AnyConfig_DeepCopyInto.
Definition TargetAllocatorPrometheusCR_DeepCopyInto : copier := copy_into
  [("AllowNamespaces", copy_slice assign); ("DenyNamespaces", copy_slice assign);
   ("ScrapeInterval", copy_new assign); ("ScrapeClasses", copy_slice AnyConfig_DeepCopyInto);
   ("PodMonitorSelector", copy_new (lib_copy "metav1.LabelSelector"));
   ("ServiceMonitorSelector", copy_new (lib_copy "metav1.LabelSelector"));
   ("ScrapeConfigSelector", copy_new (lib_copy "metav1.LabelSelector"));
   ("ProbeSelector", copy_new (lib_copy "metav1.LabelSelector"))].
Definition TargetAllocatorPrometheusCR_DeepCopy : copier :=
  copy_new TargetAllocatorPrometheusCR_DeepCopyInto.
Definition MetricsConfigSpec_DeepCopyInto : copier := copy_into
  [("ExtraLabels", copy_map visit assign)].
Definition MetricsConfigSpec_DeepCopy : copier := copy_new MetricsConfigSpec_DeepCopyInto.
Definition ObservabilitySpec_DeepCopyInto : copier := copy_into
  [("Metrics", MetricsConfigSpec_DeepCopyInto)].
Definition ObservabilitySpec_DeepCopy : copier := copy_new ObservabilitySpec_DeepCopyInto.
Definition TargetAllocatorEmbedded_DeepCopyInto : copier := copy_into
  [("Replicas", copy_new assign); ("NodeSelector", copy_map visit assign);
   ("Resources", lib_copy "corev1.ResourceRequirements");
   ("Affinity", copy_new (lib_copy "corev1.Affinity"));
   ("PrometheusCR", TargetAllocatorPrometheusCR_DeepCopyInto);
   ("SecurityContext", copy_new (lib_copy "corev1.SecurityContext"));
   ("PodSecurityContext", copy_new (lib_copy "corev1.PodSecurityContext"));
   ("TopologySpreadConstraints", copy_slice (lib_copy "corev1.TopologySpreadConstraint"));
   ("Tolerations", copy_slice (lib_copy "corev1.Toleration"));
   ("Env", copy_slice (lib_copy "corev1.EnvVar"));
   ("Observability", ObservabilitySpec_DeepCopyInto);
   ("PodDisruptionBudget", copy_new PodDisruptionBudgetSpec_DeepCopyInto);
   ("CollectorNotReadyGracePeriod", copy_new assign);
   ("CollectorTargetReloadInterval", copy_new assign)].
Definition TargetAllocatorEmbedded_DeepCopy : copier :=
  copy_new TargetAllocatorEmbedded_DeepCopyInto.
Definition Pipeline_DeepCopyInto : copier := copy_into
  [("Exporters", copy_slice assign); ("Processors", copy_slice assign);
   ("Receivers", copy_slice assign)].
Definition Pipeline_DeepCopy : copier := copy_new Pipeline_DeepCopyInto.
Definition Service_DeepCopyInto : copier := copy_into
  [("Extensions", copy_slice assign); ("Telemetry", AnyConfig_DeepCopy);
   ("Pipelines", copy_map visit (copy_new Pipeline_DeepCopyInto))].
Definition Service_DeepCopy : copier := copy_new Service_DeepCopyInto.
Definition Config_DeepCopyInto : copier := copy_into
  [("Receivers", AnyConfig_DeepCopyInto); ("Exporters", AnyConfig_DeepCopyInto);
   ("Processors", AnyConfig_DeepCopy); ("Connectors", AnyConfig_DeepCopy);
   ("Extensions", AnyConfig_DeepCopy); ("Service", Service_DeepCopyInto)].
Definition Config_DeepCopy : copier := copy_new Config_DeepCopyInto.
Definition OpenShiftRoute_DeepCopyInto : copier := assign.
Definition OpenShiftRoute_DeepCopy : copier := copy_new OpenShiftRoute_DeepCopyInto.
Definition Ingress_DeepCopyInto : copier := copy_into
  [("Annotations", copy_map visit assign);
   ("TLS", copy_slice (lib_copy "networkingv1.IngressTLS"));
   ("IngressClassName", copy_new assign); ("Route", assign)].
Definition Ingress_DeepCopy : copier := copy_new Ingress_DeepCopyInto.
Definition NetworkPolicy_DeepCopyInto : copier := copy_into [("Enabled", copy_new assign)].
Definition NetworkPolicy_DeepCopy : copier := copy_new NetworkPolicy_DeepCopyInto.
Definition Probe_DeepCopyInto : copier := copy_into
  [("InitialDelaySeconds", copy_new assign); ("TimeoutSeconds", copy_new assign);
   ("PeriodSeconds", copy_new assign); ("SuccessThreshold", copy_new assign);
   ("FailureThreshold", copy_new assign); ("TerminationGracePeriodSeconds", copy_new assign)].
Definition Probe_DeepCopy : copier := copy_new Probe_DeepCopyInto.
Definition ConfigMapsSpec_DeepCopyInto : copier := assign.
Definition ConfigMapsSpec_DeepCopy : copier := copy_new ConfigMapsSpec_DeepCopyInto.
Definition OpenTelemetryCollectorSpec_DeepCopyInto : copier := copy_into
  [("OpenTelemetryCommonFields", OpenTelemetryCommonFields_DeepCopyInto);
   ("StatefulSetCommonFields", StatefulSetCommonFields_DeepCopyInto);
   ("Autoscaler", copy_new AutoscalerSpec_DeepCopyInto);
   ("TargetAllocator", TargetAllocatorEmbedded_DeepCopyInto); ("Config", Config_DeepCopyInto);
   ("Ingress", Ingress_DeepCopyInto); ("NetworkPolicy", NetworkPolicy_DeepCopyInto);
   ("LivenessProbe", copy_new Probe_DeepCopyInto);
   ("ReadinessProbe", copy_new Probe_DeepCopyInto);
   ("StartupProbe", copy_new Probe_DeepCopyInto);
   ("Observability", ObservabilitySpec_DeepCopyInto); ("ConfigMaps", copy_slice assign);
   ("DaemonSetUpdateStrategy", lib_copy "appsv1.DaemonSetUpdateStrategy");
   ("DeploymentUpdateStrategy", lib_copy "appsv1.DeploymentStrategy")].
Definition OpenTelemetryCollectorSpec_DeepCopy : copier :=
  copy_new OpenTelemetryCollectorSpec_DeepCopyInto.
Definition ScaleSubresourceStatus_DeepCopyInto : copier := assign.
Definition ScaleSubresourceStatus_DeepCopy : copier :=
  copy_new ScaleSubresourceStatus_DeepCopyInto.
Definition OpenTelemetryCollectorStatus_DeepCopyInto : copier := copy_into [("Scale", assign)].
Definition OpenTelemetryCollectorStatus_DeepCopy : copier :=
  copy_new OpenTelemetryCollectorStatus_DeepCopyInto.
Definition OpenTelemetryCollector_DeepCopyInto : copier := copy_into
  [("TypeMeta", assign); ("ObjectMeta", lib_copy "metav1.ObjectMeta");
   ("Spec", OpenTelemetryCollectorSpec_DeepCopyInto); ("Status", assign)].
Definition OpenTelemetryCollector_DeepCopy : copier :=
  copy_new OpenTelemetryCollector_DeepCopyInto.
Definition OpenTelemetryCollector_DeepCopyObject : copier := OpenTelemetryCollector_DeepCopy.
Definition OpenTelemetryCollectorList_DeepCopyInto : copier := copy_into
  [("TypeMeta", assign); ("ListMeta", lib_copy "metav1.ListMeta");
   ("Items", copy_slice OpenTelemetryCollector_DeepCopyInto)].
Definition OpenTelemetryCollectorList_DeepCopy : copier :=
  copy_new OpenTelemetryCollectorList_DeepCopyInto.
Definition OpenTelemetryCollectorList_DeepCopyObject : copier :=
  OpenTelemetryCollectorList_DeepCopy.
End copies.
