(* ===== verification/ApiTypes.v ===== *)
(** The types of the API of the operator, api/v1beta1, as data in memory, and the
    copies that are generated for them, zz_generated.deepcopy.go.  StorageConn.v
    and Promxy.v have the same types as the records their controllers read. *)
From S2P Require Import Prelude Strings GoHeap.

Open Scope string_scope.

(** * Types *)

Section types.
Context `{Library}.

Definition TLSConfig : gotype := Struct [("InsecureSkipVerify", Scalar)].
Definition BasicAuth : gotype := Struct
  [("CredentialsSecretName", Scalar); ("UsernameKey", Scalar); ("PasswordKey", Scalar)].
Definition HTTPClientConfig : gotype := Struct
  [("DialTimeout", lib "metav1.Duration"); ("TLSConfig", TLSConfig); ("BasicAuth", BasicAuth)].
Definition PromxyServerGroupSpec : gotype := Struct
  [("ClusterName", Scalar); ("Targets", Slice Scalar); ("PathPrefix", Scalar);
   ("Scheme", Scalar); ("HttpClient", HTTPClientConfig)].
Definition PromxyServerGroupStatus : gotype := Struct [].
Definition PromxyServerGroup : gotype := Struct
  [("TypeMeta", lib "metav1.TypeMeta"); ("ObjectMeta", lib "metav1.ObjectMeta");
   ("Spec", PromxyServerGroupSpec); ("Status", PromxyServerGroupStatus)].
Definition PromxyServerGroupList : gotype := Struct
  [("TypeMeta", lib "metav1.TypeMeta"); ("ListMeta", lib "metav1.ListMeta");
   ("Items", Slice PromxyServerGroup)].
Definition ClusterRef : gotype := Struct
  [("Name", Scalar); ("Namespace", Scalar); ("Kind", Scalar)].
Definition SecretRef : gotype := Struct
  [("Name", Scalar); ("PasswordKey", Scalar); ("UsernameKey", Scalar)].
Definition TLSStorageConfig : gotype := Struct
  [("Enabled", Scalar); ("InsecureSkipVerify", Scalar)].
Definition TargetStorageNode : gotype := Struct
  [("Address", Scalar); ("Secret", SecretRef); ("TLSConfig", TLSStorageConfig)].
Definition VMStorageConnectionSpec : gotype := Struct
  [("ClusterRef", ClusterRef); ("TargetStorageNode", TargetStorageNode)].
Definition VMStorageConnectionStatus : gotype := Struct [].
Definition VMStorageConnection : gotype := Struct
  [("TypeMeta", lib "metav1.TypeMeta"); ("ObjectMeta", lib "metav1.ObjectMeta");
   ("Spec", VMStorageConnectionSpec); ("Status", VMStorageConnectionStatus)].
Definition VMStorageConnectionList : gotype := Struct
  [("TypeMeta", lib "metav1.TypeMeta"); ("ListMeta", lib "metav1.ListMeta");
   ("Items", Slice VMStorageConnection)].
End types.

(** * Copies *)

Section copies.
Context `{Library}.

Definition TLSConfig_DeepCopyInto : copier := assign.
Definition TLSConfig_DeepCopy : copier := copy_new TLSConfig_DeepCopyInto.
Definition BasicAuth_DeepCopyInto : copier := assign.
Definition BasicAuth_DeepCopy : copier := copy_new BasicAuth_DeepCopyInto.
Definition HTTPClientConfig_DeepCopyInto : copier := copy_into
  [("DialTimeout", assign); ("TLSConfig", assign); ("BasicAuth", assign)].
Definition HTTPClientConfig_DeepCopy : copier := copy_new HTTPClientConfig_DeepCopyInto.
Definition PromxyServerGroupSpec_DeepCopyInto : copier := copy_into
  [("Targets", copy_slice assign); ("HttpClient", assign)].
Definition PromxyServerGroupSpec_DeepCopy : copier := copy_new PromxyServerGroupSpec_DeepCopyInto.
Definition PromxyServerGroupStatus_DeepCopyInto : copier := assign.
Definition PromxyServerGroupStatus_DeepCopy : copier :=
  copy_new PromxyServerGroupStatus_DeepCopyInto.
Definition PromxyServerGroup_DeepCopyInto : copier := copy_into
  [("TypeMeta", assign); ("ObjectMeta", lib_copy "metav1.ObjectMeta");
   ("Spec", PromxyServerGroupSpec_DeepCopyInto); ("Status", assign)].
Definition PromxyServerGroup_DeepCopy : copier := copy_new PromxyServerGroup_DeepCopyInto.
Definition PromxyServerGroup_DeepCopyObject : copier := PromxyServerGroup_DeepCopy.
Definition PromxyServerGroupList_DeepCopyInto : copier := copy_into
  [("TypeMeta", assign); ("ListMeta", lib_copy "metav1.ListMeta");
   ("Items", copy_slice PromxyServerGroup_DeepCopyInto)].
Definition PromxyServerGroupList_DeepCopy : copier := copy_new PromxyServerGroupList_DeepCopyInto.
Definition PromxyServerGroupList_DeepCopyObject : copier := PromxyServerGroupList_DeepCopy.
Definition ClusterRef_DeepCopyInto : copier := assign.
Definition ClusterRef_DeepCopy : copier := copy_new ClusterRef_DeepCopyInto.
Definition SecretRef_DeepCopyInto : copier := assign.
Definition SecretRef_DeepCopy : copier := copy_new SecretRef_DeepCopyInto.
Definition TLSStorageConfig_DeepCopyInto : copier := assign.
Definition TLSStorageConfig_DeepCopy : copier := copy_new TLSStorageConfig_DeepCopyInto.
Definition TargetStorageNode_DeepCopyInto : copier := copy_into
  [("Secret", assign); ("TLSConfig", assign)].
Definition TargetStorageNode_DeepCopy : copier := copy_new TargetStorageNode_DeepCopyInto.
Definition VMStorageConnectionSpec_DeepCopyInto : copier := copy_into
  [("ClusterRef", assign); ("TargetStorageNode", assign)].
Definition VMStorageConnectionSpec_DeepCopy : copier :=
  copy_new VMStorageConnectionSpec_DeepCopyInto.
Definition VMStorageConnectionStatus_DeepCopyInto : copier := assign.
Definition VMStorageConnectionStatus_DeepCopy : copier :=
  copy_new VMStorageConnectionStatus_DeepCopyInto.
Definition VMStorageConnection_DeepCopyInto : copier := copy_into
  [("TypeMeta", assign); ("ObjectMeta", lib_copy "metav1.ObjectMeta"); ("Spec", assign);
   ("Status", assign)].
Definition VMStorageConnection_DeepCopy : copier := copy_new VMStorageConnection_DeepCopyInto.
Definition VMStorageConnection_DeepCopyObject : copier := VMStorageConnection_DeepCopy.
Definition VMStorageConnectionList_DeepCopyInto : copier := copy_into
  [("TypeMeta", assign); ("ListMeta", lib_copy "metav1.ListMeta");
   ("Items", copy_slice VMStorageConnection_DeepCopyInto)].
Definition VMStorageConnectionList_DeepCopy : copier :=
  copy_new VMStorageConnectionList_DeepCopyInto.
Definition VMStorageConnectionList_DeepCopyObject : copier := VMStorageConnectionList_DeepCopy.
End copies.
