(* ===== verification/DeepCopies.v ===== *)
(** Copies are deep: the copy of a value reads like the value, in memory of its
    own, whatever is written later to what the value refers to.  The exceptions
    are shown at the end: service ports, and what is below the first level of a
    configuration. *)
From S2P Require Import Prelude Strings GoHeap OtelTypes ApiTypes.

Open Scope string_scope.

(** * Every type with its copies *)

Section copies.
Context `{Library}.

Definition otel_copies : list (gotype * copier * copier) :=
  [(PodDisruptionBudgetSpec, PodDisruptionBudgetSpec_DeepCopyInto, PodDisruptionBudgetSpec_DeepCopy);
   (PortsSpec, PortsSpec_DeepCopyInto, PortsSpec_DeepCopy);
   (OpenTelemetryCommonFields, OpenTelemetryCommonFields_DeepCopyInto, OpenTelemetryCommonFields_DeepCopy);
   (StatefulSetCommonFields, StatefulSetCommonFields_DeepCopyInto, StatefulSetCommonFields_DeepCopy);
   (MetricSpec, MetricSpec_DeepCopyInto, MetricSpec_DeepCopy);
   (AutoscalerSpec, AutoscalerSpec_DeepCopyInto, AutoscalerSpec_DeepCopy);
   (AnyConfig, AnyConfig_DeepCopyInto, AnyConfig_DeepCopy);
   (TargetAllocatorPrometheusCR, TargetAllocatorPrometheusCR_DeepCopyInto, TargetAllocatorPrometheusCR_DeepCopy);
   (MetricsConfigSpec, MetricsConfigSpec_DeepCopyInto, MetricsConfigSpec_DeepCopy);
   (ObservabilitySpec, ObservabilitySpec_DeepCopyInto, ObservabilitySpec_DeepCopy);
   (TargetAllocatorEmbedded, TargetAllocatorEmbedded_DeepCopyInto, TargetAllocatorEmbedded_DeepCopy);
   (Pipeline, Pipeline_DeepCopyInto, Pipeline_DeepCopy);
   (Service, Service_DeepCopyInto, Service_DeepCopy);
   (Config, Config_DeepCopyInto, Config_DeepCopy);
   (OpenShiftRoute, OpenShiftRoute_DeepCopyInto, OpenShiftRoute_DeepCopy);
   (Ingress, Ingress_DeepCopyInto, Ingress_DeepCopy);
   (NetworkPolicy, NetworkPolicy_DeepCopyInto, NetworkPolicy_DeepCopy);
   (Probe, Probe_DeepCopyInto, Probe_DeepCopy);
   (ConfigMapsSpec, ConfigMapsSpec_DeepCopyInto, ConfigMapsSpec_DeepCopy);
   (OpenTelemetryCollectorSpec, OpenTelemetryCollectorSpec_DeepCopyInto, OpenTelemetryCollectorSpec_DeepCopy);
   (ScaleSubresourceStatus, ScaleSubresourceStatus_DeepCopyInto, ScaleSubresourceStatus_DeepCopy);
   (OpenTelemetryCollectorStatus, OpenTelemetryCollectorStatus_DeepCopyInto, OpenTelemetryCollectorStatus_DeepCopy);
   (OpenTelemetryCollector, OpenTelemetryCollector_DeepCopyInto, OpenTelemetryCollector_DeepCopy);
   (OpenTelemetryCollectorList, OpenTelemetryCollectorList_DeepCopyInto, OpenTelemetryCollectorList_DeepCopy)].
Definition api_copies : list (gotype * copier * copier) :=
  [(TLSConfig, TLSConfig_DeepCopyInto, TLSConfig_DeepCopy);
   (BasicAuth, BasicAuth_DeepCopyInto, BasicAuth_DeepCopy);
   (HTTPClientConfig, HTTPClientConfig_DeepCopyInto, HTTPClientConfig_DeepCopy);
   (PromxyServerGroupSpec, PromxyServerGroupSpec_DeepCopyInto, PromxyServerGroupSpec_DeepCopy);
   (PromxyServerGroupStatus, PromxyServerGroupStatus_DeepCopyInto, PromxyServerGroupStatus_DeepCopy);
   (PromxyServerGroup, PromxyServerGroup_DeepCopyInto, PromxyServerGroup_DeepCopy);
   (PromxyServerGroupList, PromxyServerGroupList_DeepCopyInto, PromxyServerGroupList_DeepCopy);
   (ClusterRef, ClusterRef_DeepCopyInto, ClusterRef_DeepCopy);
   (SecretRef, SecretRef_DeepCopyInto, SecretRef_DeepCopy);
   (TLSStorageConfig, TLSStorageConfig_DeepCopyInto, TLSStorageConfig_DeepCopy);
   (TargetStorageNode, TargetStorageNode_DeepCopyInto, TargetStorageNode_DeepCopy);
   (VMStorageConnectionSpec, VMStorageConnectionSpec_DeepCopyInto, VMStorageConnectionSpec_DeepCopy);
   (VMStorageConnectionStatus, VMStorageConnectionStatus_DeepCopyInto, VMStorageConnectionStatus_DeepCopy);
   (VMStorageConnection, VMStorageConnection_DeepCopyInto, VMStorageConnection_DeepCopy);
   (VMStorageConnectionList, VMStorageConnectionList_DeepCopyInto, VMStorageConnectionList_DeepCopy)].
End copies.

(** The types without references are found by computation, with what is known
    of the library. *)
Ltac is_leaf :=
  pose proof lib_flat as Hflat; pose proof port_opaque as Hport; simpl in Hflat;
  rewrite !andb_true_iff in Hflat; destruct Hflat as (? & ? & ? & ? & _); simpl;
  repeat match goal with E : leaf _ = true |- _ => rewrite E; clear E end; reflexivity.

(** A copier is taken apart along its type. *)
Ltac deep_copier :=
  first
    [ apply lib_deep
    | apply copy_new_deep; deep_copier
    | apply copy_slice_deep; deep_copier
    | apply copy_map_deep; [exact visit_perm|deep_copier]
    | apply copy_into_deep;
      [vm_compute; reflexivity
      |repeat apply Forall_cons_2; try apply Forall_nil_2;
       cbv [field_deep step_of String.eqb Ascii.eqb Bool.eqb fst snd]; first [deep_copier | is_leaf]]
    | apply assign_deep; is_leaf ].

Section deep.
Context `{LibraryLaws}.

Lemma otel_deep : Forall (λ x, deep x.1.1 x.1.2) otel_copies.
Proof. unfold otel_copies. repeat apply Forall_cons_2; [..|apply Forall_nil_2]; cbn [fst snd]; deep_copier. Qed.

Lemma api_deep : Forall (λ x, deep x.1.1 x.1.2) api_copies.
Proof. unfold api_copies. repeat apply Forall_cons_2; [..|apply Forall_nil_2]; cbn [fst snd]; deep_copier. Qed.

Lemma copies_new : Forall (λ x, x.2 = copy_new x.1.2) (otel_copies ++ api_copies).
Proof. unfold otel_copies, api_copies. cbn [app]. repeat constructor. Qed.

(** C39: Every DeepCopyInto of the two packages gives a value with the meaning
    of its source in new memory; so what DeepCopy returns keeps that meaning
    whatever is written to the memory there was before, and the source, which
    is left as it is, keeps its own whatever is written to the copy.  Service
    ports and interface values are compared as they are. *)
Theorem copies_independent t into copy : (t, into, copy) ∈ (otel_copies ++ api_copies)%list →
  deep t into ∧
  ∀ h v m v' h', read (Ptr t) h v = Some m → copy v h = (v', h') →
    h ⊆ h' ∧
    (∀ g, g ##ₘ h' ∖ h → read (Ptr t) (g ∪ (h' ∖ h)) v' = Some m) ∧
    (∀ g, read (Ptr t) (h ∪ g) v = Some m).
Proof.
  intros Hin. pose proof (Forall_app_2 _ _ _ otel_deep api_deep) as Hd. pose proof copies_new as Hn.
  rewrite Forall_forall in Hd. rewrite Forall_forall in Hn.
  specialize (Hd _ Hin). specialize (Hn _ Hin). simpl in Hd, Hn. subst copy. split; [done|].
  intros h v m v' h' Hr Hc. split; [by eapply copy_new_deep|].
  eapply deep_independent; [by apply copy_new_deep|done..].
Qed.
End deep.

(** * A copy of the pipelines of a collector *)

(** A library with one struct of references and flat types. *)
#[local] Instance demo_library : Library := {|
  lib n := if decide (n ∈ flat_types) then Struct [("Kind", Scalar)] else Struct [("Labels", MapOf Scalar)];
  lib_copy n := if decide (n ∈ flat_types) then assign
                else copy_into [("Labels", copy_map map_to_list assign)];
  ServicePort := Any;
  visit := map_to_list |}.
#[local] Instance demo_laws : LibraryLaws.
Proof.
  split; [|vm_compute; reflexivity|reflexivity|done].
  intros n. simpl. case_decide; [by apply assign_deep|].
  apply copy_into_deep; [vm_compute; reflexivity|].
  apply Forall_singleton, copy_map_deep; [done|]. by apply assign_deep.
Qed.

Definition demo_heap : heap := list_to_map
  [(1, CSlice [VStr "otlp"]);
   (2, CVal (VStruct {["Exporters" := VRef 1; "Processors" := VNil; "Receivers" := VNil]}));
   (3, CMap {["traces" := VRef 2]});
   (4, CVal (VStruct {["Extensions" := VNil; "Telemetry" := VNil; "Pipelines" := VRef 3]}))]%positive.

Notation demo_copy := (Service_DeepCopy (VRef 4) demo_heap).

(** Every cell of the source is overwritten, and the copy reads as before. *)
Lemma copies_independent_witness :
  read (Ptr Service) (((λ _, CVal VNil) <$> demo_heap) ∪ (demo_copy.2 ∖ demo_heap)) demo_copy.1 =
  Some (MPtr (MStruct [("Extensions", MNil); ("Telemetry", MNil);
    ("Pipelines", MMap {["traces" := MPtr (MStruct
       [("Exporters", MSlice [MVal (VStr "otlp")]); ("Processors", MNil); ("Receivers", MNil)])]})])).
Proof.
  destruct (copies_independent Service Service_DeepCopyInto Service_DeepCopy) as [_ Hcopy].
  - apply elem_of_app. left. unfold otel_copies. rewrite !elem_of_cons. auto 20.
  - destruct (Hcopy demo_heap (VRef 4)%positive
      (MPtr (MStruct [("Extensions", MNil); ("Telemetry", MNil);
        ("Pipelines", MMap {["traces" := MPtr (MStruct
           [("Exporters", MSlice [MVal (VStr "otlp")]); ("Processors", MNil); ("Receivers", MNil)])]})]))
      demo_copy.1 demo_copy.2) as (_ & Hfresh & _).
    + vm_compute. reflexivity.
    + apply surjective_pairing.
    + apply Hfresh. apply map_disjoint_spec. intros l c1 c2 Hl.
      rewrite lookup_difference_Some. intros [_ Hn]. by rewrite lookup_fmap, Hn in Hl.
Defined.

(** * What is shared *)

(** corev1.ServicePort has the pointer AppProtocol; the copy of a port refers to
    the same one. *)
Definition port_library : Library := {|
  lib := lib; lib_copy := lib_copy; ServicePort := Struct [("AppProtocol", Ptr Scalar)];
  visit := map_to_list |}.
Lemma port_shared : ¬ deep (@PortsSpec port_library) PortsSpec_DeepCopyInto.
Proof.
  intros Hd.
  unshelve epose proof (Hd {[1%positive := CVal (VStr "grpc")]}
    (VStruct {["HostPort" := VInt 1; "ServicePort" := VStruct {["AppProtocol" := VRef 1]}]})
    (MStruct [("HostPort", MVal (VInt 1));
              ("ServicePort", MStruct [("AppProtocol", MPtr (MVal (VStr "grpc")))])]) _ _
    _ (surjective_pairing _)) as [_ Hr]; [vm_compute; reflexivity|].
  vm_compute in Hr. discriminate.
Qed.

(** The maps inside a configuration are those of the source. *)
Lemma nested_config_shared :
  ¬ deep (Struct [("Object", MapOf (MapOf Scalar))]) AnyConfig_DeepCopyInto.
Proof.
  intros Hd.
  unshelve epose proof (Hd (list_to_map [(1, CMap {["endpoint" := VStr "a:4317"]}); (2, CMap {["otlp" := VRef 1]})]%positive)
    (VStruct {["Object" := VRef 2]})
    (MStruct [("Object", MMap {["otlp" := MMap {["endpoint" := MVal (VStr "a:4317")]}]})]) _ _
    _ (surjective_pairing _)) as [_ Hr]; [vm_compute; reflexivity|].
  vm_compute in Hr. discriminate.
Qed.
