(* ===== verification/Events.v ===== *)
(** The events and log lines of the controllers, internal/controller/record.
    Nothing that is modelled elsewhere depends on them.  The model ends at the
    call of the recorder of client-go, which puts the arguments into the note as
    fmt.Sprintf does. *)
From S2P Require Import Prelude Strings.

Open Scope string_scope.

Section record.
(** Objects with their generation, values of any type with the verbs %v and %#v
    of fmt, and the title case of golang.org/x/text. *)
Context {object value recorder : Type} (generation : object → option Z).
Context (plain gosyntax : value → string) (of_string : string → value) (of_error : gerror → value).
Context (Title : string → string).

(** The default recorder, and whether it has been set. *)
Record recorder_state := { initOnce : bool; DefaultRecorder : option recorder }.
Definition InitFromRecorder (r : recorder) (s : recorder_state) : recorder_state :=
  if initOnce s then s else {| initOnce := true; DefaultRecorder := Some r |}.

(** A call of [EventRecorder.Eventf]; [None] is the panic of a nil recorder. *)
Record recorded := {
  re_recorder : recorder; re_regarding : object; re_type : string; re_reason : string;
  re_action : string; re_note : string; re_args : list value }.

Definition record_event (eventtype : string) (s : recorder_state) (obj : object)
    (annotations : gmap string string) (reason message : string) (args : list value) : option recorded :=
  r ← DefaultRecorder s;
  Some {| re_recorder := r; re_regarding := obj; re_type := eventtype; re_reason := Title reason;
          re_action := Title reason; re_note := message; re_args := args |}.
Definition Eventf := record_event "Normal".
Definition Warnf := record_event "Warning".
Definition Event s obj annotations reason message := Eventf s obj annotations reason message [].
Definition Warn s obj annotations reason message := Warnf s obj annotations reason message [].

Definition GetEventsAnnotations (obj : object) : gmap string string :=
  {["generation" := match generation obj with
                    | Some g => if bool_decide (g = 0%Z) then "nil" else pretty g
                    | None => "nil"
                    end]}.

(** Keys and values alternate. *)
Fixpoint event_parts (keysAndValues : list value) : list string :=
  match keysAndValues with
  | [] => []
  | [k] => [", " +:+ plain k +:+ "="]
  | k :: v :: r => (", " +:+ plain k +:+ "=") :: gosyntax v :: event_parts r
  end.

(** A log line: of an error or not. *)
Inductive log_line :=
  | LogInfo (message : string) (keysAndValues : list value)
  | LogError (err : gerror) (message : string) (keysAndValues : list value).

Definition LogEvent (s : recorder_state) (reason message : string) (obj : object)
    (err : option gerror) (keysAndValues : list value) : log_line * option recorded :=
  match err with
  | None =>
      (LogInfo message keysAndValues,
       Event s obj (GetEventsAnnotations obj) reason (message +:+ join "" (event_parts keysAndValues)))
  | Some e =>
      (LogError e message keysAndValues,
       Warn s obj (GetEventsAnnotations obj) reason
         (message +:+ join "" (event_parts (of_string "err" :: of_error e :: keysAndValues))))
  end.

(** * What is recorded *)

(** The first recorder stays. *)
Lemma InitFromRecorder_once r r' s :
  InitFromRecorder r' (InitFromRecorder r s) = InitFromRecorder r s.
Proof. unfold InitFromRecorder. by destruct (initOnce s) eqn:E; [rewrite E|]. Qed.

(** An event is a warning exactly when there is an error; it is recorded
    unless there is no recorder; and its note is a format without arguments. *)
Lemma LogEvent_recorded s reason message obj err kvs :
  match DefaultRecorder s, (LogEvent s reason message obj err kvs).2 with
  | Some r, Some e =>
      re_recorder e = r ∧ re_regarding e = obj ∧ re_args e = [] ∧
      (re_type e = "Warning" ↔ is_Some err) ∧ ∃ rest, re_note e = message +:+ rest
  | None, None => True
  | _, _ => False
  end.
Proof.
  destruct s as [o [r|]], err as [e|]; simpl; [| |done|done];
    (split; [done|]; split; [done|]; split; [done|]; split; [|by eexists]).
  - split; [by eexists|done].
  - by split; [|intros []].
Qed.
End record.
